(* ===== verification/_CoqProject ===== *)
-Q . S2P
Prelude.v
VersionControl.v
MultiVersionMap.v
TxnObject.v
SpinLock.v
Types.v
Store.v
Blob.v
Converters.v
RecordModel.v
Parser.v
TxnData.v
Graph.v
GraphSpec.v
GraphQuery.v
GraphSteps.v
GraphSnapshot.v
Schema.v
Validate.v
BaseTxn.v
CommitSpec.v
Lifecycle.v
TxnSpec.v
Handle.v
Cycle.v
Compare.v
Generic.v
Index.v
IndexSpec.v
Commands.v
CommandSpec.v
EdgeSpec.v
RecordSpec.v
ClassCommands.v
Recovery.v
SchemaRecovery.v
ClassSpec.v
RecoverySpec.v
Session.v
Algorithm.v
AlgorithmSpec.v
GraphSearch.v
OutEdges.v
DfsSpec.v
Dijkstra.v
DijkstraSpec.v
Cursor.v
Query.v
QuerySpec.v
SqlLexer.v
SqlSpec.v
Sql.v
SqlContext.v
SqlContextSpec.v
Grammar.v
GrammarSpec.v
GrammarUnique.v
GrammarCommands.v
Samples.v
CommandSamples.v
RecoverySamples.v
Witnesses.v
CommandWitnesses.v
IndexWitnesses.v
QueryWitnesses.v
HandleWitnesses.v
SqlWitnesses.v
GrammarWitnesses.v
SessionWitnesses.v
