(* ===== verification/Prelude.v ===== *)
(** * NogDB: a verification of the database library

    NogDB is a graph database library in C++: records of classes with
    properties, edges between vertices, secondary indexes, transactions with
    snapshot isolation over an in-memory relation graph, and LMDB as the store
    on disk.  This development models the C++ code of src/src and
    src/include/nogdb and proves what its parts promise.

    ** The parts and the files

    Shared notions.  [Prelude] (this file): outcomes of C++ code ([Ok], [Throw]
    of the library's error codes, [UB] for undefined behaviour), loops that may
    throw, ordered listings of maps, machine integers as wrapped [Z], bytes,
    and the tactics and hints of the library.  [Types]: the enumerations,
    descriptors and constants of nogdb_types.h and constant.hpp.

    Versions and concurrency.  [VersionControl] (version_control.hpp): one
    multi-version cell.  [MultiVersionMap] (multiversion_hashmap.hpp): one- and
    two-level maps of cells.  [TxnObject] (txn_object.hpp, concurrent.hpp): the
    state of a versioned object, the registry of active readers, the queues of
    deleted objects.  [SpinLock] (spinlock.hpp): the two locks as step
    relations, and their guards.

    Data.  [Blob] (datatype.cpp, bytes.cpp, the converters of nogdb_types.h),
    [Converters] (the converters of collections there), [RecordModel]
    (record.cpp), [Parser] (parser.cpp): buffers, values, records and their
    stored form.  [Store] (lmdb_engine.hpp): the interface
    to LMDB.

    The in-memory database.  [TxnData] (the members of BaseTxn), [Graph]
    (graph.hpp, mem_vertex.cpp, mem_edge.cpp), [Schema] (schema.hpp,
    schema.cpp), [Validate] (validate.cpp), [BaseTxn] (base_txn.cpp).  Shared
    objects live on heaps named by locations, weak pointers are locations that
    can be locked while an owner exists, so aliasing between the graph, the
    schema and a transaction is as in the code.

    Queries.  [Compare] (nogdb_compare.h, condition.cpp, multi_condition.cpp,
    compare.cpp), [Generic] (generic.cpp), [Algorithm] and [Dijkstra]
    (algorithm.hpp, algorithm.cpp, path_filter.cpp), [Cursor] (cursor.cpp),
    [Index] (index.hpp, index.cpp), [Query] (class_filter.cpp, traverse.cpp,
    compare_cursor.cpp, the queries of vertex.cpp and edge.cpp, the conditions
    on the edges of a vertex in compare.cpp, Db::getSchema).

    Commands.  [Commands] (vertex.cpp, edge.cpp, Db::getRecord), 
    [ClassCommands] (class.cpp, property.cpp), [Recovery]
    (Context::initDatabase): state transformers over the schema, the graph, the
    transaction and the data store together.  [Handle] (txn.cpp): the public
    [Txn], which shares the ownership of a transaction.

    SQL.  [SqlLexer] (the tokens, the literals and [SQL::execute] of sql.cpp),
    [Sql] (the values, functions and result sets of sql.cpp and the projections
    and groups of sql_context.cpp), [SqlContext] (the statements of
    sql_context.cpp, which run the commands and queries above), [Grammar]
    (sql_parser.y): a nonterminal is the function from a sequence of tokens to
    the values it derives, one for each derivation.

    Specifications and proofs about a model file are in [<Model>Spec] files;
    [Samples], [CommandSamples] and [RecoverySamples] hold concrete states,
    and the files [Witnesses], [CommandWitnesses], [IndexWitnesses],
    [QueryWitnesses], [HandleWitnesses], [SqlWitnesses],
    [GrammarWitnesses] and [SessionWitnesses] apply the theorems to them.

    ** How the parts correspond to the code

    A method becomes a function of the same name on the state it touches; a
    constructor a [mk...] or [new...] function; a C++ exception [Throw], and
    what was written before an exception stays written ([Cmd] in [Commands]
    returns the state also when it throws).  A [std::map] is a [gmap] listed in
    key order where the code iterates; an [unordered_map] is a [gmap] whose
    listing order is not used by any theorem; a [std::set] of pointers is
    ordered by an arbitrary order of addresses, an argument.  Identifiers keep
    their widths: 16-bit class and property ids, 32-bit positions and index
    ids, 64-bit transaction ids, with the wrap-around or the limit the code
    has.

    ** What the theorems show

    Transactions.  [Cycle.transaction_cycle]: from any quiescent context a
    write transaction over any sequence of graph operations commits exactly the
    map of edges it produced; it composes [CommitSpec] (publication),
    [Lifecycle] (the hand-over to the next writer) and [GraphSnapshot]
    (readers do not see what a writer creates or moves, nor its deletions,
    except that the deletion of an object newer than the snapshot reveals it).
    [TxnObject]: the three atomic actions that start a reader are steps of their
    own ([race_step]); in every interleaving the registry holds the registered
    readers and names the one with the least id, whose snapshot is the oldest in
    the runs where no commit falls between the actions of one start
    ([calm_step]).  [TxnSpec]: in those runs garbage collection removes nothing
    a reader still sees.  [SpinLock]: the locks exclude, and cannot deadlock.
    [Handle]: the use counts of the shared pointers, and what the destructor, a
    failing commit, copies and moves of a handle do to its transaction.

    The graph.  [GraphSpec]: [repr g t E] relates the objects, weak pointers
    and adjacency maps to a finite map [E] of edges; each operation implements
    its counterpart on [E].  [GraphQuery]: queries read [E].

    Commands.  [EdgeSpec]: the relation table and the graph describe the same
    edges after every command, also one that throws, but for two: a destroy that
    throws may have lost the row of an edge that memory keeps, and the creation
    of a loop at a vertex that memory does not have leaves its target dangling
    in memory.  [RecordSpec]: a record
    created or updated is read back.  [ClassSpec]: every branch of creating a
    class.  [RecoverySpec], [SchemaRecovery]: opening a database rebuilds
    exactly the stored catalog and edges, when each stored loop comes after
    another row of its vertex ([reopenable]; [reopened_loop_dangles] is what
    happens otherwise).  [Session.session_durable] puts these together: after
    any sequence of record commands other than the two above and a commit, the
    context in memory and the database opened again hold the same edges.  [IndexSpec]: an index that has
    one entry per record answers every condition with exactly the records
    that satisfy it, and adding and removing entries keep it so.

    Searches.  [GraphSearch], [DfsSpec], [DijkstraSpec]: breadth-first search
    returns the distances, depth-first search walks, and the two shortest-path
    functions minimal paths, of the map of edges.  [QuerySpec]: the edges of a
    vertex selected by a condition are those of the map whose records satisfy
    it, and the cursors list the records of the result sets.

    SQL.  [SqlSpec]: the lexer stays inside the text, its tokens cover it, and
    a literal is read back as the value it was written from.
    [SqlContextSpec]: the rows of a select statement are those of the result
    between its bounds, grouping changes nothing or is undefined, errors are
    results, and which edges a deletion takes.
    [GrammarSpec], [GrammarUnique], [GrammarCommands]: the grammar of conditions
    is unambiguous and means what its operators say, and the text of a command
    is read back as the command.

    Data and conditions.  [Parser], [Blob], [Converters]: what is written is
    read back, collections included (up to the 65535 elements that the counter of
    the writer can count), and no read of a record leaves the buffer.  [Compare]: selection is filtering by the
    meaning of conditions.  [Schema], [Validate], [Generic]: properties are
    resolved by their nearest definition along the chain of superclasses.

    ** Fuel and bounds

    Recursion that is not structural carries fuel, and a theorem says how much
    is enough: walks up the classes take one unit per class object;
    the grammar takes one unit per token ([grammar_fuel]); searches take one
    unit per vertex or per edge of the graph ([1 + size E], or
    [1 + 2 * size E] pushes); reading a record takes one unit per byte of the
    buffer.  The theorems state that the functions return, and what.  Id
    limits (65534 classes, 65535 properties, 2^32 - 1 positions) appear as
    hypotheses or as error branches where the code checks them.

    ** What is assumed

    LMDB is a parameter with the laws of class [LmdbLaws]: databases are
    sorted lists of entries, a put of a key of legal size succeeds (space does
    not run out), other databases do not change; [MapStore] shows the laws can
    be met.  [std::regex] and [std::stod] are arguments.  The value of the bytes of a record
    that the code copies from uninitialised memory is the argument [fill].  The
    atomics of the spin lock and of the registry are sequentially consistent.
    [Parser::parseRawData] puts each value on the stack: [parseRawDataOn] has
    the room of the stack as an argument, and is undefined where a value does
    not fit; the commands and queries use it with enough room.  A record store read
    by queries is the content of the class tables.

    ** Not modelled

    The tables of the SQL parser, which lemon++ generates from sql_parser.y: the
    parser is an argument of [SqlLexer.execute], and [Grammar] is what its rules
    derive; which of two errors in one text it meets first is left open.  Opening files, locking the directory, mapping
    sizes and flags of LMDB environments and handles: I/O and third-party
    state.  Assignments between handles of different contexts, which assign the
    contexts themselves, and between cursors of different transactions.  The
    vendored libraries under src/lib. *)

From stdpp Require Import base gmap sets list strings sorting.
From Stdlib Require Import ZArith Lia.

(** ** Outcomes of C++ code

    [Ok] a normal return, [Throw] a C++ exception carrying the library's error
    code (or the Standard Library exception), [UB] undefined behaviour (reading
    past a buffer, dereferencing an end iterator). *)

Inductive Error :=
| NOGDB_CTX_INTERNAL_ERR
| NOGDB_CTX_UNKNOWN_ERR
| NOGDB_CTX_INVALID_CLASSNAME
| NOGDB_CTX_INVALID_PROPERTYNAME
| NOGDB_CTX_INVALID_CLASSTYPE
| NOGDB_CTX_INVALID_PROPTYPE
| NOGDB_CTX_INVALID_COMPARATOR
| NOGDB_CTX_CONFLICT_PROPTYPE
| NOGDB_CTX_DUPLICATE_CLASS
| NOGDB_CTX_DUPLICATE_PROPERTY
| NOGDB_CTX_OVERRIDE_PROPERTY
| NOGDB_CTX_NOEXST_CLASS
| NOGDB_CTX_NOEXST_PROPERTY
| NOGDB_CTX_NOEXST_RECORD
| NOGDB_CTX_MISMATCH_CLASSTYPE
| NOGDB_CTX_LIMIT_DBSCHEMA
| NOGDB_CTX_IN_USED_PROPERTY
| NOGDB_GRAPH_NOEXST_VERTEX
| NOGDB_GRAPH_NOEXST_EDGE
| NOGDB_GRAPH_NOEXST_SRC
| NOGDB_GRAPH_NOEXST_DST
| NOGDB_GRAPH_DUP_EDGE
| NOGDB_GRAPH_UNKNOWN_ERR
| NOGDB_TXN_INVALID_MODE
| NOGDB_TXN_COMPLETED
| NOGDB_TXN_VERSION_MAXREACH
| STD_OUT_OF_RANGE
| NOGDB_CTX_UNIQUE_CONSTRAINT
| NOGDB_CTX_INVALID_PROPTYPE_INDEX
| NOGDB_CTX_DUPLICATE_INDEX
| NOGDB_CTX_NOEXST_INDEX
| NOGDB_CTX_INVALID_INDEX_CONSTRAINT
| MDB_KEYEXIST
| MDB_BAD_VALSIZE
| NOGDB_SQL_UNRECOGNIZED_TOKEN
| NOGDB_SQL_SYNTAX_ERROR
| NOGDB_SQL_INVALID_ALTER_ATTR
| NOGDB_SQL_INVALID_FUNCTION_NAME
| NOGDB_SQL_INVALID_FUNCTION_ARGS
| NOGDB_SQL_INVALID_PROJECTION
| NOGDB_SQL_INVALID_TRAVERSE_DIRECTION
| NOGDB_SQL_INVALID_TRAVERSE_MIN_DEPTH
| NOGDB_SQL_INVALID_TRAVERSE_MAX_DEPTH
| NOGDB_SQL_INVALID_TRAVERSE_STRATEGY
| NOGDB_SQL_INVALID_PROJECTION_METHOD
| NOGDB_SQL_NOT_IMPLEMENTED.

#[export] Instance Error_eq_dec : EqDecision Error.
Proof. solve_decision. Defined.

Inductive Outcome (A : Type) :=
| Ok (a : A)
| Throw (e : Error)
| UB.
Arguments Ok {A} a.
Arguments Throw {A} e.
Arguments UB {A}.

Definition obind {A B} (m : Outcome A) (k : A -> Outcome B) : Outcome B :=
  match m with
  | Ok a => k a
  | Throw e => Throw e
  | UB => UB
  end.

Definition ofmap {A B} (f : A -> B) (m : Outcome A) : Outcome B :=
  obind m (fun a => Ok (f a)).

Declare Scope nog_scope.
Delimit Scope nog_scope with nog.
Notation "'let*' x ':=' m 'in' k" := (obind m (fun x => k))
  (at level 10, x pattern, m at level 100, k at level 200) : nog_scope.
Notation "m ';;;' k" := (obind m (fun _ => k))
  (at level 199, right associativity) : nog_scope.
Open Scope nog_scope.

(** [require] of src/src/utils.cpp. *)
Definition require (cmp : bool) : Outcome unit :=
  if cmp then Ok tt else Throw NOGDB_CTX_INTERNAL_ERR.

(** [try { m } catch (const Error &err) { if (err.code() == e) h else throw }]. *)
Definition catch {A} (e : Error) (m h : Outcome A) : Outcome A :=
  match m with
  | Throw e' => if bool_decide (e' = e) then h else m
  | _ => m
  end.

(** A loop [for (x : l) s = f(s, x)] whose body may throw. *)
Fixpoint ofold {A S} (f : S -> A -> Outcome S) (l : list A) (s : S) : Outcome S :=
  match l with
  | [] => Ok s
  | x :: l' => let* s' := f s x in ofold f l' s'
  end.

Lemma ofold_app {A S} (f : S -> A -> Outcome S) l1 l2 s :
  ofold f (l1 ++ l2) s = (let* s' := ofold f l1 s in ofold f l2 s').
Proof.
  revert s; induction l1 as [|x l1 IH]; intros s; [done|]; simpl.
  destruct (f s x); simpl; auto.
Qed.

(** A loop all of whose steps return returns. *)
Lemma ofold_total {A S} (f : S -> A -> Outcome S) (l : list A) : forall s,
  (forall s x, x ∈ l -> exists s', f s x = Ok s') -> exists s', ofold f l s = Ok s'.
Proof.
  induction l as [|x l IH]; intros s Hf; simpl; [by eexists|].
  destruct (Hf s x) as [s1 ->]; [by left|]. apply IH. intros s2 y Hy. apply Hf. by right.
Qed.

(** A throwing loop keeps an invariant that its body keeps. *)
Lemma ofold_inv {A S} (f : S -> A -> Outcome S) (P : S -> Prop) l s s' :
  (forall s x s1, P s -> f s x = Ok s1 -> P s1) ->
  P s -> ofold f l s = Ok s' -> P s'.
Proof.
  intros Hf; revert s; induction l as [|x l IH]; simpl; intros s Hs Heq.
  - by simplify_eq.
  - destruct (f s x) eqn:E; simplify_eq/=; eauto.
Qed.

(** A loop over sorted rows, by an invariant on the rows read so far. *)
Lemma ofold_rows {A S} (R : A -> A -> Prop) (Q : A -> Prop) (Inv : list A -> S -> Prop) (f : S -> A -> Outcome S) l :
  forall rows s,
  (forall rows row s, Inv rows s -> Q row -> (forall r, r ∈ rows -> R r row) ->
     exists s', f s row = Ok s' /\ Inv (rows ++ [row]) s') ->
  Inv rows s -> (forall row, row ∈ l -> Q row) -> StronglySorted R (rows ++ l) ->
  exists s', ofold f l s = Ok s' /\ Inv (rows ++ l) s'.
Proof.
  induction l as [|row l IH]; intros rows s Hf Hs Hl Hso; [exists s; by rewrite app_nil_r|].
  destruct (Hf rows row s) as (s1 & E & Hs1); [done|apply Hl; by left| |].
  { intros r Hr. eapply StronglySorted_app_1_elem_of; [exact Hso|done|by left]. }
  cbn [ofold]. rewrite E. cbn [obind].
  replace (rows ++ row :: l) with ((rows ++ [row]) ++ l) in * by (by rewrite <- app_assoc).
  apply IH; try done. intros row' ?. apply Hl. by right.
Qed.

Lemma StronglySorted_omap {A B} (R : A -> A -> Prop) (R' : B -> B -> Prop) (f : A -> option B) l :
  (forall a b x y, R a b -> f a = Some x -> f b = Some y -> R' x y) -> StronglySorted R l -> StronglySorted R' (omap f l).
Proof.
  intros Hf. induction 1 as [|a l Hl IH Ha]; [constructor|]. cbn [omap list_omap].
  destruct (f a) as [x|] eqn:E; [|done]. constructor; [done|]. apply Forall_forall. intros y (b & Hb & Hy)%list_elem_of_omap.
  rewrite Forall_forall in Ha. eauto.
Qed.

Lemma fold_left_inv {A S} (f : S -> A -> S) (P : S -> Prop) l s :
  (forall s x, P s -> P (f s x)) -> P s -> P (fold_left f l s).
Proof. intros Hf; revert s; induction l; simpl; auto. Qed.

(** ** C++ default values: [T{}] *)
Class Default (T : Type) := dflt : T.
#[export] Instance Default_Z : Default Z := 0%Z.
#[export] Instance Default_option {A} : Default (option A) := None.
#[export] Instance Default_list {A} : Default (list A) := [].
#[export] Instance Default_string : Default string := "".
#[export] Instance Default_gmap `{Countable K} {A} : Default (gmap K A) := (∅ : gmap K A).

(** [std::map::emplace] keeps an existing binding. *)
Definition emplace `{Countable K} {A} (k : K) (x : A) (m : gmap K A) : gmap K A :=
  match m !! k with Some _ => m | None => <[k := x]> m end.

Lemma lookup_emplace `{Countable K} {A} (k k' : K) (x : A) (m : gmap K A) :
  emplace k x m !! k' =
    match m !! k' with Some y => Some y | None => if decide (k = k') then Some x else None end.
Proof.
  unfold emplace. destruct (m !! k) eqn:E.
  - destruct (m !! k') eqn:E'; [done|]. case_decide; [subst; congruence|done].
  - rewrite lookup_insert. case_decide; [subst; by rewrite E|by destruct (m !! k')].
Qed.

(** ** Identifiers (include/nogdb/nogdb_types.h)

    All of them are unsigned machine integers, kept as [Z]; the code compares
    and copies them and only ever increments the counters, whose wrap-around
    is written out where it is taken. *)
Abbreviation ClassId := Z.
Abbreviation PropertyId := Z.
Abbreviation PositionId := Z.
Abbreviation TxnId := Z.
Abbreviation IndexId := Z.
Abbreviation RecordId := (Z * Z)%type.

Definition UINT16_MAX : Z := 65535.
Definition UINT32_MAX : Z := 4294967295.
Definition UINT64_MAX : Z := 18446744073709551615.
Definition u16 (x : Z) : Z := (x mod 65536)%Z.
Definition u32 (x : Z) : Z := (x mod 4294967296)%Z.
Definition u64 (x : Z) : Z := (x mod 18446744073709551616)%Z.

(** ** Little-endian encoding of fixed-width integers

    A byte is an integer of [0, 256); an object of [n] bytes copied with
    [memcpy] on the little-endian targets of the library is [le_bytes n]. *)
Abbreviation byte := Z.

(** [lia] with division and remainder by constants. *)
Ltac dlia := Z.to_euclidean_division_equations; lia.

Fixpoint le_bytes (n : nat) (z : Z) : list byte :=
  match n with
  | O => []
  | S n' => (z mod 256)%Z :: le_bytes n' (z / 256)%Z
  end.

Fixpoint le_value (l : list byte) : Z :=
  match l with
  | [] => 0
  | b :: l' => (b + 256 * le_value l')%Z
  end.

Definition byte_ok (b : byte) : Prop := (0 <= b < 256)%Z.

Lemma length_le_bytes n z : length (le_bytes n z) = n.
Proof. revert z; induction n; simpl; auto. Qed.

Lemma le_bytes_ok n z : Forall byte_ok (le_bytes n z).
Proof.
  revert z; induction n; simpl; intros z; constructor; auto.
  unfold byte_ok. dlia.
Qed.

Lemma le_value_le_bytes n z :
  le_value (le_bytes n z) = (z mod 256 ^ Z.of_nat n)%Z.
Proof.
  revert z; induction n as [|n IH]; intros z.
  - simpl. by rewrite Z.mod_1_r.
  - cbn [le_bytes le_value]. rewrite IH, Nat2Z.inj_succ, Z.pow_succ_r by lia.
    rewrite Z.rem_mul_r by lia. lia.
Qed.

Lemma le_value_range l :
  Forall byte_ok l -> (0 <= le_value l < 256 ^ Z.of_nat (length l))%Z.
Proof.
  induction 1 as [|b l Hb Hl IH]; cbn [le_value length]; [lia|].
  unfold byte_ok in Hb.
  rewrite Nat2Z.inj_succ, Z.pow_succ_r by lia. nia.
Qed.

Lemma le_bytes_le_value l :
  Forall byte_ok l -> le_bytes (length l) (le_value l) = l.
Proof.
  induction 1 as [|b l Hb Hl IH]; [done|]. unfold byte_ok in Hb.
  cbn [le_bytes le_value length]. f_equal; [dlia|].
  transitivity (le_bytes (length l) (le_value l)); [f_equal; dlia|done].
Qed.

(** Two's complement reading of a [w]-bit value. *)
Definition sint (w : Z) (z : Z) : Z :=
  let u := (z mod 2 ^ w)%Z in
  if (u <? 2 ^ (w - 1))%Z then u else (u - 2 ^ w)%Z.

Lemma sint_id w z :
  (0 < w)%Z -> (- 2 ^ (w - 1) <= z < 2 ^ (w - 1))%Z -> sint w z = z.
Proof.
  intros Hw Hz. unfold sint.
  assert (2 ^ w = 2 * 2 ^ (w - 1))%Z as E.
  { rewrite <- Z.pow_succ_r by lia. f_equal; lia. }
  destruct (Z.ltb_spec (z mod 2 ^ w) (2 ^ (w - 1))) as [Hlt|Hge].
  - destruct (decide (0 <= z)%Z); [by rewrite Z.mod_small by lia|].
    assert (z mod 2 ^ w = z + 2 ^ w)%Z as Hm; [|lia].
    symmetry; apply (Z.mod_unique_pos _ _ (-1)); lia.
  - destruct (decide (0 <= z)%Z).
    + rewrite Z.mod_small in Hge by lia. lia.
    + assert (z mod 2 ^ w = z + 2 ^ w)%Z as Hm; [|lia].
      symmetry; apply (Z.mod_unique_pos _ _ (-1)); lia.
Qed.

(** ** Automation shared by the components *)
Create HintDb nog.
#[export] Hint Resolve length_le_bytes le_bytes_ok : nog.

(** Case analysis on every [if]/[match] scrutinee of a hypothesis that equates
    an [Outcome]. *)
Ltac outcome_simpl :=
  repeat match goal with
  | H : obind ?m _ = Ok _ |- _ =>
      let E := fresh "E" in destruct m eqn:E; simpl in H; [|discriminate H|discriminate H]
  | H : Ok _ = Ok _ |- _ => injection H as H; try subst
  | H : Throw _ = Ok _ |- _ => discriminate H
  | H : UB = Ok _ |- _ => discriminate H
  end.

(** ** Ordered traversal of C++ ordered containers *)
Definition z_sort (l : list Z) : list Z := merge_sort Z.le l.

Lemma z_sort_perm l : Permutation (z_sort l) l.
Proof. apply merge_sort_Permutation. Qed.

Lemma z_sort_sorted l : Sorted Z.le (z_sort l).
Proof. apply (Sorted_merge_sort Z.le). Qed.

Lemma elem_of_z_sort x l : x ∈ z_sort l <-> x ∈ l.
Proof. by rewrite (z_sort_perm l). Qed.

(** ** Filters that keep everything or nothing *)
Lemma filter_keep_all {A} (P : A -> Prop) `{forall x, Decision (P x)} (l : list A) :
  Forall P l -> filter P l = l.
Proof.
  induction 1 as [|x l Hx Hl IH]; [done|].
  rewrite filter_cons, decide_True by done. by rewrite IH.
Qed.

Lemma filter_keep_none {A} (P : A -> Prop) `{forall x, Decision (P x)} (l : list A) :
  Forall (fun x => ~ P x) l -> filter P l = [].
Proof.
  induction 1 as [|x l Hx Hl IH]; [done|].
  by rewrite filter_cons, decide_False by done.
Qed.
