(* ===== verification/VersionControl.v ===== *)
(** * Version control of one multi-version cell

    Model of the template class [VersionControl<T>] of
    src/src/version_control.hpp: the list of committed ("stable") versions of a
    cell, oldest first, and the single uncommitted ("unstable") version of the
    running writer.  The class's spin lock is not part of this file: every
    method is one critical section and is modelled as one atomic function
    (the lock itself is the subject of file [SpinLock]). *)

From stdpp Require Import base sets list sorting.
From Stdlib Require Import ZArith Lia.
From S2P Require Import Prelude.

Inductive Status := INACTIVE | ACTIVE.
Inductive Visibility := INVISIBLE | VISIBLE.
#[export] Instance Status_eq_dec : EqDecision Status.
Proof. solve_decision. Defined.
#[export] Instance Visibility_eq_dec : EqDecision Visibility.
Proof. solve_decision. Defined.

Record ControlObject (T : Type) := mkControlObject {
  versionId : TxnId;
  status : Status;
  object : T;
}.
Arguments mkControlObject {T} _ _ _.
Arguments versionId {T} _.
Arguments status {T} _.
Arguments object {T} _.

(** [ControlObject{object_}]: version 0, active. *)
Definition newControlObject {T} (x : T) : ControlObject T :=
  mkControlObject 0%Z ACTIVE x.

Record VersionControl (T : Type) := mkVersionControl {
  stableVersions_ : list (ControlObject T);
  unstableVersion_ : ControlObject T * Visibility;
}.
Arguments mkVersionControl {T} _ _.
Arguments stableVersions_ {T} _.
Arguments unstableVersion_ {T} _.

Definition MAX_VERSION_CONTROL_SIZE : nat := 128.

Section operations.
  Context {T : Type} `{Default T}.
  Implicit Types (vc : VersionControl T) (c : ControlObject T).

Definition emptyVersionControl : VersionControl T :=
  mkVersionControl [] (newControlObject dflt, INVISIBLE).

Definition addLatestVersion (x : T) vc : VersionControl T :=
  mkVersionControl (stableVersions_ vc) (newControlObject x, VISIBLE).

Definition deleteLatestVersion vc : VersionControl T :=
  let u :=
    match (unstableVersion_ vc).2 with
    | INVISIBLE =>
        match last (stableVersions_ vc) with
        | Some c => (newControlObject (object c), VISIBLE)
        | None => unstableVersion_ vc
        end
    | VISIBLE => unstableVersion_ vc
    end in
  mkVersionControl (stableVersions_ vc)
    (mkControlObject (versionId u.1) INACTIVE (object u.1), u.2).

Definition getLatestVersion vc : T * bool :=
  match (unstableVersion_ vc).2 with
  | VISIBLE =>
      match status (unstableVersion_ vc).1 with
      | ACTIVE => (object (unstableVersion_ vc).1, true)
      | INACTIVE => (dflt, false)
      end
  | INVISIBLE =>
      match last (stableVersions_ vc) with
      | Some c =>
          match status c with
          | ACTIVE => (object c, true)
          | INACTIVE => (dflt, false)
          end
      | None => (dflt, false)
      end
  end.

Definition getUnstableVersion vc : T * bool :=
  match (unstableVersion_ vc).2, status (unstableVersion_ vc).1 with
  | VISIBLE, ACTIVE => (object (unstableVersion_ vc).1, true)
  | _, _ => (dflt, false)
  end.

(** [getStableVersion()]: note that it returns the object of an inactive last
    version too. *)
Definition getStableVersion vc : T * bool :=
  match last (stableVersions_ vc) with
  | Some c => (object c, bool_decide (status c = ACTIVE))
  | None => (dflt, false)
  end.

(** [getStableVersion(currentVersionId)]: scan from the newest version for the
    first one that is not newer than the reader's snapshot. *)
Fixpoint scanStable (l : list (ControlObject T)) (v : TxnId) : T * bool :=
  match l with
  | [] => (dflt, false)
  | c :: l' =>
      if (versionId c <=? v)%Z then
        match status c with
        | ACTIVE => (object c, true)
        | INACTIVE => (dflt, false)
        end
      else scanStable l' v
  end.

Definition getStableVersionAt (currentVersionId : TxnId) vc : T * bool :=
  scanStable (reverse (stableVersions_ vc)) currentVersionId.

(** The erasing loop of [clearStableVersion]: it stops before the last
    element and at the first version that is not older than the base. *)
Fixpoint eraseOld (base : TxnId) (l : list (ControlObject T)) : list (ControlObject T) :=
  match l with
  | c :: ((_ :: _) as l') => if (versionId c <? base)%Z then eraseOld base l' else l
  | _ => l
  end.

Definition dropDeadSingleton (base : TxnId) (l : list (ControlObject T)) : list (ControlObject T) :=
  match l with
  | [c] => if (versionId c <? base)%Z && bool_decide (status c = INACTIVE) then [] else l
  | _ => l
  end.

Definition unstableCount vc : nat :=
  match (unstableVersion_ vc).2 with VISIBLE => 1 | INVISIBLE => 0 end.

Definition clearStableVersion (base : TxnId) vc : VersionControl T * nat :=
  let l := dropDeadSingleton base (eraseOld base (stableVersions_ vc)) in
  let vc' := mkVersionControl l (unstableVersion_ vc) in
  (vc', length l + unstableCount vc).

(** "aka. rollback" *)
Definition disableUnstableVersion vc : VersionControl T :=
  mkVersionControl (stableVersions_ vc) ((unstableVersion_ vc).1, INVISIBLE).

Definition clearUnstableVersion vc : VersionControl T * nat :=
  let vc' := disableUnstableVersion vc in (vc', length (stableVersions_ vc')).

Definition checkStableVersionSize vc : bool :=
  bool_decide (length (stableVersions_ vc) <= MAX_VERSION_CONTROL_SIZE).

(** "aka. commit" *)
Definition upgradeStableVersion (w : TxnId) vc : VersionControl T :=
  match (unstableVersion_ vc).2 with
  | VISIBLE =>
      let u := (unstableVersion_ vc).1 in
      let u' := mkControlObject w (status u) (object u) in
      mkVersionControl (stableVersions_ vc ++ [u']) (u', INVISIBLE)
  | INVISIBLE => vc
  end.

(** [BaseTxn::getCurrentVersion] chooses between the snapshot and the latest
    version; see file [BaseTxn]. *)

(** ** Invariant: the committed versions are strictly increasing *)
Definition wf_vc vc : Prop :=
  StronglySorted Z.lt (versionId <$> stableVersions_ vc).

(** Every committed version is older than [w] (the id the running writer will
    commit under). *)
Definition older_than (w : TxnId) vc : Prop :=
  Forall (fun c => (versionId c < w)%Z) (stableVersions_ vc).

(** ** Abstract specification of a snapshot read

    [reads_at l v c]: [c] is the newest of the versions [l] that is not newer
    than the snapshot [v]. *)
Definition reads_at (l : list (ControlObject T)) (v : TxnId) c : Prop :=
  c ∈ l /\ (versionId c <= v)%Z /\
  forall c', c' ∈ l -> (versionId c' <= v)%Z -> (versionId c' <= versionId c)%Z.

Definition value_of c : T * bool :=
  match status c with ACTIVE => (object c, true) | INACTIVE => (dflt, false) end.
End operations.

(** ** Lemmas *)
Section lemmas.
  Context {T : Type} `{Default T}.
  Implicit Types (vc : VersionControl T) (c : ControlObject T) (l : list (ControlObject T)).

Lemma scanStable_app l1 l2 v :
  scanStable (l1 ++ l2) v =
    if existsb (fun c => (versionId c <=? v)%Z) l1 then scanStable l1 v else scanStable l2 v.
Proof.
  induction l1 as [|c l1 IH]; simpl; [done|].
  by destruct (versionId c <=? v)%Z; simpl.
Qed.

Lemma scanStable_none l v :
  Forall (fun c => (v < versionId c)%Z) l -> scanStable l v = (dflt, false).
Proof.
  induction 1 as [|c l Hc Hl IH]; simpl; [done|].
  by destruct (Z.leb_spec (versionId c) v); [lia|].
Qed.

Lemma getStableVersionAt_snoc l c u v :
  getStableVersionAt v (mkVersionControl (l ++ [c]) u) =
    if (versionId c <=? v)%Z then value_of c
    else getStableVersionAt v (mkVersionControl l u).
Proof. unfold getStableVersionAt; simpl. by rewrite reverse_snoc. Qed.

Lemma getStableVersionAt_stable v vc vc' :
  stableVersions_ vc = stableVersions_ vc' ->
  getStableVersionAt v vc = getStableVersionAt v vc'.
Proof. unfold getStableVersionAt. by intros ->. Qed.

(** A snapshot that sees one of the newer versions [l2] does not depend on the
    older ones [l1]. *)
Lemma getStableVersionAt_app l1 l2 u v :
  Exists (fun c => (versionId c <= v)%Z) l2 ->
  getStableVersionAt v (mkVersionControl (l1 ++ l2) u) =
  getStableVersionAt v (mkVersionControl l2 u).
Proof.
  intros Hex. unfold getStableVersionAt; simpl.
  rewrite reverse_app, scanStable_app.
  destruct (existsb _ _) eqn:E; [done|]. exfalso.
  apply Exists_exists in Hex as (c & Hin & Hc).
  assert (existsb (fun c => (versionId c <=? v)%Z) (reverse l2) = true) as E'.
  { apply existsb_exists. exists c.
    split; [apply list_elem_of_In; by apply elem_of_reverse|lia]. }
  congruence.
Qed.

Lemma wf_snoc l c u :
  wf_vc (mkVersionControl (l ++ [c]) u) <->
  wf_vc (mkVersionControl l u) /\ Forall (fun c' => (versionId c' < versionId c)%Z) l.
Proof.
  unfold wf_vc; simpl. rewrite fmap_app; simpl.
  induction l as [|c' l IH]; simpl.
  - split; [repeat constructor|intros; repeat constructor].
  - rewrite !StronglySorted_cons, IH, !Forall_cons, Forall_app, Forall_singleton.
    tauto.
Qed.

(** ** The snapshot read meets its specification *)
Lemma getStableVersionAt_reads v vc c :
  wf_vc vc -> reads_at (stableVersions_ vc) v c ->
  getStableVersionAt v vc = value_of c.
Proof.
  destruct vc as [l u]; simpl. induction l as [|d l IH] using rev_ind.
  - intros _ [Hin _]. by apply not_elem_of_nil in Hin.
  - intros [Hwf Hall]%wf_snoc (Hin & Hle & Hmax).
    rewrite getStableVersionAt_snoc. rewrite Forall_forall in Hall.
    destruct (Z.leb_spec (versionId d) v) as [Hd|Hd].
    + apply elem_of_app in Hin as [Hin| ->%list_elem_of_singleton]; [|done].
      assert (versionId d <= versionId c)%Z by (apply Hmax; [set_solver|done]).
      assert (versionId c < versionId d)%Z by (apply Hall; done). lia.
    + apply IH; [done|].
      apply elem_of_app in Hin as [Hin| ->%list_elem_of_singleton]; [|lia].
      split_and!; [done..|]. intros c' Hc'. apply Hmax. set_solver.
Qed.

Lemma getStableVersionAt_unborn v vc :
  Forall (fun c => (v < versionId c)%Z) (stableVersions_ vc) ->
  getStableVersionAt v vc = (dflt, false).
Proof.
  intros Hall. unfold getStableVersionAt. apply scanStable_none.
  by apply Forall_reverse.
Qed.

(** A snapshot either sees a version or precedes all of them. *)
Lemma reads_at_dec l v :
  (exists c, reads_at l v c) \/ Forall (fun c => (v < versionId c)%Z) l.
Proof.
  induction l as [|d l IH]; [by right|].
  destruct (Z.leb_spec (versionId d) v) as [Hd|Hd].
  - left. destruct IH as [(c & Hin & Hle & Hmax)|Hall].
    + destruct (Z.leb_spec (versionId d) (versionId c)) as [Hdc|Hdc].
      * exists c. split_and!; [set_solver|done|].
        intros c' [->|Hc']%elem_of_cons ?; [done|auto].
      * exists d. split_and!; [set_solver|done|].
        intros c' [->|Hc']%elem_of_cons ?; [done|].
        specialize (Hmax c' Hc'). lia.
    + exists d. split_and!; [set_solver|done|].
      intros c' [->|Hc']%elem_of_cons ?; [done|].
      rewrite Forall_forall in Hall. specialize (Hall c' Hc'). lia.
  - destruct IH as [(c & Hin & Hle & Hmax)|Hall]; [left|right; by constructor].
    exists c. split_and!; [set_solver|done|].
    intros c' [->|Hc']%elem_of_cons ?; [lia|auto].
Qed.

(** ** The erasing loop *)
Lemma eraseOld_split base l :
  exists l1, l = l1 ++ eraseOld base l /\
    Forall (fun c => (versionId c < base)%Z) l1 /\
    (l <> [] -> eraseOld base l <> []).
Proof.
  induction l as [|c l IH]; [by exists []|].
  destruct l as [|d l]; [by exists []|].
  cbn [eraseOld]. destruct (Z.ltb_spec (versionId c) base) as [Hc|Hc].
  - destruct IH as (l1 & Heq & Hall & Hne). exists (c :: l1).
    split_and!; [by rewrite Heq at 1|by constructor|intros _; by apply Hne].
  - by exists [].
Qed.

(** What the loop keeps starts at its last element or at the base. *)
Lemma eraseOld_head base l c l' :
  eraseOld base l = c :: l' -> l' = [] \/ (base <= versionId c)%Z.
Proof.
  induction l as [|d l IH]; [done|].
  destruct l as [|e l]; [simpl; intros [=]; by left|].
  cbn [eraseOld]. destruct (Z.ltb_spec (versionId d) base) as [Hd|Hd]; [exact IH|].
  intros [=]; subst. by right.
Qed.

Lemma eraseOld_last base l : last (eraseOld base l) = last l.
Proof.
  induction l as [|d l IH]; [done|]. destruct l as [|e l]; [done|].
  cbn [eraseOld]. destruct (versionId d <? base)%Z; [exact IH|done].
Qed.

Lemma wf_app_r l1 l2 u :
  wf_vc (mkVersionControl (l1 ++ l2) u) -> wf_vc (mkVersionControl l2 u).
Proof.
  unfold wf_vc; simpl. induction l1 as [|c l1 IH]; simpl; [done|].
  intros [_ ?]%StronglySorted_cons. auto.
Qed.

Lemma dropDeadSingleton_reads base l u v :
  Exists (fun c => (versionId c <= v)%Z) l ->
  getStableVersionAt v (mkVersionControl (dropDeadSingleton base l) u) =
  getStableVersionAt v (mkVersionControl l u).
Proof.
  destruct l as [|c [|d l]]; simpl; try done. intros Hex.
  apply Exists_cons in Hex as [Hc|Hex]; [|by apply Exists_nil in Hex].
  destruct (versionId c <? base)%Z; simpl; [|done].
  case_bool_decide as Hs; [|done].
  unfold getStableVersionAt; simpl. rewrite Hs.
  by destruct (Z.leb_spec (versionId c) v); [|lia].
Qed.
End lemmas.

(** ** Theorems about one cell *)
Section theorems.
  Context {T : Type} `{Default T}.
  Implicit Types (vc : VersionControl T) (c : ControlObject T).

(** C22. Snapshot read: on a well-formed cell [getStableVersion(v)] returns the
    newest committed version that is not newer than [v] (nothing when that
    version is a deletion), and nothing when [v] precedes every version. *)
Theorem snapshot_read_correct v vc :
  wf_vc vc ->
  (exists c, reads_at (stableVersions_ vc) v c /\ getStableVersionAt v vc = value_of c) \/
  (Forall (fun c => (v < versionId c)%Z) (stableVersions_ vc) /\
   getStableVersionAt v vc = (dflt, false)).
Proof.
  intros Hwf. destruct (reads_at_dec (stableVersions_ vc) v) as [[c Hc]|Hall].
  - left. exists c. eauto using getStableVersionAt_reads.
  - right. eauto using getStableVersionAt_unborn.
Qed.

(** Commit is atomic for readers: snapshots before the commit id keep their
    value, snapshots from the commit id on read the writer's version. *)
Theorem upgrade_snapshots w v vc :
  older_than w vc ->
  getStableVersionAt v (upgradeStableVersion w vc) =
    if bool_decide ((unstableVersion_ vc).2 = VISIBLE) && (w <=? v)%Z
    then getLatestVersion vc
    else getStableVersionAt v vc.
Proof.
  destruct vc as [l [u vis]]; unfold older_than, upgradeStableVersion, getLatestVersion; simpl.
  intros Hold. destruct vis; simpl; [done|].
  rewrite getStableVersionAt_snoc; simpl. unfold value_of; simpl.
  by destruct (w <=? v)%Z.
Qed.

Lemma upgrade_wf w vc :
  wf_vc vc -> older_than w vc -> wf_vc (upgradeStableVersion w vc).
Proof.
  destruct vc as [l [u []]]; unfold upgradeStableVersion; simpl; [done|].
  intros Hwf Hold. by apply wf_snoc.
Qed.

Lemma upgrade_older w w' vc :
  (w < w')%Z -> older_than w vc -> older_than w' (upgradeStableVersion w vc).
Proof.
  destruct vc as [l [u vis]]; unfold older_than, upgradeStableVersion; simpl.
  intros Hw Hold. assert (Forall (fun c => (versionId c < w')%Z) l).
  { eapply Forall_impl; [exact Hold|]. simpl; lia. }
  destruct vis; simpl; [done|]. apply Forall_app; split; [done|].
  by constructor.
Qed.

Lemma upgrade_invisible w vc :
  (unstableVersion_ (upgradeStableVersion w vc)).2 = INVISIBLE.
Proof. by destruct vc as [l [u []]]. Qed.

(** Clearing versions older than [base] keeps every snapshot read at [v] for
    which a version of the range [base..v] exists, or that sees the last
    version. *)
Theorem clear_preserves_snapshot base v vc :
  wf_vc vc ->
  Exists (fun c => (base <= versionId c <= v)%Z) (stableVersions_ vc) \/
  (exists c, last (stableVersions_ vc) = Some c /\ (versionId c <= v)%Z) ->
  getStableVersionAt v (clearStableVersion base vc).1 = getStableVersionAt v vc.
Proof.
  destruct vc as [l u]; simpl. intros Hwf Hv.
  destruct (eraseOld_split base l) as (l1 & Heq & Hall & _).
  assert (Exists (fun c => (versionId c <= v)%Z) (eraseOld base l)) as Hex.
  { destruct Hv as [Hv|(c & Hlast & Hc)].
    - rewrite Heq in Hv. apply Exists_app in Hv as [Hv|Hv].
      + apply Exists_exists in Hv as (c & Hin & Hc).
        rewrite Forall_forall in Hall. specialize (Hall c Hin). lia.
      + eapply Exists_impl; [exact Hv|]. simpl; lia.
    - rewrite <- (eraseOld_last base) in Hlast.
      apply last_Some in Hlast as [l' Hl']. rewrite Hl'.
      apply Exists_app. right. by constructor. }
  rewrite dropDeadSingleton_reads by done.
  rewrite Heq at 2. by rewrite getStableVersionAt_app.
Qed.

(** The reads that clearing drops: when the version a snapshot [v >= base]
    sees is older than [base] and a newer version exists, the version is
    erased and the snapshot reads nothing. *)
Theorem clear_loses_snapshot base v x y s u a b :
  (a < base <= v)%Z -> (v < b)%Z ->
  let vc := mkVersionControl [mkControlObject a ACTIVE x; mkControlObject b s y] u in
  getStableVersionAt v vc = (x, true) /\
  getStableVersionAt v (clearStableVersion base vc).1 = (dflt, false).
Proof.
  intros Hab Hvb vc. subst vc. unfold getStableVersionAt. cbn.
  destruct (Z.leb_spec b v); [lia|]. destruct (Z.leb_spec a v); [|lia].
  split; [done|]. destruct (Z.ltb_spec a base); [|lia]. cbn.
  destruct (Z.ltb_spec b base); [lia|]. cbn.
  by destruct (Z.leb_spec b v); [lia|].
Qed.

Lemma clear_wf base vc : wf_vc vc -> wf_vc (clearStableVersion base vc).1.
Proof.
  destruct vc as [l u]; simpl. intros Hwf.
  destruct (eraseOld_split base l) as (l1 & Heq & _ & _).
  rewrite Heq in Hwf. apply wf_app_r in Hwf.
  destruct (eraseOld base l) as [|c [|d l']]; simpl; try done.
  destruct (_ && _); [constructor|done].
Qed.

Lemma clear_older w base vc : older_than w vc -> older_than w (clearStableVersion base vc).1.
Proof.
  destruct vc as [l u]; unfold older_than; simpl. intros Hold.
  destruct (eraseOld_split base l) as (l1 & Heq & _ & _).
  rewrite Heq in Hold. apply Forall_app in Hold as [_ Hold].
  destruct (eraseOld base l) as [|c [|d l']]; simpl; try done.
  destruct (_ && _); [constructor|done].
Qed.

(** The latest version is what a new transaction sees; clearing keeps it. *)
Lemma clear_preserves_latest base vc :
  getLatestVersion (clearStableVersion base vc).1 = getLatestVersion vc.
Proof.
  destruct vc as [l [u vis]]; unfold getLatestVersion; simpl.
  destruct vis; [|done]. rewrite <- (eraseOld_last base l).
  destruct (eraseOld base l) as [|c [|d l']]; simpl; try done.
  destruct (versionId c <? base)%Z; simpl; [|done].
  case_bool_decide as Hs; simpl; [|done]. by rewrite Hs.
Qed.

(** A reader that starts at the commit id sees the version the writer saw. *)
Lemma upgrade_latest w vc :
  older_than w vc -> getStableVersionAt w (upgradeStableVersion w vc) = getLatestVersion vc.
Proof.
  destruct vc as [l [u vis]]; unfold older_than, upgradeStableVersion, getLatestVersion; simpl.
  intros Hold. destruct vis; simpl.
  - destruct (last l) as [c|] eqn:Hl.
    + apply last_Some in Hl as [l' ->]. rewrite getStableVersionAt_snoc.
      apply Forall_app in Hold as [_ Hc]. apply Forall_cons in Hc as [Hc _].
      by destruct (Z.leb_spec (versionId c) w); [|lia].
    + by apply last_None in Hl as ->.
  - rewrite getStableVersionAt_snoc; simpl. by destruct (Z.leb_spec w w); [|lia].
Qed.

Lemma upgrade_clear_latest base w vc :
  older_than w vc ->
  getStableVersionAt w (upgradeStableVersion w (clearStableVersion base vc).1) = getLatestVersion vc.
Proof. intros Hold. rewrite upgrade_latest by (by apply clear_older). apply clear_preserves_latest. Qed.

(** A cell may be dropped from its hash map exactly when clearing returns 0. *)
Lemma clear_size_zero base vc :
  (clearStableVersion base vc).2 = 0 <->
  stableVersions_ (clearStableVersion base vc).1 = [] /\
  (unstableVersion_ vc).2 = INVISIBLE.
Proof.
  unfold clearStableVersion, unstableCount; simpl.
  destruct (dropDeadSingleton _ _); destruct ((unstableVersion_ vc).2); simpl;
    naive_solver lia.
Qed.

(** Read your writes. *)
Lemma getLatest_add x vc : getLatestVersion (addLatestVersion x vc) = (x, true).
Proof. done. Qed.

Lemma getLatest_delete vc : (getLatestVersion (deleteLatestVersion vc)).2 = false.
Proof.
  destruct vc as [l [u []]]; unfold getLatestVersion, deleteLatestVersion; simpl; [|done].
  by destruct (last l).
Qed.

Lemma getLatest_delete_eq vc : getLatestVersion (deleteLatestVersion vc) = (dflt, false).
Proof.
  destruct vc as [l [u []]]; unfold getLatestVersion, deleteLatestVersion; simpl; [|done].
  by destruct (last l).
Qed.

Lemma stable_add x vc : stableVersions_ (addLatestVersion x vc) = stableVersions_ vc.
Proof. done. Qed.

Lemma stable_delete vc : stableVersions_ (deleteLatestVersion vc) = stableVersions_ vc.
Proof. done. Qed.

Lemma stable_disable vc : stableVersions_ (disableUnstableVersion vc) = stableVersions_ vc.
Proof. done. Qed.
End theorems.

(** ** One writer's life on a cell

    The operations a writer applies to a cell between begin and commit or
    rollback. *)
Inductive WriterOp (T : Type) := OpAdd (x : T) | OpDelete.
Arguments OpAdd {T} x.
Arguments OpDelete {T}.

Definition writerOp {T} `{Default T} (op : WriterOp T) (vc : VersionControl T) :=
  match op with
  | OpAdd x => addLatestVersion x vc
  | OpDelete => deleteLatestVersion vc
  end.

Definition writerOps {T} `{Default T} (ops : list (WriterOp T)) (vc : VersionControl T) :=
  foldl (fun vc op => writerOp op vc) vc ops.

Section writer.
  Context {T : Type} `{Default T}.
  Implicit Types (vc : VersionControl T) (ops : list (WriterOp T)).

Lemma stable_writerOps ops vc : stableVersions_ (writerOps ops vc) = stableVersions_ vc.
Proof.
  unfold writerOps. revert vc. induction ops as [|[x|] ops IH]; intros vc; simpl; [done|..];
    by rewrite IH.
Qed.

(** No dirty read: whatever the writer does before it commits, a reader's
    snapshot is unchanged. *)
Theorem writer_isolated ops v vc :
  getStableVersionAt v (writerOps ops vc) = getStableVersionAt v vc.
Proof. apply getStableVersionAt_stable, stable_writerOps. Qed.

(** Rollback restores what the next writer sees: after any writer operations
    followed by [disableUnstableVersion] the latest version is the last
    committed one, as it was before the writer started. *)
Theorem rollback_restores_latest ops vc :
  (unstableVersion_ vc).2 = INVISIBLE ->
  getLatestVersion (disableUnstableVersion (writerOps ops vc)) = getLatestVersion vc.
Proof.
  intros Hinv. unfold getLatestVersion; simpl. by rewrite stable_writerOps, Hinv.
Qed.
End writer.
