(* ===== verification/MultiVersionMap.v ===== *)
(** * Multi-version hash maps

    Model of [MultiVersionHashMap] and [TwoLevelMultiVersionHashMap] of
    src/src/multiversion_hashmap.hpp.  A hash map from keys to shared pointers
    of version-control cells is a [gmap] of cells: the map is the only
    long-lived owner of a cell, and the one place that mutates a cell through
    the pointer returned by [get] (the commit of a transaction) is modelled by
    [mv_modify]/[tl_modify], which updates the cell inside the map.  The
    iteration order of an [unordered_map] is unspecified: [mv_keys] fixes one
    order, and no theorem depends on it. *)

From stdpp Require Import base gmap sets list.
From Stdlib Require Import ZArith Lia.
From S2P Require Import Prelude VersionControl.

Section one_level.
  Context {K : Type} `{Countable K} {T : Type} `{Default T}.
  Implicit Types (m : gmap K (VersionControl T)) (k : K).

Definition mv_insert k (x : T) m : gmap K (VersionControl T) :=
  match m !! k with
  | None => <[k := addLatestVersion x emptyVersionControl]> m
  | Some vc => <[k := addLatestVersion x vc]> m
  end.

Definition mv_find k m : T * bool :=
  match m !! k with
  | None => (dflt, false)
  | Some vc => getLatestVersion vc
  end.

Definition mv_findAt (refTxnId : TxnId) k m : T * bool :=
  match m !! k with
  | None => (dflt, false)
  | Some vc => getStableVersionAt refTxnId vc
  end.

Definition mv_get k m : option (VersionControl T) := m !! k.

(** Mutation of the cell behind the pointer that [mv_get] returns. *)
Definition mv_modify (f : VersionControl T -> VersionControl T) k m : gmap K (VersionControl T) :=
  alter f k m.

Definition mv_erase k m : gmap K (VersionControl T) :=
  match m !! k with
  | None => m
  | Some vc => <[k := deleteLatestVersion vc]> m
  end.

Definition mv_clearKey k (base : TxnId) m : gmap K (VersionControl T) :=
  match m !! k with
  | None => m
  | Some vc =>
      let '(vc', n) := if (base =? 0)%Z then clearUnstableVersion vc
                       else clearStableVersion base vc in
      if n =? 0 then delete k m else <[k := vc']> m
  end.

Definition clearCell (base : TxnId) (vc : VersionControl T) : option (VersionControl T) :=
  let '(vc', n) := clearStableVersion base vc in
  if n =? 0 then None else Some vc'.

Definition mv_clear (base : TxnId) m : gmap K (VersionControl T) :=
  omap (clearCell base) m.

Definition mv_keys m : list K := (map_to_list m).*1.

(** ** Lookup lemmas *)
Lemma lookup_mv_insert k x m k' :
  mv_insert k x m !! k' =
    if decide (k = k')
    then Some (addLatestVersion x (default emptyVersionControl (m !! k)))
    else m !! k'.
Proof.
  unfold mv_insert. destruct (m !! k) eqn:E; rewrite lookup_insert; by case_decide.
Qed.

Lemma lookup_mv_erase k m k' :
  mv_erase k m !! k' =
    if decide (k = k') then deleteLatestVersion <$> m !! k else m !! k'.
Proof.
  unfold mv_erase. destruct (m !! k) eqn:E; simpl.
  - rewrite lookup_insert. by case_decide.
  - case_decide; [by subst|done].
Qed.

Lemma mv_find_insert k x m : mv_find k (mv_insert k x m) = (x, true).
Proof. unfold mv_find. rewrite lookup_mv_insert. by rewrite decide_True. Qed.

Lemma mv_find_insert_ne k k' x m : k <> k' -> mv_find k' (mv_insert k x m) = mv_find k' m.
Proof. intros. unfold mv_find. rewrite lookup_mv_insert. by rewrite decide_False. Qed.

Lemma mv_find_erase k m : mv_find k (mv_erase k m) = (dflt, false).
Proof.
  unfold mv_find. rewrite lookup_mv_erase, decide_True by done.
  destruct (m !! k); simpl; [apply getLatest_delete_eq|done].
Qed.

Lemma mv_find_erase_ne k k' m : k <> k' -> mv_find k' (mv_erase k m) = mv_find k' m.
Proof. intros. unfold mv_find. rewrite lookup_mv_erase. by rewrite decide_False. Qed.

(** Writer operations leave every snapshot read alone. *)
Lemma mv_findAt_insert v k k' x m : mv_findAt v k' (mv_insert k x m) = mv_findAt v k' m.
Proof.
  unfold mv_findAt. rewrite lookup_mv_insert. case_decide; [subst|done].
  by destruct (m !! k').
Qed.

Lemma mv_findAt_erase v k k' m : mv_findAt v k' (mv_erase k m) = mv_findAt v k' m.
Proof.
  unfold mv_findAt. rewrite lookup_mv_erase. case_decide; [subst|done].
  by destruct (m !! k').
Qed.

Lemma clearCell_latest base vc :
  default (dflt, false) (getLatestVersion <$> clearCell base vc) = getLatestVersion vc.
Proof.
  rewrite <- (clear_preserves_latest base vc). unfold clearCell.
  pose proof (clear_size_zero base vc) as Hz.
  destruct (clearStableVersion base vc) as [vc' n] eqn:E; simpl in *.
  destruct (Nat.eqb_spec n 0) as [->|]; [|done]. simpl.
  destruct Hz as [[Hs Hi] _]; [done|]. unfold getLatestVersion.
  unfold clearStableVersion in E. simplify_eq/=. by rewrite Hi, Hs.
Qed.

Lemma mv_find_clear base k m : mv_find k (mv_clear base m) = mv_find k m.
Proof.
  unfold mv_find, mv_clear. rewrite lookup_omap.
  destruct (m !! k) as [vc|]; simpl; [|done].
  rewrite <- (clearCell_latest base vc). by destruct (clearCell base vc).
Qed.

Lemma mv_keys_spec k m : k ∈ mv_keys m <-> is_Some (m !! k).
Proof.
  unfold mv_keys. rewrite list_elem_of_fmap. split.
  - intros ([k' vc] & -> & Hin%elem_of_map_to_list). by eexists.
  - intros [vc Hvc]. exists (k, vc). by rewrite elem_of_map_to_list.
Qed.

Lemma NoDup_mv_keys m : NoDup (mv_keys m).
Proof. apply NoDup_fst_map_to_list. Qed.

(** Rollback of one key after writer operations on it. *)
Lemma mv_find_clearKey_zero k m :
  (default (newControlObject dflt, INVISIBLE) (unstableVersion_ <$> m !! k)).2 = INVISIBLE ->
  mv_find k (mv_clearKey k 0 m) = mv_find k m.
Proof.
  unfold mv_find, mv_clearKey. destruct (m !! k) as [vc|] eqn:E; simpl; [|by rewrite E].
  intros Hinv. destruct (Nat.eqb_spec (length (stableVersions_ vc)) 0) as [Hz|Hz].
  - rewrite lookup_delete_eq. apply nil_length_inv in Hz.
    unfold getLatestVersion. by rewrite Hinv, Hz.
  - rewrite lookup_insert_eq. unfold getLatestVersion; simpl. by rewrite Hinv.
Qed.

Lemma mv_findAt_clearKey_zero v k k' m :
  mv_findAt v k' (mv_clearKey k 0 m) = mv_findAt v k' m.
Proof.
  unfold mv_findAt, mv_clearKey. destruct (m !! k) as [vc|] eqn:E; simpl; [|done].
  destruct (Nat.eqb_spec (length (stableVersions_ vc)) 0) as [Hz|Hz].
  - rewrite lookup_delete. case_decide; [subst|done]. rewrite E.
    apply nil_length_inv in Hz. unfold getStableVersionAt. by rewrite Hz.
  - rewrite lookup_insert. case_decide; [subst|done]. by rewrite E.
Qed.
End one_level.

Section two_level.
  Context {K1 : Type} `{Countable K1} {K2 : Type} `{Countable K2} {T : Type} `{Default T}.
  Implicit Types (m : gmap K1 (gmap K2 (VersionControl T))).

Definition tl_insert (k1 : K1) (k2 : K2) (x : T) m : gmap K1 (gmap K2 (VersionControl T)) :=
  match m !! k1 with
  | None => <[k1 := mv_insert k2 x ∅]> m
  | Some inner => <[k1 := mv_insert k2 x inner]> m
  end.

Definition tl_find (k1 : K1) (k2 : K2) m : T * bool :=
  match m !! k1 with
  | None => (dflt, false)
  | Some inner => mv_find k2 inner
  end.

Definition tl_findAt (refTxnId : TxnId) (k1 : K1) (k2 : K2) m : T * bool :=
  match m !! k1 with
  | None => (dflt, false)
  | Some inner => mv_findAt refTxnId k2 inner
  end.

Definition tl_get (k1 : K1) (k2 : K2) m : option (VersionControl T) :=
  match m !! k1 with
  | None => None
  | Some inner => mv_get k2 inner
  end.

Definition tl_modify (f : VersionControl T -> VersionControl T) (k1 : K1) (k2 : K2) m :
    gmap K1 (gmap K2 (VersionControl T)) :=
  alter (mv_modify f k2) k1 m.

Definition tl_erase (k1 : K1) (k2 : K2) m : gmap K1 (gmap K2 (VersionControl T)) :=
  match m !! k1 with
  | None => m
  | Some inner => <[k1 := mv_erase k2 inner]> m
  end.

Definition tl_clearKey (k1 : K1) (k2 : K2) (base : TxnId) m : gmap K1 (gmap K2 (VersionControl T)) :=
  match m !! k1 with
  | None => m
  | Some inner =>
      let inner' := mv_clearKey k2 base inner in
      if size inner' =? 0 then delete k1 m else <[k1 := inner']> m
  end.

Definition clearInner (base : TxnId) (inner : gmap K2 (VersionControl T)) :
    option (gmap K2 (VersionControl T)) :=
  let inner' := mv_clear base inner in
  if size inner' =? 0 then None else Some inner'.

Definition tl_clear (base : TxnId) m : gmap K1 (gmap K2 (VersionControl T)) :=
  omap (clearInner base) m.

(** [keys(firstKey)] *)
Definition tl_keys1 (k1 : K1) m : list K2 :=
  match m !! k1 with
  | None => []
  | Some inner => mv_keys inner
  end.

(** ** The flat view: one hash map keyed by pairs *)
Definition flat m : gmap (K1 * K2) (VersionControl T) :=
  map_uncurry (M1 := gmap K1) (M2 := gmap K2) (M12 := gmap (K1 * K2)) m.

Lemma lookup_flat m (k1 : K1) (k2 : K2) : flat m !! (k1, k2) = m !! k1 ≫= (.!! k2).
Proof. apply (lookup_map_uncurry (M1 := gmap K1) (M2 := gmap K2) (MC := gmap (K1 * K2))). Qed.

Lemma flat_ext m (f : gmap (K1 * K2) (VersionControl T)) :
  (forall k1 k2, m !! k1 ≫= (.!! k2) = f !! (k1, k2)) -> flat m = f.
Proof. intros Heq. apply map_eq. intros [k1 k2]. by rewrite lookup_flat, Heq. Qed.

Lemma flat_insert (k1 : K1) (k2 : K2) x m : flat (tl_insert k1 k2 x m) = mv_insert (k1, k2) x (flat m).
Proof.
  apply flat_ext. intros j1 j2. rewrite lookup_mv_insert, !lookup_flat. unfold tl_insert.
  destruct (m !! k1) as [inner|] eqn:E; rewrite lookup_insert;
    destruct (decide (k1 = j1)) as [->|]; simpl.
  2,4: by rewrite decide_False by congruence.
  all: rewrite lookup_mv_insert; destruct (decide (k2 = j2)) as [->|];
    rewrite ?(decide_True (P := (j1, j2) = _)), ?(decide_False (P := (j1, k2) = _)) by congruence.
  all: rewrite ?E; simpl; by rewrite ?lookup_empty.
Qed.

Lemma flat_erase (k1 : K1) (k2 : K2) m : flat (tl_erase k1 k2 m) = mv_erase (k1, k2) (flat m).
Proof.
  apply flat_ext. intros j1 j2. rewrite lookup_mv_erase, !lookup_flat. unfold tl_erase.
  destruct (m !! k1) as [inner|] eqn:E; simpl.
  - rewrite lookup_insert. destruct (decide (k1 = j1)) as [->|]; simpl.
    + rewrite lookup_mv_erase.
      destruct (decide (k2 = j2)) as [->|];
      rewrite ?(decide_True (P := (j1, j2) = _)), ?(decide_False (P := (j1, k2) = _)) by congruence;
      by rewrite ?E.
    + by rewrite decide_False by congruence.
  - case_decide; [|done]. simplify_eq. by rewrite E.
Qed.

Lemma flat_modify f (k1 : K1) (k2 : K2) m :
  flat (tl_modify f k1 k2 m) = mv_modify f (k1, k2) (flat m).
Proof.
  apply flat_ext. intros j1 j2. unfold tl_modify, mv_modify.
  rewrite !lookup_alter, !lookup_flat. destruct (decide (k1 = j1)) as [->|].
  - destruct (m !! j1) as [inner|] eqn:E; simpl; [|by case_decide].
    unfold mv_modify. rewrite lookup_alter.
    destruct (decide (k2 = j2)) as [->|];
      by rewrite ?(decide_True (P := (j1, j2) = _)), ?(decide_False (P := (j1, k2) = _)) by congruence.
  - by rewrite decide_False by congruence.
Qed.

Lemma flat_delete_empty (k1 : K1) (k2 : K2) (inner : gmap K2 (VersionControl T)) m :
  flat (if size inner =? 0 then delete k1 m else <[k1 := inner]> m) = flat (<[k1 := inner]> m).
Proof.
  destruct (Nat.eqb_spec (size inner) 0) as [Hz|]; [|done].
  apply map_size_empty_inv in Hz as ->. apply flat_ext. intros j1 j2.
  rewrite lookup_flat, lookup_delete, lookup_insert. by case_decide.
Qed.

Lemma flat_clearKey (k1 : K1) (k2 : K2) base m :
  flat (tl_clearKey k1 k2 base m) = mv_clearKey (k1, k2) base (flat m).
Proof.
  unfold tl_clearKey. destruct (m !! k1) as [inner|] eqn:E.
  - rewrite (flat_delete_empty k1 k2). apply flat_ext. intros j1 j2.
    rewrite lookup_insert. unfold mv_clearKey. rewrite !lookup_flat, E; simpl.
    destruct (inner !! k2) as [vc|] eqn:E2; simpl.
    + destruct (if (base =? 0)%Z then _ else _) as [vc' n].
      destruct (n =? 0); rewrite ?lookup_delete, ?lookup_insert, ?lookup_flat;
      destruct (decide (k1 = j1)) as [->|]; simpl;
      rewrite ?lookup_delete, ?lookup_insert;
      [destruct (decide (k2 = j2)) as [->|]; rewrite ?E
      |rewrite decide_False by congruence
      |destruct (decide (k2 = j2)) as [->|]; rewrite ?E
      |rewrite decide_False by congruence]; try done.
      all: rewrite ?(decide_True (P := (j1, j2) = _)), ?(decide_False (P := (j1, k2) = _))
             by congruence; done.
    + rewrite lookup_flat. destruct (decide (k1 = j1)) as [->|]; simpl; by rewrite ?E.
  - unfold mv_clearKey. by rewrite lookup_flat, E.
Qed.

Lemma flat_clear base m : flat (tl_clear base m) = mv_clear base (flat m).
Proof.
  apply flat_ext. intros j1 j2. unfold tl_clear, mv_clear.
  rewrite !lookup_omap, lookup_flat. destruct (m !! j1) as [inner|]; simpl; [|done].
  unfold clearInner. destruct (Nat.eqb_spec (size (mv_clear base inner)) 0) as [Hz|];
    simpl; [|unfold mv_clear; by rewrite lookup_omap].
  apply map_size_empty_inv in Hz.
  transitivity ((mv_clear base inner) !! j2); [by rewrite Hz|].
  unfold mv_clear. by rewrite lookup_omap.
Qed.

Lemma tl_find_flat (k1 : K1) (k2 : K2) m : tl_find k1 k2 m = mv_find (k1, k2) (flat m).
Proof. unfold tl_find, mv_find. rewrite lookup_flat. by destruct (m !! k1). Qed.

Lemma tl_findAt_flat v (k1 : K1) (k2 : K2) m : tl_findAt v k1 k2 m = mv_findAt v (k1, k2) (flat m).
Proof. unfold tl_findAt, mv_findAt. rewrite lookup_flat. by destruct (m !! k1). Qed.

Lemma tl_get_flat (k1 : K1) (k2 : K2) m : tl_get k1 k2 m = mv_get (k1, k2) (flat m).
Proof. unfold tl_get, mv_get. rewrite lookup_flat. by destruct (m !! k1). Qed.

(** ** What a writer operation changes for the writer and for snapshots *)
Lemma tl_find_insert (k1 j1 : K1) (k2 j2 : K2) x m :
  tl_find j1 j2 (tl_insert k1 k2 x m) =
    if decide ((k1, k2) = (j1, j2)) then (x, true) else tl_find j1 j2 m.
Proof.
  rewrite !tl_find_flat, flat_insert. case_decide as Hk; [simplify_eq; apply mv_find_insert|].
  by apply mv_find_insert_ne.
Qed.

Lemma tl_find_erase (k1 j1 : K1) (k2 j2 : K2) m :
  tl_find j1 j2 (tl_erase k1 k2 m) =
    if decide ((k1, k2) = (j1, j2)) then (dflt, false) else tl_find j1 j2 m.
Proof.
  rewrite !tl_find_flat, flat_erase. case_decide as Hk; [simplify_eq; apply mv_find_erase|].
  by apply mv_find_erase_ne.
Qed.

Lemma tl_findAt_insert v (k1 j1 : K1) (k2 j2 : K2) x m :
  tl_findAt v j1 j2 (tl_insert k1 k2 x m) = tl_findAt v j1 j2 m.
Proof. by rewrite !tl_findAt_flat, flat_insert, mv_findAt_insert. Qed.

Lemma tl_findAt_erase v (k1 j1 : K1) (k2 j2 : K2) m :
  tl_findAt v j1 j2 (tl_erase k1 k2 m) = tl_findAt v j1 j2 m.
Proof. by rewrite !tl_findAt_flat, flat_erase, mv_findAt_erase. Qed.

(** ** Refinement: the two-level map implements one map keyed by pairs *)

(** The two-level map of adjacency lists implements one map keyed by pairs: every
    operation commutes with flattening. *)
Theorem two_level_refines_flat (k1 : K1) (k2 : K2) x f v base m :
  flat (tl_insert k1 k2 x m) = mv_insert (k1, k2) x (flat m) /\
  flat (tl_erase k1 k2 m) = mv_erase (k1, k2) (flat m) /\
  flat (tl_clearKey k1 k2 base m) = mv_clearKey (k1, k2) base (flat m) /\
  flat (tl_clear base m) = mv_clear base (flat m) /\
  flat (tl_modify f k1 k2 m) = mv_modify f (k1, k2) (flat m) /\
  tl_find k1 k2 m = mv_find (k1, k2) (flat m) /\
  tl_findAt v k1 k2 m = mv_findAt v (k1, k2) (flat m) /\
  tl_get k1 k2 m = mv_get (k1, k2) (flat m) /\
  (k2 ∈ tl_keys1 k1 m <-> (k1, k2) ∈ mv_keys (flat m)).
Proof.
  split_and!; auto using flat_insert, flat_erase, flat_clearKey, flat_clear, flat_modify.
  - apply tl_find_flat.
  - apply tl_findAt_flat.
  - apply tl_get_flat.
  - rewrite mv_keys_spec, lookup_flat. unfold tl_keys1.
    destruct (m !! k1); simpl; [apply mv_keys_spec|].
    split; [set_solver|intros [? ?]; done].
Qed.

(** ** Invariant: no inner map is empty, so the outer keys are exactly the
    classes that hold an entry *)
Definition no_empty_inner m : Prop := map_Forall (fun _ inner => inner <> ∅) m.

Lemma mv_insert_nonempty (k2 : K2) x (inner : gmap K2 (VersionControl T)) : mv_insert k2 x inner <> ∅.
Proof.
  intros He. apply (f_equal (.!! k2)) in He.
  by rewrite lookup_mv_insert, decide_True, lookup_empty in He.
Qed.

Lemma mv_erase_nonempty (k2 : K2) (inner : gmap K2 (VersionControl T)) :
  inner <> ∅ -> mv_erase k2 inner <> ∅.
Proof.
  intros Hne. unfold mv_erase. destruct (inner !! k2); [apply insert_non_empty|done].
Qed.

Theorem two_level_invariant (k1 : K1) (k2 : K2) x f base m :
  no_empty_inner m ->
  no_empty_inner (tl_insert k1 k2 x m) /\
  no_empty_inner (tl_erase k1 k2 m) /\
  no_empty_inner (tl_clearKey k1 k2 base m) /\
  no_empty_inner (tl_clear base m) /\
  no_empty_inner (tl_modify f k1 k2 m).
Proof.
  intros Hne. split_and!.
  - unfold tl_insert. destruct (m !! k1);
      apply map_Forall_insert_2; auto using mv_insert_nonempty.
  - unfold tl_erase. destruct (m !! k1) eqn:E; [|done].
    apply map_Forall_insert_2; [|done]. apply mv_erase_nonempty. by apply (Hne k1).
  - unfold tl_clearKey. destruct (m !! k1) eqn:E; [|done].
    destruct (Nat.eqb_spec (size (mv_clearKey k2 base g)) 0) as [|Hs].
    + by apply map_Forall_delete.
    + apply map_Forall_insert_2; [|done]. intros He. rewrite He in Hs. by rewrite map_size_empty in Hs.
  - intros j inner Hj. unfold tl_clear in Hj. rewrite lookup_omap in Hj.
    destruct (m !! j); simplify_eq/=. unfold clearInner in Hj. case_match eqn:Hs; simplify_eq.
    intros He. rewrite He in Hs. by rewrite map_size_empty in Hs.
  - intros j inner Hj. unfold tl_modify in Hj. rewrite lookup_alter in Hj.
    case_decide; [subst|by apply (Hne j)].
    destruct (m !! j) as [i|] eqn:E; simplify_eq/=. unfold mv_modify.
    intros He. apply (Hne _ _ E). apply map_empty. intros j2.
    apply (f_equal (.!! j2)) in He. rewrite lookup_alter, lookup_empty in He.
    case_decide; [subst|done]. by apply fmap_None in He.
Qed.
End two_level.

(** [keys()]: a [std::map], so its first keys come in increasing order. *)
Definition tl_keys `{Countable K2} {T} (m : gmap Z (gmap K2 (VersionControl T))) : list (Z * list K2) :=
  (fun k1 => (k1, tl_keys1 k1 m)) <$> z_sort ((map_to_list m).*1).

Lemma tl_keys_spec `{Countable K2} {T} `{Default T} (m : gmap Z (gmap K2 (VersionControl T))) k1 k2 :
  (exists l, (k1, l) ∈ tl_keys m /\ k2 ∈ l) <-> is_Some (tl_get k1 k2 m).
Proof.
  unfold tl_keys, tl_get. split.
  - intros (l & (k & [= -> ->] & Hk)%list_elem_of_fmap & Hk2). unfold tl_keys1 in Hk2.
    destruct (m !! k) eqn:E; [by apply mv_keys_spec in Hk2|set_solver].
  - destruct (m !! k1) as [inner|] eqn:E; [|by intros [? ?]].
    intros Hs. exists (mv_keys inner). rewrite mv_keys_spec. split; [|done].
    apply list_elem_of_fmap. exists k1. unfold tl_keys1. rewrite E. split; [done|].
    apply elem_of_z_sort, list_elem_of_fmap. exists (k1, inner).
    by rewrite elem_of_map_to_list.
Qed.
