(* ===== verification/TxnObject.v ===== *)
(** * Transactional objects, transaction statistics and shared containers

    Models [TxnObject] and [TxnStat] of src/src/txn_object.hpp and the
    containers [ConcurrentHashMap] and [ConcurrentDeleteQueue] of
    src/src/concurrent.hpp.  The compare-and-swap loops of [TxnObject] are
    single assignments here: only the one writer changes an object's state. *)

From stdpp Require Import base gmap sets list sorting relations.
From Stdlib Require Import ZArith Lia.
From S2P Require Import Prelude.

(** ** TxnObject *)
Inductive StatusFlag :=
| UNCOMMITTED_CREATE | COMMITTED_CREATE | UNCOMMITTED_DELETE | COMMITTED_DELETE.
#[export] Instance StatusFlag_eq_dec : EqDecision StatusFlag.
Proof. solve_decision. Defined.

Record State := mkState { st_versionId : TxnId; st_status : StatusFlag }.
#[export] Instance State_eq_dec : EqDecision State.
Proof. solve_decision. Defined.

Definition initState : State := mkState 0 UNCOMMITTED_CREATE.

Definition updateState (commitId : TxnId) (s : State) : State * StatusFlag :=
  match st_status s with
  | UNCOMMITTED_CREATE => (mkState commitId COMMITTED_CREATE, COMMITTED_CREATE)
  | UNCOMMITTED_DELETE => (mkState commitId COMMITTED_DELETE, COMMITTED_DELETE)
  | st => (s, st)
  end.

Definition setStatus (st : StatusFlag) (s : State) : State := mkState (st_versionId s) st.

Definition getState (s : State) : TxnId * StatusFlag := (st_versionId s, st_status s).

(** Both checks return true when the object is NOT visible. *)
Definition checkReadOnly (v : TxnId) (s : State) : bool :=
  match st_status s with
  | UNCOMMITTED_CREATE => true
  | COMMITTED_DELETE => (st_versionId s <=? v)%Z
  | COMMITTED_CREATE => (v <? st_versionId s)%Z
  | UNCOMMITTED_DELETE => false
  end.

Definition checkReadWrite (s : State) : bool :=
  match st_status s with
  | UNCOMMITTED_DELETE | COMMITTED_DELETE => true
  | _ => false
  end.

(** ** TxnStat *)
Record TxnStat := mkTxnStat {
  maxTxnId : TxnId;
  maxVersionId : TxnId;
  activeTxnIds : list (TxnId * TxnId);   (* std::map, in key order *)
}.

Definition initTxnStat : TxnStat := mkTxnStat 1 0 [].

(** [std::map::emplace] and [erase] on the ordered representation. *)
Fixpoint smap_emplace (k v : Z) (l : list (Z * Z)) : list (Z * Z) :=
  match l with
  | [] => [(k, v)]
  | (k', v') :: l' =>
      if (k <? k')%Z then (k, v) :: l
      else if (k =? k')%Z then l
      else (k', v') :: smap_emplace k v l'
  end.

Definition smap_erase (k : Z) (l : list (Z * Z)) : list (Z * Z) :=
  filter (fun p => p.1 <> k) l.

Definition fetchAddMaxTxnId (s : TxnStat) : TxnId * TxnStat :=
  (maxTxnId s, mkTxnStat (u64 (maxTxnId s + 1)) (maxVersionId s) (activeTxnIds s)).

Definition fetchAddMaxVersionId (s : TxnStat) : TxnId * TxnStat :=
  (maxVersionId s, mkTxnStat (maxTxnId s) (u64 (maxVersionId s + 1)) (activeTxnIds s)).

Definition addActiveTxnId (t v : TxnId) (s : TxnStat) : TxnStat :=
  mkTxnStat (maxTxnId s) (maxVersionId s) (smap_emplace t v (activeTxnIds s)).

Definition removeActiveTxnId (t : TxnId) (s : TxnStat) : TxnStat :=
  mkTxnStat (maxTxnId s) (maxVersionId s) (smap_erase t (activeTxnIds s)).

Definition minActiveTxnId (s : TxnStat) : TxnId * TxnId :=
  match activeTxnIds s with
  | [] => (0, 0)%Z
  | (t, v) :: _ => (t, v)
  end.

(** On an empty map [find] returns [end() == cbegin()], whose dereference is
    undefined. *)
Definition isLastMinVersionId (t : TxnId) (s : TxnStat) : Outcome bool :=
  match activeTxnIds s with
  | [] => UB
  | (t0, v0) :: rest =>
      if (t0 =? t)%Z then
        match rest with
        | [] => Ok true
        | (_, v1) :: _ => Ok (v0 <? v1)%Z
        end
      else Ok false
  end.

(** ** ConcurrentHashMap and ConcurrentDeleteQueue *)
Section containers.
  Context {K : Type} `{Countable K} {A : Type}.

Definition lockAndErase (k : K) (m : gmap K A) : gmap K A := delete k m.
Definition lockAndClear (m : gmap K A) : gmap K A := ∅.

Definition lockAndEmplace (k : K) (x : A) (m : gmap K A) : gmap K A := emplace k x m.
End containers.

Fixpoint pop_front {A} (q : list (A * TxnId)) (v : TxnId) : list A * list (A * TxnId) :=
  match q with
  | (x, w) :: q' =>
      if (w <=? v)%Z then let '(r, q'') := pop_front q' v in (x :: r, q'') else ([], q)
  | [] => ([], [])
  end.

Definition push_back {A} (q d : list (A * TxnId)) : list (A * TxnId) := q ++ d.

(** ** Delete queue lemmas *)
Lemma pop_front_split {A} (q : list (A * TxnId)) v r q' :
  pop_front q v = (r, q') ->
  exists q1, q = q1 ++ q' /\ r = q1.*1 /\ Forall (fun p => (p.2 <= v)%Z) q1.
Proof.
  revert r q'; induction q as [|[x w] q IH]; simpl; intros r q' Heq.
  - simplify_eq. by exists [].
  - destruct (Z.leb_spec w v) as [Hw|Hw].
    + destruct (pop_front q v) as [r1 q1] eqn:E; simplify_eq.
      destruct (IH r1 q' eq_refl) as (l & -> & -> & Hl).
      exists ((x, w) :: l). split_and!; [done..|]. by constructor.
    + simplify_eq. by exists [].
Qed.

(** With the queue ordered by deletion version (as commits append to it), the
    entries popped are exactly those deleted at or before [v]. *)
Theorem pop_front_exact {A} (q : list (A * TxnId)) v :
  StronglySorted Z.le q.*2 ->
  (pop_front q v).1 = (filter (fun p => (p.2 <= v)%Z) q).*1 /\
  (pop_front q v).2 = filter (fun p => ~ (p.2 <= v)%Z) q.
Proof.
  induction q as [|[x w] q IH]; [done|]; simpl.
  intros [Hall Hs]%StronglySorted_cons. destruct (IH Hs) as [IH1 IH2].
  destruct (Z.leb_spec w v) as [Hw|Hw].
  - destruct (pop_front q v) as [r q']; simpl in *. subst.
    rewrite !filter_cons; simpl. rewrite decide_True by done.
    by rewrite decide_False by (simpl; lia).
  - simpl. rewrite !filter_cons; simpl. rewrite decide_False, decide_True by (simpl; lia).
    assert (Forall (fun p => ~ (p.2 <= v)%Z) q) as Hq.
    { apply Forall_forall. intros p Hp. rewrite Forall_forall in Hall.
      assert (w <= p.2)%Z by (apply Hall, list_elem_of_fmap; eauto). lia. }
    split.
    + by rewrite filter_keep_none.
    + by rewrite filter_keep_all.
Qed.

(** ** Visibility of an object along its life

    [created c] is the state after the creating transaction committed as [c],
    [deleted c d] after a later transaction committed its deletion as [d],
    [deleting c] while that transaction is still running. *)
Definition created (c : TxnId) : State := (updateState c initState).1.
Definition deleting (c : TxnId) : State := setStatus UNCOMMITTED_DELETE (created c).
Definition deleted (c d : TxnId) : State := (updateState d (deleting c)).1.

(** A snapshot taken at or after the creation sees the object exactly until
    its deletion commits, and never before its creation committed; a pending
    deletion is invisible to it, and rolling it back restores the object. *)
Theorem object_visibility c d v :
  checkReadOnly v initState = true /\
  (checkReadOnly v (created c) = false <-> (c <= v)%Z) /\
  ((c <= v)%Z -> checkReadOnly v (deleting c) = checkReadOnly v (created c)) /\
  (checkReadOnly v (deleted c d) = false <-> (v < d)%Z) /\
  checkReadWrite (created c) = false /\ checkReadWrite (deleting c) = true /\
  checkReadWrite (deleted c d) = true /\
  setStatus COMMITTED_CREATE (deleting c) = created c.
Proof.
  unfold checkReadOnly, checkReadWrite; simpl. split_and!; try done; lia.
Qed.

(** A snapshot older than the creation does not see the object, until a
    deletion is pending or committed: both replace the creation version in the
    state, and the object becomes visible to that snapshot. *)
Theorem deletion_reveals_to_older_snapshot c d v :
  (v < c < d)%Z ->
  checkReadOnly v (created c) = true /\
  checkReadOnly v (deleting c) = false /\
  checkReadOnly v (deleted c d) = false.
Proof. unfold checkReadOnly; simpl. intros. split_and!; lia. Qed.

(** ** The registry of active readers

    A reader starts with three separate atomic actions (base_txn.cpp, the
    constructor of [BaseTxn]): it takes a transaction id, reads the committed
    version and registers both; it ends by erasing its entry.  [race_step]
    interleaves these actions of any number of readers with the commits of the
    writer.  The two bounds say that neither counter has run through 64 bits;
    the code itself checks the one on versions, when a writer begins. *)
Inductive ReaderPc :=
| RIdle
| RGotTxnId (t : TxnId)
| RGotVersion (t v : TxnId)
| RActive (t v : TxnId).

Record RaceState := mkRaceState { rs_stat : TxnStat; rs_readers : list ReaderPc }.

Inductive race_step : RaceState -> RaceState -> Prop :=
| race_take_id s rs i t s1 :
    rs !! i = Some RIdle -> (maxTxnId s < UINT64_MAX)%Z -> fetchAddMaxTxnId s = (t, s1) ->
    race_step (mkRaceState s rs) (mkRaceState s1 (<[i := RGotTxnId t]> rs))
| race_read_version s rs i t :
    rs !! i = Some (RGotTxnId t) ->
    race_step (mkRaceState s rs) (mkRaceState s (<[i := RGotVersion t (maxVersionId s)]> rs))
| race_register s rs i t v :
    rs !! i = Some (RGotVersion t v) ->
    race_step (mkRaceState s rs) (mkRaceState (addActiveTxnId t v s) (<[i := RActive t v]> rs))
| race_end s rs i t v :
    rs !! i = Some (RActive t v) ->
    race_step (mkRaceState s rs) (mkRaceState (removeActiveTxnId t s) (<[i := RIdle]> rs))
| race_commit s rs v s1 :
    (maxVersionId s + 1 < UINT64_MAX)%Z -> fetchAddMaxVersionId s = (v, s1) ->
    race_step (mkRaceState s rs) (mkRaceState s1 rs).

Definition initRace (n : nat) : RaceState := mkRaceState initTxnStat (replicate n RIdle).

(** Reader [p] is not between the first and the last of its start actions. *)
Definition settled (p : ReaderPc) : bool :=
  match p with RIdle | RActive _ _ => true | _ => false end.

(** A step of a calm run: no commit publishes a version while a reader is
    between its start actions. *)
Definition calm_step (a b : RaceState) : Prop :=
  race_step a b /\
  (maxVersionId (rs_stat b) = maxVersionId (rs_stat a) \/ Forall settled (rs_readers a)).

(** The transaction id and the snapshot a reader holds. *)
Definition pcTxnId (p : ReaderPc) : option TxnId :=
  match p with RIdle => None | RGotTxnId t | RGotVersion t _ | RActive t _ => Some t end.
Definition pcSnapshot (p : ReaderPc) : option (TxnId * TxnId) :=
  match p with RGotVersion t v | RActive t v => Some (t, v) | _ => None end.

Definition entry_lt (p q : TxnId * TxnId) : Prop := (p.1 < q.1)%Z /\ (p.2 <= q.2)%Z.

Definition stat_inv (s : TxnStat) : Prop :=
  StronglySorted entry_lt (activeTxnIds s) /\
  Forall (fun p => (1 <= p.1 < maxTxnId s)%Z /\ (0 <= p.2 <= maxVersionId s)%Z) (activeTxnIds s) /\
  (1 <= maxTxnId s <= UINT64_MAX)%Z /\ (0 <= maxVersionId s < UINT64_MAX)%Z.

Lemma smap_emplace_last k v l :
  Forall (fun p => (p.1 < k)%Z) l -> smap_emplace k v l = l ++ [(k, v)].
Proof.
  induction 1 as [|[k' v'] l Hk Hl IH]; simpl in *; [done|].
  destruct (Z.ltb_spec k k'); [lia|]. destruct (Z.eqb_spec k k'); [lia|]. by rewrite IH.
Qed.

Lemma StronglySorted_filter {A} (R : A -> A -> Prop) (P : A -> Prop)
    `{forall x, Decision (P x)} (l : list A) :
  StronglySorted R l -> StronglySorted R (filter P l).
Proof.
  induction 1 as [|x l Hs IH Hall]; [constructor|].
  rewrite filter_cons. case_decide; [|done]. constructor; [done|].
  apply Forall_forall. intros y [_ Hy]%list_elem_of_filter.
  rewrite Forall_forall in Hall. auto.
Qed.

Lemma StronglySorted_snoc {A} (R : A -> A -> Prop) (l : list A) (x : A) :
  StronglySorted R l -> Forall (fun y => R y x) l -> StronglySorted R (l ++ [x]).
Proof.
  induction 1 as [|y l Hs IH Hall]; intros Hx; simpl.
  - repeat constructor.
  - apply Forall_cons in Hx as [Hyx Hx]. constructor; [auto|].
    apply Forall_app; split; [done|by constructor].
Qed.

Lemma StronglySorted_weaken {A} (R R' : A -> A -> Prop) (l : list A) :
  StronglySorted R l -> (forall x y, x ∈ l -> y ∈ l -> R x y -> R' x y) -> StronglySorted R' l.
Proof.
  induction 1 as [|x l Hs IH Hall]; intros HR; constructor.
  - apply IH. intros y z Hy Hz. apply HR; by right.
  - apply Forall_forall. intros y Hy. rewrite Forall_forall in Hall. apply HR; [by left|by right|auto].
Qed.

(** What every interleaving keeps: ids are handed out once and increase, the
    registry is ordered by id and holds exactly the registered readers. *)
Record race_inv (st : RaceState) : Prop := {
  ri_txn : (1 <= maxTxnId (rs_stat st) <= UINT64_MAX)%Z;
  ri_version : (0 <= maxVersionId (rs_stat st) < UINT64_MAX)%Z;
  ri_sorted : StronglySorted (fun p q => (p.1 < q.1)%Z) (activeTxnIds (rs_stat st));
  ri_active : forall t v, (t, v) ∈ activeTxnIds (rs_stat st) <-> exists i, rs_readers st !! i = Some (RActive t v);
  ri_ids : forall i p t, rs_readers st !! i = Some p -> pcTxnId p = Some t -> (1 <= t < maxTxnId (rs_stat st))%Z;
  ri_unique : forall i j p q t, rs_readers st !! i = Some p -> rs_readers st !! j = Some q ->
    pcTxnId p = Some t -> pcTxnId q = Some t -> i = j;
  ri_known : forall i p t v, rs_readers st !! i = Some p -> pcSnapshot p = Some (t, v) ->
    (0 <= v <= maxVersionId (rs_stat st))%Z;
}.

(** What calm runs keep besides: snapshots grow with the ids, and a reader that
    is still to read the version has only the current version behind it. *)
Record calm_inv (st : RaceState) : Prop := {
  ci_race : race_inv st;
  ci_mono : forall i j p q t v t' v', rs_readers st !! i = Some p -> rs_readers st !! j = Some q ->
    pcSnapshot p = Some (t, v) -> pcSnapshot q = Some (t', v') -> (t < t')%Z -> (v <= v')%Z;
  ci_behind : forall i j q t t' v', rs_readers st !! i = Some (RGotTxnId t) -> rs_readers st !! j = Some q ->
    pcSnapshot q = Some (t', v') -> (t < t')%Z -> v' = maxVersionId (rs_stat st);
  ci_fresh : forall i t v, rs_readers st !! i = Some (RGotVersion t v) -> v = maxVersionId (rs_stat st);
}.

Lemma pcSnapshot_txnId p t v : pcSnapshot p = Some (t, v) -> pcTxnId p = Some t.
Proof. destruct p; simpl; congruence. Qed.

Lemma elem_of_smap_emplace k v l p :
  Forall (fun q => q.1 <> k) l -> (p ∈ smap_emplace k v l <-> p = (k, v) \/ p ∈ l).
Proof.
  induction 1 as [|[k' v'] l Hk Hl IH]; simpl in *; [set_solver|].
  destruct (Z.ltb_spec k k'); [set_solver|]. destruct (Z.eqb_spec k k'); [lia|]. set_solver.
Qed.

Lemma smap_emplace_sorted k v l :
  StronglySorted (fun p q : Z * Z => (p.1 < q.1)%Z) l ->
  StronglySorted (fun p q => (p.1 < q.1)%Z) (smap_emplace k v l).
Proof.
  induction 1 as [|[k' v'] l Hs IH Hall]; simpl.
  { repeat constructor. }
  destruct (Z.ltb_spec k k') as [Hlt|Hge].
  { constructor; [by constructor|]. constructor; [done|]. eapply Forall_impl; [exact Hall|]. simpl; lia. }
  destruct (Z.eqb_spec k k'); [by constructor|]. constructor; [done|].
  clear IH. induction l as [|[k2 v2] l IHl]; simpl.
  { constructor; [simpl; lia|constructor]. }
  apply Forall_cons in Hall as [Hk2 Hall]. apply StronglySorted_cons in Hs as [_ Hs]. simpl in *.
  destruct (Z.ltb_spec k k2); [|destruct (Z.eqb_spec k k2)]; repeat constructor; simpl in *; auto; lia.
Qed.

(** The readers after reader [i] moved to [p0]. *)
Lemma insert_cases (rs : list ReaderPc) i p0 j p :
  <[i := p0]> rs !! j = Some p -> (i = j /\ p = p0) \/ (i <> j /\ rs !! j = Some p).
Proof. intros [(-> & -> & _)|[? ?]]%list_lookup_insert_Some; auto. Qed.

Ltac reader_cases :=
  repeat match goal with
  | H : <[_ := _]> _ !! _ = Some _ |- _ => apply insert_cases in H as [[? ?]|[? H]]; simplify_eq/=
  end.

Lemma race_inv_init n : race_inv (initRace n).
Proof.
  split; simpl; try (unfold UINT64_MAX; lia).
  - constructor.
  - intros t v. split; [by intros ?%elem_of_nil|]. by intros (i & [? _]%lookup_replicate).
  - by intros i p t [-> _]%lookup_replicate.
  - by intros i j p q t [-> _]%lookup_replicate.
  - by intros i p t v [-> _]%lookup_replicate.
Qed.

(** The registered readers when reader [i] moves between states that are not
    registered. *)
Lemma active_move (rs : list ReaderPc) i p0 p1 t v :
  rs !! i = Some p0 -> (forall t v, p0 <> RActive t v) -> (forall t v, p1 <> RActive t v) ->
  (exists j, <[i := p1]> rs !! j = Some (RActive t v)) <-> (exists j, rs !! j = Some (RActive t v)).
Proof.
  intros Hi H0 H1. split; intros [j Hj]; exists j.
  - apply insert_cases in Hj as [[_ Hj]|[_ Hj]]; [by destruct (H1 t v)|done].
  - rewrite list_lookup_insert_ne; [done|]. intros ->. rewrite Hi in Hj. injection Hj. apply H0.
Qed.

Lemma race_inv_take_id s rs i :
  race_inv (mkRaceState s rs) -> rs !! i = Some RIdle -> (maxTxnId s < UINT64_MAX)%Z ->
  race_inv (mkRaceState (fetchAddMaxTxnId s).2 (<[i := RGotTxnId (maxTxnId s)]> rs)).
Proof.
  intros [Ht Hv Hs Ha Hid Hu Hk] Hi Hlt; simpl in *. unfold UINT64_MAX in *.
  split; unfold fetchAddMaxTxnId, u64, UINT64_MAX in *; cbn; rewrite ?Z.mod_small by lia; try lia; [done|..].
  - intros t v. rewrite Ha. symmetry. by apply (active_move rs i RIdle).
  - intros j p t Hj Hp. reader_cases; [lia|]. specialize (Hid _ _ _ Hj Hp). lia.
  - intros j j' p q t Hj Hj' Hp Hq. reader_cases; eauto.
    + specialize (Hid _ _ _ Hj Hp). lia.
    + specialize (Hid _ _ _ Hj' Hq). lia.
  - intros j p t v Hj Hp. reader_cases; eauto.
Qed.

Lemma race_inv_read_version s rs i t :
  race_inv (mkRaceState s rs) -> rs !! i = Some (RGotTxnId t) ->
  race_inv (mkRaceState s (<[i := RGotVersion t (maxVersionId s)]> rs)).
Proof.
  intros [Ht Hv Hs Ha Hid Hu Hk] Hi; simpl in *. split; simpl; [done..| | | |].
  - intros t0 v. rewrite Ha. symmetry. by apply (active_move rs i (RGotTxnId t)).
  - intros j p t' Hj Hp. reader_cases; eauto.
  - intros j j' p q t' Hj Hj' Hp Hq. reader_cases; eauto.
  - intros j p t' v Hj Hp. reader_cases; [lia|eauto].
Qed.

Lemma race_inv_register s rs i t v :
  race_inv (mkRaceState s rs) -> rs !! i = Some (RGotVersion t v) ->
  race_inv (mkRaceState (addActiveTxnId t v s) (<[i := RActive t v]> rs)).
Proof.
  intros [Ht Hv Hs Ha Hid Hu Hk] Hi; simpl in *. split; simpl; [done..| | | | |].
  - by apply smap_emplace_sorted.
  - intros t' v'. rewrite elem_of_smap_emplace.
    + rewrite Ha. split.
      * intros [[= -> ->]|[j Hj]].
        -- exists i. apply list_lookup_insert_eq. by apply lookup_lt_Some in Hi.
        -- exists j. rewrite list_lookup_insert_ne; [done|]. intros ->. congruence.
      * intros [j Hj]. reader_cases; [by left|]. right. by exists j.
    + apply Forall_forall. intros [t0 v0] Hin; simpl. intros ->. apply Ha in Hin as [j Hj].
      assert (j = i) as -> by by eapply Hu. congruence.
  - intros j p t' Hj Hp. reader_cases; [|by eauto]. by apply (Hid _ _ t' Hi eq_refl).
  - intros j j' p q t' Hj Hj' Hp Hq. reader_cases; eauto.
  - intros j p t' v' Hj Hp. reader_cases; [|by eauto]. by apply (Hk _ _ _ _ Hi eq_refl).
Qed.

Lemma race_inv_end s rs i t v :
  race_inv (mkRaceState s rs) -> rs !! i = Some (RActive t v) ->
  race_inv (mkRaceState (removeActiveTxnId t s) (<[i := RIdle]> rs)).
Proof.
  intros [Ht Hv Hs Ha Hid Hu Hk] Hi; simpl in *. split; simpl; [done..| | | | |].
  - by apply StronglySorted_filter.
  - intros t' v'. unfold smap_erase. rewrite list_elem_of_filter, Ha; simpl. split.
    + intros [Hne [j Hj]]. exists j. rewrite list_lookup_insert_ne; [done|]. intros ->. congruence.
    + intros [j Hj]. reader_cases. split; [|by exists j]. intros ->.
      assert (i = j) by by eapply Hu. done.
  - intros j p t' Hj Hp. reader_cases; eauto.
  - intros j j' p q t' Hj Hj' Hp Hq. reader_cases; eauto.
  - intros j p t' v' Hj Hp. reader_cases; eauto.
Qed.

Lemma race_inv_commit s rs :
  race_inv (mkRaceState s rs) -> (maxVersionId s + 1 < UINT64_MAX)%Z ->
  race_inv (mkRaceState (fetchAddMaxVersionId s).2 rs).
Proof.
  intros [Ht Hv Hs Ha Hid Hu Hk] Hlt; simpl in *. unfold UINT64_MAX in *.
  split; unfold fetchAddMaxVersionId, u64, UINT64_MAX; cbn; rewrite ?Z.mod_small by lia; try done; try lia.
  intros j p t v Hj Hp. specialize (Hk _ _ _ _ Hj Hp). lia.
Qed.

Lemma race_inv_step a b : race_inv a -> race_step a b -> race_inv b.
Proof.
  intros Ha Hstep. destruct Hstep as [s rs i t s1 Hi Hlt Hf|s rs i t Hi|s rs i t v Hi|s rs i t v Hi|s rs v s1 Hlt Hf].
  - pose proof (race_inv_take_id s rs i Ha Hi Hlt) as H. rewrite Hf in H. injection Hf as <- _. done.
  - by apply race_inv_read_version.
  - by apply race_inv_register.
  - by eapply race_inv_end.
  - pose proof (race_inv_commit s rs Ha Hlt) as H. by rewrite Hf in H.
Qed.

Lemma race_inv_reachable n st : rtc race_step (initRace n) st -> race_inv st.
Proof.
  intros Hr. pose proof (race_inv_init n) as H0. induction Hr; eauto using race_inv_step.
Qed.

Lemma calm_inv_step a b : calm_inv a -> calm_step a b -> calm_inv b.
Proof.
  intros [Hri Hm Hb Hf] [Hstep Hcalm]. split; [by eapply race_inv_step|..];
    destruct Hstep as [s rs i t0 s1 Hi Hlt Hfa|s rs i t0 Hi|s rs i t0 v0 Hi|s rs i t0 v0 Hi|s rs v0 s1 Hlt Hfa];
    simpl in *; try (unfold fetchAddMaxTxnId in Hfa; injection Hfa as <- <-); simpl in *.
  - intros j j' p q t v t' v' Hj Hj' Hp Hq Hlt'. reader_cases; eauto.
  - intros j j' p q t v t' v' Hj Hj' Hp Hq Hlt'. reader_cases; [lia| | |by eauto].
    + destruct Hri as [_ _ _ _ _ _ Hk]. specialize (Hk _ _ _ _ Hj Hp). simpl in Hk. lia.
    + pose proof (Hb _ _ _ _ _ _ Hi Hj' Hq Hlt'). lia.
  - intros j j' p q t v t' v' Hj Hj' Hp Hq Hlt'. reader_cases; [lia| | |by eauto].
    + by apply (Hm _ _ _ _ _ _ _ _ Hj Hi Hp eq_refl).
    + by apply (Hm _ _ _ _ _ _ _ _ Hi Hj' eq_refl Hq).
  - intros j j' p q t v t' v' Hj Hj' Hp Hq Hlt'. reader_cases; eauto.
  - intros j j' p q t v t' v' Hj Hj' Hp Hq Hlt'. eauto.
  - intros j j' q t t' v' Hj Hj' Hq Hlt'. reader_cases; [|by eauto].
    destruct Hri as [_ _ _ _ Hid _ _]. specialize (Hid _ _ _ Hj' (pcSnapshot_txnId _ _ _ Hq)). simpl in Hid. lia.
  - intros j j' q t t' v' Hj Hj' Hq Hlt'. reader_cases; eauto.
  - intros j j' q t t' v' Hj Hj' Hq Hlt'. reader_cases; [|by eauto].
    by apply (Hb _ _ _ _ _ _ Hj Hi eq_refl).
  - intros j j' q t t' v' Hj Hj' Hq Hlt'. reader_cases; eauto.
  - intros j j' q t t' v' Hj Hj' Hq Hlt'. destruct Hcalm as [Heq|Hall].
    + rewrite Heq. eauto.
    + rewrite Forall_lookup in Hall. by specialize (Hall _ _ Hj).
  - intros j t v Hj. reader_cases; eauto.
  - intros j t v Hj. reader_cases; eauto.
  - intros j t v Hj. reader_cases; eauto.
  - intros j t v Hj. reader_cases; eauto.
  - intros j t v Hj. destruct Hcalm as [Heq|Hall].
    + rewrite Heq. eauto.
    + rewrite Forall_lookup in Hall. by specialize (Hall _ _ Hj).
Qed.

Lemma calm_inv_reachable n st : rtc calm_step (initRace n) st -> calm_inv st.
Proof.
  intros Hr. assert (calm_inv (initRace n)) as H0.
  { split; [apply race_inv_init|..]; by intros i * [? _]%lookup_replicate; simplify_eq. }
  induction Hr; eauto using calm_inv_step.
Qed.

Lemma calm_race a b : rtc calm_step a b -> rtc race_step a b.
Proof. apply rtc_subrel. by intros ? ? []. Qed.

(** The registry in a calm run. *)
Lemma calm_stat_inv st : calm_inv st -> stat_inv (rs_stat st).
Proof.
  intros [[Ht Hv Hs Ha Hid _ Hk] Hm _ _]. split_and!; [| |lia..].
  - eapply StronglySorted_weaken; [exact Hs|]. intros [t v] [t' v'] [i Hi]%Ha [j Hj]%Ha Hlt; simpl in *.
    split; [done|]. by eapply (Hm i j).
  - apply Forall_forall. intros [t v] [i Hi]%Ha. simpl. split; [by eapply Hid|by eapply Hk].
Qed.

(** Two readers whose starts interleave with one commit: the smallest
    transaction id then carries a newer snapshot than another active reader,
    so the version the collector takes as the oldest in use is too new. *)
Theorem interleaved_start_breaks_oldest_reader :
  exists s, rtc race_step (initRace 2) s /\
    rs_readers s = [RActive 1 1; RActive 2 0] /\
    minActiveTxnId (rs_stat s) = (1, 1)%Z /\
    (2, 0)%Z ∈ activeTxnIds (rs_stat s).
Proof.
  eexists. split.
  { eapply rtc_l; [by apply (race_take_id _ _ 0 1)|].
    eapply rtc_l; [by apply (race_take_id _ _ 1 2)|].
    eapply rtc_l; [by apply (race_read_version _ _ 1 2)|].
    eapply rtc_l; [by apply (race_commit _ _ 0)|].
    eapply rtc_l; [by apply (race_read_version _ _ 0 1)|].
    eapply rtc_l; [by apply (race_register _ _ 0 1 1)|].
    eapply rtc_l; [by apply (race_register _ _ 1 2 0)|].
    apply rtc_refl. }
  split_and!; [reflexivity|reflexivity|vm_compute; set_solver].
Qed.

Lemma minActive_least s :
  StronglySorted (fun p q : TxnId * TxnId => (p.1 < q.1)%Z) (activeTxnIds s) -> activeTxnIds s <> [] ->
  minActiveTxnId s ∈ activeTxnIds s /\ Forall (fun p => ((minActiveTxnId s).1 <= p.1)%Z) (activeTxnIds s).
Proof.
  unfold minActiveTxnId. destruct (activeTxnIds s) as [|[t v] l]; [done|].
  intros [Hall _]%StronglySorted_cons _. split; [by left|]. constructor; [done|].
  eapply Forall_impl; [exact Hall|]. simpl; lia.
Qed.

(** C30. In every reachable state of the registry, whatever the interleaving, it
    holds the registered readers and the minimum names the one with the least
    id.  In a calm run no reader, registered or starting, has an older snapshot
    than that one; in other runs a registered reader may have. *)
Theorem oldest_reader_correct n st :
  rtc race_step (initRace n) st ->
  let s := rs_stat st in
  (forall t v, (t, v) ∈ activeTxnIds s <-> exists i, rs_readers st !! i = Some (RActive t v)) /\
  (minActiveTxnId s = (0, 0)%Z <-> forall i t v, rs_readers st !! i <> Some (RActive t v)) /\
  (activeTxnIds s <> [] ->
    minActiveTxnId s ∈ activeTxnIds s /\
    Forall (fun p => ((minActiveTxnId s).1 <= p.1)%Z) (activeTxnIds s) /\
    (rtc calm_step (initRace n) st ->
      forall i p t v, rs_readers st !! i = Some p -> pcSnapshot p = Some (t, v) ->
        ((minActiveTxnId s).2 <= v)%Z)) /\
  (exists st', rtc race_step (initRace 2) st' /\ exists t v, (t, v) ∈ activeTxnIds (rs_stat st') /\
    (v < (minActiveTxnId (rs_stat st')).2)%Z).
Proof.
  intros Hr s. pose proof (race_inv_reachable n st Hr) as [Ht _ Hs Ha Hid _ Hk]. fold s in Ht, Hs, Ha, Hid, Hk.
  split_and!; [exact Ha|..].
  - split.
    + intros Hmin i t v Hi. pose proof (proj2 (Ha t v) (ex_intro _ i Hi)) as Hin.
      destruct (minActive_least s Hs) as [Hm _]; [by intros E; rewrite E in Hin; apply elem_of_nil in Hin|].
      rewrite Hmin in Hm. apply Ha in Hm as [j Hj]. specialize (Hid _ _ _ Hj eq_refl). lia.
    + intros Hno. unfold minActiveTxnId. destruct (activeTxnIds s) as [|[t v] l]; [done|].
      destruct (proj1 (Ha t v)) as [i Hi]; [by left|]. by destruct (Hno i t v).
  - intros Hne. destruct (minActive_least s Hs Hne) as [Hm Hall]. split_and!; [done..|].
    intros Hc i p t v Hi Hp. apply calm_inv_reachable in Hc as [_ Hmono _ Hfresh].
    destruct (minActiveTxnId s) as [t0 v0]; simpl in *. pose proof Hm as [j Hj]%Ha.
    destruct p as [|t1|t1 v1|t1 v1]; simpl in Hp; simplify_eq.
    + rewrite (Hfresh _ _ _ Hi). by apply (Hk _ _ _ _ Hj eq_refl).
    + rewrite Forall_forall in Hall. pose proof (Hall (t, v) (proj2 (Ha t v) (ex_intro _ i Hi))) as Hle.
      simpl in Hle. destruct (decide (t0 = t)) as [->|Hneq]; [|apply (Hmono _ _ _ _ _ _ _ _ Hj Hi eq_refl eq_refl); lia].
      pose proof (ri_unique _ (race_inv_reachable n st Hr) _ _ _ _ _ Hi Hj eq_refl eq_refl). naive_solver.
  - destruct interleaved_start_breaks_oldest_reader as (st' & H1 & _ & H2 & H3).
    exists st'. split; [done|]. exists 2%Z, 0%Z. rewrite H2. by split.
Qed.

Lemma isLastMin_spec s t v :
  stat_inv s -> (t, v) ∈ activeTxnIds s ->
  exists b, isLastMinVersionId t s = Ok b /\
    (b = true <-> Forall (fun p => (v < p.2)%Z) (smap_erase t (activeTxnIds s))).
Proof.
  intros (Hsort & _) Hin. unfold isLastMinVersionId, smap_erase.
  destruct (activeTxnIds s) as [|[t0 v0] l]; [set_solver|].
  apply StronglySorted_cons in Hsort as [Hlt Hsort]. rewrite Forall_forall in Hlt.
  assert (filter (fun p => p.1 <> t0) l = l) as Hl.
  { apply filter_keep_all, Forall_forall. intros p Hp. destruct (Hlt p Hp); simpl in *; lia. }
  destruct (Z.eqb_spec t0 t) as [->|Hne].
  - apply elem_of_cons in Hin as [[= ->]|Hin]; [|destruct (Hlt _ Hin); simpl in *; lia].
    rewrite filter_cons, decide_False by (simpl; tauto). rewrite Hl.
    destruct l as [|[t1 v1] l]; [by exists true|]. exists (v0 <? v1)%Z. split; [done|].
    rewrite Z.ltb_lt, Forall_cons; simpl. split; [|tauto]. intros Hv. split; [done|].
    apply StronglySorted_cons in Hsort as [Hlt1 _].
    eapply Forall_impl; [exact Hlt1|]. unfold entry_lt; simpl; lia.
  - exists false. split; [done|]. split; [done|]. intros Hall. exfalso.
    apply elem_of_cons in Hin as [[= -> ->]|Hin]; [done|].
    rewrite filter_cons, decide_True in Hall by done.
    apply Forall_cons in Hall as [Hv _]. destruct (Hlt _ Hin); simpl in *. lia.
Qed.

(** In a calm run a finishing reader is told to collect exactly when every
    other active reader has a newer snapshot than its own. *)
Theorem last_min_version_correct n st t v :
  rtc calm_step (initRace n) st -> (t, v) ∈ activeTxnIds (rs_stat st) ->
  exists b, isLastMinVersionId t (rs_stat st) = Ok b /\
    (b = true <-> Forall (fun p => (v < p.2)%Z) (smap_erase t (activeTxnIds (rs_stat st)))).
Proof. intros Hs. by eapply isLastMin_spec, calm_stat_inv, calm_inv_reachable. Qed.
