(* ===== verification/SpinLock.v ===== *)
(** * The reader-writer spin lock

    Model of [RWSpinLock] of src/src/spinlock.hpp as a step relation over the
    two atomics of the lock and one program counter per thread.  Each step is
    one atomic access; the accesses interleave (sequentially consistent
    atomics, which is what the locked read-modify-write instructions of the
    x86 targets of the library give).  The delay counters and [yield] calls of
    the waiting loops do not touch shared state and are dropped. *)

From stdpp Require Import base list relations.
From Stdlib Require Import ZArith Lia.
From S2P Require Import Prelude.

(** Program counter of a thread.  [lock]: [WSpin] before the compare-and-swap
    of [tryLock], [WWait] in the loop that waits for the readers to leave,
    [WCrit] holding the lock exclusively.  [lockShared]: [RSpin] in the loop on
    [isWriting] of [tryLockShared], [RInc] before [fetch_add], [RCheck] before
    the second load of [isWriting], [RUndo] before the compensating
    [fetch_sub], [RCrit] holding the lock in shared mode. *)
Inductive Pc := Idle | WSpin | WWait | WCrit | RSpin | RInc | RCheck | RUndo | RCrit.
#[export] Instance Pc_eq_dec : EqDecision Pc.
Proof. solve_decision. Defined.

Record RWSpinLock := mkRWSpinLock {
  numOfReaders : Z;      (* std::atomic<unsigned int> *)
  isWriting : bool;
  threads : list Pc;
}.

Definition set_pc (i : nat) (p : Pc) (s : RWSpinLock) : RWSpinLock :=
  mkRWSpinLock (numOfReaders s) (isWriting s) (<[i := p]> (threads s)).

Inductive lock_step : RWSpinLock -> RWSpinLock -> Prop :=
(* void lock() *)
| step_lock s i : threads s !! i = Some Idle -> lock_step s (set_pc i WSpin s)
| step_tryLock_ok s i : threads s !! i = Some WSpin -> isWriting s = false ->
    lock_step s (mkRWSpinLock (numOfReaders s) true (<[i := WWait]> (threads s)))
| step_tryLock_fail s i : threads s !! i = Some WSpin -> isWriting s = true -> lock_step s s
| step_wait_readers s i : threads s !! i = Some WWait -> (numOfReaders s > 0)%Z -> lock_step s s
| step_no_readers s i : threads s !! i = Some WWait -> ~ (numOfReaders s > 0)%Z ->
    lock_step s (set_pc i WCrit s)
(* void unlock() *)
| step_unlock s i : threads s !! i = Some WCrit ->
    lock_step s (mkRWSpinLock (numOfReaders s) false (<[i := Idle]> (threads s)))
(* void lockShared(), bool tryLockShared() *)
| step_lockShared s i : threads s !! i = Some Idle -> lock_step s (set_pc i RSpin s)
| step_spin_writer s i : threads s !! i = Some RSpin -> isWriting s = true -> lock_step s s
| step_no_writer s i : threads s !! i = Some RSpin -> isWriting s = false ->
    lock_step s (set_pc i RInc s)
| step_fetch_add s i : threads s !! i = Some RInc ->
    lock_step s (mkRWSpinLock (u32 (numOfReaders s + 1)) (isWriting s) (<[i := RCheck]> (threads s)))
| step_check_fail s i : threads s !! i = Some RCheck -> isWriting s = true ->
    lock_step s (set_pc i RUndo s)
| step_undo s i : threads s !! i = Some RUndo ->
    lock_step s (mkRWSpinLock (u32 (numOfReaders s - 1)) (isWriting s) (<[i := RSpin]> (threads s)))
| step_check_ok s i : threads s !! i = Some RCheck -> isWriting s = false ->
    lock_step s (set_pc i RCrit s)
(* void unlockShared() *)
| step_unlockShared s i : threads s !! i = Some RCrit ->
    lock_step s (mkRWSpinLock (u32 (numOfReaders s - 1)) (isWriting s) (<[i := Idle]> (threads s))).

Definition initLock (n : nat) : RWSpinLock := mkRWSpinLock 0 false (replicate n Idle).

(** ** Counting threads by program counter *)
Definition is_counted (p : Pc) : bool := match p with RCheck | RUndo | RCrit => true | _ => false end.
Definition is_writer (p : Pc) : bool := match p with WWait | WCrit => true | _ => false end.

Definition count (f : Pc -> bool) (l : list Pc) : nat := length (filter (fun p => f p = true) l).

Lemma count_insert f l i p q :
  l !! i = Some p ->
  count f (<[i := q]> l) + (if f p then 1 else 0) = count f l + (if f q then 1 else 0).
Proof.
  unfold count. revert i. induction l as [|x l IH]; intros [|i] Hi; simplify_eq/=.
  - rewrite !filter_cons. destruct (f p), (f q); simpl; lia.
  - specialize (IH i Hi). rewrite !filter_cons. destruct (f x); simpl; lia.
Qed.

Lemma count_pos f l i p : l !! i = Some p -> f p = true -> 0 < count f l.
Proof.
  intros Hi Hp. pose proof (count_insert f l i p p Hi) as Hc. unfold count.
  assert (p ∈ filter (fun p => f p = true) l) as Hin.
  { apply list_elem_of_filter. split; [done|]. by eapply list_elem_of_lookup_2. }
  destruct (filter _ l); [by apply elem_of_nil in Hin|simpl; lia].
Qed.

Lemma count_zero f l i p : count f l = 0 -> l !! i = Some p -> f p = false.
Proof.
  intros Hz Hi. destruct (f p) eqn:E; [|done].
  pose proof (count_pos f l i p Hi E). lia.
Qed.

Lemma count_replicate f n p : f p = false -> count f (replicate n p) = 0.
Proof.
  intros Hp. unfold count. induction n; simpl; [done|]. by rewrite filter_cons, Hp.
Qed.

Lemma count_le f l : count f l <= length l.
Proof. apply length_filter. Qed.

(** ** The invariant *)
Definition lock_inv (s : RWSpinLock) : Prop :=
  numOfReaders s = Z.of_nat (count is_counted (threads s)) /\
  count is_writer (threads s) = (if isWriting s then 1 else 0) /\
  ((exists i, threads s !! i = Some WCrit) -> forall j, threads s !! j <> Some RCrit) /\
  (Z.of_nat (length (threads s)) <= UINT32_MAX)%Z.

Lemma lookup_insert_pc (l : list Pc) i j p q :
  <[i := p]> l !! j = Some q -> (i = j /\ p = q) \/ (i <> j /\ l !! j = Some q).
Proof.
  intros Hl. destruct (decide (i = j)) as [->|]; [left|right; by rewrite list_lookup_insert_ne in Hl].
  assert (j < length (<[j := p]> l)) as Hlt by (by apply lookup_lt_Some in Hl).
  rewrite length_insert in Hlt. rewrite list_lookup_insert_eq in Hl by done. by simplify_eq.
Qed.

(** Only [WCrit] and [RCrit] matter for exclusion: moving a thread to any
    other counter keeps it. *)
Lemma exclusion_insert (l : list Pc) i p :
  p <> WCrit -> p <> RCrit ->
  ((exists i, l !! i = Some WCrit) -> forall j, l !! j <> Some RCrit) ->
  (exists j, <[i := p]> l !! j = Some WCrit) -> forall j, <[i := p]> l !! j <> Some RCrit.
Proof.
  intros Hw Hr Hex [k Hk] j Hj.
  apply lookup_insert_pc in Hk as [[-> ->]|[_ Hk]]; [done|].
  apply lookup_insert_pc in Hj as [[-> ->]|[_ Hj]]; [done|].
  eapply Hex; eauto.
Qed.

Ltac lock_counts :=
  match goal with
  | Hi : threads ?s !! ?i = Some ?p |- context [<[?i := ?q]> (threads ?s)] =>
      let Hc := fresh "Hc" in let Hw := fresh "Hw" in
      pose proof (count_insert is_counted (threads s) i p q Hi) as Hc;
      pose proof (count_insert is_writer (threads s) i p q Hi) as Hw;
      cbn [is_counted is_writer] in Hc, Hw
  end.

Lemma lock_inv_step s s' : lock_inv s -> lock_step s s' -> lock_inv s'.
Proof.
  intros (Hn & Hw1 & Hex & Hlen) Hstep.
  pose proof (count_le is_counted (threads s)) as Hle.
  unfold lock_inv, set_pc, UINT32_MAX, u32 in *.
  destruct Hstep as [s i Hi|s i Hi Hf|s i Hi Hf|s i Hi Hgt|s i Hi Hgt|s i Hi|s i Hi|s i Hi Hf|s i Hi Hf
                    |s i Hi|s i Hi Hf|s i Hi|s i Hi Hf|s i Hi];
    unfold set_pc, u32; cbn [numOfReaders isWriting threads]; try exact (conj Hn (conj Hw1 (conj Hex Hlen)));
    lock_counts; rewrite length_insert;
    rewrite ?Hf in *;
    try (pose proof (count_le is_counted (<[i := RCheck]> (threads s))) as Hle';
         rewrite length_insert in Hle').
  (* the entry of a writer: no reader is counted, hence none is inside *)
  3: { split_and!; [lia|lia| |lia]. intros _ j Hj.
       apply lookup_insert_pc in Hj as [[-> ?]|[_ Hj]]; [done|].
       assert (0 < count is_counted (threads s)) by (by eapply count_pos). lia. }
  (* the entry of a reader: the writer flag is down, hence no writer is inside *)
  9: { split_and!; [lia|lia| |lia]. intros [k Hk] j Hj.
       apply lookup_insert_pc in Hk as [[-> ?]|[_ Hk]]; [done|].
       assert (0 < count is_writer (threads s)) by (by eapply count_pos). lia. }
  all: split_and!; [..|apply exclusion_insert; done|lia]; try lia.
  all: try (destruct (isWriting s); lia).
  all: try (rewrite Z.mod_small by lia; lia).
Qed.

Lemma lock_inv_init n : (Z.of_nat n <= UINT32_MAX)%Z -> lock_inv (initLock n).
Proof.
  intros Hn. unfold lock_inv, initLock; cbn [numOfReaders isWriting threads].
  rewrite !count_replicate, length_replicate by done. split_and!; try done.
  intros [i Hi]. apply lookup_replicate in Hi as [? _]. done.
Qed.

Lemma lock_inv_reachable n s :
  (Z.of_nat n <= UINT32_MAX)%Z -> rtc lock_step (initLock n) s -> lock_inv s.
Proof.
  intros Hn Hr. assert (lock_inv (initLock n)) as H0 by (by apply lock_inv_init).
  revert H0. induction Hr; eauto using lock_inv_step.
Qed.

Lemma count_two f l i j p q :
  f Idle = false -> i <> j -> l !! i = Some p -> l !! j = Some q ->
  f p = true -> f q = true -> 2 <= count f l.
Proof.
  intros Hidle Hij Hi Hj Hp Hq.
  pose proof (count_insert f l i p Idle Hi) as Hc. rewrite Hp, Hidle in Hc.
  assert (<[i := Idle]> l !! j = Some q) as Hj' by (by rewrite list_lookup_insert_ne).
  pose proof (count_pos f _ j q Hj' Hq). lia.
Qed.

(** C28. Mutual exclusion: in every reachable state of any number of threads (up to
    the range of the reader counter), a thread that holds the lock exclusively
    is alone: no other thread holds it exclusively or in shared mode. *)
Theorem rwlock_mutual_exclusion n s i j p :
  (Z.of_nat n <= UINT32_MAX)%Z -> rtc lock_step (initLock n) s ->
  threads s !! i = Some WCrit -> threads s !! j = Some p ->
  p = WCrit \/ p = RCrit -> i = j.
Proof.
  intros Hn Hr Hi Hj Hp. apply lock_inv_reachable in Hr as (_ & Hw & Hex & _); [|done].
  destruct (decide (i = j)) as [|Hne]; [done|exfalso]. destruct Hp as [->| ->].
  - pose proof (count_two is_writer _ _ _ _ _ eq_refl Hne Hi Hj eq_refl eq_refl).
    destruct (isWriting s); lia.
  - by apply (Hex (ex_intro _ i Hi) j).
Qed.

(** The reader counter never wraps: it equals the number of threads inside
    or between the two accesses of [tryLockShared]. *)
Theorem rwlock_reader_count n s :
  (Z.of_nat n <= UINT32_MAX)%Z -> rtc lock_step (initLock n) s ->
  numOfReaders s = Z.of_nat (count is_counted (threads s)) /\
  (0 <= numOfReaders s <= UINT32_MAX)%Z.
Proof.
  intros Hn Hr. apply lock_inv_reachable in Hr as (Hc & _ & _ & Hl); [|done].
  pose proof (count_le is_counted (threads s)). lia.
Qed.

(** When no thread holds or waits for the lock, a thread that asks for it as a
    writer gets it by steps of its own. *)
Theorem rwlock_progress s i :
  isWriting s = false -> numOfReaders s = 0%Z -> threads s !! i = Some Idle ->
  exists s', rtc lock_step s s' /\ threads s' !! i = Some WCrit.
Proof.
  intros Hw Hr Hi. assert (i < length (threads s)) as Hlt by (by apply lookup_lt_Some in Hi).
  eexists. split.
  - eapply rtc_l; [by apply (step_lock s i)|].
    eapply rtc_l.
    { apply (step_tryLock_ok _ i); [|done]. by apply list_lookup_insert_eq. }
    eapply rtc_l; [|apply rtc_refl].
    apply (step_no_readers _ i); cbn [threads numOfReaders set_pc].
    + apply list_lookup_insert_eq. by rewrite length_insert.
    + lia.
  - cbn. apply list_lookup_insert_eq. by rewrite !length_insert.
Qed.

(** ** Every run can be completed *)
Lemma steps_inv_lock s s' : rtc lock_step s s' -> lock_inv s -> lock_inv s'.
Proof. induction 1; eauto using lock_inv_step. Qed.

Definition is_idle (p : Pc) : bool := match p with Idle => true | _ => false end.
Definition is_reader (p : Pc) : bool := match p with RSpin | RInc | RCheck | RUndo | RCrit => true | _ => false end.
Definition busy (s : RWSpinLock) : nat := count (fun p => negb (is_idle p)) (threads s).

Lemma count_find f l : 0 < count f l -> exists i p, l !! i = Some p /\ f p = true.
Proof.
  unfold count. intros Hl. destruct (filter (fun p => f p = true) l) as [|p l'] eqn:E; [simpl in Hl; lia|].
  assert (p ∈ filter (fun p => f p = true) l) as Hp by (rewrite E; by left).
  apply list_elem_of_filter in Hp as [Hf Hp]. apply list_elem_of_lookup in Hp as [i Hi]. by exists i, p.
Qed.

(** While a writer has announced itself, the readers that are inside leave and
    those that find it step back: a reader counted now can be not counted. *)
Lemma uncount_reader s i p :
  isWriting s = true -> threads s !! i = Some p -> is_counted p = true ->
  exists q n, rtc lock_step s (mkRWSpinLock n true (<[i := q]> (threads s))) /\ is_counted q = false /\ is_writer q = false.
Proof.
  intros Hw Hi Hp. destruct p; try done.
  - exists RSpin, (u32 (numOfReaders s - 1)). split; [|done]. eapply rtc_l; [by apply (step_check_fail s i)|].
    apply rtc_once. unfold set_pc. rewrite Hw.
    assert (i < length (threads s)) as Hlt by (by eapply lookup_lt_Some).
    pose proof (step_undo (mkRWSpinLock (numOfReaders s) true (<[i := RUndo]> (threads s))) i) as H.
    cbn [threads numOfReaders isWriting] in H. rewrite list_insert_insert_eq in H. apply H. by apply list_lookup_insert_eq.
  - exists RSpin, (u32 (numOfReaders s - 1)). split; [|done]. apply rtc_once. rewrite <- Hw. by apply step_undo.
  - exists Idle, (u32 (numOfReaders s - 1)). split; [|done]. apply rtc_once. rewrite <- Hw. by apply step_unlockShared.
Qed.

Lemma writer_leaves s : lock_inv s -> isWriting s = true -> exists s', rtc lock_step s s' /\ isWriting s' = false.
Proof.
  remember (count is_counted (threads s)) as n eqn:Hn. revert s Hn. induction n as [n IH] using lt_wf_ind.
  intros s -> Hinv Hw. pose proof Hinv as (Hc & Hwr & _ & _). rewrite Hw in Hwr.
  destruct (count_find is_writer (threads s)) as (i & p & Hi & Hp); [lia|].
  assert (i < length (threads s)) as Hlt by (by eapply lookup_lt_Some).
  destruct (decide (count is_counted (threads s) = 0)) as [Hz|Hnz].
  - assert (forall s, threads s !! i = Some WCrit -> exists s', rtc lock_step s s' /\ isWriting s' = false) as Hcrit.
    { intros s1 H1. eexists. split; [by apply rtc_once, (step_unlock s1 i)|done]. }
    destruct p; try done; [|by apply Hcrit]. destruct (Hcrit (set_pc i WCrit s)) as (s' & Hs' & ?).
    { by apply list_lookup_insert_eq. }
    exists s'. split; [|done]. eapply rtc_l; [|done]. apply step_no_readers; [done|lia].
  - destruct (count_find is_counted (threads s)) as (j & q & Hj & Hq); [lia|].
    destruct (uncount_reader s j q Hw Hj Hq) as (q' & m & Hsteps & Hq' & Hqw).
    pose proof (count_insert is_counted (threads s) j q q' Hj) as Hci. rewrite Hq, Hq' in Hci.
    destruct (IH (count is_counted (<[j := q']> (threads s))) ltac:(lia) (mkRWSpinLock m true (<[j := q']> (threads s))))
      as (s' & ? & ?); try done; [by eapply steps_inv_lock|].
    exists s'. split; [by etrans|done].
Qed.

(** With no writer, a reader wherever it is goes in and out. *)
Lemma reader_leaves s i p :
  isWriting s = false -> threads s !! i = Some p -> is_reader p = true ->
  exists n, rtc lock_step s (mkRWSpinLock n false (<[i := Idle]> (threads s))).
Proof.
  assert (forall s i q s', threads s !! i = Some q -> (forall s, threads s !! i = Some q -> isWriting s = false ->
      exists n, rtc lock_step s (mkRWSpinLock n false (<[i := Idle]> (threads s)))) ->
    isWriting s' = false -> (exists p, threads s' !! i = Some p) -> threads s = <[i := q]> (threads s') -> isWriting s = false ->
    lock_step s' s -> exists n, rtc lock_step s' (mkRWSpinLock n false (<[i := Idle]> (threads s')))) as Hstep.
  { intros s1 j q s' Hq Hrun Hw' _ Ht Hw Hst. destruct (Hrun s1 Hq Hw) as [n Hn]. exists n.
    eapply rtc_l; [done|]. rewrite Ht, list_insert_insert_eq in Hn. exact Hn. }
  assert (forall i q s', threads s' !! i = Some q -> i < length (threads s')) as Hlen by (intros; by eapply lookup_lt_Some).
  assert (forall s, threads s !! i = Some RCrit -> isWriting s = false ->
    exists n, rtc lock_step s (mkRWSpinLock n false (<[i := Idle]> (threads s)))) as H1.
  { intros s1 Hi Hw. exists (u32 (numOfReaders s1 - 1)). rewrite <- Hw. by apply rtc_once, step_unlockShared. }
  assert (forall s, threads s !! i = Some RCheck -> isWriting s = false ->
    exists n, rtc lock_step s (mkRWSpinLock n false (<[i := Idle]> (threads s)))) as H2.
  { intros s1 Hi Hw. eapply (Hstep (set_pc i RCrit s1) i RCrit); eauto; [by apply list_lookup_insert_eq, (Hlen i RCheck)|].
    by apply step_check_ok. }
  assert (forall s, threads s !! i = Some RInc -> isWriting s = false ->
    exists n, rtc lock_step s (mkRWSpinLock n false (<[i := Idle]> (threads s)))) as H3.
  { intros s1 Hi Hw. eapply (Hstep (mkRWSpinLock (u32 (numOfReaders s1 + 1)) (isWriting s1) (<[i := RCheck]> (threads s1))) i RCheck);
      eauto; [by apply list_lookup_insert_eq, (Hlen i RInc)|]. by apply step_fetch_add. }
  assert (forall s, threads s !! i = Some RSpin -> isWriting s = false ->
    exists n, rtc lock_step s (mkRWSpinLock n false (<[i := Idle]> (threads s)))) as H4.
  { intros s1 Hi Hw. eapply (Hstep (set_pc i RInc s1) i RInc); eauto; [by apply list_lookup_insert_eq, (Hlen i RSpin)|].
    by apply step_no_writer. }
  intros Hw Hi Hp. destruct p; try done; eauto.
  eapply (Hstep (mkRWSpinLock (u32 (numOfReaders s - 1)) (isWriting s) (<[i := RSpin]> (threads s))) i RSpin);
    eauto; [by apply list_lookup_insert_eq, (Hlen i RUndo)|]. by apply step_undo.
Qed.

(** With no writer and no reader, a waiting writer goes in and out. *)
Lemma waiting_leaves s i :
  isWriting s = false -> numOfReaders s = 0%Z -> threads s !! i = Some WSpin ->
  rtc lock_step s (mkRWSpinLock 0 false (<[i := Idle]> (threads s))).
Proof.
  intros Hw Hr Hi. assert (i < length (threads s)) as Hlt by (by eapply lookup_lt_Some).
  eapply rtc_l; [by apply (step_tryLock_ok s i)|]. rewrite Hr.
  eapply rtc_l; [apply (step_no_readers _ i); [by apply list_lookup_insert_eq|done]|].
  unfold set_pc. cbn [threads numOfReaders isWriting]. rewrite list_insert_insert_eq.
  eapply rtc_l; [apply (step_unlock _ i); by apply list_lookup_insert_eq|].
  cbn [threads numOfReaders]. by rewrite list_insert_insert_eq.
Qed.

Lemma reader_or_waiting s :
  lock_inv s -> isWriting s = false -> 0 < busy s ->
  exists n i p, rtc lock_step s (mkRWSpinLock n false (<[i := Idle]> (threads s))) /\ threads s !! i = Some p /\ p <> Idle.
Proof.
  intros (Hc & Hwr & _ & _) Hw Hb. rewrite Hw in Hwr.
  destruct (decide (count is_reader (threads s) = 0)) as [Hz|Hnz].
  - destruct (count_find _ _ Hb) as (i & p & Hi & Hp).
    pose proof (count_zero is_reader _ i p Hz Hi). pose proof (count_zero is_writer _ i p Hwr Hi).
    destruct p; try done. exists 0%Z, i, WSpin. split; [|done]. apply waiting_leaves; [done| |done]. rewrite Hc.
    destruct (decide (count is_counted (threads s) = 0)) as [->|Hn]; [done|].
    destruct (count_find is_counted (threads s)) as (j & q & Hj & Hq); [lia|].
    pose proof (count_zero is_reader _ j q Hz Hj). by destruct q.
  - destruct (count_find is_reader (threads s)) as (i & p & Hi & Hp); [lia|].
    destruct (reader_leaves s i p Hw Hi Hp) as [n Hn]. exists n, i, p. split_and!; [done|done|by intros ->].
Qed.

Lemma drains_free s :
  lock_inv s -> isWriting s = false ->
  exists s', rtc lock_step s s' /\ busy s' = 0 /\ isWriting s' = false.
Proof.
  remember (busy s) as n eqn:Hn. revert s Hn. induction n as [n IH] using lt_wf_ind. intros s -> Hinv Hw.
  destruct (decide (busy s = 0)) as [Hz|Hnz]; [by exists s|].
  destruct (reader_or_waiting s Hinv Hw) as (m & i & p & Hsteps & Hi & Hp); [lia|].
  pose proof (count_insert (fun p => negb (is_idle p)) (threads s) i p Idle Hi) as Hci.
  assert (negb (is_idle p) = true) as Hpi by (by destruct p). cbv beta in Hci. rewrite Hpi in Hci. cbn in Hci.
  destruct (IH (busy (mkRWSpinLock m false (<[i := Idle]> (threads s))))) with
    (s := mkRWSpinLock m false (<[i := Idle]> (threads s))) as (s' & ? & ?); try done.
  { unfold busy in *. cbn [threads]. lia. }
  { by eapply steps_inv_lock. }
  exists s'. split; [by etrans|done].
Qed.

(** C29. Freedom from deadlock: from every reachable state, whatever the threads were
    doing, the threads can be scheduled so that all of them have the lock in
    turn and leave it, and the lock is free. *)
Theorem rwlock_drains n s :
  (Z.of_nat n <= UINT32_MAX)%Z -> rtc lock_step (initLock n) s ->
  exists s', rtc lock_step s s' /\ isWriting s' = false /\ numOfReaders s' = 0%Z /\
    forall i p, threads s' !! i = Some p -> p = Idle.
Proof.
  intros Hn Hr. apply lock_inv_reachable in Hr as Hinv; [|done].
  assert (exists s1, rtc lock_step s s1 /\ isWriting s1 = false) as (s1 & H1 & Hw1).
  { destruct (isWriting s) eqn:Hw; [by apply writer_leaves|by exists s]. }
  pose proof (steps_inv_lock _ _ H1 Hinv) as Hinv1.
  destruct (drains_free s1 Hinv1 Hw1) as (s2 & H2 & Hb & Hw2).
  pose proof (steps_inv_lock _ _ H2 Hinv1) as (Hc & _).
  assert (forall i p, threads s2 !! i = Some p -> p = Idle) as Hidle.
  { intros i p Hi. pose proof (count_zero _ _ i p Hb Hi) as Hp. by destruct p. }
  exists s2. split_and!; [by etrans|done| |done]. rewrite Hc.
  destruct (decide (count is_counted (threads s2) = 0)) as [->|Hnz]; [done|].
  destruct (count_find is_counted (threads s2)) as (j & q & Hj & Hq); [lia|].
  by rewrite (Hidle j q Hj) in Hq.
Qed.

(** ** Guards: [RWSpinLockGuard] *)
Inductive RWSpinLockMode := SHARED_SPLOCK | EXCLUSIVE_SPLOCK.

(** The constructor starts [lockShared] or [lock]; the destructor runs
    [unlockShared] or [unlock]. *)
Definition guardConstruct (mode : RWSpinLockMode) (i : nat) (s : RWSpinLock) : RWSpinLock :=
  match mode with SHARED_SPLOCK => set_pc i RSpin s | EXCLUSIVE_SPLOCK => set_pc i WSpin s end.
Definition guardDestruct (mode : RWSpinLockMode) (i : nat) (s : RWSpinLock) : RWSpinLock :=
  match mode with
  | SHARED_SPLOCK => mkRWSpinLock (u32 (numOfReaders s - 1)) (isWriting s) (<[i := Idle]> (threads s))
  | EXCLUSIVE_SPLOCK => mkRWSpinLock (numOfReaders s) false (<[i := Idle]> (threads s))
  end.
(** Where a thread is while its guard lives. *)
Definition guardedBy (mode : RWSpinLockMode) : Pc :=
  match mode with SHARED_SPLOCK => RCrit | EXCLUSIVE_SPLOCK => WCrit end.

(** Two guards of one lock live at the same time only when both are shared, and
    a guard gives back what it took. *)
Theorem guards_exclude n s i j m m' :
  (Z.of_nat n <= UINT32_MAX)%Z -> rtc lock_step (initLock n) s -> i <> j ->
  threads s !! i = Some (guardedBy m) -> threads s !! j = Some (guardedBy m') ->
  m = SHARED_SPLOCK /\ m' = SHARED_SPLOCK /\ lock_step s (guardDestruct m i s).
Proof.
  intros Hn Hr Hne Hi Hj. apply lock_inv_reachable in Hr as (_ & Hw & Hex & _); [|done].
  destruct m, m'; simpl in *.
  - split_and!; [done..|]. by apply step_unlockShared.
  - exfalso. by apply (Hex (ex_intro _ j Hj) i).
  - exfalso. by apply (Hex (ex_intro _ i Hi) j).
  - exfalso. pose proof (count_two is_writer _ _ _ _ _ eq_refl Hne Hi Hj eq_refl eq_refl). destruct (isWriting s); lia.
Qed.

Lemma guardConstruct_step m i s : threads s !! i = Some Idle -> lock_step s (guardConstruct m i s).
Proof. destruct m; [apply step_lockShared|apply step_lock]. Qed.
Lemma guardDestruct_step m i s : threads s !! i = Some (guardedBy m) -> lock_step s (guardDestruct m i s).
Proof. destruct m; [apply step_unlockShared|apply step_unlock]. Qed.

(** ** The test-and-set lock: [SpinLock] and [SpinLockGuard] *)
Module TestAndSet.
Inductive SPc := SIdle | SSpin | SCrit.

Record SpinLock := mkSpinLock {
  flag : bool;                       (* std::atomic_flag *)
  spinners : list SPc;
}.

(** [acquireLock] (the constructor of the guard) loops on [test_and_set];
    [releaseLock] (its destructor) clears the flag. *)
Inductive spin_step : SpinLock -> SpinLock -> Prop :=
| spin_acquire s i : spinners s !! i = Some SIdle -> spin_step s (mkSpinLock (flag s) (<[i := SSpin]> (spinners s)))
| spin_set s i : spinners s !! i = Some SSpin -> flag s = false -> spin_step s (mkSpinLock true (<[i := SCrit]> (spinners s)))
| spin_busy s i : spinners s !! i = Some SSpin -> flag s = true -> spin_step s (mkSpinLock true (spinners s))
| spin_release s i : spinners s !! i = Some SCrit -> spin_step s (mkSpinLock false (<[i := SIdle]> (spinners s))).

Definition initSpinLock (n : nat) : SpinLock := mkSpinLock false (replicate n SIdle).

(** The flag is up when some thread is inside, and there is one only. *)
Definition spin_inv (s : SpinLock) : Prop :=
  (forall i, spinners s !! i = Some SCrit -> flag s = true) /\
  (flag s = true -> exists i, spinners s !! i = Some SCrit /\ forall j, spinners s !! j = Some SCrit -> j = i).

Lemma lookup_insert_spc (l : list SPc) i j p q :
  <[i := p]> l !! j = Some q -> (i = j /\ p = q) \/ (i <> j /\ l !! j = Some q).
Proof. intros [(<- & <- & _)|[? ?]]%list_lookup_insert_Some; auto. Qed.

Lemma spin_inv_step s s' : spin_step s s' -> spin_inv s -> spin_inv s'.
Proof.
  destruct 1 as [s i Hi|s i Hi Hf|s i Hi Hf|s i Hi]; intros [H1 H2];
    (assert (i < length (spinners s)) as Hlt by (by eapply lookup_lt_Some)); split; cbn [flag spinners] in *.
  - intros j [[_ [=]]|[_ Hj]]%lookup_insert_spc. by eapply H1.
  - intros (k & Hk & Hu)%H2. exists k. split.
    + rewrite list_lookup_insert_ne; [done|]. intros ->. congruence.
    + intros j [[_ [=]]|[_ Hj]]%lookup_insert_spc. by apply Hu.
  - done.
  - intros _. exists i. split; [by apply list_lookup_insert_eq|].
    intros j [[<- _]|[_ Hj]]%lookup_insert_spc; [done|]. apply H1 in Hj. congruence.
  - done.
  - intros _. by apply H2.
  - intros j [[_ [=]]|[Hne Hj]]%lookup_insert_spc. destruct H2 as (k & _ & Hu); [by eapply H1|].
    destruct Hne. by rewrite (Hu i Hi), (Hu j Hj).
  - done.
Qed.

(** Mutual exclusion and progress of [SpinLock]: at most one thread is inside,
    and while one spins, the one inside or itself can take a step that lets it
    in. *)
Theorem spinlock_exclusion n s :
  rtc spin_step (initSpinLock n) s ->
  (forall i j, spinners s !! i = Some SCrit -> spinners s !! j = Some SCrit -> i = j) /\
  (forall i, spinners s !! i = Some SSpin -> exists s', rtc spin_step s s' /\ spinners s' !! i = Some SCrit).
Proof.
  intros Hr. assert (spin_inv s) as [H1 H2].
  { assert (spin_inv (initSpinLock n)) as H0 by (split; [by intros i [? _]%lookup_replicate|done]).
    revert H0. induction Hr; eauto using spin_inv_step. }
  assert (forall s i, spinners s !! i = Some SSpin -> flag s = false ->
    exists s', rtc spin_step s s' /\ spinners s' !! i = Some SCrit) as Hfree.
  { intros s1 i Hi Hf. eexists. split; [by apply rtc_once, (spin_set s1 i)|].
    apply list_lookup_insert_eq. by eapply lookup_lt_Some. }
  split.
  - intros i j Hi Hj. destruct (H2 (H1 i Hi)) as (k & _ & Hu). by rewrite (Hu i Hi), (Hu j Hj).
  - intros i Hi. destruct (flag s) eqn:Hf; [|by apply Hfree]. destruct (H2 eq_refl) as (k & Hk & _).
    destruct (Hfree (mkSpinLock false (<[k := SIdle]> (spinners s))) i) as (s' & ? & ?); [|done|].
    { cbn [spinners]. rewrite list_lookup_insert_ne; [done|]. intros ->. congruence. }
    exists s'. split; [|done]. eapply rtc_l; [by apply (spin_release s k)|done].
Qed.
End TestAndSet.
