(* ===== verification/Types.v ===== *)
(** * Data types of the public interface

    The enumerations and descriptor structures of include/nogdb/nogdb_types.h,
    the constants of src/src/constant.hpp, and the textual form of record ids
    ([rid2str] of src/src/graph.hpp, [split] of src/src/utils.cpp). *)

From stdpp Require Import base gmap list strings.
From Stdlib Require Import ZArith Lia Ascii String.
From S2P Require Import Prelude.
Local Open Scope string_scope.

Inductive PropertyType :=
| TINYINT | UNSIGNED_TINYINT | SMALLINT | UNSIGNED_SMALLINT | INTEGER | UNSIGNED_INTEGER
| BIGINT | UNSIGNED_BIGINT | TEXT | REAL | BLOB | PT_UNDEFINED.
#[export] Instance PropertyType_eq_dec : EqDecision PropertyType.
Proof. solve_decision. Defined.

Inductive ClassType := VERTEX | EDGE | CT_UNDEFINED.
#[export] Instance ClassType_eq_dec : EqDecision ClassType.
Proof. solve_decision. Defined.

(** The enumerators' character codes, as stored in the data store. *)
Definition PropertyType_code (t : PropertyType) : Z :=
  match t with
  | TINYINT => 105 | UNSIGNED_TINYINT => 73 | SMALLINT => 115 | UNSIGNED_SMALLINT => 83
  | INTEGER => 100 | UNSIGNED_INTEGER => 68 | BIGINT => 108 | UNSIGNED_BIGINT => 76
  | TEXT => 116 | REAL => 102 | BLOB => 98 | PT_UNDEFINED => 110
  end.

Definition ClassType_code (t : ClassType) : Z :=
  match t with VERTEX => 118 | EDGE => 101 | CT_UNDEFINED => 110 end.

Record DBInfo := mkDBInfo {
  maxPropertyId : PropertyId;
  numProperty : PropertyId;
  maxClassId : ClassId;
  numClass : ClassId;
  maxIndexId : IndexId;
  numIndex : IndexId;
}.

(** [Schema::IndexInfo]: a multimap from class ids to (index id, unique). *)
Abbreviation SIndexInfo := (list (ClassId * (IndexId * bool))).
(** [nogdb::IndexInfo]: a map from index ids to (class id, unique). *)
Abbreviation IndexInfo := (gmap IndexId (ClassId * bool)).

(** [nogdb::PropertyDescriptor], the public one. *)
Record PropertyDescriptor := mkPropertyDescriptor {
  pd_id : PropertyId;
  pd_type : PropertyType;
  pd_indexInfo : IndexInfo;
}.

(** Constants of src/src/constant.hpp. *)
Definition CLASS_NAME_PROPERTY_ID : Z := 0.
Definition CLASS_NAME_PROPERTY : string := "@className".
Definition RECORD_ID_PROPERTY_ID : Z := 1.
Definition RECORD_ID_PROPERTY : string := "@recordId".
Definition DEPTH_PROPERTY_ID : Z := 2.
Definition DEPTH_PROPERTY : string := "@depth".
Definition VERSION_PROPERTY_ID : Z := 3.
Definition VERSION_PROPERTY : string := "@version".
Definition TXN_VERSION_ID : Z := 4.
Definition TXN_VERSION : string := "@txnVersion".
Definition EM_MAXRECNUM : Z := 0.
Definition INIT_NUM_CLASSES : Z := 4.
Definition INIT_NUM_PROPERTIES : Z := 5.

(** ** Characters and bytes *)
Definition byte_of_ascii (c : ascii) : byte := Z.of_nat (nat_of_ascii c).
Definition ascii_of_byte (b : byte) : ascii := ascii_of_nat (Z.to_nat b).

Fixpoint bytes_of_string (s : string) : list byte :=
  match s with
  | EmptyString => []
  | String c s' => byte_of_ascii c :: bytes_of_string s'
  end.

Fixpoint string_of_bytes (l : list byte) : string :=
  match l with
  | [] => ""
  | b :: l' => String (ascii_of_byte b) (string_of_bytes l')
  end.

Lemma string_of_bytes_of_string s : string_of_bytes (bytes_of_string s) = s.
Proof.
  induction s as [|c s IH]; simpl; [done|]. rewrite IH. f_equal.
  unfold ascii_of_byte, byte_of_ascii. by rewrite Nat2Z.id, ascii_nat_embedding.
Qed.

Lemma length_bytes_of_string s : List.length (bytes_of_string s) = String.length s.
Proof. induction s; simpl; auto. Qed.

(** ** Strings in order *)

(** [std::string] comparison: lexicographic by unsigned bytes. *)
Fixpoint text_ltb (a b : list byte) : bool :=
  match a, b with
  | [], [] => false
  | [], _ :: _ => true
  | _ :: _, [] => false
  | x :: a', y :: b' => (x <? y)%Z || ((x =? y)%Z && text_ltb a' b')
  end.
Definition text_eqb (a b : list byte) : bool := bool_decide (a = b).
Definition text_leb (a b : list byte) : bool := negb (text_ltb b a).

Lemma text_ltb_irrefl a : text_ltb a a = false.
Proof. induction a as [|x a IH]; simpl; [done|]. rewrite IH. lia. Qed.

Lemma text_ltb_trans a b c : text_ltb a b = true -> text_ltb b c = true -> text_ltb a c = true.
Proof.
  revert b c; induction a as [|x a IH]; intros [|y b] [|z c]; simpl; try done.
  intros H1 H2. specialize (IH b c). destruct (text_ltb a b), (text_ltb b c), (text_ltb a c);
    try (specialize (IH eq_refl eq_refl); discriminate); lia.
Qed.

Lemma text_ltb_total a b : text_ltb a b = false -> text_ltb b a = false -> a = b.
Proof.
  revert b; induction a as [|x a IH]; intros [|y b]; simpl; try done.
  intros H1 H2. assert (x = y) as <- by lia.
  rewrite Z.ltb_irrefl, Z.eqb_refl in H1, H2. f_equal. by apply IH.
Qed.

(** ** Decimal text: [std::to_string] on unsigned values *)
Fixpoint digits_aux (fuel : nat) (z : Z) : list Z :=
  match fuel with
  | O => []
  | S f => if (z <? 10)%Z then [z] else (digits_aux f (z / 10)%Z ++ [(z mod 10)%Z])%list
  end.

(** Twenty digits cover every 64-bit value. *)
Definition to_string (z : Z) : list byte := (fun d => (48 + d)%Z) <$> digits_aux 20 z.

(** The decimal branch of [std::stoul(s, nullptr, 0)]: the value of a string
    of decimal digits (keys written by [to_string] have no leading zero). *)
Definition stoul (l : list byte) : Z := foldl (fun acc b => (acc * 10 + (b - 48))%Z) 0%Z l.

(** ** Record ids as text: [rid2str] and [split] *)
Definition colon : byte := 58.

Definition rid2str (rid : RecordId) : list byte :=
  (to_string rid.1 ++ [colon] ++ to_string rid.2)%list.

(** [split]: [std::getline] until the stream is exhausted, so a trailing
    delimiter does not open an empty last field. *)
Fixpoint split_aux (cur : list byte) (l : list byte) (d : byte) : list (list byte) :=
  match l with
  | [] => match cur with [] => [] | _ => [reverse cur] end
  | b :: l' => if (b =? d)%Z then reverse cur :: split_aux [] l' d else split_aux (b :: cur) l' d
  end.

Definition split (l : list byte) (delimeter : byte) : list (list byte) := split_aux [] l delimeter.

Lemma split_aux_field cur f l d :
  Forall (fun b => b <> d) f ->
  split_aux cur (f ++ d :: l) d = (reverse cur ++ f)%list :: split_aux [] l d.
Proof.
  intros Hf. revert cur. induction Hf as [|b f Hb Hf IH]; intros cur; simpl.
  - by rewrite Z.eqb_refl, app_nil_r.
  - destruct (Z.eqb_spec b d); [done|]. rewrite IH.
    by rewrite reverse_cons, <- app_assoc.
Qed.

Lemma split_aux_last cur f d :
  Forall (fun b => b <> d) f -> f <> [] \/ cur <> [] ->
  split_aux cur f d = [(reverse cur ++ f)%list].
Proof.
  intros Hf. revert cur. induction Hf as [|b f Hb Hf IH]; intros cur Hne; simpl.
  - destruct cur; [destruct Hne; done|]. by rewrite app_nil_r.
  - destruct (Z.eqb_spec b d); [done|]. rewrite IH by (right; done).
    by rewrite reverse_cons, <- app_assoc.
Qed.

Lemma digits_aux_range fuel z :
  (0 <= z)%Z -> Forall (fun d => 0 <= d < 10)%Z (digits_aux fuel z).
Proof.
  revert z. induction fuel as [|f IH]; intros z Hz; simpl; [constructor|].
  destruct (Z.ltb_spec z 10); [by constructor; [lia|]|].
  apply Forall_app; split; [apply IH; dlia|]. constructor; [dlia|done].
Qed.

Lemma digits_aux_nonempty f z : digits_aux (S f) z <> [].
Proof. simpl. destruct (z <? 10)%Z; [done|]. by destruct (digits_aux f (z / 10)%Z). Qed.

Lemma digits_aux_value fuel z :
  (0 <= z < 10 ^ Z.of_nat fuel)%Z ->
  foldl (fun acc b => (acc * 10 + (b - 48))%Z) 0%Z ((fun d => 48 + d)%Z <$> digits_aux fuel z) = z.
Proof.
  revert z. induction fuel as [|f IH]; intros z Hz; [simpl in *; lia|].
  rewrite Nat2Z.inj_succ, Z.pow_succ_r in Hz by lia. cbn [digits_aux].
  destruct (Z.ltb_spec z 10); [cbn; lia|].
  rewrite fmap_app, foldl_app. cbn [foldl fmap list_fmap].
  rewrite IH by dlia. dlia.
Qed.

Lemma stoul_to_string z : (0 <= z <= UINT64_MAX)%Z -> stoul (to_string z) = z.
Proof. intros Hz. apply digits_aux_value. unfold UINT64_MAX in Hz. lia. Qed.

Lemma to_string_no_colon z : (0 <= z)%Z -> Forall (fun b => b <> colon) (to_string z).
Proof.
  intros Hz. unfold to_string, colon. apply Forall_fmap.
  eapply Forall_impl; [by apply digits_aux_range|]. simpl; lia.
Qed.

Lemma to_string_nonempty z : to_string z <> [].
Proof.
  unfold to_string. intros He%fmap_nil_inv. by apply (digits_aux_nonempty 19 z).
Qed.

(** The record id an edge key of the relation table is read back to when a
    database is opened (src/src/context.cpp, [initDatabase]). *)
Definition parseRid (key : list byte) : Outcome RecordId :=
  match split key colon with
  | [c; p] => Ok (u16 (stoul c), u32 (stoul p))
  | _ => Throw NOGDB_CTX_UNKNOWN_ERR
  end.

(** Opening a database recovers every edge id that was stored. *)
Lemma parseRid_rid2str rid :
  (0 <= rid.1 <= UINT16_MAX)%Z -> (0 <= rid.2 <= UINT32_MAX)%Z ->
  parseRid (rid2str rid) = Ok rid.
Proof.
  destruct rid as [c p]; unfold UINT16_MAX, UINT32_MAX; simpl. intros Hc Hp.
  assert (split (rid2str (c, p)) colon = [to_string c; to_string p]) as Hs.
  { unfold split, rid2str; simpl. rewrite split_aux_field by (by apply to_string_no_colon; lia).
    rewrite split_aux_last; [done|apply to_string_no_colon; lia|left; apply to_string_nonempty]. }
  unfold parseRid. rewrite Hs. rewrite !stoul_to_string by (unfold UINT64_MAX; lia).
  unfold u16, u32. by rewrite !Z.mod_small by lia.
Qed.
