(* ===== verification/Store.v ===== *)
(** * The data store

    What the library uses of LMDB, through the wrappers [lmdb::Dbi] and
    [lmdb::Cursor] (src/src/lmdb_engine.hpp): named databases of key/value
    entries kept in key order, [get], [put] with its append and overwrite
    flags, [del], [drop] and cursors.  LMDB itself is a parameter: the class
    [Lmdb] lists the calls and [LmdbLaws] the behaviour its documentation
    promises for a transaction that does not run out of space; [MapStore] is
    an instance.  The keys of a database opened with [MDB_INTEGERKEY] are
    unsigned integers, the others byte strings. *)

From stdpp Require Import base gmap sets list sorting.
From Stdlib Require Import ZArith Lia ZifyBool.
From S2P Require Import Prelude Types.

(** ** Strict total orders as boolean functions *)
Class StrictTotal {A} (ltb : A -> A -> bool) : Prop := {
  ltb_irrefl a : ltb a a = false;
  ltb_trans a b c : ltb a b = true -> ltb b c = true -> ltb a c = true;
  ltb_total a b : ltb a b = false -> ltb b a = false -> a = b;
}.

#[export] Instance Z_strict_total : StrictTotal Z.ltb.
Proof. split; lia. Qed.
#[export] Instance text_strict_total : StrictTotal text_ltb.
Proof. split; [apply text_ltb_irrefl|apply text_ltb_trans|apply text_ltb_total]. Qed.

Lemma ltb_asym {A} (ltb : A -> A -> bool) `{!StrictTotal ltb} a b : ltb a b = true -> ltb b a = false.
Proof.
  intros H. destruct (ltb b a) eqn:E; [|done]. by rewrite <- (ltb_irrefl (ltb := ltb) a), (ltb_trans (ltb := ltb) a b a).
Qed.

(** The order of pairs, the first component first. *)
Definition pair_ltb {A B} `{EqDecision A} (la : A -> A -> bool) (lb : B -> B -> bool) (p q : A * B) : bool :=
  la p.1 q.1 || (bool_decide (p.1 = q.1) && lb p.2 q.2).

#[export] Instance pair_strict_total {A B} `{EqDecision A} (la : A -> A -> bool) (lb : B -> B -> bool)
  `{!StrictTotal la, !StrictTotal lb} : StrictTotal (pair_ltb la lb).
Proof.
  unfold pair_ltb. split.
  - intros [a b]. simpl. by rewrite (ltb_irrefl (ltb := la)), (ltb_irrefl (ltb := lb)), andb_false_r.
  - intros [a b] [a' b'] [a'' b'']. simpl. rewrite !orb_true_iff, !andb_true_iff, !bool_decide_eq_true.
    intros [H1|[-> H1]] [H2|[<- H2]]; eauto using ltb_trans.
  - intros [a b] [a' b']. simpl. rewrite !orb_false_iff, !andb_false_iff, !bool_decide_eq_false.
    intros [H1 H2] [H3 H4]. assert (a = a') as <- by (by apply (ltb_total (ltb := la))).
    f_equal. apply (ltb_total (ltb := lb)); naive_solver.
Qed.

(** ** Lists kept in the order of a key *)
Section sorted.
  Context {A B : Type} (ltb : B -> B -> bool) `{!StrictTotal ltb} (f : A -> B).

Definition ordered (l : list A) : Prop := StronglySorted (fun a b => ltb (f a) (f b) = true) l.
Definition before (x : B) (l : list A) : list A := filter (fun a => ltb (f a) x = true) l.
Definition after (x : B) (l : list A) : list A := filter (fun a => ltb x (f a) = true) l.

(** [x] at its place, instead of the element with the same key. *)
Definition place (x : A) (l : list A) : list A := before (f x) l ++ x :: after (f x) l.

Lemma elem_of_before x l a : a ∈ before x l <-> ltb (f a) x = true /\ a ∈ l.
Proof. unfold before, after. by rewrite list_elem_of_filter. Qed.
Lemma elem_of_after x l a : a ∈ after x l <-> ltb x (f a) = true /\ a ∈ l.
Proof. unfold before, after. by rewrite list_elem_of_filter. Qed.

Lemma elem_of_place x l a : a ∈ place x l <-> a = x \/ (a ∈ l /\ f a <> f x).
Proof.
  unfold place. rewrite elem_of_app, elem_of_cons, elem_of_before, elem_of_after. split.
  - intros [[H Ha]|[->|[H Ha]]]; [right|by left|right]; split; try done;
      intros E; rewrite E, (ltb_irrefl (ltb := ltb)) in H; done.
  - intros [->|[Ha Hne]]; [by right; left|].
    destruct (ltb (f a) (f x)) eqn:E1; [by left|]. destruct (ltb (f x) (f a)) eqn:E2; [by right; right|].
    by destruct Hne; apply (ltb_total (ltb := ltb)).
Qed.

Lemma ordered_filter (P : A -> Prop) `{forall a, Decision (P a)} l : ordered l -> ordered (filter P l).
Proof.
  intros Hl. induction Hl as [|a l Hl IH Ha]; [constructor|]. rewrite filter_cons. case_decide; [|done].
  constructor; [done|]. apply Forall_forall. intros b [_ Hb]%list_elem_of_filter.
  by eapply Forall_forall in Ha.
Qed.

Lemma ordered_app l1 l2 :
  ordered l1 -> ordered l2 -> (forall a b, a ∈ l1 -> b ∈ l2 -> ltb (f a) (f b) = true) -> ordered (l1 ++ l2).
Proof.
  intros H1 H2 H12. induction H1 as [|a l Hl IH Ha]; [done|]. simpl. constructor.
  - apply IH. intros b c Hb. apply H12. by right.
  - rewrite Forall_app. split; [done|]. apply Forall_forall. intros b Hb. apply H12; [by left|done].
Qed.

Lemma ordered_place x l : ordered l -> ordered (place x l).
Proof.
  intros Hl. apply ordered_app; [by apply ordered_filter| |].
  - constructor; [by apply ordered_filter|]. apply Forall_forall. intros b. by rewrite elem_of_after; intros [? _].
  - intros a b. rewrite elem_of_before, elem_of_cons, elem_of_after. intros [Ha _] [->|[Hb _]]; [done|].
    by eapply (ltb_trans (ltb := ltb)).
Qed.

Lemma ordered_NoDup l : ordered l -> NoDup l.
Proof.
  induction 1 as [|a l Hl IH Ha]; constructor; [|done]. intros Hin. eapply Forall_forall in Ha; [|done].
  by rewrite (ltb_irrefl (ltb := ltb)) in Ha.
Qed.

Lemma ordered_inj l a b : ordered l -> a ∈ l -> b ∈ l -> f a = f b -> a = b.
Proof.
  induction 1 as [|c l Hl IH Hc]; [by intros ?%elem_of_nil|].
  rewrite Forall_forall in Hc. rewrite !elem_of_cons. intros [->|Ha] [->|Hb] E; [done| | |eauto].
  - apply Hc in Hb. by rewrite E, (ltb_irrefl (ltb := ltb)) in Hb.
  - apply Hc in Ha. by rewrite E, (ltb_irrefl (ltb := ltb)) in Ha.
Qed.

(** Cursor positions in such a list: the entries from a key on, and the
    entries before it, the last one first. *)
Fixpoint seek (x : B) (l : list A) : list A :=
  match l with
  | a :: l' => if ltb (f a) x then seek x l' else l
  | [] => []
  end.

Fixpoint passed (x : B) (l : list A) : list A :=
  match l with
  | a :: l' => if ltb (f a) x then a :: passed x l' else []
  | [] => []
  end.

Lemma passed_seek x l : passed x l ++ seek x l = l.
Proof. induction l as [|a l IH]; [done|]. simpl. destruct (ltb (f a) x); [|done]. by rewrite <- IH at 3. Qed.

Lemma seek_ordered x l : ordered l -> seek x l = filter (fun a => ltb (f a) x = false) l.
Proof.
  induction 1 as [|a l Hl IH Ha]; [done|]. simpl. rewrite filter_cons. destruct (ltb (f a) x) eqn:E.
  - by rewrite decide_False by done.
  - rewrite decide_True by done. f_equal. symmetry. apply filter_keep_all.
    eapply Forall_impl; [exact Ha|]. simpl. intros b Hb. destruct (ltb (f b) x) eqn:E'; [|done].
    by rewrite (ltb_trans (ltb := ltb) _ _ _ Hb E') in E.
Qed.

Lemma passed_ordered x l : ordered l -> passed x l = before x l.
Proof.
  unfold before. induction 1 as [|a l Hl IH Ha]; [done|]. simpl. rewrite filter_cons.
  destruct (ltb (f a) x) eqn:E.
  - rewrite decide_True by done. by f_equal.
  - rewrite decide_False by done. symmetry. apply filter_keep_none.
    eapply Forall_impl; [exact Ha|]. simpl. intros b Hb E'. by rewrite (ltb_trans (ltb := ltb) _ _ _ Hb E') in E.
Qed.
End sorted.

(** ** Keys and entries *)
Inductive Key := KNum (z : Z) | KStr (s : list byte).
#[export] Instance Key_eq_dec : EqDecision Key.
Proof. solve_decision. Defined.

Definition key_ltb (a b : Key) : bool :=
  match a, b with
  | KNum x, KNum y => (x <? y)%Z
  | KNum _, KStr _ => true
  | KStr _, KNum _ => false
  | KStr x, KStr y => text_ltb x y
  end.

#[export] Instance key_strict_total : StrictTotal key_ltb.
Proof.
  split.
  - intros [x|x]; simpl; [lia|apply text_ltb_irrefl].
  - intros [x|x] [y|y] [z|z]; simpl; try done; [lia|apply text_ltb_trans].
  - intros [x|x] [y|y]; simpl; try done; intros H1 H2; f_equal; [lia|by apply text_ltb_total].
Qed.

Abbreviation Entry := (Key * list byte)%type.
Definition entry_ltb : Entry -> Entry -> bool := pair_ltb key_ltb text_ltb.
#[export] Instance entry_strict_total : StrictTotal entry_ltb.
Proof. apply _. Qed.

(** The keys of [MDB_MAXKEYSIZE] and less: LMDB refuses empty and longer
    strings. *)
Definition keySizeOk (k : Key) : bool :=
  match k with KNum _ => true | KStr s => bool_decide (0 < length s <= 511) end.

(** [mdb_put]: appending needs a key greater than every key of the database,
    [MDB_NOOVERWRITE] a key that is not there; a database opened with
    [MDB_DUPSORT] keeps every value of a key, in order, the others one. *)
Definition putEntry (unique append overwrite : bool) (k : Key) (v : list byte) (l : list Entry) :
    Outcome (list Entry) :=
  if negb (keySizeOk k) then Throw MDB_BAD_VALSIZE
  else if append && negb (forallb (fun e => key_ltb e.1 k) l) then Throw MDB_KEYEXIST
  else if negb overwrite && existsb (fun e => bool_decide (e.1 = k)) l then Throw MDB_KEYEXIST
  else Ok (if unique then place key_ltb fst (k, v) l else place entry_ltb id (k, v) l).

Abbreviation DbName := (list byte).

Class Lmdb (D : Type) := {
  entries : D -> DbName -> list Entry;
  dbPut : bool -> DbName -> Key -> list byte -> bool -> bool -> D -> Outcome D;
  dbDel : DbName -> Key -> D -> D;
  dbDelEntry : DbName -> Entry -> D -> D;
  dbDrop : DbName -> D -> D;
}.

Class LmdbLaws (D : Type) `{!Lmdb D} : Prop := {
  put_ok d u n k v a o l : putEntry u a o k v (entries d n) = Ok l ->
    exists d', dbPut u n k v a o d = Ok d' /\ entries d' n = l /\ forall m, m <> n -> entries d' m = entries d m;
  put_err d u n k v a o e : putEntry u a o k v (entries d n) = Throw e -> dbPut u n k v a o d = Throw e;
  del_same d n k : entries (dbDel n k d) n = filter (fun e => e.1 <> k) (entries d n);
  del_other d n k m : m <> n -> entries (dbDel n k d) m = entries d m;
  del_entry_same d n x : entries (dbDelEntry n x d) n = filter (fun e => e <> x) (entries d n);
  del_entry_other d n x m : m <> n -> entries (dbDelEntry n x d) m = entries d m;
  drop_same d n : entries (dbDrop n d) n = [];
  drop_other d n m : m <> n -> entries (dbDrop n d) m = entries d m;
}.

(** ** An instance *)
Abbreviation MapStore := (gmap DbName (list Entry)).
Definition mapEntries (d : MapStore) (n : DbName) : list Entry := default [] (d !! n).

#[export] Instance MapStore_lmdb : Lmdb MapStore := {|
  entries := mapEntries;
  dbPut u n k v a o d := let* l := putEntry u a o k v (mapEntries d n) in Ok (<[n := l]> d);
  dbDel n k d := <[n := filter (fun e => e.1 <> k) (mapEntries d n)]> d;
  dbDelEntry n x d := <[n := filter (fun e => e <> x) (mapEntries d n)]> d;
  dbDrop n d := delete n d;
|}.

Lemma mapEntries_insert d n l : mapEntries (<[n := l]> d) n = l.
Proof. unfold mapEntries. by rewrite lookup_insert_eq. Qed.
Lemma mapEntries_insert_ne d n l m : m <> n -> mapEntries (<[n := l]> d) m = mapEntries d m.
Proof. intros Hne. unfold mapEntries. by rewrite lookup_insert_ne. Qed.

#[export] Instance MapStore_laws : LmdbLaws MapStore.
Proof.
  split; intros; simpl; rewrite ?mapEntries_insert, ?mapEntries_insert_ne by done; try done.
  - simpl in *. rewrite H. eexists. split_and!; [done|apply mapEntries_insert|].
    intros. by apply mapEntries_insert_ne.
  - simpl in *. by rewrite H.
  - unfold mapEntries. by rewrite lookup_delete_eq.
  - unfold mapEntries. by rewrite lookup_delete_ne.
Qed.

(** ** Reading and writing one database *)

(** The entries with a key: [find] ([MDB_SET_KEY]) positions a cursor on the
    first one, [findRange] ([MDB_SET_RANGE]) on the first entry that is not
    before it; [getPrev] goes back from there. *)
Definition findRange (k : Key) (l : list Entry) : Outcome (list Entry) :=
  if keySizeOk k then Ok (seek key_ltb fst k l) else Throw MDB_BAD_VALSIZE.
Definition findKey (k : Key) (l : list Entry) : Outcome (list Entry) :=
  let* l' := findRange k l in
  Ok (match l' with e :: _ => if bool_decide (e.1 = k) then l' else [] | [] => [] end).
Definition previousOf (k : Key) (l : list Entry) : list Entry := reverse (passed key_ltb fst k l).

(** [Value::numeric] of an object of [n] bytes. *)
Definition numeric (n : nat) (v : list byte) : Outcome Z :=
  if bool_decide (n <= length v) then Ok (le_value (take n v)) else UB.

(** A stored position or counter is read back. *)
Lemma numeric_le_bytes m : (0 <= m <= UINT32_MAX)%Z -> numeric 4 (le_bytes 4 m) = Ok m.
Proof.
  intros Hm. unfold numeric. rewrite bool_decide_true by (by rewrite length_le_bytes).
  rewrite take_ge by (by rewrite length_le_bytes). rewrite le_value_le_bytes. f_equal.
  unfold UINT32_MAX in Hm. rewrite Z.mod_small; [done|]. lia.
Qed.

Section table.
  Context {D : Type} `{!Lmdb D}.

(** [Dbi::get]; [empty] is what the library tests of the result. *)
Definition dbGet (d : D) (n : DbName) (k : Key) : option (list byte) :=
  snd <$> List.find (fun e => bool_decide (e.1 = k)) (entries d n).
Definition dataEmpty (v : option (list byte)) : bool := match v with Some (_ :: _) => false | _ => true end.

(** A database without duplicates, in key order. *)
Definition table (d : D) (n : DbName) : Prop := ordered key_ltb fst (entries d n).

Lemma dbGet_entry d n k v : dbGet d n k = Some v -> (k, v) ∈ entries d n.
Proof.
  unfold dbGet. intros ([k' v'] & [Hin He]%List.find_some & ->)%fmap_Some.
  rewrite bool_decide_eq_true in He. simpl in He. subst. by apply list_elem_of_In.
Qed.

Lemma dbGet_Some d n k v : table d n -> dbGet d n k = Some v <-> (k, v) ∈ entries d n.
Proof.
  intros Ht. split; [apply dbGet_entry|]. unfold dbGet. rewrite fmap_Some.
  - intros Hin. destruct (List.find _ _) as [[k' v']|] eqn:E.
    + exists (k', v'). split; [done|]. apply List.find_some in E as [Hin' He].
      rewrite bool_decide_eq_true in He. apply list_elem_of_In in Hin'. simpl in He. subst.
      by pose proof (ordered_inj key_ltb fst _ _ _ Ht Hin Hin' eq_refl) as [= ->].
    + eapply List.find_none in E; [|by apply list_elem_of_In]. by rewrite bool_decide_eq_false in E.
Qed.

Lemma dbGet_None d n k : table d n -> dbGet d n k = None <-> forall v, (k, v) ∉ entries d n.
Proof.
  intros Ht. destruct (dbGet d n k) as [v|] eqn:E.
  - apply (dbGet_Some d n k v Ht) in E. split; [done|]. intros H. by destruct (H v).
  - split; [|done]. intros _ v Hin. apply (dbGet_Some d n k v Ht) in Hin. congruence.
Qed.

Lemma dbGet_ext d d' n k : entries d' n = entries d n -> dbGet d' n k = dbGet d n k.
Proof. unfold dbGet. by intros ->. Qed.

Context `{!LmdbLaws D}.

(** A put that returns did what [putEntry] says, and nothing else. *)
Lemma put_inv d u n k v a o d' :
  dbPut u n k v a o d = Ok d' ->
  putEntry u a o k v (entries d n) = Ok (entries d' n) /\ forall m, m <> n -> entries d' m = entries d m.
Proof.
  intros Hput. destruct (putEntry u a o k v (entries d n)) as [l|e|] eqn:E.
  - destruct (put_ok d u n k v a o l E) as (d1 & Hd1 & <- & Hother). rewrite Hput in Hd1. by injection Hd1 as <-.
  - by rewrite (put_err d u n k v a o e E) in Hput.
  - unfold putEntry in E. by repeat case_match.
Qed.

(** Putting a value in a database without duplicates. *)
Lemma put_unique d n k v a o d' :
  dbPut true n k v a o d = Ok d' -> table d n ->
  table d' n /\ (forall x, x ∈ entries d' n <-> x = (k, v) \/ (x ∈ entries d n /\ x.1 <> k)) /\
  (forall m, m <> n -> entries d' m = entries d m).
Proof.
  intros Hput Ht. destruct (put_inv _ _ _ _ _ _ _ _ Hput) as [E Hother].
  assert (entries d' n = place key_ltb fst (k, v) (entries d n)) as Hl.
  { unfold putEntry in E. repeat case_match; try discriminate E. injection E as E. by rewrite E. }
  split_and!; [| |done].
  - unfold table. rewrite Hl. by apply (ordered_place key_ltb fst).
  - intros x. by rewrite Hl, (elem_of_place key_ltb fst).
Qed.

Lemma put_get d n k v a o d' k' :
  dbPut true n k v a o d = Ok d' -> table d n ->
  dbGet d' n k' = if decide (k' = k) then Some v else dbGet d n k'.
Proof.
  intros Hput Ht. destruct (put_unique _ _ _ _ _ _ _ Hput Ht) as (Ht' & He & _). case_decide as Hk.
  - subst. apply dbGet_Some; [done|]. apply He. by left.
  - destruct (dbGet d n k') as [v'|] eqn:E.
    + apply dbGet_Some; [done|]. apply He. right. by apply dbGet_Some in E.
    + apply dbGet_None; [done|]. intros v' [[= -> ->]|[Hin _]]%He; [done|].
      by apply (proj1 (dbGet_None d n k' Ht) E v').
Qed.

(** An overwriting put succeeds; an appending one needs a new last key. *)
Lemma put_total d u n k v :
  keySizeOk k = true -> exists d', dbPut u n k v false true d = Ok d'.
Proof.
  intros Hk. destruct (putEntry u false true k v (entries d n)) as [l|e|] eqn:E;
    [|unfold putEntry in E; rewrite Hk in E; discriminate E|unfold putEntry in E; rewrite Hk in E; discriminate E].
  destruct (put_ok d u n k v false true l E) as (d' & H & _). by exists d'.
Qed.

Lemma put_append d u n k v :
  keySizeOk k = true -> (forall x, x ∈ entries d n -> key_ltb x.1 k = true) ->
  exists d', dbPut u n k v true true d = Ok d'.
Proof.
  intros Hk Hlast. destruct (putEntry u true true k v (entries d n)) as [l|e|] eqn:E.
  { destruct (put_ok d u n k v true true l E) as (d' & H & _). by exists d'. }
  all: unfold putEntry in E; rewrite Hk in E; cbn [negb] in E.
  all: assert (forallb (fun e => key_ltb e.1 k) (entries d n) = true) as Hall
    by (apply forallb_forall; intros x Hx; apply Hlast; by apply list_elem_of_In).
  all: by rewrite Hall in E.
Qed.

Lemma put_append_fails d u n k v o x :
  keySizeOk k = true -> x ∈ entries d n -> key_ltb x.1 k = false ->
  dbPut u n k v true o d = Throw MDB_KEYEXIST.
Proof.
  intros Hk Hx Hlt. apply put_err. unfold putEntry. rewrite Hk. cbn [negb].
  assert (forallb (fun e => key_ltb e.1 k) (entries d n) = false) as ->; [|done].
  apply not_true_iff_false. rewrite forallb_forall. intros Hall. apply list_elem_of_In in Hx.
  apply Hall in Hx. congruence.
Qed.

Lemma del_table d n k : table d n -> table (dbDel n k d) n.
Proof. intros Ht. unfold table. rewrite del_same. by apply ordered_filter. Qed.

Lemma del_get d n k k' : table d n -> dbGet (dbDel n k d) n k' = if decide (k' = k) then None else dbGet d n k'.
Proof.
  intros Ht. assert (forall x, x ∈ entries (dbDel n k d) n <-> x.1 <> k /\ x ∈ entries d n) as He
    by (intros x; by rewrite del_same, list_elem_of_filter).
  pose proof (del_table d n k Ht) as Ht'. case_decide as Hk.
  - subst. apply dbGet_None; [done|]. intros v [Hne _]%He. done.
  - destruct (dbGet d n k') as [v'|] eqn:E.
    + apply dbGet_Some; [done|]. apply He. split; [done|]. by apply dbGet_Some in E.
    + apply dbGet_None; [done|]. intros v' [_ Hin]%He. by apply (proj1 (dbGet_None d n k' Ht) E v').
Qed.
End table.
