(* ===== verification/Blob.v ===== *)
(** * Buffers and values: [Blob], [Bytes] and its converters

    [Blob] (src/src/datatype.cpp) is the buffer a record is written to and read
    from; [Bytes] (src/src/bytes.cpp and include/nogdb/nogdb_types.h) is a
    property value.  A [Bytes] is its list of bytes: copies are deep, moves
    leave an empty value, so sharing is never observable.  Sizes are [nat]:
    [size_t] cannot overflow on lengths of buffers that exist. *)

From stdpp Require Import base list strings.
From Stdlib Require Import ZArith Lia.
From S2P Require Import Prelude Types.

(** ** Blob *)
Record Blob := mkBlob { capacity_ : nat; size_ : nat; value_ : list byte }.

Definition newBlob (capacity : nat) : Blob := mkBlob capacity 0 (replicate capacity 0%Z).

Definition blobOf (value : list byte) : Blob := mkBlob (length value) (length value) value.

(** [append(data, size)]: [memcpy] of the first [size] bytes of the object
    [data] (undefined when the object is shorter). *)
Definition append (data : list byte) (size : nat) (b : Blob) : Outcome Blob :=
  require (bool_decide (size_ b + size <= capacity_ b)) ;;;
  if bool_decide (size <= length data) then
    Ok (mkBlob (capacity_ b) (size_ b + size)
          (take (size_ b) (value_ b) ++ take size data ++ drop (size_ b + size) (value_ b)))
  else UB.

Definition retrieve (offset size : nat) (b : Blob) : Outcome (list byte * nat) :=
  require (bool_decide (offset + size <= capacity_ b)) ;;;
  Ok (take size (drop offset (value_ b)), offset + size).

Definition wf_blob (b : Blob) : Prop := length (value_ b) = capacity_ b /\ size_ b <= capacity_ b.

(** The bytes appended so far. *)
Definition written (b : Blob) : list byte := take (size_ b) (value_ b).

Lemma wf_newBlob n : wf_blob (newBlob n).
Proof. split; simpl; [apply length_replicate|lia]. Qed.

(** Appending the first [n] bytes of an object: it succeeds when they fit, and
    extends the written bytes. *)
Lemma append_fits n data b :
  wf_blob b -> n <= length data -> size_ b + n <= capacity_ b ->
  exists b', append data n b = Ok b' /\ wf_blob b' /\
    capacity_ b' = capacity_ b /\ written b' = written b ++ take n data.
Proof.
  intros [Hl Hs] Hn Hfit. unfold append, require.
  rewrite !bool_decide_true by lia; simpl. eexists; split; [reflexivity|].
  unfold wf_blob, written; simpl. split_and!; try done.
  - rewrite !length_app, !length_take, length_drop. lia.
  - rewrite app_assoc, take_app_length'; [done|]. rewrite length_app, !length_take. lia.
Qed.

Lemma length_written b : wf_blob b -> length (written b) = size_ b.
Proof. intros [Hl Hs]. unfold written. rewrite length_take. lia. Qed.

Theorem append_spec data b :
  wf_blob b ->
  (size_ b + length data <= capacity_ b ->
   exists b', append data (length data) b = Ok b' /\ wf_blob b' /\
     capacity_ b' = capacity_ b /\ written b' = written b ++ data) /\
  (capacity_ b < size_ b + length data ->
   append data (length data) b = Throw NOGDB_CTX_INTERNAL_ERR).
Proof.
  intros Hwf. split.
  { intros Hfit. pose proof (append_fits (length data) data b Hwf) as Hf.
    rewrite firstn_all in Hf. apply Hf; lia. }
  intros Hover. unfold append, require. by rewrite bool_decide_false by lia.
Qed.

(** Reading back at the offset where an object was appended. *)
Lemma retrieve_at l1 data l2 b :
  value_ b = l1 ++ data ++ l2 -> length (value_ b) = capacity_ b ->
  retrieve (length l1) (length data) b = Ok (data, length l1 + length data).
Proof.
  intros Hv Hl. unfold retrieve, require.
  rewrite bool_decide_true by (rewrite <- Hl, Hv, !length_app; lia). simpl.
  by rewrite Hv, drop_app_length, take_app_length.
Qed.

(** ** Bytes: construction from C strings *)

(** [strlen]-delimited prefix: the bytes before the first NUL. *)
Fixpoint cstr (l : list byte) : list byte :=
  match l with
  | [] => []
  | b :: l' => if (b =? 0)%Z then [] else b :: cstr l'
  end.

Lemma cstr_id l : Forall (fun b => b <> 0%Z) l -> cstr l = l.
Proof.
  induction 1 as [|b l Hb Hl IH]; simpl; [done|].
  destruct (Z.eqb_spec b 0); [done|by rewrite IH].
Qed.

Definition merge (bs : list (list byte)) : list byte := concat bs.

(** ** Converters

    A converter writes a value to bytes and reads it back from the memory that
    starts at [ptr] with [total_size] bytes left to account for; [delimiter]
    asks for the self-delimiting form.  Reading past the allocation is [UB];
    [toBytes] is [None] when a loop of the writer does not end. *)
Record Reader := mkReader { ptr : list byte; total_size : Z }.

Class Converter (T : Type) := {
  special : bool;
  toBytes : T -> bool -> option (list byte);
  convert : Reader -> bool -> Outcome (T * Reader);
}.

(** The bytes written, when there are any. *)
Definition bytesOf {T} `{Converter T} (x : T) (delimiter : bool) : list byte := default [] (toBytes x delimiter).

(** Trivially copyable values of a fixed width. *)
Class Plain (T : Type) := {
  plain_sizeof : nat;
  plain_bytes : T -> list byte;
  plain_value : list byte -> T;
}.

Definition readPlain {T} `{Plain T} (r : Reader) : Outcome T :=
  if bool_decide (plain_sizeof (T := T) <= length (ptr r))
  then Ok (plain_value (take (plain_sizeof (T := T)) (ptr r))) else UB.

Definition advance (n : nat) (r : Reader) : Reader := mkReader (drop n (ptr r)) (u64 (total_size r - Z.of_nat n)).

(** The primary template. *)
#[export] Instance Converter_plain {T} `{Plain T} : Converter T := {|
  special := false;
  toBytes x _ := Some (plain_bytes x);
  convert r delimiter :=
    let* x := readPlain r in
    Ok (x, if delimiter then advance (plain_sizeof (T := T)) r else r)
|}.

(** Unsigned and signed integers of [n] bytes. *)
Record UInt (n : nat) := mkUInt { uint_val : Z }.
Arguments mkUInt {n} _.
Arguments uint_val {n} _.
#[export] Instance Plain_uint n : Plain (UInt n) := {|
  plain_sizeof := n;
  plain_bytes x := le_bytes n (uint_val x);
  plain_value l := mkUInt (le_value l)
|}.

Record SInt (n : nat) := mkSInt { sint_val : Z }.
Arguments mkSInt {n} _.
Arguments sint_val {n} _.
#[export] Instance Plain_sint n : Plain (SInt n) := {|
  plain_sizeof := n;
  plain_bytes x := le_bytes n (sint_val x);
  plain_value l := mkSInt (sint (8 * Z.of_nat n) (le_value l))
|}.

(** [CollectionSizeType] is [uint16_t]. *)
Definition sizePrefix (n : nat) : list byte := le_bytes 2 (u16 (Z.of_nat n)).
Definition readSize (r : Reader) : Outcome (nat * Reader) :=
  let* (x, r') := convert (T := UInt 2) r true in Ok (Z.to_nat (uint_val x), r').

(** [Converter<std::string>]: the text form stops at the first NUL, the size
    prefix does not. *)
Record Text := mkText { text_bytes : list byte }.
#[export] Instance Converter_text : Converter Text := {|
  special := true;
  toBytes x delimiter :=
    Some (if delimiter then sizePrefix (length (text_bytes x)) ++ cstr (text_bytes x)
          else cstr (text_bytes x));
  convert r delimiter :=
    if delimiter then
      let* (n, r') := readSize r in
      if bool_decide (n <= length (ptr r')) then Ok (mkText (take n (ptr r')), advance n r') else UB
    else
      if bool_decide (Z.to_nat (total_size r) <= length (ptr r))
      then Ok (mkText (take (Z.to_nat (total_size r)) (ptr r)), r) else UB
|}.

(** [Converter<std::vector<T>>], element type not special: raw copies of the
    elements; the delimited reader does not account for them in
    [total_size]. *)
Fixpoint readPlains {T} `{Plain T} (n : nat) (l : list byte) : Outcome (list T) :=
  match n with
  | O => Ok []
  | S n' =>
      let* x := readPlain (mkReader l 0) in
      let* xs := readPlains n' (drop (plain_sizeof (T := T)) l) in
      Ok (x :: xs)
  end.

Definition vectorPlain_toBytes {T} `{Plain T} (v : list T) (delimiter : bool) : list byte :=
  (if delimiter then sizePrefix (length v) else []) ++ concat (plain_bytes <$> v).

Definition vectorPlain_convert {T} `{Plain T} (r : Reader) (delimiter : bool) :
    Outcome (list T * Reader) :=
  if delimiter then
    let* (n, r') := readSize r in
    let* xs := readPlains n (ptr r') in
    Ok (xs, mkReader (drop (n * plain_sizeof (T := T)) (ptr r')) (total_size r'))
  else
    let* xs := readPlains (Z.to_nat (total_size r) / plain_sizeof (T := T)) (ptr r) in
    Ok (xs, r).

#[export] Instance Converter_vectorPlain {T} `{Plain T} : Converter (list T) := {|
  special := true;
  toBytes v delimiter := Some (vectorPlain_toBytes v delimiter);
  convert := vectorPlain_convert
|}.

(** [Converter<std::vector<T>>], element type special: delimited elements.
    [writeLoop] is the writer's loop, from the counter [i] on, which is a
    [uint16_t]; [fuel] bounds its rounds: it ends within [length v + 1] rounds
    or, with more than 65535 elements, never ([writeLoop_endless]).  In
    [readAll] [fuel] bounds the reader's [while (total_size > 0)] loop. *)
Record Vec (T : Type) := mkVec { vec_list : list T }.
Arguments mkVec {T} _.
Arguments vec_list {T} _.

Fixpoint readN {T} `{Converter T} (n : nat) (r : Reader) : Outcome (list T * Reader) :=
  match n with
  | O => Ok ([], r)
  | S n' =>
      let* (x, r1) := convert r true in
      let* (xs, r2) := readN n' r1 in
      Ok (x :: xs, r2)
  end.

Fixpoint readAll {T} `{Converter T} (fuel : nat) (r : Reader) : Outcome (list T * Reader) :=
  match fuel with
  | O => UB
  | S f =>
      if (0 <? total_size r)%Z then
        let* (x, r1) := convert r true in
        if (total_size r1 =? total_size r)%Z then Ok ([x], r1)
        else let* (xs, r2) := readAll f r1 in Ok (x :: xs, r2)
      else Ok ([], r)
  end.

Lemma readAll_S {T} `{Converter T} f r :
  readAll (T := T) (S f) r =
    if (0 <? total_size r)%Z then
      let* (x, r1) := convert r true in
      if (total_size r1 =? total_size r)%Z then Ok ([x], r1)
      else let* (xs, r2) := readAll f r1 in Ok (x :: xs, r2)
    else Ok ([], r).
Proof. done. Qed.

Fixpoint writeLoop {T} `{Converter T} (fuel : nat) (v : list T) (delimiter : bool) (i : Z)
    (result : list (list byte)) : option (list (list byte)) :=
  match fuel with
  | O => None
  | S f =>
      if (i <? Z.of_nat (length v))%Z then
        x ← v !! Z.to_nat i; b ← toBytes x true;
        writeLoop f v delimiter (u16 (i + 1)) (<[Z.to_nat i + Nat.b2n delimiter := b]> result)
      else Some result
  end.

Definition writeElements {T} `{Converter T} (fuel : nat) (v : list T) (delimiter : bool) : option (list byte) :=
  let result := replicate (length v + Nat.b2n delimiter) [] in
  let result := if delimiter then <[0 := sizePrefix (length v)]> result else result in
  merge <$> writeLoop fuel v delimiter 0 result.

Definition vectorSpecial_toBytes {T} `{Converter T} (v : Vec T) (delimiter : bool) : option (list byte) :=
  writeElements (S (length (vec_list v))) (vec_list v) delimiter.

Definition vectorSpecial_convert {T} `{Converter T} (r : Reader) (delimiter : bool) :
    Outcome (Vec T * Reader) :=
  if delimiter then
    let* (n, r') := readSize r in
    let* (xs, r'') := readN n r' in Ok (mkVec xs, r'')
  else
    let* (xs, r') := readAll (S (length (ptr r))) r in Ok (mkVec xs, r').

#[export] Instance Converter_vectorSpecial {T} `{Converter T} : Converter (Vec T) := {|
  special := true;
  toBytes := vectorSpecial_toBytes;
  convert := vectorSpecial_convert
|}.

(** [Bytes::convert<T>()]: the whole value, not delimited. *)
Definition convertAll {T} `{Converter T} (b : list byte) : Outcome T :=
  let* (x, _) := convert (mkReader b (Z.of_nat (length b))) false in Ok x.

Definition toTinyIntU (b : list byte) : Outcome Z := ofmap uint_val (convertAll (T := UInt 1) b).
Definition toTinyInt (b : list byte) : Outcome Z := ofmap sint_val (convertAll (T := SInt 1) b).
Definition toSmallIntU (b : list byte) : Outcome Z := ofmap uint_val (convertAll (T := UInt 2) b).
Definition toSmallInt (b : list byte) : Outcome Z := ofmap sint_val (convertAll (T := SInt 2) b).
Definition toIntU (b : list byte) : Outcome Z := ofmap uint_val (convertAll (T := UInt 4) b).
Definition toInt (b : list byte) : Outcome Z := ofmap sint_val (convertAll (T := SInt 4) b).
Definition toBigIntU (b : list byte) : Outcome Z := ofmap uint_val (convertAll (T := UInt 8) b).
Definition toBigInt (b : list byte) : Outcome Z := ofmap sint_val (convertAll (T := SInt 8) b).
Definition toText (b : list byte) : Outcome (list byte) := ofmap text_bytes (convertAll (T := Text) b).

(** ** Round trips *)

(** A converter whose delimited form is self-delimiting on the values [ok]:
    reading it back consumes exactly the bytes written and accounts for
    them. *)
Class SelfDelimiting (T : Type) `{Converter T} (ok : T -> Prop) := {
  delimited_written x : ok x -> toBytes x true = Some (bytesOf x true);
  delimited_nonempty x : ok x -> bytesOf x true <> [];
  delimited_read x tail total :
    ok x -> (Z.of_nat (length (bytesOf x true)) <= total <= UINT64_MAX)%Z ->
    convert (mkReader (bytesOf x true ++ tail) total) true =
      Ok (x, mkReader tail (total - Z.of_nat (length (bytesOf x true))))
}.

Definition uint_ok {n} (x : UInt n) : Prop := (0 <= uint_val x < 256 ^ Z.of_nat n)%Z.
Definition sint_ok {n} (x : SInt n) : Prop :=
  (- 2 ^ (8 * Z.of_nat n - 1) <= sint_val x < 2 ^ (8 * Z.of_nat n - 1))%Z.
Definition text_ok (x : Text) : Prop :=
  Forall (fun b => b <> 0%Z) (text_bytes x) /\ (Z.of_nat (length (text_bytes x)) <= UINT16_MAX)%Z.

Lemma uint_value_bytes n (x : UInt n) : uint_ok x -> plain_value (plain_bytes x) = x.
Proof.
  destruct x as [z]; unfold uint_ok; simpl. intros Hz. f_equal.
  rewrite le_value_le_bytes. by apply Z.mod_small.
Qed.

Lemma sint_value_bytes n (x : SInt n) : 0 < n -> sint_ok x -> plain_value (plain_bytes x) = x.
Proof.
  destruct x as [z]; unfold sint_ok; simpl. intros Hn Hz. f_equal.
  rewrite le_value_le_bytes. unfold sint at 1.
  replace (256 ^ Z.of_nat n)%Z with (2 ^ (8 * Z.of_nat n))%Z
    by (rewrite Z.pow_mul_r by lia; done).
  rewrite Z.mod_mod by (apply Z.pow_nonzero; lia).
  change (sint (8 * Z.of_nat n) z = z). apply sint_id; lia.
Qed.

Lemma advance_app n l tail total :
  length l = n -> (Z.of_nat n <= total <= UINT64_MAX)%Z ->
  advance n (mkReader (l ++ tail) total) = mkReader tail (total - Z.of_nat n).
Proof.
  intros <- Ht. unfold advance, u64, UINT64_MAX in *; simpl.
  by rewrite drop_app_length, Z.mod_small by lia.
Qed.

Lemma readPlain_app {n} (x : UInt n) tail total :
  uint_ok x -> readPlain (mkReader (plain_bytes x ++ tail) total) = Ok x.
Proof.
  intros Hx. unfold readPlain; simpl. rewrite length_app, length_le_bytes.
  rewrite bool_decide_true by lia. rewrite take_app_length' by (by rewrite length_le_bytes).
  f_equal. by apply uint_value_bytes.
Qed.

#[export] Instance SelfDelimiting_uint n : SelfDelimiting (UInt (S n)) uint_ok.
Proof.
  split; [done..|]. intros x tail total Hx Ht. unfold bytesOf in *.
  cbn [convert Converter_plain toBytes from_option id] in *. rewrite readPlain_app by done. cbn [obind].
  assert (length (plain_bytes x) = S n) as Hl by apply length_le_bytes. rewrite Hl in *.
  f_equal. f_equal. by apply advance_app.
Qed.

Lemma readSize_app (n : nat) tail total :
  (Z.of_nat n <= UINT16_MAX)%Z -> (2 <= total <= UINT64_MAX)%Z ->
  readSize (mkReader (sizePrefix n ++ tail) total) = Ok (n, mkReader tail (total - 2)).
Proof.
  intros Hn Ht. unfold readSize, sizePrefix, u16.
  rewrite Z.mod_small by (unfold UINT16_MAX in *; lia).
  pose proof (delimited_read (mkUInt (n := 2) (Z.of_nat n)) tail total) as Hr.
  unfold bytesOf in Hr. cbn [toBytes Converter_plain plain_bytes Plain_uint uint_val from_option id] in Hr.
  rewrite Hr; clear Hr.
  - cbn [obind uint_val]. rewrite Nat2Z.id. do 3 f_equal.
  - unfold uint_ok, UINT16_MAX in *; simpl. lia.
  - rewrite length_le_bytes. lia.
Qed.

#[export] Instance SelfDelimiting_text : SelfDelimiting Text text_ok.
Proof.
  split.
  - done.
  - intros x _. unfold bytesOf. cbn [toBytes Converter_text from_option id]. by unfold sizePrefix, le_bytes.
  - intros [l] tail total [Hl Hlen] Ht; simpl in Hl, Hlen. unfold bytesOf in *.
    cbn [toBytes Converter_text convert text_bytes from_option id] in *. rewrite (cstr_id l) in * by done.
    rewrite length_app in *. replace (length (sizePrefix (length l))) with 2 in * by done.
    rewrite <- app_assoc, readSize_app by lia. cbn [obind ptr].
    rewrite bool_decide_true by (rewrite length_app; lia).
    rewrite take_app_length. do 2 f_equal. rewrite advance_app by lia. f_equal. lia.
Qed.

(** With more than 65535 elements the counter starts again before it reaches
    their number: however many rounds are allowed, the writer is not done. *)
Lemma writeLoop_endless {T} `{Converter T} (v : list T) d fuel : forall i result,
  (UINT16_MAX < Z.of_nat (length v))%Z -> (0 <= i <= UINT16_MAX)%Z -> writeLoop fuel v d i result = None.
Proof.
  unfold UINT16_MAX. induction fuel as [|fuel IH]; intros i result Hlen Hi; [done|]. cbn [writeLoop].
  destruct (Z.ltb_spec i (Z.of_nat (length v))); [|lia].
  destruct (v !! Z.to_nat i) as [x|]; [|done]. cbn [mbind option_bind]. destruct (toBytes x true); [|done].
  cbn [option_bind]. apply IH; [done|]. unfold u16. pose proof (Z.mod_pos_bound (i + 1) 65536 ltac:(lia)). lia.
Qed.

Section special_vectors.
  Context {T : Type} `{Converter T} {ok : T -> Prop} `{!SelfDelimiting T ok}.

Definition vec_bytes (v : list T) : list byte := merge ((fun x => bytesOf x true) <$> v).

Lemma vec_bytes_cons x v : vec_bytes (x :: v) = bytesOf x true ++ vec_bytes v.
Proof. done. Qed.

Lemma readN_vec v tail total :
  Forall ok v -> (Z.of_nat (length (vec_bytes v)) <= total <= UINT64_MAX)%Z ->
  readN (length v) (mkReader (vec_bytes v ++ tail) total) =
    Ok (v, mkReader tail (total - Z.of_nat (length (vec_bytes v)))).
Proof.
  intros Hv. revert total. induction Hv as [|x v Hx Hv IH]; intros total Ht.
  - simpl. by rewrite Z.sub_0_r.
  - rewrite vec_bytes_cons in *. rewrite length_app in Ht.
    cbn [length readN]. rewrite <- app_assoc, delimited_read by (done || lia).
    cbn [obind]. rewrite IH by lia. cbn [obind]. do 3 f_equal.
    rewrite length_app. lia.
Qed.

Lemma readAll_vec fuel v :
  Forall ok v -> (Z.of_nat (length (vec_bytes v)) <= UINT64_MAX)%Z ->
  length (vec_bytes v) < fuel ->
  readAll fuel (mkReader (vec_bytes v) (Z.of_nat (length (vec_bytes v)))) =
    Ok (v, mkReader [] 0).
Proof.
  intros Hv. revert fuel. induction Hv as [|x v Hx Hv IH]; intros fuel Ht Hf.
  - destruct fuel; [simpl in Hf; lia|done].
  - rewrite vec_bytes_cons in *. rewrite length_app in *.
    assert (0 < length (bytesOf x true)) as Hpos.
    { pose proof (delimited_nonempty x Hx). destruct (bytesOf x true); [done|simpl; lia]. }
    destruct fuel as [|fuel]; [lia|]. cbn [readAll total_size].
    destruct (Z.ltb_spec 0 (Z.of_nat (length (bytesOf x true) + length (vec_bytes v)))); [|lia].
    rewrite delimited_read by (done || lia). cbn [obind total_size].
    destruct (Z.eqb_spec
      (Z.of_nat (length (bytesOf x true) + length (vec_bytes v)) - Z.of_nat (length (bytesOf x true)))
      (Z.of_nat (length (bytesOf x true) + length (vec_bytes v)))); [lia|].
    replace (Z.of_nat (length (bytesOf x true) + length (vec_bytes v)) -
             Z.of_nat (length (bytesOf x true)))%Z with (Z.of_nat (length (vec_bytes v))) by lia.
    by rewrite IH by lia.
Qed.

(** The rounds of the writer that are left when [done] is written. *)
Lemma writeLoop_rounds (v : list T) d todo : forall done pre fuel,
  v = done ++ todo -> Forall ok todo -> (Z.of_nat (length v) <= UINT16_MAX)%Z -> length todo < fuel ->
  length pre = length done + Nat.b2n d ->
  writeLoop fuel v d (Z.of_nat (length done)) (pre ++ replicate (length todo) []) =
    Some (pre ++ ((fun x => bytesOf x true) <$> todo)).
Proof.
  unfold UINT16_MAX. induction todo as [|x todo IH]; intros done pre fuel Hv Hok Hlen Hf Hpre;
    (destruct fuel as [|fuel]; [simpl in Hf; lia|]); cbn [writeLoop].
  - rewrite Hv, app_nil_r. by destruct (Z.ltb_spec (Z.of_nat (length done)) (Z.of_nat (length done))); [lia|].
  - apply Forall_cons in Hok as [Hx Hok]. assert (length v = length done + S (length todo)) as Hl
      by (rewrite Hv, length_app; done).
    destruct (Z.ltb_spec (Z.of_nat (length done)) (Z.of_nat (length v))); [|lia].
    rewrite Nat2Z.id, Hv, lookup_app_r, Nat.sub_diag by lia. cbn [lookup list_lookup mbind option_bind].
    rewrite (delimited_written x Hx). cbn [option_bind length replicate fmap list_fmap]. rewrite <- Hv.
    rewrite <- Hpre. cbn [mbind option_bind]. rewrite insert_app_r_alt, Nat.sub_diag by lia. cbn [insert list_insert].
    specialize (IH (done ++ [x]) (pre ++ [bytesOf x true]) fuel). rewrite <- !app_assoc in IH. cbn [app] in IH.
    unfold u16. rewrite Z.mod_small by lia.
    replace (Z.of_nat (length done) + 1)%Z with (Z.of_nat (length (done ++ [x]))) by (rewrite length_app; simpl; lia).
    apply IH; [done..|simpl in Hf; lia|]. rewrite !length_app. simpl. lia.
Qed.

Lemma writeElements_vec (v : list T) d :
  Forall ok v -> (Z.of_nat (length v) <= UINT16_MAX)%Z ->
  writeElements (S (length v)) v d = Some ((if d then sizePrefix (length v) else []) ++ vec_bytes v).
Proof.
  intros Hok Hlen. unfold writeElements, vec_bytes, merge. destruct d; cbn [Nat.b2n].
  - rewrite Nat.add_1_r. cbn [replicate insert list_insert].
    pose proof (writeLoop_rounds v true v [] [sizePrefix (length v)] (S (length v)) eq_refl Hok Hlen ltac:(lia) eq_refl) as Hw.
    change (writeLoop (S (length v)) v true 0 (sizePrefix (length v) :: replicate (length v) []) = Some
      (sizePrefix (length v) :: ((fun x => bytesOf x true) <$> v))) in Hw. by rewrite Hw.
  - rewrite Nat.add_0_r.
    pose proof (writeLoop_rounds v false v [] [] (S (length v)) eq_refl Hok Hlen ltac:(lia) eq_refl) as Hw.
    change (writeLoop (S (length v)) v false 0 (replicate (length v) []) = Some ((fun x => bytesOf x true) <$> v)) in Hw.
    by rewrite Hw.
Qed.

(** A vector of self-delimiting elements is itself self-delimiting. *)
#[export] Instance SelfDelimiting_vec :
  SelfDelimiting (Vec T)
    (fun v => Forall ok (vec_list v) /\ (Z.of_nat (length (vec_list v)) <= UINT16_MAX)%Z).
Proof.
  split.
  - intros [v] [Hv Hlen]. unfold bytesOf. cbn [toBytes Converter_vectorSpecial vec_list] in *. unfold vectorSpecial_toBytes.
    cbn [vec_list]. by rewrite writeElements_vec.
  - intros [v] [Hv Hlen]. unfold bytesOf. cbn [toBytes Converter_vectorSpecial vec_list] in *. unfold vectorSpecial_toBytes.
    cbn [vec_list]. by rewrite writeElements_vec.
  - intros [v] tail total [Hv Hlen] Ht; cbn [vec_list] in *. unfold bytesOf in *.
    cbn [toBytes convert Converter_vectorSpecial] in *.
    unfold vectorSpecial_toBytes, vectorSpecial_convert in *; cbn [vec_list] in *.
    rewrite writeElements_vec in * by done. cbn [from_option id] in *.
    rewrite length_app in *. replace (length (sizePrefix (length v))) with 2 in * by done.
    rewrite <- app_assoc, readSize_app by lia. cbn [obind].
    rewrite readN_vec by (done || lia). cbn [obind]. do 3 f_equal. lia.
Qed.

(** Collections round trip: a stored vector of self-delimiting elements is
    read back unchanged, and both loops terminate. *)
Theorem vector_roundtrip (v : Vec T) :
  Forall ok (vec_list v) -> (Z.of_nat (length (vec_list v)) <= UINT16_MAX)%Z ->
  (Z.of_nat (length (bytesOf v false)) <= UINT64_MAX)%Z ->
  exists b, toBytes v false = Some b /\ convertAll b = Ok v.
Proof.
  destruct v as [v]; simpl. intros Hv Hmax Hlen. unfold bytesOf in Hlen. cbn [toBytes Converter_vectorSpecial] in *.
  unfold vectorSpecial_toBytes in *; cbn [vec_list] in *. rewrite writeElements_vec in * by done.
  eexists. split; [done|]. cbn [app from_option id] in *. unfold convertAll. cbn [convert Converter_vectorSpecial].
  unfold vectorSpecial_convert. cbn [ptr]. by rewrite readAll_vec by (done || lia).
Qed.
End special_vectors.

(** Integers and NUL-free texts round trip through [Bytes]. *)
Theorem scalar_roundtrip (n : nat) (x : UInt n) (y : SInt n) (t : Text) :
  uint_ok x -> sint_ok y -> 0 < n -> Forall (fun b => b <> 0%Z) (text_bytes t) ->
  convertAll (bytesOf x false) = Ok x /\
  convertAll (bytesOf y false) = Ok y /\
  convertAll (bytesOf t false) = Ok t.
Proof.
  intros Hx Hy Hn Ht. unfold convertAll, bytesOf. split_and!.
  - cbn [toBytes convert Converter_plain from_option id].
    rewrite <- (app_nil_r (plain_bytes x)) at 1. by rewrite readPlain_app.
  - cbn [toBytes convert Converter_plain from_option id]. unfold readPlain; simpl.
    rewrite length_le_bytes, bool_decide_true by lia. cbn [obind]. f_equal.
    rewrite take_ge by (rewrite length_le_bytes; lia). by apply (sint_value_bytes n y).
  - destruct t as [l]; simpl in *. rewrite cstr_id by done. rewrite Nat2Z.id.
    rewrite bool_decide_true by lia. cbn [obind]. by rewrite firstn_all.
Qed.

(** A text with an embedded NUL is stored truncated. *)
Theorem text_truncated_at_nul (l1 l2 : list byte) :
  Forall (fun b => b <> 0%Z) l1 ->
  toBytes (mkText (l1 ++ 0%Z :: l2)) false = Some l1.
Proof.
  intros Hl. cbn [toBytes Converter_text text_bytes]. f_equal.
  induction Hl as [|b l Hb Hl IH]; simpl; [done|].
  destruct (Z.eqb_spec b 0); [done|by rewrite IH].
Qed.

(** A vector of vectors of plain elements does not round trip: the delimited
    reader of the inner vector leaves [total_size] unaccounted for, and the
    outer loop reads past the value. *)
Theorem nested_plain_vector_overreads (x : UInt 4) :
  uint_ok x -> convertAll (T := Vec (list (UInt 4))) (bytesOf (mkVec [[x]]) false) = UB.
Proof.
  intros Hx. assert (bytesOf (mkVec [[x]]) false = sizePrefix 1 ++ plain_bytes x) as ->.
  { unfold bytesOf. cbn. by rewrite ?app_nil_r. }
  unfold convertAll. cbn [convert Converter_vectorSpecial]. unfold vectorSpecial_convert.
  cbn [ptr]. rewrite length_app. replace (length (sizePrefix 1)) with 2 by done.
  replace (length (plain_bytes x)) with 4 by (by destruct x).
  change (2 + 4) with 6. rewrite readAll_S. cbn [total_size].
  change (0 <? Z.of_nat 6)%Z with true. cbn iota.
  cbn [convert Converter_vectorPlain]. unfold vectorPlain_convert.
  rewrite readSize_app by done. cbn [obind readPlains ptr total_size].
  rewrite <- (app_nil_r (plain_bytes x)). rewrite readPlain_app by done.
  cbn [obind total_size]. change (Z.of_nat 6 - 2 =? Z.of_nat 6)%Z with false. cbn iota.
  by destruct x.
Qed.
