(* ===== verification/Converters.v ===== *)
(** * The converters of collections

    The templates [Bytes::Converter] of include/nogdb/nogdb_types.h for pairs,
    sets, maps, arrays, pointers, C strings and [Bytes] itself, over the
    interface [Converter] of [Blob], and the round trips of collections. *)

From stdpp Require Import base list strings sorting.
From Stdlib Require Import ZArith Lia.
From S2P Require Import Prelude.
From S2P Require Import Types.
From S2P Require Import Store.
From S2P Require Import Blob.

(** ** Pairs: [Converter<std::pair<T1, T2>>] *)
#[export] Instance Converter_pair {T1 T2} `{Converter T1, Converter T2} : Converter (T1 * T2) := {|
  special := special (T := T1) || special (T := T2);
  toBytes v delimiter := a ← toBytes v.1 true; b ← toBytes v.2 delimiter; Some (merge [a; b]);
  convert r delimiter :=
    let* (first, r1) := convert r true in
    let* (second, r2) := convert r1 delimiter in
    Ok ((first, second), r2)
|}.

(** ** [Converter<Bytes>] *)
Record Raw := mkRaw { raw_bytes : list byte }.
#[export] Instance Converter_raw : Converter Raw := {|
  special := true;
  toBytes x delimiter := Some ((if delimiter then sizePrefix (length (raw_bytes x)) else []) ++ raw_bytes x);
  convert r delimiter :=
    if delimiter then
      let* (n, r') := readSize r in
      if bool_decide (n <= length (ptr r')) then Ok (mkRaw (take n (ptr r')), advance n r') else UB
    else
      if bool_decide (Z.to_nat (total_size r) <= length (ptr r))
      then Ok (mkRaw (take (Z.to_nat (total_size r)) (ptr r)), r) else UB
|}.

(** ** C strings, which are written only: the size is that of the stored text. *)
Definition cstring_toBytes (l : list byte) (delimiter : bool) : list byte :=
  (if delimiter then sizePrefix (length (cstr l)) else []) ++ cstr l.

(** ** Arrays: [Converter<T[N]>].  An array of [char] leaves its last element
    out.  [N] is a [uint16_t], so the loop of special elements, which is the one
    of the vector, ends. *)
Definition arrayPlain_toBytes {T} `{Plain T} (isChar : bool) (v : list T) (delimiter : bool) : list byte :=
  (if delimiter then sizePrefix (length v) else []) ++
  take ((length v - (if isChar then 1 else 0)) * plain_sizeof (T := T)) (concat (plain_bytes <$> v)).

Definition arraySpecial_toBytes {T} `{Converter T} (v : list T) (delimiter : bool) : option (list byte) :=
  writeElements (S (length v)) v delimiter.

(** [Converter<std::array<T, N>>::toBytes] copies the array into a vector; its
    [convert] returns a vector where an array is declared, so no program that
    uses it compiles. *)
Definition stdArray_toBytes {T} `{Converter (list T)} (v : list T) (delimiter : bool) : option (list byte) := toBytes v delimiter.

(** ** Pointers: [Converter<T*>::convert], which also reads arrays.  The result
    of the first is the memory the pointer points to; the size was already
    stepped over when [ptr] moves by another [sizeof(CollectionSizeType)].  A
    pointer past the allocation is [UB]. *)
Definition pointerPlain_convert {T} `{Plain T} (r : Reader) (delimiter : bool) : Outcome (list byte * Reader) :=
  if delimiter then
    let* (n, r') := readSize r in
    let n' := 2 + n * plain_sizeof (T := T) in
    if bool_decide (n' <= length (ptr r')) then
      Ok (drop 2 (ptr r'), mkReader (drop n' (ptr r')) (u64 (total_size r' - 2)))
    else UB
  else Ok (ptr r, r).

(** [while (total_size > 0)], without the check for progress that the vector has. *)
Fixpoint readWhile {T} `{Converter T} (fuel : nat) (r : Reader) : Outcome (list T * Reader) :=
  match fuel with
  | O => UB
  | S f =>
      if (0 <? total_size r)%Z then
        let* (x, r1) := convert r true in
        let* (xs, r2) := readWhile f r1 in Ok (x :: xs, r2)
      else Ok ([], r)
  end.

Definition pointerSpecial_convert {T} `{Converter T} (r : Reader) (delimiter : bool) : Outcome (list T * Reader) :=
  if delimiter then
    let* (n, r') := readSize r in readN n r'
  else readWhile (S (length (ptr r))) r.

(** ** Sets and maps: the vector of their elements in order, inserted one by
    one into an empty container.  Inserting an element whose key is there
    changes nothing. *)
Class Less (K : Type) := less : K -> K -> bool.

Section insertion.
  Context {A K : Type} `{Less K} (key : A -> K).

Fixpoint insertElement (x : A) (l : list A) : list A :=
  match l with
  | [] => [x]
  | y :: l' =>
      if less (key x) (key y) then x :: l
      else if less (key y) (key x) then y :: insertElement x l'
      else l
  end.

Definition ofRange (l : list A) : list A := fold_left (fun c x => insertElement x c) l [].
End insertion.

Record SetOf (W : Type) := mkSetOf { set_vector : W }.
Arguments mkSetOf {W} _.
Arguments set_vector {W} _.

(** [std::set<T>] of elements that are special, and of plain elements. *)
Definition onVector {W W' : Type} `{Converter W} (f : W -> W') (r : Reader) (delimiter : bool) : Outcome (W' * Reader) :=
  let* (v, r') := convert r delimiter in Ok (f v, r').

#[export] Instance Converter_setSpecial {T} `{Converter T, Less T} : Converter (SetOf (Vec T)) := {|
  special := true;
  toBytes s delimiter := toBytes (set_vector s) delimiter;
  convert := onVector (fun v : Vec T => mkSetOf (mkVec (ofRange id (vec_list v))))
|}.
#[export] Instance Converter_setPlain {T} `{Plain T, Less T} : Converter (SetOf (list T)) := {|
  special := true;
  toBytes s delimiter := toBytes (set_vector s) delimiter;
  convert := onVector (fun v : list T => mkSetOf (ofRange id v))
|}.

(** The elements of a vector of pairs of plain values are the pairs as they lie
    in memory.  The bytes of the padding are unspecified. *)
Class Aligned (T : Type) := alignof : nat.
Class Padding := padding : byte.
#[export] Instance Aligned_uint n : Aligned (UInt n) := n.
#[export] Instance Aligned_sint n : Aligned (SInt n) := n.

Record Pod (T1 T2 : Type) := mkPod { pod_first : T1; pod_second : T2 }.
Arguments mkPod {T1 T2} _ _.
Arguments pod_first {T1 T2} _.
Arguments pod_second {T1 T2} _.

Definition roundUp (n a : nat) : nat := (n + (a - 1)) / a * a.

Section pods.
  Context (T1 T2 : Type) `{Plain T1, Plain T2, Aligned T1, Aligned T2}.
Definition podOffset : nat := roundUp (plain_sizeof (T := T1)) (alignof (T := T2)).
Definition podSize : nat :=
  roundUp (podOffset + plain_sizeof (T := T2)) (Nat.max (alignof (T := T1)) (alignof (T := T2))).
End pods.

#[export] Instance Plain_pod {T1 T2} `{Plain T1, Plain T2, Aligned T1, Aligned T2, Padding} : Plain (Pod T1 T2) := {|
  plain_sizeof := podSize T1 T2;
  plain_bytes p :=
    plain_bytes (pod_first p) ++ replicate (podOffset T1 T2 - plain_sizeof (T := T1)) padding ++
    plain_bytes (pod_second p) ++ replicate (podSize T1 T2 - (podOffset T1 T2 + plain_sizeof (T := T2))) padding;
  plain_value l :=
    mkPod (plain_value (take (plain_sizeof (T := T1)) l))
          (plain_value (take (plain_sizeof (T := T2)) (drop (podOffset T1 T2) l)))
|}.

(** [std::map<T1, T2>]: the elements of its vector are pairs, which are special
    when one of the two types is, and memory otherwise. *)
Record MapOf (W : Type) := mkMapOf { map_vector : W }.
Arguments mkMapOf {W} _.
Arguments map_vector {W} _.

#[export] Instance Converter_mapSpecial {T1 T2} `{Converter T1, Converter T2, Less T1} : Converter (MapOf (Vec (T1 * T2))) := {|
  special := true;
  toBytes m delimiter := toBytes (map_vector m) delimiter;
  convert := onVector (fun v : Vec (T1 * T2) => mkMapOf (mkVec (ofRange fst (vec_list v))))
|}.
#[export] Instance Converter_mapPlain {T1 T2} `{Plain T1, Plain T2, Aligned T1, Aligned T2, Padding, Less T1} :
    Converter (MapOf (list (Pod T1 T2))) := {|
  special := true;
  toBytes m delimiter := toBytes (map_vector m) delimiter;
  convert := onVector (fun v : list (Pod T1 T2) => mkMapOf (ofRange pod_first v))
|}.

(** ** Reading the whole of a value *)

(** A converter whose plain form is read back when nothing else is left. *)
Class WholeReading (T : Type) `{Converter T} (ok : T -> Prop) := {
  whole_written x : ok x -> toBytes x false = Some (bytesOf x false);
  whole_read x : ok x -> (Z.of_nat (length (bytesOf x false)) <= UINT64_MAX)%Z ->
    exists r', convert (mkReader (bytesOf x false) (Z.of_nat (length (bytesOf x false)))) false = Ok (x, r')
}.

Lemma convertAll_whole {T} `{Converter T} {ok : T -> Prop} `{!WholeReading T ok} x :
  ok x -> (Z.of_nat (length (bytesOf x false)) <= UINT64_MAX)%Z -> convertAll (bytesOf x false) = Ok x.
Proof. intros Hx Hl. unfold convertAll. destruct (whole_read x Hx Hl) as [r' ->]. done. Qed.

Lemma readSized_app {A} (f : list byte -> A) l tail total :
  (Z.of_nat (length l) <= UINT16_MAX)%Z ->
  (Z.of_nat (length (sizePrefix (length l) ++ l)) <= total <= UINT64_MAX)%Z ->
  (let* (n, r') := readSize (mkReader ((sizePrefix (length l) ++ l) ++ tail) total) in
   if bool_decide (n <= length (ptr r')) then Ok (f (take n (ptr r')), advance n r') else UB) =
  Ok (f l, mkReader tail (total - Z.of_nat (length (sizePrefix (length l) ++ l)))).
Proof.
  intros Hlen Ht. rewrite length_app in *. replace (length (sizePrefix (length l))) with 2 in * by done.
  rewrite <- app_assoc, readSize_app by lia. cbn [obind ptr].
  rewrite bool_decide_true by (rewrite length_app; lia). rewrite take_app_length. do 2 f_equal.
  rewrite advance_app by lia. f_equal. lia.
Qed.

Definition raw_ok (x : Raw) : Prop := (Z.of_nat (length (raw_bytes x)) <= UINT16_MAX)%Z.
#[export] Instance SelfDelimiting_raw : SelfDelimiting Raw raw_ok.
Proof.
  split; [done|by intros [l] _|]. intros [l] tail total Hx Ht. unfold bytesOf in *. cbn [from_option id toBytes Converter_raw convert raw_bytes] in *.
  by apply (readSized_app mkRaw).
Qed.
#[export] Instance WholeReading_raw : WholeReading Raw (fun _ => True).
Proof.
  split; [done|]. intros [l] _ _. unfold bytesOf. cbn [from_option id toBytes Converter_raw convert raw_bytes app ptr total_size]. rewrite Nat2Z.id.
  rewrite bool_decide_true by lia. rewrite firstn_all. by eexists.
Qed.

#[export] Instance WholeReading_text : WholeReading Text (fun x => Forall (fun b => b <> 0%Z) (text_bytes x)).
Proof.
  split; [done|]. intros [l] Hx _. unfold bytesOf. cbn [from_option id toBytes Converter_text convert text_bytes ptr total_size] in *. rewrite (cstr_id l) by done.
  rewrite Nat2Z.id, bool_decide_true by lia. rewrite firstn_all. by eexists.
Qed.

#[export] Instance WholeReading_uint n : WholeReading (UInt n) uint_ok.
Proof.
  split; [done|]. intros x Hx _. unfold bytesOf. cbn [from_option id toBytes Converter_plain convert].
  pose proof (readPlain_app x [] (Z.of_nat (length (plain_bytes x))) Hx) as Hr. rewrite app_nil_r in Hr.
  rewrite Hr. by eexists.
Qed.

Section vectors.
  Context {T : Type} `{Converter T} {ok : T -> Prop} `{!SelfDelimiting T ok}.
#[export] Instance WholeReading_vec : WholeReading (Vec T) (fun v => Forall ok (vec_list v) /\ (Z.of_nat (length (vec_list v)) <= UINT16_MAX)%Z).
Proof.
  split; intros [v] [Hv Hmax]; unfold bytesOf; cbn [toBytes convert Converter_vectorSpecial vec_list] in *;
    unfold vectorSpecial_toBytes, vectorSpecial_convert; cbn [vec_list] in *; rewrite writeElements_vec by done; [done|].
  cbn [app ptr from_option id]. intros Hlen. rewrite readAll_vec by (done || lia). by eexists.
Qed.
End vectors.

Section pairs.
  Context {T1 T2 : Type} `{Converter T1, Converter T2} {ok1 : T1 -> Prop} {ok2 : T2 -> Prop} `{!SelfDelimiting T1 ok1}.
Definition pair_ok (v : T1 * T2) : Prop := ok1 v.1 /\ ok2 v.2.

Lemma pair_written (v : T1 * T2) d :
  ok1 v.1 -> toBytes v.2 d = Some (bytesOf v.2 d) -> toBytes v d = Some (bytesOf v.1 true ++ bytesOf v.2 d).
Proof.
  intros H1 H2. cbn [toBytes Converter_pair]. rewrite (delimited_written _ H1), H2. unfold merge. simpl.
  by rewrite app_nil_r.
Qed.
Lemma pair_bytes (v : T1 * T2) d :
  ok1 v.1 -> toBytes v.2 d = Some (bytesOf v.2 d) -> bytesOf v d = bytesOf v.1 true ++ bytesOf v.2 d.
Proof. intros H1 H2. unfold bytesOf at 1. by rewrite pair_written. Qed.

#[export] Instance SelfDelimiting_pair `{!SelfDelimiting T2 ok2} : SelfDelimiting (T1 * T2) pair_ok.
Proof.
  split.
  - intros v [H1 H2]. pose proof (delimited_written v.2 H2). by rewrite pair_bytes, pair_written.
  - intros v [H1 H2]. pose proof (delimited_written v.2 H2). rewrite pair_bytes by done. pose proof (delimited_nonempty v.1 H1).
    by destruct (bytesOf v.1 true).
  - intros v tail total [H1 H2] Ht. pose proof (delimited_written v.2 H2). rewrite pair_bytes in * by done. rewrite length_app in *. cbn [convert Converter_pair].
    rewrite <- app_assoc, delimited_read by (done || lia). cbn [obind]. rewrite delimited_read by (done || lia).
    cbn [obind]. destruct v. do 3 f_equal. lia.
Qed.

#[export] Instance WholeReading_pair `{!WholeReading T2 ok2} : WholeReading (T1 * T2) pair_ok.
Proof.
  split; intros v [H1 H2]; pose proof (whole_written v.2 H2); rewrite pair_bytes by done;
    [by rewrite pair_written|]. intros Ht. rewrite length_app in *. cbn [convert Converter_pair].
  rewrite delimited_read by (done || lia). cbn [obind].
  destruct (whole_read v.2 H2) as [r' Hr]; [lia|].
  replace (Z.of_nat (length (bytesOf v.1 true) + length (bytesOf v.2 false)) - Z.of_nat (length (bytesOf v.1 true)))%Z
    with (Z.of_nat (length (bytesOf v.2 false))) by lia.
  rewrite Hr. destruct v. by eexists.
Qed.
End pairs.

(** ** The elements of an ordered container *)
Section ordered.
  Context {A K : Type} `{Less K} `{!StrictTotal less} (key : A -> K).

Lemma insertElement_last x l :
  Forall (fun y => less (key y) (key x) = true) l -> insertElement key x l = l ++ [x].
Proof.
  induction 1 as [|y l Hy _ IH]; [done|]. simpl. by rewrite (ltb_asym less (key y) (key x)), Hy, IH.
Qed.

(** What a [std::set] or [std::map] holds is in increasing order, and inserting
    it again gives the same container. *)
Lemma ofRange_ordered l : ordered less key l -> ofRange key l = l.
Proof.
  intros Hl. unfold ofRange.
  assert (forall l1 l2, ordered less key (l1 ++ l2) -> fold_left (fun c x => insertElement key x c) l2 l1 = l1 ++ l2)
    as Happ; [|by apply (Happ [])].
  clear l Hl. intros l1 l2. revert l1. induction l2 as [|x l2 IH]; intros l1 Hl; [by rewrite app_nil_r|].
  simpl. rewrite insertElement_last.
  - rewrite IH; rewrite <- app_assoc; done.
  - apply Forall_forall. intros y Hy.
    exact (StronglySorted_app_1_elem_of _ _ _ _ _ Hl Hy (list_elem_of_here x l2)).
Qed.
End ordered.

(** ** Plain elements *)

(** The bytes of a plain value are as many as its size, and give it back. *)
Class PlainLaws (T : Type) `{Plain T} (ok : T -> Prop) := {
  plain_length x : length (plain_bytes x) = plain_sizeof (T := T);
  plain_positive : 0 < plain_sizeof (T := T);
  plain_back x : ok x -> plain_value (plain_bytes x) = x;
}.

#[export] Instance PlainLaws_uint n : PlainLaws (UInt (S n)) uint_ok.
Proof. split; [intros x; apply length_le_bytes|simpl; lia|intros x; apply uint_value_bytes]. Qed.
#[export] Instance PlainLaws_sint n : PlainLaws (SInt (S n)) sint_ok.
Proof. split; [intros x; apply length_le_bytes|simpl; lia|intros x; apply sint_value_bytes; lia]. Qed.

Section plain_vectors.
  Context {T : Type} `{Plain T} {ok : T -> Prop} `{!PlainLaws T ok}.

Lemma length_plains (v : list T) : length (concat (plain_bytes <$> v)) = length v * plain_sizeof (T := T).
Proof. induction v as [|x v IH]; [done|]. cbn [fmap list_fmap concat length]. rewrite length_app, plain_length. apply (f_equal (Nat.add _)), IH. Qed.

Lemma readPlains_app (v : list T) tail :
  Forall ok v -> readPlains (length v) (concat (plain_bytes <$> v) ++ tail) = Ok v.
Proof.
  induction 1 as [|x v Hx _ IH]; [done|]. cbn [length readPlains fmap list_fmap concat]. unfold readPlain. cbn [ptr].
  rewrite <- app_assoc, <- (plain_length x), bool_decide_true by (rewrite length_app; lia).
  rewrite take_app_length, plain_back by done. cbn [obind]. rewrite drop_app_length, IH. done.
Qed.

#[export] Instance WholeReading_plains : WholeReading (list T) (Forall ok).
Proof.
  split; [done|]. intros v Hv _. unfold bytesOf. cbn [from_option id toBytes convert Converter_vectorPlain]. unfold vectorPlain_toBytes, vectorPlain_convert.
  cbn [app total_size ptr]. rewrite Nat2Z.id, length_plains, Nat.div_mul by (pose proof plain_positive; lia).
  pose proof (readPlains_app v [] Hv) as Hr. rewrite app_nil_r in Hr. rewrite Hr. by eexists.
Qed.
End plain_vectors.

Section pods.
  Context {T1 T2 : Type} `{Plain T1, Plain T2, Aligned T1, Aligned T2, Padding}.
  Context {ok1 : T1 -> Prop} {ok2 : T2 -> Prop} `{!PlainLaws T1 ok1, !PlainLaws T2 ok2}.
  Context (Hal1 : 0 < alignof (T := T1)) (Hal2 : 0 < alignof (T := T2)).

Lemma roundUp_le n a : 0 < a -> n <= roundUp n a.
Proof.
  intros Ha. unfold roundUp. pose proof (Nat.div_mod_eq (n + (a - 1)) a). pose proof (Nat.mod_upper_bound (n + (a - 1)) a).
  nia.
Qed.

Definition pod_ok (p : Pod T1 T2) : Prop := ok1 (pod_first p) /\ ok2 (pod_second p).

Lemma PlainLaws_pod : PlainLaws (Pod T1 T2) pod_ok.
Proof using Hal1 Hal2 PlainLaws0 PlainLaws1.
  pose proof (plain_positive (T := T1)) as P1.
  assert (plain_sizeof (T := T1) <= podOffset T1 T2) as Ho by (by apply roundUp_le).
  assert (podOffset T1 T2 + plain_sizeof (T := T2) <= podSize T1 T2) as Hs by (apply roundUp_le; lia).
  split.
  - intros p. cbn [plain_bytes Plain_pod plain_sizeof]. rewrite !length_app, !length_replicate, !plain_length. lia.
  - cbn [plain_sizeof Plain_pod]. lia.
  - intros [x y] [Hx Hy]. cbn [plain_bytes plain_value Plain_pod pod_first pod_second] in *. f_equal.
    + rewrite take_app_length' by (by rewrite plain_length). by apply plain_back.
    + rewrite drop_app_ge by (rewrite plain_length; lia).
      rewrite drop_app_length' by (rewrite length_replicate, plain_length; lia).
      rewrite take_app_length' by (by rewrite plain_length). by apply plain_back.
Qed.
End pods.

(** ** Round trips *)

Section roundtrips.
  Context {K V : Type} `{Converter K, Converter V} {okK : K -> Prop} {okV : V -> Prop}.
  Context `{!SelfDelimiting K okK, !SelfDelimiting V okV, Less K, !StrictTotal (less (K := K))}.

(** A value fits the address space. *)
Definition fits {T} `{Converter T} (x : T) : Prop := (Z.of_nat (length (bytesOf x false)) <= UINT64_MAX)%Z.

Lemma onVector_whole {W W' : Type} `{Converter W} {okW : W -> Prop} `{!WholeReading W okW} (f : W -> W') (w : W) :
  okW w -> fits w ->
  exists r', onVector f (mkReader (bytesOf w false) (Z.of_nat (length (bytesOf w false)))) false = Ok (f w, r').
Proof. intros Hw Hf. unfold onVector. destruct (whole_read w Hw Hf) as [r' ->]. by eexists. Qed.

(** C20. A set of values and a map of pairs of at most 65535 elements, written and
    read back; above that the writer does not end, whatever the fuel. *)
Theorem set_map_roundtrip (s : list K) (m : list (K * V)) :
  Forall okK s -> ordered less id s -> (Z.of_nat (length s) <= UINT16_MAX)%Z -> fits (mkSetOf (mkVec s)) ->
  Forall (pair_ok (ok1 := okK) (ok2 := okV)) m -> ordered less fst m ->
  (Z.of_nat (length m) <= UINT16_MAX)%Z -> fits (mkMapOf (mkVec m)) ->
  (exists b, toBytes (mkSetOf (mkVec s)) false = Some b /\ convertAll b = Ok (mkSetOf (mkVec s))) /\
  (exists b, toBytes (mkMapOf (mkVec m)) false = Some b /\ convertAll b = Ok (mkMapOf (mkVec m))) /\
  (forall (s' : list K) delimiter fuel, (UINT16_MAX < Z.of_nat (length s'))%Z -> writeElements fuel s' delimiter = None) /\
  (forall (m' : list (K * V)) delimiter fuel, (UINT16_MAX < Z.of_nat (length m'))%Z ->
     writeElements fuel m' delimiter = None).
Proof.
  intros Hs Hso Hsl Hsf Hm Hmo Hml Hmf. split_and!.
  - exists (bytesOf (mkVec s) false). split; [by apply (whole_written (mkVec s))|]. unfold convertAll.
    destruct (onVector_whole (fun v : Vec K => mkSetOf (mkVec (ofRange id (vec_list v)))) (mkVec s) (conj Hs Hsl) Hsf)
      as [r' Hr].
    cbn [convert Converter_setSpecial]. rewrite Hr. simpl. by rewrite ofRange_ordered.
  - exists (bytesOf (mkVec m) false). split; [by apply (whole_written (mkVec m))|]. unfold convertAll.
    destruct (onVector_whole (fun v : Vec (K * V) => mkMapOf (mkVec (ofRange fst (vec_list v)))) (mkVec m) (conj Hm Hml) Hmf)
      as [r' Hr].
    cbn [convert Converter_mapSpecial]. rewrite Hr. simpl. by rewrite ofRange_ordered.
  - intros s' delimiter fuel Hl. unfold writeElements. by rewrite writeLoop_endless.
  - intros m' delimiter fuel Hl. unfold writeElements. by rewrite writeLoop_endless.
Qed.
End roundtrips.

(** Sets of plain values and maps from plain values to plain values, whose pairs
    are written as they lie in memory. *)
Section plain_roundtrips.
  Context {K V : Type} `{Plain K, Plain V, Aligned K, Aligned V, Padding} {okK : K -> Prop} {okV : V -> Prop}.
  Context `{!PlainLaws K okK, !PlainLaws V okV, Less K, !StrictTotal (less (K := K))}.

Theorem plain_set_map_roundtrip (s : list K) (m : list (Pod K V)) :
  0 < alignof (T := K) -> 0 < alignof (T := V) ->
  Forall okK s -> ordered less id s -> fits (mkSetOf s) ->
  Forall (pod_ok (ok1 := okK) (ok2 := okV)) m -> ordered less pod_first m -> fits (mkMapOf m) ->
  convertAll (bytesOf (mkSetOf s) false) = Ok (mkSetOf s) /\
  convertAll (bytesOf (mkMapOf m) false) = Ok (mkMapOf m).
Proof.
  intros HaK HaV Hs Hso Hsf Hm Hmo Hmf. pose proof (PlainLaws_pod HaK HaV) as Hlaws. split; unfold convertAll.
  - destruct (onVector_whole (fun v : list K => mkSetOf (ofRange id v)) s Hs Hsf) as [r' Hr].
    change (bytesOf (mkSetOf s) false) with (bytesOf s false). cbn [convert Converter_setPlain set_vector] in *. rewrite Hr. simpl. by rewrite ofRange_ordered.
  - destruct (onVector_whole (fun v : list (Pod K V) => mkMapOf (ofRange pod_first v)) m Hm Hmf) as [r' Hr].
    change (bytesOf (mkMapOf m) false) with (bytesOf m false). cbn [convert Converter_mapPlain map_vector] in *. rewrite Hr. simpl. by rewrite ofRange_ordered.
Qed.
End plain_roundtrips.

(** ** Arrays *)
Section arrays.
  Context {T : Type} `{Converter T} {ok : T -> Prop} `{!SelfDelimiting T ok}.

Lemma readWhile_vec fuel (v : list T) :
  Forall ok v -> (Z.of_nat (length (vec_bytes v)) <= UINT64_MAX)%Z -> length (vec_bytes v) < fuel ->
  readWhile fuel (mkReader (vec_bytes v) (Z.of_nat (length (vec_bytes v)))) = Ok (v, mkReader [] 0).
Proof.
  intros Hv. revert fuel. induction Hv as [|x v Hx Hv IH]; intros fuel Ht Hf; (destruct fuel as [|fuel]; [simpl in Hf; lia|]).
  - done.
  - rewrite vec_bytes_cons in *. rewrite length_app in *.
    assert (0 < length (bytesOf x true)) as Hpos.
    { pose proof (delimited_nonempty x Hx). destruct (bytesOf x true); [done|simpl; lia]. }
    cbn [readWhile total_size].
    destruct (Z.ltb_spec 0 (Z.of_nat (length (bytesOf x true) + length (vec_bytes v)))); [|lia].
    rewrite delimited_read by (done || lia). cbn [obind].
    replace (Z.of_nat (length (bytesOf x true) + length (vec_bytes v)) -
             Z.of_nat (length (bytesOf x true)))%Z with (Z.of_nat (length (vec_bytes v))) by lia.
    by rewrite IH by lia.
Qed.

(** Arrays of special elements are read back, alone and inside other values. *)
Theorem special_array_roundtrip (v : list T) tail total :
  Forall ok v -> (Z.of_nat (length v) <= UINT16_MAX)%Z ->
  (2 + Z.of_nat (length (vec_bytes v)) <= total <= UINT64_MAX)%Z ->
  (exists b, arraySpecial_toBytes v false = Some b /\
     pointerSpecial_convert (mkReader b (Z.of_nat (length b))) false = Ok (v, mkReader [] 0)) /\
  (exists b, arraySpecial_toBytes v true = Some b /\
     pointerSpecial_convert (mkReader (b ++ tail) total) true = Ok (v, mkReader tail (total - Z.of_nat (length b)))).
Proof.
  intros Hv Hlen Ht. unfold arraySpecial_toBytes. rewrite !writeElements_vec by done. cbn [app].
  split; (eexists; split; [reflexivity|]); unfold pointerSpecial_convert.
  - cbn [ptr]. apply readWhile_vec; [done|lia|lia].
  - rewrite length_app. replace (length (sizePrefix (length v))) with 2 by done.
    rewrite <- app_assoc, readSize_app by lia. cbn [obind]. rewrite readN_vec by (done || lia). do 3 f_equal. lia.
Qed.
End arrays.

(** The reader of a delimited array of plain elements steps over its size twice:
    it returns memory two bytes further on, and leaves the allocation when less
    than two bytes follow the array. *)
Theorem plain_array_misread {T} `{Plain T} {ok : T -> Prop} `{!PlainLaws T ok} (v : list T) tail total :
  Forall ok v -> (Z.of_nat (length v) <= UINT16_MAX)%Z -> (2 <= total <= UINT64_MAX)%Z ->
  pointerPlain_convert (T := T) (mkReader (arrayPlain_toBytes false v true ++ tail) total) true =
    (if bool_decide (2 <= length tail)
     then Ok (drop 2 (concat (plain_bytes <$> v) ++ tail), mkReader (drop 2 tail) (u64 (total - 2 - 2)))
     else UB).
Proof.
  intros Hv Hlen Ht. unfold pointerPlain_convert, arrayPlain_toBytes. rewrite Nat.sub_0_r.
  rewrite take_ge by (by rewrite length_plains). rewrite <- app_assoc, readSize_app by done. cbn [obind ptr total_size].
  rewrite length_app, length_plains.
  destruct (decide (2 <= length tail)) as [Hl|Hl]; [rewrite !bool_decide_true by lia|by rewrite !bool_decide_false by lia].
  do 3 f_equal. rewrite Nat.add_comm, <- drop_drop, <- length_plains, drop_app_length. done.
Qed.

Lemma cstr_cstr l : cstr (cstr l) = cstr l.
Proof.
  apply cstr_id. induction l as [|b l IH]; simpl; [constructor|]. destruct (Z.eqb_spec b 0); [constructor|by constructor].
Qed.

(** The size in front of an array of [char] counts the element that is not
    written; the one in front of a C string does not. *)
Theorem char_array_prefix (v : list (UInt 1)) (l : list byte) :
  v <> [] ->
  (exists payload, arrayPlain_toBytes true v true = sizePrefix (length v) ++ payload /\ length payload = length v - 1) /\
  toBytes (mkText (cstr l)) true = Some (cstring_toBytes l true).
Proof.
  intros Hv. split.
  - eexists. split; [reflexivity|]. rewrite length_take, (length_plains (ok := uint_ok)). simpl. lia.
  - unfold cstring_toBytes. cbn [toBytes Converter_text text_bytes]. by rewrite cstr_cstr.
Qed.

(** The order of texts. *)
#[export] Instance Less_text : Less Text := fun a b => text_ltb (text_bytes a) (text_bytes b).
#[export] Instance StrictTotal_Text : StrictTotal (less (K := Text)).
Proof.
  unfold less, Less_text. split.
  - intros a. apply (ltb_irrefl (ltb := text_ltb)).
  - intros a b c. apply (ltb_trans (ltb := text_ltb)).
  - intros [a] [b] H1 H2. f_equal. by apply (ltb_total (ltb := text_ltb)).
Qed.
