(* ===== verification/RecordModel.v ===== *)
(** * Records

    Model of the class [Record] (include/nogdb/nogdb_types.h and
    src/src/record.cpp): user properties, and the basic properties whose names
    start with ['@'].  [std::map<std::string, Bytes>] is a [gmap]; where the
    code iterates over such a map, [map_items] lists it in key order. *)

From stdpp Require Import base gmap list strings sorting.
From Stdlib Require Import ZArith Lia Ascii.
From S2P Require Import Prelude Types Blob.

Abbreviation PropertyToBytesMap := (gmap string (list byte)).

Definition str_le (a b : string) : Prop := String.leb a b = true.
#[export] Instance str_le_dec : RelDecision str_le.
Proof. intros a b. unfold str_le. apply _. Defined.

Definition item_le {A} (p q : string * A) : Prop := str_le p.1 q.1.
#[export] Instance item_le_dec {A} : RelDecision (@item_le A).
Proof. intros p q. unfold item_le. apply _. Defined.

Definition map_items {A} (m : gmap string A) : list (string * A) :=
  merge_sort item_le (map_to_list m).

Lemma map_items_perm {A} (m : gmap string A) : Permutation (map_items m) (map_to_list m).
Proof. apply merge_sort_Permutation. Qed.

Lemma elem_of_map_items {A} (m : gmap string A) k x : (k, x) ∈ map_items m <-> m !! k = Some x.
Proof. by rewrite (map_items_perm m), elem_of_map_to_list. Qed.

Lemma NoDup_map_items {A} (m : gmap string A) : NoDup (map_items m).*1.
Proof. rewrite (map_items_perm m). apply NoDup_fst_map_to_list. Qed.

Record DbRecord := mkDbRecord {
  properties : PropertyToBytesMap;
  basicProperties : PropertyToBytesMap;
}.

Definition emptyRecord : DbRecord := mkDbRecord ∅ ∅.

(** [str.at(0) == '@']: [at] throws on the empty string. *)
Definition isBasicInfo (s : string) : Outcome bool :=
  match s with
  | EmptyString => Throw STD_OUT_OF_RANGE
  | String c _ => Ok (bool_decide (c = "@"%char))
  end.

Definition isBasicName (s : string) : bool :=
  match s with String c _ => bool_decide (c = "@"%char) | EmptyString => false end.

Definition getAll (r : DbRecord) : PropertyToBytesMap := properties r.
Definition getBasicInfo (r : DbRecord) : PropertyToBytesMap := basicProperties r.

Definition get (name : string) (r : DbRecord) : Outcome (list byte) :=
  let* basic := isBasicInfo name in
  let prop := if (basic : bool) then basicProperties r else properties r in
  Ok (default [] (prop !! name)).

Definition set (name : string) (value : list byte) (r : DbRecord) : DbRecord :=
  if bool_decide (name <> EmptyString) && negb (isBasicName name)
  then mkDbRecord (<[name := value]> (properties r)) (basicProperties r) else r.

Definition setIfNotExists (name : string) (value : list byte) (r : DbRecord) : DbRecord :=
  match properties r !! name with None => set name value r | Some _ => r end.

Definition setBasicInfo (name : string) (value : list byte) (r : DbRecord) : DbRecord :=
  if bool_decide (name <> EmptyString) && isBasicName name
  then mkDbRecord (properties r) (<[name := value]> (basicProperties r)) else r.

Definition setBasicInfoIfNotExists (name : string) (value : list byte) (r : DbRecord) : DbRecord :=
  match basicProperties r !! name with None => setBasicInfo name value r | Some _ => r end.

Definition getProperties (r : DbRecord) : list string := (map_items (properties r)).*1.

(** The typed getters: an absent or empty property is an error, otherwise the
    conversion of [Bytes] is applied. *)
Definition getWith {A} (conv : list byte -> Outcome A) (name : string) (r : DbRecord) : Outcome A :=
  let* bytes := get name r in
  match bytes with [] => Throw NOGDB_CTX_NOEXST_PROPERTY | _ => conv bytes end.

Definition getTinyIntU := getWith toTinyIntU.
Definition getTinyInt := getWith toTinyInt.
Definition getSmallIntU := getWith toSmallIntU.
Definition getSmallInt := getWith toSmallInt.
Definition getIntU := getWith toIntU.
Definition getInt := getWith toInt.
Definition getBigIntU := getWith toBigIntU.
Definition getBigInt := getWith toBigInt.

Definition getText (name : string) (r : DbRecord) : Outcome (list byte) :=
  let* bytes := get name r in
  match bytes with [] => Ok [] | _ => toText bytes end.

Definition getClassName (r : DbRecord) : Outcome (list byte) := getText CLASS_NAME_PROPERTY r.

(** [getRecordId]: the test on the number of fields is the code's
    ([sp.size() != 2] guards the conversion). *)
Definition getRecordId (r : DbRecord) : Outcome RecordId :=
  let* ridAsString := getText RECORD_ID_PROPERTY r in
  match split ridAsString colon with
  | [_; _] => Ok (0, 0)%Z
  | f0 :: f1 :: _ => Ok (u16 (stoul f0), u32 (stoul f1))
  | _ => UB
  end.

Definition getDepth (r : DbRecord) : Outcome Z := getIntU DEPTH_PROPERTY r.

Definition getVersion (r : DbRecord) : Outcome Z :=
  match basicProperties r !! VERSION_PROPERTY with
  | None => Ok 0%Z
  | Some b => toBigIntU b
  end.

Definition unset (name : string) (r : DbRecord) : Outcome DbRecord :=
  let* basic := isBasicInfo name in
  if (basic : bool) then Ok (mkDbRecord (properties r) (delete name (basicProperties r)))
  else Ok (mkDbRecord (delete name (properties r)) (basicProperties r)).

Definition recordSize (r : DbRecord) : nat := base.size (properties r).
Definition recordEmpty (r : DbRecord) : bool := bool_decide (properties r = ∅).
Definition clear (r : DbRecord) : DbRecord := mkDbRecord ∅ ∅.

(** [Record(PropertyToBytesMap)]: the constructor the parser uses moves the
    basic properties out of the map. *)
Definition recordOf (m : PropertyToBytesMap) : Outcome DbRecord :=
  match m !! EmptyString with
  | Some _ => Throw STD_OUT_OF_RANGE
  | None => Ok (mkDbRecord (filter (fun p => isBasicName p.1 = false) m)
                           (filter (fun p => isBasicName p.1 = true) m))
  end.

(** [updateVersion]: the first write of a transaction to a record stamps it
    with the transaction's version and increments the record version. *)
Definition updateVersion (txnVersionId : TxnId) (r : DbRecord) : Outcome DbRecord :=
  let stamp :=
    let r1 := setBasicInfo TXN_VERSION (le_bytes 8 txnVersionId) r in
    let* v := getVersion r1 in
    Ok (setBasicInfo VERSION_PROPERTY (le_bytes 8 (u64 (v + 1))) r1) in
  match basicProperties r !! TXN_VERSION with
  | None => stamp
  | Some _ =>
      let* t := getBigIntU TXN_VERSION r in
      if (t =? txnVersionId)%Z then Ok r else stamp
  end.

(** ** Theorems *)
#[local] Arguments le_bytes : simpl never.
Lemma toBigIntU_le_bytes z : (0 <= z <= UINT64_MAX)%Z -> toBigIntU (le_bytes 8 z) = Ok z.
Proof.
  intros Hz. unfold toBigIntU, convertAll. cbn [convert Converter_plain].
  pose proof (readPlain_app (mkUInt (n := 8) z) [] (Z.of_nat (length (le_bytes 8 z)))) as Hr.
  rewrite app_nil_r in Hr. cbn [plain_bytes Plain_uint uint_val] in Hr.
  rewrite Hr; [done|]. unfold uint_ok, UINT64_MAX in *. simpl. lia.
Qed.

(** Reading back a user property that was set, and no other property. *)
Theorem get_set name name' value r :
  name <> EmptyString -> isBasicName name = false -> name' <> EmptyString ->
  get name (set name value r) = Ok value /\
  (name' <> name -> get name' (set name value r) = get name' r).
Proof.
  intros Hne Hb Hne'. unfold get, set. rewrite bool_decide_true, Hb by done; simpl.
  destruct name as [|c s]; [done|]. destruct name' as [|c' s']; [done|]. simpl in *.
  rewrite Hb. simpl. rewrite lookup_insert_eq. split; [done|]. intros Hd.
  destruct (bool_decide (c' = "@"%char)); simpl; [done|]. by rewrite lookup_insert_ne.
Qed.

(** One increment per transaction: the first update of a record in a
    transaction increments its version by one and stamps it; any further
    update in the same transaction changes nothing. *)
Theorem updateVersion_once t r v :
  (0 <= t <= UINT64_MAX)%Z ->
  basicProperties r !! TXN_VERSION = None \/
    (exists t', getBigIntU TXN_VERSION r = Ok t' /\ t' <> t) ->
  getVersion r = Ok v -> (0 <= v < UINT64_MAX)%Z ->
  exists r', updateVersion t r = Ok r' /\ getVersion r' = Ok (v + 1)%Z /\
    properties r' = properties r /\ updateVersion t r' = Ok r'.
Proof.
  intros Ht Hstamp Hv Hrange. unfold UINT64_MAX in *.
  set (r1 := setBasicInfo TXN_VERSION (le_bytes 8 t) r).
  assert (getVersion r1 = Ok v) as Hv1.
  { unfold getVersion, r1, setBasicInfo in *; simpl. by rewrite lookup_insert_ne. }
  set (r2 := setBasicInfo VERSION_PROPERTY (le_bytes 8 (u64 (v + 1))) r1).
  assert (updateVersion t r = Ok r2) as Hu.
  { unfold updateVersion. fold r1. rewrite Hv1. cbn [obind]. fold r2.
    destruct Hstamp as [->|(t' & Hg & Hne)]; [done|].
    destruct (basicProperties r !! TXN_VERSION); [|done]. rewrite Hg. cbn [obind].
    by destruct (Z.eqb_spec t' t). }
  exists r2. split_and!; [done| |done|].
  - unfold getVersion, r2, r1, setBasicInfo; cbn [basicProperties]; simpl.
    rewrite lookup_insert_eq, toBigIntU_le_bytes by (unfold u64, UINT64_MAX; dlia).
    unfold u64. by rewrite Z.mod_small by lia.
  - assert (basicProperties r2 !! TXN_VERSION = Some (le_bytes 8 t)) as Hs.
    { unfold r2, r1, setBasicInfo; simpl. by rewrite lookup_insert_ne, lookup_insert_eq. }
    assert (getBigIntU TXN_VERSION r2 = Ok t) as Hg.
    { unfold getBigIntU, getWith, get.
      replace (isBasicInfo TXN_VERSION) with (Ok true : Outcome bool) by done.
      cbn [obind]. rewrite Hs. transitivity (toBigIntU (le_bytes 8 t)); [done|].
      by apply toBigIntU_le_bytes. }
    unfold updateVersion. rewrite Hs, Hg. cbn [obind]. by rewrite Z.eqb_refl.
Qed.

(** [getRecordId] returns the null record id for every record whose
    [@recordId] has the form the library writes. *)
Theorem getRecordId_null rid r :
  (0 <= rid.1 <= UINT16_MAX)%Z -> (0 <= rid.2 <= UINT32_MAX)%Z ->
  getText RECORD_ID_PROPERTY r = Ok (rid2str rid) ->
  getRecordId r = Ok (0, 0)%Z.
Proof.
  intros Hc Hp Ht. unfold getRecordId. rewrite Ht; cbn [obind].
  pose proof (parseRid_rid2str rid Hc Hp) as Hs. unfold parseRid in Hs.
  by destruct (split (rid2str rid) colon) as [|f0 [|f1 [|f2 l]]].
Qed.
