(* ===== verification/Parser.v ===== *)
(** * The record codec

    Model of [Parser] (src/src/parser.hpp, parser.cpp) and of
    [ClassPropertyInfo] (src/src/schema.hpp): how a record is laid out in the
    data store and read back.  The value stored in the data store is the whole
    buffer of the [Blob]; reading it gives a [Blob] of the same bytes. *)

From stdpp Require Import base gmap list strings sorting.
From Stdlib Require Import ZArith Lia.
From S2P Require Import Prelude Types Blob RecordModel.

Abbreviation ClassProperty := (gmap string PropertyDescriptor).

Record ClassPropertyInfo := mkClassPropertyInfo {
  idToName : gmap PropertyId string;
  nameToDesc : ClassProperty;
}.

Definition defaultClassPropertyInfo : ClassPropertyInfo :=
  mkClassPropertyInfo {[VERSION_PROPERTY_ID := VERSION_PROPERTY]}
    {[VERSION_PROPERTY := mkPropertyDescriptor VERSION_PROPERTY_ID UNSIGNED_BIGINT ∅]}.

Definition cpi_insert (name : string) (d : PropertyDescriptor) (c : ClassPropertyInfo) : ClassPropertyInfo :=
  mkClassPropertyInfo (emplace (pd_id d) name (idToName c)) (emplace name d (nameToDesc c)).

(** [ClassInfo] (schema.hpp) *)
Record ClassInfo := mkClassInfo {
  ci_id : ClassId;
  ci_name : string;
  ci_propertyInfo : ClassPropertyInfo;
}.

(** ** Sizes *)
Definition getRawDataSize (size : nat) : nat :=
  2 + size + (if bool_decide (128 <= size) then 4 else 1).

(** ** Writing *)
Definition writeProperty (r : DbRecord) (b : Blob) (p : string * PropertyDescriptor) : Outcome Blob :=
  let* rawData := get p.1 r in
  let n := length rawData in
  require (bool_decide (pd_id p.2 < 2 ^ 16)%Z) ;;;
  require (bool_decide (Z.of_nat n < 2 ^ 31)%Z) ;;;
  if bool_decide (n < 128) then
    let size := Z.shiftl (Z.of_nat n mod 256) 1 in
    let* b1 := append (le_bytes 2 (pd_id p.2)) 2 b in
    let* b2 := append (le_bytes 4 size) 1 b1 in
    append rawData n b2
  else
    let size := u32 (u32 (Z.shiftl (u32 (Z.of_nat n)) 1) + 1) in
    let* b1 := append (le_bytes 2 (pd_id p.2)) 2 b in
    let* b2 := append (le_bytes 4 size) 4 b1 in
    append rawData n b2.

(** [parseRecord(txn, dataSize, properties, record)].  For an empty record the
    code copies the first byte of the representation of a [std::string]
    object, an unspecified byte: the argument [fill]. *)
Definition parseRecordRaw (fill : byte) (dataSize : nat) (props : ClassProperty) (r : DbRecord) :
    Outcome Blob :=
  if bool_decide (dataSize <= 0) then append [fill] 1 (newBlob 1)
  else ofold (writeProperty r) (map_items props) (newBlob dataSize).

(** The first index of the property that belongs to the class, in the order
    of index ids. *)
Definition findIndex (classId : ClassId) (d : PropertyDescriptor) : option (IndexId * bool) :=
  foldr (fun i acc =>
           match pd_indexInfo d !! i with
           | Some (c, u) => if (c =? classId)%Z then Some (i, u) else acc
           | None => acc
           end) None (z_sort (map_to_list (pd_indexInfo d)).*1).

Abbreviation IndexInfos := (gmap string (PropertyType * IndexId * bool)).

Record ParseState := mkParseState {
  ps_dataSize : nat;
  ps_properties : ClassProperty;
  ps_indexInfos : IndexInfos;
}.

Definition scanProperty (classId : ClassId) (info : ClassPropertyInfo) (st : ParseState)
    (p : string * list byte) : Outcome ParseState :=
  match nameToDesc info !! p.1 with
  | None => Throw NOGDB_CTX_NOEXST_PROPERTY
  | Some d =>
      let idx := match findIndex classId d with
                 | Some (i, u) => emplace p.1 (pd_type d, i, u) (ps_indexInfos st)
                 | None => ps_indexInfos st
                 end in
      Ok (mkParseState (ps_dataSize st + getRawDataSize (length p.2))
            (emplace p.1 d (ps_properties st)) idx)
  end.

Definition isStoredBasic (name : string) : bool :=
  bool_decide (name = VERSION_PROPERTY) || bool_decide (name = TXN_VERSION).

Definition scanBasic (info : ClassPropertyInfo) (st : ParseState) (p : string * list byte) :
    Outcome ParseState :=
  match nameToDesc info !! p.1 with
  | None => Throw NOGDB_CTX_NOEXST_PROPERTY
  | Some d =>
      if isStoredBasic p.1 then
        Ok (mkParseState (ps_dataSize st + getRawDataSize (length p.2))
              (emplace p.1 d (ps_properties st)) (ps_indexInfos st))
      else Ok st
  end.

(** [parseRecord(txn, classDescriptor, record, classInfo, indexInfos)]: the
    class information [info] is what [Generic::getClassMapProperty] returned
    for the class [classId]. *)
Definition parseRecord (fill : byte) (classId : ClassId) (info : ClassPropertyInfo) (r : DbRecord) :
    Outcome (Blob * IndexInfos) :=
  let* st1 := ofold (scanProperty classId info) (map_items (getAll r)) (mkParseState 0 ∅ ∅) in
  let* st2 := ofold (scanBasic info) (map_items (getBasicInfo r)) st1 in
  let* b := parseRecordRaw fill (ps_dataSize st2) (ps_properties st2) r in
  Ok (b, ps_indexInfos st2).

(** ** Reading

    [Blob::Byte byteData[propertySize]] is an array on the stack, of the size
    that the bytes declare; [onStack n] says that the stack has room for [n]
    bytes.  An array that does not fit is undefined behaviour, and it comes
    before [retrieve] checks the size. *)
Fixpoint parseLoop (onStack : nat -> bool) (fuel : nat) (b : Blob) (info : ClassPropertyInfo) (offset : nat)
    (m : PropertyToBytesMap) : Outcome PropertyToBytesMap :=
  match fuel with
  | O => UB
  | S f =>
      if bool_decide (offset < size_ b) then
        let* (idBytes, o1) := retrieve offset 2 b in
        let propertyId := le_value idBytes in
        let* (flagByte, _) := retrieve o1 1 b in
        let* (propertySize, o2) :=
          (if (Z.land (le_value flagByte) 1 =? 1)%Z then
             let* (t, o) := retrieve o1 4 b in
             Ok (Z.to_nat (Z.shiftr (le_value t) 1), o)
           else
             let* (t, o) := retrieve o1 1 b in
             Ok (Z.to_nat (Z.shiftr (le_value t) 1), o)) in
        match idToName info !! propertyId with
        | Some name =>
            if bool_decide (0 < propertySize) then
              if onStack propertySize then
                let* (bytes, o3) := retrieve o2 propertySize b in
                parseLoop onStack f b info o3 (<[name := bytes]> m)
              else UB
            else parseLoop onStack f b info o2 (<[name := []]> m)
        | None => parseLoop onStack f b info (o2 + propertySize) m
        end
      else Ok m
  end.

(** [parseRawData]: [None] is an empty result of the data store.  Every
    iteration consumes at least three bytes, so [size] iterations suffice. *)
Definition parseRawDataOn (onStack : nat -> bool) (rawData : option (list byte)) (info : ClassPropertyInfo) :
    Outcome DbRecord :=
  match rawData with
  | None => Ok emptyRecord
  | Some bytes =>
      let b := blobOf bytes in
      if bool_decide (capacity_ b = 0) then Throw NOGDB_CTX_UNKNOWN_ERR
      else if bool_decide (4 <= capacity_ b) then
        let* m := parseLoop onStack (S (size_ b)) b info 0 ∅ in recordOf m
      else recordOf ∅
  end.

(** On a stack with room for every array.  The commands use this one. *)
Definition parseRawData : option (list byte) -> ClassPropertyInfo -> Outcome DbRecord := parseRawDataOn (fun _ => true).

Definition parseRawDataWithBasicInfo (className : list byte) (rid : RecordId)
    (rawData : option (list byte)) (info : ClassPropertyInfo) : Outcome DbRecord :=
  let* r := parseRawData rawData info in
  Ok (setBasicInfoIfNotExists DEPTH_PROPERTY (le_bytes 4 0)
     (setBasicInfoIfNotExists VERSION_PROPERTY (le_bytes 8 1)
     (setBasicInfoIfNotExists RECORD_ID_PROPERTY (cstr (rid2str rid))
     (setBasicInfoIfNotExists CLASS_NAME_PROPERTY (cstr className) r)))).

(** ** Layout of one property *)
#[local] Arguments le_bytes : simpl never.

Definition sizeHeader (n : nat) : list byte :=
  if bool_decide (n < 128) then [(2 * Z.of_nat n)%Z] else le_bytes 4 (2 * Z.of_nat n + 1).

Definition encodeBlock (id : PropertyId) (v : list byte) : list byte :=
  le_bytes 2 id ++ sizeHeader (length v) ++ v.

Lemma length_encodeBlock id v : length (encodeBlock id v) = getRawDataSize (length v).
Proof.
  unfold encodeBlock, sizeHeader, getRawDataSize. rewrite !length_app, length_le_bytes.
  destruct (decide (length v < 128)).
  - rewrite bool_decide_true, bool_decide_false by lia. simpl. lia.
  - rewrite bool_decide_false, bool_decide_true by lia. rewrite length_le_bytes. lia.
Qed.

Lemma take_le_bytes_1 z : (0 <= z < 256)%Z -> take 1 (le_bytes 4 z) = [z].
Proof. intros Hz. cbv [le_bytes take]. by rewrite Z.mod_small. Qed.

Lemma append3 d1 n1 d2 n2 d3 b :
  wf_blob b -> n1 <= length d1 -> n2 <= length d2 ->
  size_ b + (n1 + n2 + length d3) <= capacity_ b ->
  exists b', (let* b1 := append d1 n1 b in let* b2 := append d2 n2 b1 in append d3 (length d3) b2) = Ok b' /\
    wf_blob b' /\ capacity_ b' = capacity_ b /\
    written b' = written b ++ take n1 d1 ++ take n2 d2 ++ d3.
Proof.
  intros Hwf H1 H2 Hfit.
  destruct (append_fits n1 d1 b) as (b1 & -> & Hwf1 & Hc1 & Hw1); [done|lia..|]. cbn [obind].
  assert (size_ b1 = size_ b + n1) as Hs1.
  { rewrite <- !length_written by done. rewrite Hw1, length_app, length_take. lia. }
  destruct (append_fits n2 d2 b1) as (b2 & -> & Hwf2 & Hc2 & Hw2); [done|lia..|]. cbn [obind].
  assert (size_ b2 = size_ b1 + n2) as Hs2.
  { rewrite <- !length_written by done. rewrite Hw2, length_app, length_take. lia. }
  destruct (append_fits (length d3) d3 b2) as (b3 & -> & Hwf3 & Hc3 & Hw3); [done|lia..|].
  exists b3. split_and!; [done|done|congruence|].
  by rewrite Hw3, Hw2, Hw1, firstn_all, !app_assoc.
Qed.

Definition desc_ok (d : PropertyDescriptor) : Prop := (0 <= pd_id d < 2 ^ 16)%Z.
Definition value_ok (v : list byte) : Prop := (Z.of_nat (length v) < 2 ^ 31)%Z.

Lemma writeProperty_ok r b name d v :
  get name r = Ok v -> desc_ok d -> value_ok v -> wf_blob b ->
  size_ b + getRawDataSize (length v) <= capacity_ b ->
  exists b', writeProperty r b (name, d) = Ok b' /\ wf_blob b' /\
    capacity_ b' = capacity_ b /\ written b' = written b ++ encodeBlock (pd_id d) v.
Proof.
  unfold desc_ok, value_ok. intros Hget Hd Hv Hwf Hfit. unfold writeProperty, getRawDataSize in *.
  cbn [fst snd]. rewrite Hget. cbn [obind]. unfold require.
  rewrite (bool_decide_true (pd_id d < _)%Z), (bool_decide_true (Z.of_nat _ < _)%Z) by lia.
  cbn [obind]. unfold encodeBlock, sizeHeader. destruct (decide (length v < 128)).
  - rewrite bool_decide_true by lia. rewrite bool_decide_false in Hfit by lia.
    rewrite Z.mod_small, Z.shiftl_mul_pow2 by lia.
    replace (Z.of_nat (length v) * 2 ^ 1)%Z with (2 * Z.of_nat (length v))%Z by lia.
    destruct (append3 (le_bytes 2 (pd_id d)) 2 (le_bytes 4 (2 * Z.of_nat (length v))) 1 v b)
      as (b' & -> & ? & ? & Hw); rewrite ?length_le_bytes; [done|lia..|].
    exists b'. split_and!; [done..|]. by rewrite Hw, take_le_bytes_1 by lia.
  - rewrite bool_decide_false by lia. rewrite bool_decide_true in Hfit by lia.
    unfold u32. rewrite (Z.mod_small (Z.of_nat _)), Z.shiftl_mul_pow2 by lia.
    rewrite (Z.mod_small (Z.of_nat (length v) * _)), Z.mod_small by lia.
    replace (Z.of_nat (length v) * 2 ^ 1 + 1)%Z with (2 * Z.of_nat (length v) + 1)%Z by lia.
    destruct (append3 (le_bytes 2 (pd_id d)) 2 (le_bytes 4 (2 * Z.of_nat (length v) + 1)) 4 v b)
      as (b' & -> & ? & ? & Hw); rewrite ?length_le_bytes; [done|lia..|].
    exists b'. split_and!; [done..|]. rewrite Hw.
    by rewrite !(take_ge (le_bytes _ _)) by (rewrite length_le_bytes; lia).
Qed.

(** ** Layout of a record *)
Definition blockOf (r : DbRecord) (p : string * PropertyDescriptor) : list byte :=
  match get p.1 r with Ok v => encodeBlock (pd_id p.2) v | _ => [] end.

Definition prop_ok (r : DbRecord) (p : string * PropertyDescriptor) : Prop :=
  desc_ok p.2 /\ exists v, get p.1 r = Ok v /\ value_ok v.

Lemma writeProperties_ok r ps b :
  Forall (prop_ok r) ps -> wf_blob b ->
  size_ b + length (concat (blockOf r <$> ps)) <= capacity_ b ->
  exists b', ofold (writeProperty r) ps b = Ok b' /\ wf_blob b' /\
    capacity_ b' = capacity_ b /\ written b' = written b ++ concat (blockOf r <$> ps).
Proof.
  intros Hps. revert b. induction Hps as [|[name d] ps (Hd & v & Hget & Hv) Hps IH]; intros b Hwf Hfit.
  - exists b. by rewrite app_nil_r.
  - cbn [fmap list_fmap concat] in *. rewrite length_app in Hfit.
    assert (blockOf r (name, d) = encodeBlock (pd_id d) v) as Hb.
    { unfold blockOf. simpl in *. by rewrite Hget. }
    rewrite Hb, length_encodeBlock in Hfit.
    destruct (writeProperty_ok r b name d v) as (b1 & Hw & Hwf1 & Hc1 & Hwr1); [done..|lia|].
    cbn [ofold]. rewrite Hw. cbn [obind].
    assert (size_ b1 = size_ b + getRawDataSize (length v)) as Hs1.
    { rewrite <- !length_written by done. by rewrite Hwr1, length_app, length_encodeBlock. }
    destruct (IH b1) as (b2 & -> & Hwf2 & Hc2 & Hwr2); [done|lia|].
    exists b2. split_and!; [done|done|congruence|]. by rewrite Hwr2, Hwr1, Hb, app_assoc.
Qed.

(** ** Reading one block back *)
Lemma land_1_even n : Z.land (2 * Z.of_nat n) 1 = 0%Z.
Proof. change 1%Z with (Z.ones 1). rewrite Z.land_ones by lia. change (2 ^ 1)%Z with 2%Z. dlia. Qed.

Lemma land_1_odd z : (z mod 2 = 1)%Z -> Z.land (z mod 256) 1 = 1%Z.
Proof.
  intros Hz. change 1%Z with (Z.ones 1) at 1. rewrite Z.land_ones by lia.
  change (2 ^ 1)%Z with 2%Z. dlia.
Qed.

Lemma retrieve_app b pre data post k :
  value_ b = pre ++ data ++ post -> length (value_ b) = capacity_ b -> length pre = k ->
  retrieve k (length data) b = Ok (data, k + length data).
Proof. intros Hv Hl <-. by eapply retrieve_at. Qed.

(** The size header decodes to the size, whichever of its two forms. *)
Lemma read_header b pre v post k :
  value_ b = pre ++ sizeHeader (length v) ++ v ++ post -> length (value_ b) = capacity_ b ->
  length pre = k -> value_ok v ->
  exists flag, retrieve k 1 b = Ok (flag, k + 1) /\
    (if (Z.land (le_value flag) 1 =? 1)%Z then
       let* (t, o) := retrieve k 4 b in Ok (Z.to_nat (Z.shiftr (le_value t) 1), o)
     else let* (t, o) := retrieve k 1 b in Ok (Z.to_nat (Z.shiftr (le_value t) 1), o)) =
    Ok (length v, k + length (sizeHeader (length v))).
Proof.
  intros Hb Hl Hk Hv. unfold value_ok in Hv. unfold sizeHeader in *.
  destruct (decide (length v < 128)).
  - rewrite bool_decide_true in * by lia.
    exists [(2 * Z.of_nat (length v))%Z].
    assert (retrieve k 1 b = Ok ([(2 * Z.of_nat (length v))%Z], k + 1)) as Hr.
    { change 1 with (length [(2 * Z.of_nat (length v))%Z]). by eapply retrieve_app. }
    split; [done|]. cbn [le_value]. rewrite Z.mul_0_r, Z.add_0_r, land_1_even.
    cbn [Z.eqb]. rewrite Hr. cbn [obind le_value]. rewrite Z.mul_0_r, Z.add_0_r.
    rewrite Z.shiftr_div_pow2 by lia. f_equal. f_equal. change (2 ^ 1)%Z with 2%Z. dlia.
  - rewrite bool_decide_false in * by lia.
    set (z := (2 * Z.of_nat (length v) + 1)%Z) in *.
    exists [(z mod 256)%Z].
    assert (le_bytes 4 z = [(z mod 256)%Z] ++ le_bytes 3 (z / 256)) as Hsplit by done.
    split.
    { change 1 with (length [(z mod 256)%Z]) at 1. rewrite Hsplit, <- app_assoc in Hb.
      by erewrite retrieve_app. }
    cbn [le_value]. rewrite Z.mul_0_r, Z.add_0_r, land_1_odd by (unfold z; dlia).
    cbn [Z.eqb]. rewrite Pos.eqb_refl.
    assert (retrieve k 4 b = Ok (le_bytes 4 z, k + 4)) as ->.
    { replace 4 with (length (le_bytes 4 z)) at 1 by apply length_le_bytes.
      erewrite retrieve_app by done. by rewrite length_le_bytes. }
    cbn [obind]. rewrite le_value_le_bytes, length_le_bytes.
    rewrite Z.mod_small by (unfold z; simpl; lia).
    rewrite Z.shiftr_div_pow2 by lia. f_equal. f_equal. unfold z. change (2 ^ 1)%Z with 2%Z. dlia.
Qed.

Lemma parseLoop_block fuel b info pre id v post m :
  value_ b = pre ++ encodeBlock id v ++ post -> wf_blob b -> size_ b = capacity_ b ->
  (0 <= id < 2 ^ 16)%Z -> value_ok v ->
  parseLoop (fun _ => true) (S fuel) b info (length pre) m =
    parseLoop (fun _ => true) fuel b info (length (pre ++ encodeBlock id v))
      (match idToName info !! id with Some name => <[name := v]> m | None => m end).
Proof.
  intros Hb [Hl Hsz] Hfull Hid Hv.
  assert (length pre < size_ b) as Hlt.
  { rewrite Hfull, <- Hl, Hb, !length_app, length_encodeBlock. unfold getRawDataSize. lia. }
  cbn [parseLoop]. rewrite bool_decide_true by done.
  unfold encodeBlock in *. rewrite <- !app_assoc in Hb.
  assert (retrieve (length pre) 2 b = Ok (le_bytes 2 id, length pre + 2)) as ->.
  { pose proof (retrieve_app b pre (le_bytes 2 id) _ _ Hb Hl eq_refl) as Hr.
    by rewrite length_le_bytes in Hr. }
  cbn [obind].
  assert (length (pre ++ le_bytes 2 id) = length pre + 2) as Hpre
    by (by rewrite length_app, length_le_bytes).
  rewrite app_assoc in Hb.
  destruct (read_header b _ v post (length pre + 2) Hb Hl Hpre Hv) as (flag & -> & Hh).
  cbn [obind] in Hh |- *. rewrite Hh. cbn [obind]. clear Hh.
  assert (le_value (le_bytes 2 id) = id) as ->.
  { rewrite le_value_le_bytes. by apply Z.mod_small. }
  rewrite !length_app, length_le_bytes.
  destruct (idToName info !! id) as [name|]; [|f_equal; lia].
  destruct (decide (0 < length v)) as [Hpos|Hz].
  - rewrite bool_decide_true by done. rewrite app_assoc in Hb.
    pose proof (retrieve_app b _ v post
      (length pre + 2 + length (sizeHeader (length v))) Hb Hl) as Hr.
    rewrite Hr by (by rewrite length_app, Hpre). cbn [obind]. f_equal. lia.
  - assert (v = []) as -> by (destruct v; simpl in *; [done|lia]).
    rewrite bool_decide_false by (simpl; lia). f_equal. simpl. lia.
Qed.

(** ** Scanning the properties of a record *)
Definition noDesc : PropertyDescriptor := mkPropertyDescriptor 0 PT_UNDEFINED ∅.
Definition descOf (info : ClassPropertyInfo) (name : string) : PropertyDescriptor :=
  default noDesc (nameToDesc info !! name).

Definition sizesOf (l : list (string * list byte)) : nat :=
  sum_list_with (fun p => getRawDataSize (length p.2)) l.

(** Both scans add the described properties they keep, with their sizes. *)
Definition scanStep (keep : string -> bool) (d : PropertyDescriptor) (idx : IndexInfos)
    (st : ParseState) (p : string * list byte) : ParseState :=
  if keep p.1 then
    mkParseState (ps_dataSize st + getRawDataSize (length p.2)) (emplace p.1 d (ps_properties st)) idx
  else st.

Lemma map_to_list_emplace {A} (m : gmap string A) k x :
  m !! k = None -> Permutation (map_to_list (emplace k x m)) ((k, x) :: map_to_list m).
Proof. intros Hk. unfold emplace. rewrite Hk. by apply map_to_list_insert. Qed.

Lemma scan_spec info f keep l st :
  (forall st p d, nameToDesc info !! p.1 = Some d -> exists idx, f st p = Ok (scanStep keep d idx st p)) ->
  NoDup l.*1 -> Forall (fun p => is_Some (nameToDesc info !! p.1)) l ->
  Forall (fun p => keep p.1 = true -> ps_properties st !! p.1 = None) l ->
  exists st', ofold f l st = Ok st' /\
    ps_dataSize st' = ps_dataSize st + sizesOf (filter (fun p => keep p.1 = true) l) /\
    Permutation (map_to_list (ps_properties st'))
      (((fun p => (p.1, descOf info p.1)) <$> filter (fun p => keep p.1 = true) l) ++
       map_to_list (ps_properties st)).
Proof.
  intros Hf. revert st. induction l as [|p l IH]; intros st Hnd Hd Hfresh.
  { exists st. simpl. split_and!; [done|unfold sizesOf; simpl; lia|done]. }
  rewrite fmap_cons in Hnd. apply NoDup_cons in Hnd as [Hnot Hnd].
  apply Forall_cons in Hd as [[d Hp] Hd]. apply Forall_cons in Hfresh as [Hfp Hfl].
  destruct (Hf st p d Hp) as [idx Hstep]. cbn [ofold]. rewrite Hstep. cbn [obind].
  unfold scanStep. rewrite filter_cons. destruct (keep p.1) eqn:Hk.
  - rewrite decide_True by done. destruct (IH (scanStep keep d idx st p)) as (st' & Hst & Hs & Hl).
    + done.
    + done.
    + rewrite Forall_forall in Hfl |- *. intros q Hq Hkq. unfold scanStep. rewrite Hk.
      cbn [ps_properties]. unfold emplace. rewrite Hfp by done.
      rewrite lookup_insert_ne; [by apply Hfl|]. intros Heq. apply Hnot. rewrite Heq.
      apply list_elem_of_fmap. by exists q.
    + unfold scanStep in *. rewrite Hk in *. exists st'. cbn [ps_dataSize ps_properties] in *.
      split_and!; [done| |].
      * rewrite Hs. unfold sizesOf. cbn [sum_list_with]. apply eq_sym, Nat.add_assoc.
      * rewrite Hl, map_to_list_emplace by auto. rewrite fmap_cons. unfold descOf at 2.
        rewrite Hp. simpl. symmetry. apply Permutation_middle.
  - rewrite decide_False by done. by apply IH.
Qed.

(** ** Reading a record back *)
Definition blocksOf (l : list (PropertyId * list byte)) : list byte :=
  concat ((fun p => encodeBlock p.1 p.2) <$> l).

Definition readBlock (info : ClassPropertyInfo) (m : PropertyToBytesMap)
    (p : PropertyId * list byte) : PropertyToBytesMap :=
  match idToName info !! p.1 with Some name => <[name := p.2]> m | None => m end.

Lemma parseLoop_blocks info l : forall fuel b pre m,
  value_ b = pre ++ blocksOf l -> wf_blob b -> size_ b = capacity_ b ->
  Forall (fun p => (0 <= p.1 < 2 ^ 16)%Z /\ value_ok p.2) l -> length l < fuel ->
  parseLoop (fun _ => true) fuel b info (length pre) m = Ok (fold_left (readBlock info) l m).
Proof.
  induction l as [|[id v] l IH]; intros fuel b pre m Hb Hwf Hfull Hok Hfuel;
    (destruct fuel as [|fuel]; [simpl in Hfuel; lia|]).
  - cbn [parseLoop]. rewrite bool_decide_false; [done|].
    destruct Hwf as [Hl _]. rewrite Hfull, <- Hl, Hb. unfold blocksOf. simpl.
    rewrite length_app. simpl. lia.
  - apply Forall_cons in Hok as [[Hid Hv] Hok]. cbn [fst snd] in *.
    assert (value_ b = pre ++ encodeBlock id v ++ blocksOf l) as Hb' by (by rewrite Hb).
    rewrite (parseLoop_block _ _ _ _ _ _ _ _ Hb') by done.
    rewrite IH; [done| |done..|simpl in Hfuel; lia]. by rewrite Hb', app_assoc.
Qed.

Lemma length_blocksOf l : 3 * length l <= length (blocksOf l).
Proof.
  induction l as [|p l IH]; [done|]. unfold blocksOf in *. rewrite fmap_cons. cbn [concat length].
  rewrite length_app, length_encodeBlock. unfold getRawDataSize. case_bool_decide; lia.
Qed.

Lemma fold_left_insert (l : list (string * list byte)) (m : PropertyToBytesMap) :
  NoDup l.*1 -> fold_left (fun m p => <[p.1 := p.2]> m) l m = list_to_map l ∪ m.
Proof.
  revert m. induction l as [|[k v] l IH]; intros m Hnd; simpl; [by rewrite left_id_L by apply _|].
  rewrite fmap_cons in Hnd. apply NoDup_cons in Hnd as [Hnot Hnd]. rewrite IH by done.
  rewrite <- insert_union_l, insert_union_r; [done|].
  by apply not_elem_of_list_to_map_1.
Qed.

(** ** The codec round trip *)
Definition wf_record (r : DbRecord) : Prop :=
  map_Forall (fun k _ => k <> EmptyString /\ isBasicName k = false) (properties r) /\
  map_Forall (fun k _ => isBasicName k = true) (basicProperties r).

(** The class describes every property of the record, with distinct ids. *)
Definition describes (info : ClassPropertyInfo) (m : PropertyToBytesMap) : Prop :=
  map_Forall (fun k v => exists d, nameToDesc info !! k = Some d /\ desc_ok d /\
    idToName info !! pd_id d = Some k /\ value_ok v) m.

Definition storedBasics (r : DbRecord) : PropertyToBytesMap :=
  filter (fun p => isStoredBasic p.1 = true) (basicProperties r).

Lemma get_user r k v :
  wf_record r -> properties r !! k = Some v -> get k r = Ok v.
Proof.
  intros [Hu _] Hk. destruct (Hu k v Hk) as [Hne Hb]. unfold get.
  destruct k as [|c s]; [done|]. simpl in *. rewrite Hb. simpl. by rewrite Hk.
Qed.

Lemma get_basic r k v :
  wf_record r -> basicProperties r !! k = Some v -> get k r = Ok v.
Proof.
  intros [_ Hu] Hk. pose proof (Hu k v Hk) as Hb. unfold get.
  destruct k as [|c s]; [done|]. simpl in *. rewrite Hb. simpl. by rewrite Hk.
Qed.

(** What is stored, in the order of the scans. *)
Definition storedItems (r : DbRecord) : list (string * list byte) :=
  map_items (properties r) ++ filter (fun p => isStoredBasic p.1 = true) (map_items (basicProperties r)).

Lemma elem_of_storedItems r k v :
  (k, v) ∈ storedItems r ->
  properties r !! k = Some v \/ (basicProperties r !! k = Some v /\ isStoredBasic k = true).
Proof.
  unfold storedItems. rewrite elem_of_app, list_elem_of_filter, !elem_of_map_items. naive_solver.
Qed.

Lemma NoDup_storedItems r : wf_record r -> NoDup (storedItems r).*1.
Proof.
  intros [Hu Hb]. unfold storedItems. rewrite fmap_app. apply NoDup_app. split_and!.
  - apply NoDup_map_items.
  - intros k Hk Hk'. apply list_elem_of_fmap in Hk as ([k1 v1] & -> & Hk).
    apply list_elem_of_fmap in Hk' as ([k2 v2] & Heq & Hk'). simpl in Heq; subst k2.
    apply elem_of_map_items in Hk. apply list_elem_of_filter in Hk' as [_ Hk'].
    apply elem_of_map_items in Hk'. destruct (Hu _ _ Hk) as [_ Hf].
    by rewrite (Hb _ _ Hk') in Hf.
  - eapply sublist_NoDup; [apply (NoDup_map_items (basicProperties r))|apply fmap_sublist, sublist_filter].
Qed.

Lemma storedItems_ok info r k v :
  describes info (properties r) -> describes info (basicProperties r) -> (k, v) ∈ storedItems r ->
  nameToDesc info !! k = Some (descOf info k) /\ desc_ok (descOf info k) /\
  idToName info !! pd_id (descOf info k) = Some k /\ value_ok v.
Proof.
  intros Hu Hb Hin. apply elem_of_storedItems in Hin as [Hk|[Hk _]];
    [destruct (Hu _ _ Hk) as (d & Hd & Hr)|destruct (Hb _ _ Hk) as (d & Hd & Hr)];
    unfold descOf; by rewrite Hd.
Qed.

Lemma get_storedItems r k v : wf_record r -> (k, v) ∈ storedItems r -> get k r = Ok v.
Proof.
  intros Hwf Hin. apply elem_of_storedItems in Hin as [Hk|[Hk _]]; eauto using get_user, get_basic.
Qed.

(** The two scans collect exactly the stored properties and their size. *)
Lemma scans_ok classId info r :
  wf_record r -> describes info (properties r) -> describes info (basicProperties r) ->
  exists st, (let* st1 := ofold (scanProperty classId info) (map_items (getAll r)) (mkParseState 0 ∅ ∅) in
    ofold (scanBasic info) (map_items (getBasicInfo r)) st1) = Ok st /\
    ps_dataSize st = sizesOf (storedItems r) /\
    Permutation (map_to_list (ps_properties st)) ((fun p => (p.1, descOf info p.1)) <$> storedItems r).
Proof.
  intros Hwf Hu Hb. destruct Hwf as [Hwu Hwb].
  assert (forall m, describes info m -> Forall (fun p => is_Some (nameToDesc info !! p.1)) (map_items m)) as Hdesc.
  { intros m Hm. apply Forall_forall. intros [k v] Hin. apply elem_of_map_items in Hin.
    destruct (Hm _ _ Hin) as (d & Hd & _). by exists d. }
  destruct (scan_spec info (scanProperty classId info) (fun _ => true) (map_items (properties r))
    (mkParseState 0 ∅ ∅)) as (st1 & H1 & Hs1 & Hp1); [|apply NoDup_map_items|by apply Hdesc| |].
  { intros st p d Hp. unfold scanProperty, scanStep. rewrite Hp. eauto. }
  { apply Forall_forall. intros. apply lookup_empty. }
  rewrite filter_keep_all in Hs1, Hp1 by (by apply Forall_forall).
  cbn [ps_dataSize ps_properties] in *. rewrite map_to_list_empty, app_nil_r in Hp1.
  unfold getAll, getBasicInfo. rewrite H1. cbn [obind].
  destruct (scan_spec info (scanBasic info) isStoredBasic (map_items (basicProperties r)) st1)
    as (st2 & H2 & Hs2 & Hp2); [|apply NoDup_map_items|by apply Hdesc| |].
  { intros st p d Hp. unfold scanBasic, scanStep. rewrite Hp. exists (ps_indexInfos st). by destruct isStoredBasic. }
  { apply Forall_forall. intros [k v] Hin _. apply elem_of_map_items in Hin. simpl.
    apply eq_None_not_Some. intros [d Hd]. apply elem_of_map_to_list in Hd. rewrite Hp1 in Hd.
    apply list_elem_of_fmap in Hd as ([k' v'] & Heq & Hk'). simplify_eq/=.
    apply elem_of_map_items in Hk'. destruct (Hwu _ _ Hk') as [_ Hf].
    by rewrite (Hwb _ _ Hin) in Hf. }
  exists st2. split_and!; [done| |].
  - rewrite Hs2, Hs1. unfold sizesOf, storedItems. by rewrite sum_list_with_app.
  - rewrite Hp2, Hp1. unfold storedItems. rewrite fmap_app. apply Permutation_app_comm.
Qed.

(** Bytes of the stored properties, in the order [Q] of the class names. *)
Definition layout (info : ClassPropertyInfo) (Q : list (string * list byte)) : list (PropertyId * list byte) :=
  (fun p => (pd_id (descOf info p.1), p.2)) <$> Q.

Lemma length_layout info Q : length (blocksOf (layout info Q)) = sizesOf Q.
Proof.
  induction Q as [|[k v] Q IH]; [done|]. unfold blocksOf, layout, sizesOf in *.
  rewrite !fmap_cons. cbn [concat sum_list_with fst snd].
  by rewrite length_app, length_encodeBlock, IH.
Qed.

Lemma write_layout info r Q :
  Forall (fun p => get p.1 r = Ok p.2) Q ->
  concat (blockOf r <$> ((fun p => (p.1, descOf info p.1)) <$> Q)) = blocksOf (layout info Q).
Proof.
  induction 1 as [|[k v] Q Hg HQ IH]; [done|]. unfold blocksOf, layout in *.
  rewrite !fmap_cons. cbn [concat fst snd]. rewrite IH. f_equal. unfold blockOf. simpl in *.
  by rewrite Hg.
Qed.

Lemma read_layout info Q m :
  Forall (fun p => idToName info !! pd_id (descOf info p.1) = Some p.1) Q ->
  fold_left (readBlock info) (layout info Q) m = fold_left (fun m p => <[p.1 := p.2]> m) Q m.
Proof.
  intros HQ. revert m. induction HQ as [|[k v] Q Hid HQ IH]; intros m; [done|].
  unfold layout in *. rewrite fmap_cons. simpl. rewrite IH. f_equal.
  unfold readBlock. simpl in *. by rewrite Hid.
Qed.

Lemma recordOf_stored r Q :
  wf_record r -> Permutation Q (storedItems r) ->
  recordOf (list_to_map Q) = Ok (mkDbRecord (properties r) (storedBasics r)).
Proof.
  intros Hwf HQ. pose proof (NoDup_storedItems r Hwf) as Hnd.
  assert (NoDup Q.*1) as HndQ by (by rewrite HQ).
  assert (forall k v, (list_to_map Q : PropertyToBytesMap) !! k = Some v <->
    (properties r !! k = Some v \/ (basicProperties r !! k = Some v /\ isStoredBasic k = true))) as Hin.
  { intros k v. rewrite <- elem_of_list_to_map, HQ by done. unfold storedItems.
    rewrite elem_of_app, list_elem_of_filter, !elem_of_map_items. naive_solver. }
  destruct Hwf as [Hu Hb]. unfold recordOf.
  assert ((list_to_map Q : PropertyToBytesMap) !! EmptyString = None) as ->.
  { apply eq_None_not_Some. intros [v [Hk|[Hk _]]%Hin]; [by destruct (Hu _ _ Hk)|].
    by pose proof (Hb _ _ Hk). }
  unfold storedBasics. f_equal. f_equal; apply map_eq; intros k; apply option_eq; intros v;
    rewrite !map_lookup_filter_Some, Hin; simpl; split.
  - intros [[Hk|[Hk _]] Hf]; [done|]. by rewrite (Hb _ _ Hk) in Hf.
  - intros Hk. by destruct (Hu _ _ Hk); auto.
  - intros [[Hk|[Hk Hs]] Ht]; [|done]. destruct (Hu _ _ Hk) as [_ Hf]. congruence.
  - intros [Hk Hs]. by rewrite (Hb _ _ Hk); auto.
Qed.

(** What the class information must give for each item of a layout. *)
Definition item_ok (info : ClassPropertyInfo) (r : DbRecord) (p : string * list byte) : Prop :=
  get p.1 r = Ok p.2 /\ desc_ok (descOf info p.1) /\
  idToName info !! pd_id (descOf info p.1) = Some p.1 /\ value_ok p.2.

Lemma write_stored info r Q :
  Forall (item_ok info r) Q ->
  exists b, ofold (writeProperty r) ((fun p => (p.1, descOf info p.1)) <$> Q) (newBlob (sizesOf Q)) = Ok b /\
    value_ b = blocksOf (layout info Q) /\ written b = value_ b.
Proof.
  intros HQ. pose proof HQ as HQ'. rewrite Forall_forall in HQ'.
  assert (concat (blockOf r <$> ((fun p => (p.1, descOf info p.1)) <$> Q)) = blocksOf (layout info Q)) as Hw.
  { apply write_layout. eapply Forall_impl; [done|]. by intros p [? _]. }
  destruct (writeProperties_ok r ((fun p => (p.1, descOf info p.1)) <$> Q) (newBlob (sizesOf Q)))
    as (b & Hb & [Hlb Hsb] & Hcap & Hwr).
  { apply Forall_forall. intros p Hin. apply list_elem_of_fmap in Hin as ([k v] & -> & Hin).
    destruct (HQ' _ Hin) as (Hg & Hd & _ & Hv). split; [done|by exists v]. }
  { apply wf_newBlob. }
  { by rewrite Hw, length_layout. }
  assert (written b = value_ b) as Hfull.
  { unfold written. rewrite take_ge; [done|]. rewrite <- length_written by done.
    rewrite Hwr, Hw, Hlb, Hcap. simpl. by rewrite length_layout. }
  exists b. split_and!; [done| |done]. rewrite <- Hfull, Hwr, Hw. done.
Qed.

Lemma read_stored info r Q :
  wf_record r -> Permutation Q (storedItems r) -> Forall (item_ok info r) Q -> 4 <= sizesOf Q ->
  parseRawData (Some (blocksOf (layout info Q))) info =
    Ok (mkDbRecord (properties r) (storedBasics r)).
Proof.
  intros Hwf HQ Hok Hsize. unfold parseRawData, parseRawDataOn. cbn [capacity_ size_ blobOf].
  rewrite length_layout. rewrite bool_decide_false, bool_decide_true by lia.
  rewrite (parseLoop_blocks info (layout info Q) _ _ []); [|done|by split|done| |].
  - cbn [obind]. rewrite read_layout.
    2: { eapply Forall_impl; [done|]. by intros p (_ & _ & ? & _). }
    rewrite fold_left_insert by (rewrite HQ; by apply NoDup_storedItems).
    rewrite (right_id_L ∅ (∪)). by apply recordOf_stored.
  - apply Forall_fmap. eapply Forall_impl; [done|]. by intros p (_ & ? & _ & ?).
  - pose proof (length_blocksOf (layout info Q)) as H3. rewrite length_layout in H3. lia.
Qed.

(** No property of the class has an index of the class. *)
Definition no_index (classId : ClassId) (info : ClassPropertyInfo) : Prop :=
  forall name d, nameToDesc info !! name = Some d -> findIndex classId d = None.

Lemma scans_no_index classId info r st :
  no_index classId info ->
  (let* st1 := ofold (scanProperty classId info) (map_items (getAll r)) (mkParseState 0 ∅ ∅) in
   ofold (scanBasic info) (map_items (getBasicInfo r)) st1) = Ok st -> ps_indexInfos st = ∅.
Proof.
  intros Hno Hscan. outcome_simpl.
  apply (ofold_inv _ (fun st => ps_indexInfos st = ∅)) in Hscan; [done| |].
  - intros st1 p st2 H1 H2. unfold scanBasic in H2. repeat case_match; simplify_eq/=; done.
  - apply (ofold_inv _ (fun st => ps_indexInfos st = ∅)) in E; [done| |done].
    intros st1 p st2 H1 H2. unfold scanProperty in H2.
    destruct (nameToDesc info !! p.1) as [d|] eqn:Ed; [|discriminate H2]. rewrite (Hno _ _ Ed) in H2.
    injection H2 as <-. done.
Qed.

(** Writing a record and reading the stored bytes. *)
Lemma parseRecord_stored fill classId info r :
  wf_record r -> describes info (properties r) -> describes info (basicProperties r) ->
  4 <= sizesOf (storedItems r) ->
  exists b idx, parseRecord fill classId info r = Ok (b, idx) /\
    length (value_ b) = sizesOf (storedItems r) /\
    parseRawData (Some (value_ b)) info = Ok (mkDbRecord (properties r) (storedBasics r)) /\
    written b = value_ b /\ (no_index classId info -> idx = ∅).
Proof.
  intros Hwf Hu Hb Hsize.
  destruct (scans_ok classId info r Hwf Hu Hb) as (st & Hscan & Hds & Hperm).
  pose proof (scans_no_index classId info r st) as Hidx.
  rewrite <- (map_items_perm (ps_properties st)) in Hperm.
  apply Permutation_map_inv in Hperm as (Q & HL & HQ). symmetry in HQ.
  assert (Forall (item_ok info r) Q) as Hok.
  { apply Forall_forall. intros [k v] Hin. rewrite HQ in Hin.
    split; [by apply get_storedItems|by apply (storedItems_ok info r)]. }
  assert (sizesOf Q = sizesOf (storedItems r)) as HsQ by (unfold sizesOf; by rewrite HQ).
  destruct (write_stored info r Q Hok) as (b & Hb1 & Hvb & Hwb).
  exists b, (ps_indexInfos st). split_and!.
  - unfold parseRecord.
    destruct (ofold (scanProperty classId info) _ _); cbn [obind] in Hscan |- *; [|done..].
    rewrite Hscan. cbn [obind]. unfold parseRecordRaw. rewrite bool_decide_false by lia.
    rewrite HL, Hds, <- HsQ. by setoid_rewrite Hb1.
  - by rewrite Hvb, length_layout.
  - rewrite Hvb. apply read_stored; [done..|lia].
  - done.
  - intros Hno. by apply Hidx.
Qed.

(** C19. A record whose properties the class describes is written, and the stored
    bytes read back to its user properties and its version stamps, provided
    the encoding reaches the four bytes below which the reader answers an
    empty record. *)
Theorem record_roundtrip fill classId info r :
  wf_record r -> describes info (properties r) -> describes info (basicProperties r) ->
  4 <= sizesOf (storedItems r) ->
  exists b idx, parseRecord fill classId info r = Ok (b, idx) /\
    length (value_ b) = sizesOf (storedItems r) /\
    parseRawData (Some (value_ b)) info = Ok (mkDbRecord (properties r) (storedBasics r)).
Proof.
  intros Hwf Hu Hb Hsize. destruct (parseRecord_stored fill classId info r Hwf Hu Hb Hsize) as (b & idx & H1 & H2 & H3 & _).
  by exists b, idx.
Qed.

(** ** Reading arbitrary bytes *)
Lemma retrieve_cases off n b :
  (exists d, retrieve off n b = Ok (d, off + n)) \/ retrieve off n b = Throw NOGDB_CTX_INTERNAL_ERR.
Proof. unfold retrieve, require. case_bool_decide; simpl; eauto. Qed.

(** The bytes have a block header that declares [n] bytes. *)
Definition declares (b : Blob) (n : nat) : Prop :=
  exists o k t, (k = 1 \/ k = 4) /\ retrieve o k b = Ok (t, o + k) /\ n = Z.to_nat (Z.shiftr (le_value t) 1).

(** What the loop can end in: with the answer of the loop on an ample stack, or
    at an array that does not fit. *)
Definition loop_ends (onStack : nat -> bool) (b : Blob) (res ample : Outcome PropertyToBytesMap) : Prop :=
  (res = ample /\ ((exists m', ample = Ok m' /\ m' !! EmptyString = None) \/ ample = Throw NOGDB_CTX_INTERNAL_ERR)) \/
  (res = UB /\ exists n, onStack n = false /\ declares b n).

Lemma loop_ends_throw onStack b : loop_ends onStack b (Throw NOGDB_CTX_INTERNAL_ERR) (Throw NOGDB_CTX_INTERNAL_ERR).
Proof. left. split; [done|by right]. Qed.

(** The part of a round after the header. *)
Lemma loop_value onStack b info o2 k t id m (next next' : nat -> PropertyToBytesMap -> Outcome PropertyToBytesMap) :
  (forall id, idToName info !! id <> Some EmptyString) -> m !! EmptyString = None ->
  (k = 1 \/ k = 4) -> retrieve o2 k b = Ok (t, o2 + k) ->
  (forall o m', o2 < o -> m' !! EmptyString = None -> loop_ends onStack b (next o m') (next' o m')) ->
  let n := Z.to_nat (Z.shiftr (le_value t) 1) in
  let value onStack (next : nat -> PropertyToBytesMap -> Outcome PropertyToBytesMap) :=
    match idToName info !! id with
    | Some name =>
        if bool_decide (0 < n) then
          if onStack n : bool then let* (bytes, o3) := retrieve (o2 + k) n b in next o3 (<[name := bytes]> m) else UB
        else next (o2 + k) (<[name := []]> m)
    | None => next (o2 + k + n) m
    end in
  loop_ends onStack b (value onStack next) (value (fun _ => true) next').
Proof.
  intros Hnames Hm Hk Ht Hnext n value. unfold value.
  assert (o2 < o2 + k) as Hlt by (destruct Hk; lia).
  assert (forall name v, idToName info !! id = Some name -> <[name := v]> m !! EmptyString = None) as Hins.
  { intros name v Hid. rewrite lookup_insert_ne; [done|]. intros ->. by apply (Hnames id). }
  destruct (idToName info !! id) as [name|] eqn:Hid; [|apply Hnext; [lia|done]].
  case_bool_decide; [|apply Hnext; [done|by apply Hins]].
  destruct (onStack n) eqn:Hs.
  - destruct (retrieve_cases (o2 + k) n b) as [[v ->]| ->]; cbn [obind]; [|by apply loop_ends_throw].
    apply Hnext; [lia|by apply Hins].
  - right. split; [done|]. exists n. split; [done|]. by exists o2, k, t.
Qed.

(** Every round of the loop advances the offset, so the fuel never runs out. *)
Lemma parseLoop_total onStack fuel b info off m :
  (forall id, idToName info !! id <> Some EmptyString) -> m !! EmptyString = None ->
  size_ b - off < fuel ->
  loop_ends onStack b (parseLoop onStack fuel b info off m) (parseLoop (fun _ => true) fuel b info off m).
Proof.
  intros Hnames. revert off m. induction fuel as [|fuel IH]; intros off m Hm Hf; [lia|].
  cbn [parseLoop]. case_bool_decide; [|left; split; [done|by left; eexists]].
  destruct (retrieve_cases off 2 b) as [[d ->]| ->]; cbn [obind]; [|by apply loop_ends_throw].
  destruct (retrieve_cases (off + 2) 1 b) as [[fl Hfl]|Hfl]; rewrite !Hfl; cbn [obind]; [|by apply loop_ends_throw].
  assert (forall o m', off + 2 < o -> m' !! EmptyString = None ->
    loop_ends onStack b (parseLoop onStack fuel b info o m') (parseLoop (fun _ => true) fuel b info o m')) as Hnext
    by (intros o m' Ho Hm'; apply IH; [done|lia]).
  destruct (Z.land (le_value fl) 1 =? 1)%Z.
  - destruct (retrieve_cases (off + 2) 4 b) as [[t Ht]|Ht]; rewrite Ht; cbn [obind]; [|by apply loop_ends_throw].
    exact (loop_value onStack b info (off + 2) 4 t (le_value d) m (parseLoop onStack fuel b info)
      (parseLoop (fun _ => true) fuel b info) Hnames Hm ltac:(by right) Ht Hnext).
  - cbn [obind].
    exact (loop_value onStack b info (off + 2) 1 fl (le_value d) m (parseLoop onStack fuel b info)
      (parseLoop (fun _ => true) fuel b info) Hnames Hm ltac:(by left) Hfl Hnext).
Qed.

(** C21. Reading a record ends on every byte string, with a record or one of two
    errors, when the stack has room for the values.  On a stack with less room
    the result is the same, or undefined, and then the bytes declare a value
    that does not fit. *)
Theorem parseRawData_safe onStack rawData info :
  (forall id, idToName info !! id <> Some EmptyString) ->
  ((exists r, parseRawData rawData info = Ok r) \/
   parseRawData rawData info = Throw NOGDB_CTX_INTERNAL_ERR \/
   (parseRawData rawData info = Throw NOGDB_CTX_UNKNOWN_ERR /\ rawData = Some [])) /\
  (parseRawDataOn onStack rawData info = parseRawData rawData info \/
   (parseRawDataOn onStack rawData info = UB /\
    exists bytes n, rawData = Some bytes /\ declares (blobOf bytes) n /\ onStack n = false)).
Proof.
  intros Hnames. destruct rawData as [bytes|]; [|by split; [left; eexists|left]].
  unfold parseRawData, parseRawDataOn. cbn [capacity_ size_ blobOf]. case_bool_decide.
  { split; [|by left]. right; right. split; [done|]. f_equal. by apply nil_length_inv. }
  case_bool_decide; [|by split; [left; eexists|left]].
  destruct (parseLoop_total onStack (S (length bytes)) (blobOf bytes) info 0 ∅) as [[-> Hres]|[-> (n & Hn & Hd)]];
    [done|done|simpl; lia| |].
  - split; [|by left]. destruct Hres as [(m & -> & Hm)| ->]; [|by right; left].
    left. cbn [obind]. unfold recordOf. rewrite Hm. by eexists.
  - split; [|by right; split; [|exists bytes, n]].
    destruct (parseLoop_total (fun _ => true) (S (length bytes)) (blobOf bytes) info 0 ∅)
      as [[_ Hres]|[_ (n' & ? & _)]]; [done|done|simpl; lia| |done].
    destruct Hres as [(m & -> & Hm)| ->]; [|by right; left].
    left. cbn [obind]. unfold recordOf. rewrite Hm. by eexists.
Qed.

(** A value that declares 2^31 - 1 bytes, of a property of the class: on a stack
    with less room than that, reading the record is undefined. *)
Theorem declared_size_overflows_stack limit id name info :
  (limit < 2147483647)%Z -> (0 <= id < 2 ^ 16)%Z -> idToName info !! id = Some name ->
  parseRawDataOn (fun n => Z.of_nat n <=? limit)%Z (Some (le_bytes 2 id ++ [255; 255; 255; 255]%Z)) info = UB.
Proof.
  intros Hlim Hid Hname. unfold parseRawDataOn. cbn [capacity_ size_ blobOf]. rewrite length_app, length_le_bytes.
  rewrite bool_decide_false, bool_decide_true by (simpl; lia). set (b := blobOf _). cbn [parseLoop].
  rewrite bool_decide_true by (unfold b; cbn [size_ blobOf]; rewrite length_app, length_le_bytes; simpl; lia).
  assert (retrieve 0 2 b = Ok (le_bytes 2 id, 2)) as -> by done. cbn [obind].
  assert (retrieve 2 1 b = Ok ([255%Z], 3)) as -> by done. cbn [obind].
  change (Z.land (le_value [255%Z]) 1 =? 1)%Z with true. cbn iota.
  assert (retrieve 2 4 b = Ok ([255; 255; 255; 255]%Z, 6)) as -> by done. cbn [obind].
  rewrite le_value_le_bytes. replace (256 ^ Z.of_nat 2)%Z with (2 ^ 16)%Z by done. rewrite Z.mod_small, Hname by done.
  change (Z.shiftr (le_value [255; 255; 255; 255]%Z) 1) with 2147483647%Z.
  rewrite bool_decide_true by lia. rewrite Z2Nat.id by lia. by destruct (Z.leb_spec 2147483647 limit); [lia|].
Qed.
