(* ===== verification/TxnData.v ===== *)
(** * The private data of a transaction

    The data members of [BaseTxn] (src/src/base_txn.hpp) and the small methods
    that keep its sets of uncommitted objects (src/src/base_txn.cpp, lines
    74-102).  Objects of the shared graph and schema live on a heap and are
    named by locations; [ucVertices], [ucEdges] and [ucSchema] hold owning
    pointers. *)

From stdpp Require Import base gmap list.
From Stdlib Require Import ZArith Lia.
From S2P Require Import Prelude Types VersionControl.

Abbreviation Loc := nat.

(** [std::weak_ptr]: the empty pointer is [None]. *)
Abbreviation WeakPtr := (option Loc).

Inductive TxnType := READ_ONLY | READ_WRITE.
#[export] Instance TxnType_eq_dec : EqDecision TxnType.
Proof. solve_decision. Defined.

Record BaseTxn := mkBaseTxn {
  txnType : TxnType;
  txnId : TxnId;
  txnVersionId : TxnId;
  txnDbInfo : DBInfo;
  ucSchema : gmap ClassId Loc;
  ucVertices : gmap RecordId Loc;
  ucEdges : gmap RecordId Loc;
  isWithDataStore : bool;
  isCompleted : bool;
  isCommitDatastore : bool;
}.

Definition isReadOnly (t : BaseTxn) : bool := bool_decide (txnType t = READ_ONLY).
Definition isReadWrite (t : BaseTxn) : bool := bool_decide (txnType t = READ_WRITE).

Definition setUcVertices (f : gmap RecordId Loc -> gmap RecordId Loc) (t : BaseTxn) : BaseTxn :=
  mkBaseTxn (txnType t) (txnId t) (txnVersionId t) (txnDbInfo t) (ucSchema t) (f (ucVertices t))
    (ucEdges t) (isWithDataStore t) (isCompleted t) (isCommitDatastore t).

Definition setUcEdges (f : gmap RecordId Loc -> gmap RecordId Loc) (t : BaseTxn) : BaseTxn :=
  mkBaseTxn (txnType t) (txnId t) (txnVersionId t) (txnDbInfo t) (ucSchema t) (ucVertices t)
    (f (ucEdges t)) (isWithDataStore t) (isCompleted t) (isCommitDatastore t).

Definition setUcSchema (f : gmap ClassId Loc -> gmap ClassId Loc) (t : BaseTxn) : BaseTxn :=
  mkBaseTxn (txnType t) (txnId t) (txnVersionId t) (txnDbInfo t) (f (ucSchema t)) (ucVertices t)
    (ucEdges t) (isWithDataStore t) (isCompleted t) (isCommitDatastore t).

(** [find] then [emplace]: an object already recorded stays. *)
Definition addUncommittedVertex (rid : RecordId) (l : Loc) : BaseTxn -> BaseTxn :=
  setUcVertices (emplace rid l).
Definition deleteUncommittedVertex (rid : RecordId) : BaseTxn -> BaseTxn :=
  setUcVertices (delete rid).
Definition addUncommittedEdge (rid : RecordId) (l : Loc) : BaseTxn -> BaseTxn :=
  setUcEdges (emplace rid l).
Definition deleteUncommittedEdge (rid : RecordId) : BaseTxn -> BaseTxn :=
  setUcEdges (delete rid).
Definition addUncommittedSchema (id : ClassId) (l : Loc) : BaseTxn -> BaseTxn :=
  setUcSchema (emplace id l).
Definition deleteUncommittedSchema (id : ClassId) : BaseTxn -> BaseTxn :=
  setUcSchema (delete id).

Definition findUncommittedVertex (t : BaseTxn) (rid : RecordId) : option Loc := ucVertices t !! rid.
Definition findUncommittedEdge (t : BaseTxn) (rid : RecordId) : option Loc := ucEdges t !! rid.
Definition findUncommittedSchema (t : BaseTxn) (id : ClassId) : option Loc := ucSchema t !! id.

(** A reader reads at its snapshot, the writer reads the latest version. *)
Definition getCurrentVersion {T} `{Default T} (t : BaseTxn) (vc : VersionControl T) : T * bool :=
  match txnType t with
  | READ_ONLY => getStableVersionAt (txnVersionId t) vc
  | READ_WRITE => getLatestVersion vc
  end.
