(* ===== verification/Graph.v ===== *)
(** * The in-memory relation graph

    Model of [Graph] (src/src/graph.hpp), of its vertex operations
    (src/src/mem_vertex.cpp) and of its edge operations (src/src/mem_edge.cpp).

    Vertices and edges are shared mutable objects: they live on two heaps and
    are named by locations.  [Graph::vertices], [Graph::edges] and the
    uncommitted sets of a transaction own objects; the adjacency maps and the
    end points of edges hold weak pointers.  Locking a weak pointer succeeds
    exactly while some owner exists: the graph, the calling transaction, or an
    owner outside of both (the locations [held]: another thread's local
    pointers, a completed transaction that still exists). *)

From stdpp Require Import base gmap sets list sorting fin_sets.
From Stdlib Require Import ZArith Lia.
From S2P Require Import Prelude Types VersionControl MultiVersionMap TxnObject TxnData.

Abbreviation Adj := (gmap ClassId (gmap PositionId (VersionControl WeakPtr))).

Record Vertex := mkVertex {
  v_rid : RecordId;
  v_state : State;
  v_in : Adj;
  v_out : Adj;
}.

Record Edge := mkEdge {
  e_rid : RecordId;
  e_state : State;
  e_source : VersionControl WeakPtr;
  e_target : VersionControl WeakPtr;
}.

Definition newVertex (rid : RecordId) : Vertex := mkVertex rid initState ∅ ∅.

Definition newEdge (rid : RecordId) (src dst : WeakPtr) : Edge :=
  mkEdge rid initState (addLatestVersion src emptyVersionControl)
    (addLatestVersion dst emptyVersionControl).

Record Graph := mkGraph {
  vheap : gmap Loc Vertex;
  eheap : gmap Loc Edge;
  vertices : gmap RecordId Loc;
  edges : gmap RecordId Loc;
  deletedVertices : list (RecordId * TxnId);
  deletedEdges : list (RecordId * TxnId);
  heldVertices : gset Loc;
  heldEdges : gset Loc;
}.

(** ** Field updates *)
Definition setVheap (f : gmap Loc Vertex -> gmap Loc Vertex) (g : Graph) : Graph :=
  mkGraph (f (vheap g)) (eheap g) (vertices g) (edges g) (deletedVertices g) (deletedEdges g)
    (heldVertices g) (heldEdges g).
Definition setEheap (f : gmap Loc Edge -> gmap Loc Edge) (g : Graph) : Graph :=
  mkGraph (vheap g) (f (eheap g)) (vertices g) (edges g) (deletedVertices g) (deletedEdges g)
    (heldVertices g) (heldEdges g).

Definition updVertex (f : Vertex -> Vertex) (l : Loc) : Graph -> Graph := setVheap (alter f l).
Definition updEdge (f : Edge -> Edge) (l : Loc) : Graph -> Graph := setEheap (alter f l).

Definition setIn (f : Adj -> Adj) (v : Vertex) : Vertex :=
  mkVertex (v_rid v) (v_state v) (f (v_in v)) (v_out v).
Definition setOut (f : Adj -> Adj) (v : Vertex) : Vertex :=
  mkVertex (v_rid v) (v_state v) (v_in v) (f (v_out v)).
Definition setVState (f : State -> State) (v : Vertex) : Vertex :=
  mkVertex (v_rid v) (f (v_state v)) (v_in v) (v_out v).
Definition setEState (f : State -> State) (e : Edge) : Edge :=
  mkEdge (e_rid e) (f (e_state e)) (e_source e) (e_target e).
Definition setSource (f : VersionControl WeakPtr -> VersionControl WeakPtr) (e : Edge) : Edge :=
  mkEdge (e_rid e) (e_state e) (f (e_source e)) (e_target e).
Definition setTarget (f : VersionControl WeakPtr -> VersionControl WeakPtr) (e : Edge) : Edge :=
  mkEdge (e_rid e) (e_state e) (e_source e) (f (e_target e)).

(** ** Ownership and locking *)
Definition owns (m : gmap RecordId Loc) (l : Loc) : bool := bool_decide (map_Exists (fun _ x => x = l) m).

Definition ownedV (g : Graph) (t : BaseTxn) (l : Loc) : bool :=
  owns (vertices g) l || owns (ucVertices t) l || bool_decide (l ∈ heldVertices g).
Definition ownedE (g : Graph) (t : BaseTxn) (l : Loc) : bool :=
  owns (edges g) l || owns (ucEdges t) l || bool_decide (l ∈ heldEdges g).

Definition lockVertex (g : Graph) (t : BaseTxn) (w : WeakPtr) : option (Loc * Vertex) :=
  l ← w; v ← vheap g !! l; if ownedV g t l then Some (l, v) else None.
Definition lockEdge (g : Graph) (t : BaseTxn) (w : WeakPtr) : option (Loc * Edge) :=
  l ← w; e ← eheap g !! l; if ownedE g t l then Some (l, e) else None.

(** ** Lookup *)
Definition hidden (t : BaseTxn) (s : State) : bool :=
  (isReadOnly t && checkReadOnly (txnVersionId t) s) || (isReadWrite t && checkReadWrite s).

Definition lookupVertex (g : Graph) (t : BaseTxn) (rid : RecordId) : option (Loc * Vertex) :=
  match vertices g !! rid with
  | None =>
      if isReadOnly t then None
      else
        l ← findUncommittedVertex t rid; v ← vheap g !! l;
        if checkReadWrite (v_state v) then None else Some (l, v)
  | Some l => v ← vheap g !! l; if hidden t (v_state v) then None else Some (l, v)
  end.

Definition lookupEdge (g : Graph) (t : BaseTxn) (rid : RecordId) : option (Loc * Edge) :=
  match edges g !! rid with
  | None =>
      if isReadOnly t then None
      else
        l ← findUncommittedEdge t rid; e ← eheap g !! l;
        if checkReadWrite (e_state e) then None else Some (l, e)
  | Some l => e ← eheap g !! l; if hidden t (e_state e) then None else Some (l, e)
  end.

(** ** Creation *)
Definition allocVertex (rid : RecordId) (g : Graph) : Loc * Graph :=
  let l := fresh (dom (vheap g)) in (l, setVheap <[l := newVertex rid]> g).
Definition allocEdge (e : Edge) (g : Graph) : Loc * Graph :=
  let l := fresh (dom (eheap g)) in (l, setEheap <[l := e]> g).

(** [if (v == nullptr) { v = make_shared<Vertex>(rid); txn.addUncommittedVertex(v); }] *)
Definition ensureVertex (found : option (Loc * Vertex)) (rid : RecordId) (g : Graph) (t : BaseTxn) :
    Loc * Graph * BaseTxn :=
  match found with
  | Some (l, _) => (l, g, t)
  | None => let '(l, g1) := allocVertex rid g in (l, g1, addUncommittedVertex rid l t)
  end.

Definition createVertex (g : Graph) (t : BaseTxn) (rid : RecordId) : bool * Graph * BaseTxn :=
  match lookupVertex g t rid with
  | Some _ => (false, g, t)
  | None => let '(l, g1) := allocVertex rid g in (true, g1, addUncommittedVertex rid l t)
  end.

Definition createEdge (g : Graph) (t : BaseTxn) (rid srcRid dstRid : RecordId) :
    Outcome (Graph * BaseTxn) :=
  match lookupEdge g t rid with
  | Some _ => Throw NOGDB_GRAPH_DUP_EDGE
  | None =>
      let sourceVertex := lookupVertex g t srcRid in
      let targetVertex := lookupVertex g t dstRid in
      let '(ls, g1, t1) := ensureVertex sourceVertex srcRid g t in
      let '(lt, g2, t2) := ensureVertex targetVertex dstRid g1 t1 in
      let '(le, g3) := allocEdge (newEdge rid (Some ls) (Some lt)) g2 in
      let t3 := addUncommittedEdge rid le t2 in
      let g4 := updVertex (setOut (tl_insert rid.1 rid.2 (Some le))) ls g3 in
      let g5 := updVertex (setIn (tl_insert rid.1 rid.2 (Some le))) lt g4 in
      Ok (g5, t3)
  end.

(** ** Deletion *)

(** Erase the edge [rid] from the [out] (or [in]) map of the vertex an end
    point refers to, when it can be locked. *)
Definition eraseAt (upd : (Adj -> Adj) -> Vertex -> Vertex) (t : BaseTxn) (rid : RecordId)
    (found : WeakPtr * bool) (g : Graph) : Graph :=
  if found.2 then
    match lockVertex g t found.1 with
    | Some (l, _) => updVertex (upd (tl_erase rid.1 rid.2)) l g
    | None => g
    end
  else g.

(** The common tail of the deletions: drop an edge this transaction created,
    mark any other edge. *)
Definition markEdgeDeleted (l : Loc) (e : Edge) (g : Graph) (t : BaseTxn) : Graph * BaseTxn :=
  if bool_decide ((getState (e_state e)).2 = UNCOMMITTED_CREATE)
  then (g, deleteUncommittedEdge (e_rid e) t)
  else (updEdge (setEState (setStatus UNCOMMITTED_DELETE)) l g, addUncommittedEdge (e_rid e) l t).

Definition deleteEdge (g : Graph) (t : BaseTxn) (rid : RecordId) : Graph * BaseTxn :=
  match lookupEdge g t rid with
  | None => (g, t)
  | Some (l, e) =>
      let g1 := eraseAt setOut t rid (getLatestVersion (e_source e)) g in
      let g2 := eraseAt setIn t rid (getLatestVersion (e_target e)) g1 in
      markEdgeDeleted l e g2 t
  end.

(** One iteration of the loop over the in-edges (out-edges) of a vertex:
    [adj] selects the map of the vertex the loop runs over, [end_] the end
    point of the edge at the other side and [upd] the map to erase there. *)
Definition deleteIncident (adj : Vertex -> Adj) (end_ : Edge -> VersionControl WeakPtr)
    (upd : (Adj -> Adj) -> Vertex -> Vertex) (lv : Loc) (st : Graph * BaseTxn)
    (k : ClassId * PositionId) : Graph * BaseTxn :=
  let '(g, t) := st in
  match vheap g !! lv with
  | None => st
  | Some v =>
      let found := tl_find k.1 k.2 (adj v) in
      if found.2 then
        match lockEdge g t found.1 with
        | None => st
        | Some (l, e) =>
            let g1 := eraseAt upd t (e_rid e) (getLatestVersion (end_ e)) g in
            markEdgeDeleted l e g1 t
        end
      else st
  end.

Definition markVertexDeleted (l : Loc) (v : Vertex) (g : Graph) (t : BaseTxn) : Graph * BaseTxn :=
  if bool_decide ((getState (v_state v)).2 = UNCOMMITTED_CREATE)
  then (g, deleteUncommittedVertex (v_rid v) t)
  else (updVertex (setVState (setStatus UNCOMMITTED_DELETE)) l g, addUncommittedVertex (v_rid v) l t).

Definition adjKeys (m : Adj) : list (ClassId * PositionId) :=
  '(c, ps) ← tl_keys m; p ← ps; [(c, p)].

Definition deleteVertex (g : Graph) (t : BaseTxn) (rid : RecordId) : Graph * BaseTxn :=
  match lookupVertex g t rid with
  | None => (g, t)
  | Some (lv, v) =>
      let '(g1, t1) := fold_left (deleteIncident v_in e_source setOut lv) (adjKeys (v_in v)) (g, t) in
      let outKeys := match vheap g1 !! lv with Some v1 => adjKeys (v_out v1) | None => [] end in
      let '(g2, t2) := fold_left (deleteIncident v_out e_target setIn lv) outKeys (g1, t1) in
      markVertexDeleted lv v g2 t2
  end.

(** ** End points *)
Definition endpoint (g : Graph) (t : BaseTxn) (vc : VersionControl WeakPtr) : Outcome RecordId :=
  let found := getCurrentVersion t vc in
  if found.2 then
    match lockVertex g t found.1 with
    | Some (_, v) => Ok (v_rid v)
    | None => Throw NOGDB_GRAPH_UNKNOWN_ERR
    end
  else Throw NOGDB_GRAPH_UNKNOWN_ERR.

Definition getVertexSrc (g : Graph) (t : BaseTxn) (rid : RecordId) : Outcome RecordId :=
  match lookupEdge g t rid with
  | None => Throw NOGDB_GRAPH_NOEXST_EDGE
  | Some (_, e) => endpoint g t (e_source e)
  end.

Definition getVertexDst (g : Graph) (t : BaseTxn) (rid : RecordId) : Outcome RecordId :=
  match lookupEdge g t rid with
  | None => Throw NOGDB_GRAPH_NOEXST_EDGE
  | Some (_, e) => endpoint g t (e_target e)
  end.

Definition getVertexSrcDst (g : Graph) (t : BaseTxn) (rid : RecordId) : Outcome (RecordId * RecordId) :=
  match lookupEdge g t rid with
  | None => Throw NOGDB_GRAPH_NOEXST_EDGE
  | Some (_, e) =>
      let* s := endpoint g t (e_source e) in
      let* d := endpoint g t (e_target e) in
      Ok (s, d)
  end.

(** [alterVertexSrc] and [alterVertexDst] differ in the end point they move
    and in the adjacency map that follows it. *)
Definition alterEnd (end_ : Edge -> VersionControl WeakPtr)
    (setEnd : (VersionControl WeakPtr -> VersionControl WeakPtr) -> Edge -> Edge)
    (upd : (Adj -> Adj) -> Vertex -> Vertex) (g : Graph) (t : BaseTxn) (rid newRid : RecordId) :
    Outcome (Graph * BaseTxn) :=
  match lookupEdge g t rid with
  | None => Throw NOGDB_GRAPH_NOEXST_EDGE
  | Some (le, e) =>
      let found := getLatestVersion (end_ e) in
      if found.2 then
        match lockVertex g t found.1 with
        | Some (lo, _) =>
            let '(ln, g1, t1) := ensureVertex (lookupVertex g t newRid) newRid g t in
            let g2 := updVertex (upd (tl_erase rid.1 rid.2)) lo g1 in
            let g3 := updEdge (setEnd (addLatestVersion (Some ln))) le g2 in
            let t2 := addUncommittedEdge (e_rid e) le t1 in
            let g4 := updVertex (upd (tl_insert rid.1 rid.2 (Some le))) ln g3 in
            Ok (g4, t2)
        | None => Throw NOGDB_GRAPH_UNKNOWN_ERR
        end
      else Throw NOGDB_GRAPH_UNKNOWN_ERR
  end.

Definition alterVertexSrc := alterEnd e_source setSource setOut.
Definition alterVertexDst := alterEnd e_target setTarget setIn.

(** ** Adjacent edges *)
Definition adjFind (t : BaseTxn) (c : ClassId) (p : PositionId) (m : Adj) : WeakPtr * bool :=
  match txnType t with
  | READ_ONLY => tl_findAt (txnVersionId t) c p m
  | READ_WRITE => tl_find c p m
  end.

Definition adjEdge (g : Graph) (t : BaseTxn) (m : Adj) (k : ClassId * PositionId) : option RecordId :=
  let found := adjFind t k.1 k.2 m in
  if found.2 then (fun x => e_rid x.2) <$> lockEdge g t found.1 else None.

(** A class id of zero asks for every class. *)
Definition adjEdges (g : Graph) (t : BaseTxn) (m : Adj) (classId : ClassId) : list RecordId :=
  if (classId =? 0)%Z then omap (adjEdge g t m) (adjKeys m)
  else omap (adjEdge g t m) ((fun p => (classId, p)) <$> tl_keys1 classId m).

Definition adjClasses (g : Graph) (t : BaseTxn) (m : Adj) : list ClassId :=
  omap (fun kp : ClassId * list PositionId =>
          if existsb (fun p => bool_decide (is_Some (adjEdge g t m (kp.1, p)))) kp.2
          then Some kp.1 else None) (tl_keys m).

Definition withVertex {A} (g : Graph) (t : BaseTxn) (rid : RecordId) (f : Vertex -> A) : Outcome A :=
  match lookupVertex g t rid with
  | None => Throw NOGDB_GRAPH_NOEXST_VERTEX
  | Some (_, v) => Ok (f v)
  end.

Definition getEdgeIn (g : Graph) (t : BaseTxn) (rid : RecordId) (classId : ClassId) : Outcome (list RecordId) :=
  withVertex g t rid (fun v => adjEdges g t (v_in v) classId).
Definition getEdgeOut (g : Graph) (t : BaseTxn) (rid : RecordId) (classId : ClassId) : Outcome (list RecordId) :=
  withVertex g t rid (fun v => adjEdges g t (v_out v) classId).
Definition getEdgeClassIn (g : Graph) (t : BaseTxn) (rid : RecordId) : Outcome (list ClassId) :=
  withVertex g t rid (fun v => adjClasses g t (v_in v)).
Definition getEdgeClassOut (g : Graph) (t : BaseTxn) (rid : RecordId) : Outcome (list ClassId) :=
  withVertex g t rid (fun v => adjClasses g t (v_out v)).

(** The comparison of [std::sort] in [getEdgeInOut], and [std::unique]. *)
Definition rid_le (a b : RecordId) : Prop :=
  if decide (a.1 = b.1) then (a.2 <= b.2)%Z else (a.1 <= b.1)%Z.
#[export] Instance rid_le_dec : RelDecision rid_le.
Proof. intros a b. unfold rid_le. case_decide; apply _. Defined.

Fixpoint unique {A} `{EqDecision A} (l : list A) : list A :=
  match l with
  | x :: ((y :: _) as l') => if decide (x = y) then unique l' else x :: unique l'
  | _ => l
  end.

Definition getEdgeInOut (g : Graph) (t : BaseTxn) (rid : RecordId) (classId : ClassId) :
    Outcome (list RecordId) :=
  withVertex g t rid (fun v =>
    unique (merge_sort rid_le (adjEdges g t (v_in v) classId ++ adjEdges g t (v_out v) classId))).

Definition getEdgeClassInOut (g : Graph) (t : BaseTxn) (rid : RecordId) : Outcome (list ClassId) :=
  withVertex g t rid (fun v => unique (z_sort (adjClasses g t (v_in v) ++ adjClasses g t (v_out v)))).

(** ** Garbage collection *)
Definition forceDeleteVertices (rids : list RecordId) (g : Graph) : Graph :=
  mkGraph (vheap g) (eheap g) (foldl (fun m rid => delete rid m) (vertices g) rids) (edges g)
    (deletedVertices g) (deletedEdges g) (heldVertices g) (heldEdges g).
Definition forceDeleteEdges (rids : list RecordId) (g : Graph) : Graph :=
  mkGraph (vheap g) (eheap g) (vertices g) (foldl (fun m rid => delete rid m) (edges g) rids)
    (deletedVertices g) (deletedEdges g) (heldVertices g) (heldEdges g).
Definition forceDeleteVertex (rid : RecordId) (g : Graph) : Graph := forceDeleteVertices [rid] g.
Definition forceDeleteEdge (rid : RecordId) (g : Graph) : Graph := forceDeleteEdges [rid] g.

Definition setQueues (dv de : list (RecordId * TxnId)) (g : Graph) : Graph :=
  mkGraph (vheap g) (eheap g) (vertices g) (edges g) dv de (heldVertices g) (heldEdges g).

Definition clearDeletedElements (versionId : TxnId) (g : Graph) : Graph :=
  let '(es, qe) := pop_front (deletedEdges g) versionId in
  let g1 := forceDeleteEdges es (setQueues (deletedVertices g) qe g) in
  let '(vs, qv) := pop_front (deletedVertices g1) versionId in
  forceDeleteVertices vs (setQueues qv (deletedEdges g1) g1).

(** [Graph::clear] *)
Definition clearGraph (g : Graph) : Graph :=
  mkGraph (vheap g) (eheap g) ∅ ∅ (deletedVertices g) (deletedEdges g) (heldVertices g) (heldEdges g).
