(* ===== verification/GraphSpec.v ===== *)
(** * What the relation graph promises to its writer

    The abstract state of the graph a writer works on is a finite map from
    edge ids to their two end points.  [repr g t E] relates the objects, the
    weak pointers and the four adjacency directions of [Graph] to such a map;
    the theorems show that every operation of src/src/mem_edge.cpp and
    src/src/mem_vertex.cpp implements its abstract counterpart. *)

From stdpp Require Import base gmap sets list sorting fin_sets.
From Stdlib Require Import ZArith Lia.
From S2P Require Import Prelude Types VersionControl MultiVersionMap TxnObject TxnData Graph.

(** ** The two ends of an edge *)
Inductive Side := SRC | DST.

Definition end_of (s : Side) : Edge -> VersionControl WeakPtr :=
  match s with SRC => e_source | DST => e_target end.
Definition setEnd_of (s : Side) : (VersionControl WeakPtr -> VersionControl WeakPtr) -> Edge -> Edge :=
  match s with SRC => setSource | DST => setTarget end.
Definition adj_of (s : Side) : Vertex -> Adj := match s with SRC => v_out | DST => v_in end.
Definition upd_of (s : Side) : (Adj -> Adj) -> Vertex -> Vertex :=
  match s with SRC => setOut | DST => setIn end.
Definition proj_of (s : Side) (sd : RecordId * RecordId) : RecordId :=
  match s with SRC => sd.1 | DST => sd.2 end.
Definition opposite (s : Side) : Side := match s with SRC => DST | DST => SRC end.

(** ** Views of the concrete state *)
Definition allV (g : Graph) (t : BaseTxn) : gmap RecordId Loc := vertices g ∪ ucVertices t.
Definition allE (g : Graph) (t : BaseTxn) : gmap RecordId Loc := edges g ∪ ucEdges t.

(** The writer sees the object [l] under the id [r]. *)
Definition vvis (g : Graph) (t : BaseTxn) (r : RecordId) (l : Loc) : Prop :=
  allV g t !! r = Some l /\ exists v, vheap g !! l = Some v /\ checkReadWrite (v_state v) = false.
Definition evis (g : Graph) (t : BaseTxn) (r : RecordId) (l : Loc) : Prop :=
  allE g t !! r = Some l /\ exists e, eheap g !! l = Some e /\ checkReadWrite (e_state e) = false.

Definition eEnd (s : Side) (g : Graph) (l : Loc) : WeakPtr * bool :=
  match eheap g !! l with Some e => getLatestVersion (end_of s e) | None => (None, false) end.
Definition vAdj (s : Side) (g : Graph) (l : Loc) (k : RecordId) : WeakPtr * bool :=
  match vheap g !! l with Some v => tl_find k.1 k.2 (adj_of s v) | None => (None, false) end.

(** ** Ownership is well formed *)
Record base_ok (g : Graph) (t : BaseTxn) : Prop := {
  b_rw : txnType t = READ_WRITE;
  b_vheap : forall r l, allV g t !! r = Some l -> exists v, vheap g !! l = Some v /\ v_rid v = r;
  b_eheap : forall r l, allE g t !! r = Some l -> exists e, eheap g !! l = Some e /\ e_rid e = r;
  b_vagree : forall r l l', vertices g !! r = Some l -> ucVertices t !! r = Some l' -> l = l';
  b_eagree : forall r l l', edges g !! r = Some l -> ucEdges t !! r = Some l' -> l = l';
  b_vcommitted : forall r l v, vertices g !! r = Some l -> vheap g !! l = Some v ->
    st_status (v_state v) <> UNCOMMITTED_CREATE;
  b_ecommitted : forall r l e, edges g !! r = Some l -> eheap g !! l = Some e ->
    st_status (e_state e) <> UNCOMMITTED_CREATE;
}.

(** ** The representation *)

(** The adjacency entry of the vertex [r] for the edge [k] is live exactly
    when the map has that edge with [r] at this end. *)
Definition entry_ok (s : Side) (g : Graph) (t : BaseTxn) (E : gmap RecordId (RecordId * RecordId))
    (r : RecordId) (k : RecordId) (entry : WeakPtr * bool) : Prop :=
  if entry.2 then exists le sd, entry.1 = Some le /\ evis g t k le /\ E !! k = Some sd /\ proj_of s sd = r
  else forall sd, E !! k = Some sd -> proj_of s sd <> r.

Definition side_ok (s : Side) (X : RecordId -> RecordId -> Prop) (g : Graph) (t : BaseTxn)
    (E : gmap RecordId (RecordId * RecordId)) : Prop :=
  (forall k sd, E !! k = Some sd -> exists le l,
     evis g t k le /\ vvis g t (proj_of s sd) l /\ eEnd s g le = (Some l, true)) /\
  (forall r l k, vvis g t r l -> ~ X r k -> entry_ok s g t E r k (vAdj s g l k)).

(** [repr_except XS XD]: the entries in [XS] ([XD]) of the outgoing (incoming)
    maps may be stale. *)
Record repr_except (XS XD : RecordId -> RecordId -> Prop) (g : Graph) (t : BaseTxn)
    (E : gmap RecordId (RecordId * RecordId)) : Prop := {
  r_base : base_ok g t;
  r_only : forall k le, evis g t k le -> is_Some (E !! k);
  r_src : side_ok SRC XS g t E;
  r_dst : side_ok DST XD g t E;
}.

Definition none : RecordId -> RecordId -> Prop := fun _ _ => False.
Definition repr := repr_except none none.

(** ** Basic facts *)
Lemma lookup_all_l (m1 m2 : gmap RecordId Loc) r l : m1 !! r = Some l -> (m1 ∪ m2) !! r = Some l.
Proof. apply lookup_union_Some_l. Qed.

Lemma lookup_all_r (m1 m2 : gmap RecordId Loc) r l :
  (forall l', m1 !! r = Some l' -> l' = l) -> m2 !! r = Some l -> (m1 ∪ m2) !! r = Some l.
Proof.
  intros Hag Hr. destruct (m1 !! r) as [l'|] eqn:E1.
  - rewrite (Hag l' eq_refl) in E1. by apply lookup_union_Some_l.
  - by rewrite lookup_union_r.
Qed.

Lemma owns_spec m l : owns m l = true <-> exists r, m !! r = Some l.
Proof.
  unfold owns. rewrite bool_decide_eq_true. unfold map_Exists. split.
  - intros (r & x & Hr & ->). eauto.
  - intros [r Hr]. eauto.
Qed.

Lemma owned_all (m1 m2 : gmap RecordId Loc) r l b :
  (m1 ∪ m2) !! r = Some l -> owns m1 l || owns m2 l || b = true.
Proof.
  intros [Hr|[_ Hr]]%lookup_union_Some_raw.
  - assert (owns m1 l = true) as -> by (apply owns_spec; eauto). done.
  - assert (owns m2 l = true) as -> by (apply owns_spec; eauto). by rewrite orb_true_r.
Qed.

Lemma lock_allV g t r l v :
  allV g t !! r = Some l -> vheap g !! l = Some v -> lockVertex g t (Some l) = Some (l, v).
Proof.
  intros Hr Hv. unfold lockVertex; simpl. rewrite Hv; simpl. unfold ownedV.
  by rewrite (owned_all _ _ _ _ _ Hr).
Qed.

Lemma lock_allE g t r l e :
  allE g t !! r = Some l -> eheap g !! l = Some e -> lockEdge g t (Some l) = Some (l, e).
Proof.
  intros Hr Hv. unfold lockEdge; simpl. rewrite Hv; simpl. unfold ownedE.
  by rewrite (owned_all _ _ _ _ _ Hr).
Qed.

Lemma lookup_visible {A} (h : gmap Loc A) (st : A -> State) l1 l v :
  (x ← h !! l1; if checkReadWrite (st x) then None else Some (l1, x)) = Some (l, v) <->
  (Some l1 = Some l /\ exists x, h !! l = Some x /\ checkReadWrite (st x) = false) /\ h !! l = Some v.
Proof.
  destruct (h !! l1) as [x|] eqn:Ex; simpl.
  - destruct (checkReadWrite (st x)) eqn:Es; split.
    + done.
    + intros ((? & y & ? & ?) & ?). congruence.
    + intros Heq. simplify_eq. eauto.
    + intros ((? & y & ? & ?) & ?). congruence.
  - split; [done|]. intros ((? & y & ? & ?) & ?). congruence.
Qed.

Section views.
  Context (g : Graph) (t : BaseTxn) (Hb : base_ok g t).

Lemma writer_flags : isReadOnly t = false /\ isReadWrite t = true.
Proof. unfold isReadOnly, isReadWrite. by rewrite (b_rw _ _ Hb). Qed.

Lemma allV_inj r r' l : allV g t !! r = Some l -> allV g t !! r' = Some l -> r = r'.
Proof.
  intros H1 H2. destruct (b_vheap _ _ Hb _ _ H1) as (v & Hv & <-).
  destruct (b_vheap _ _ Hb _ _ H2) as (v' & Hv' & <-). congruence.
Qed.

Lemma allE_inj r r' l : allE g t !! r = Some l -> allE g t !! r' = Some l -> r = r'.
Proof.
  intros H1 H2. destruct (b_eheap _ _ Hb _ _ H1) as (v & Hv & <-).
  destruct (b_eheap _ _ Hb _ _ H2) as (v' & Hv' & <-). congruence.
Qed.

Lemma vvis_inj r r' l : vvis g t r l -> vvis g t r' l -> r = r'.
Proof. intros [H1 _] [H2 _]. by eapply allV_inj. Qed.

Lemma vvis_fun r l l' : vvis g t r l -> vvis g t r l' -> l = l'.
Proof. intros [H1 _] [H2 _]. congruence. Qed.

Lemma evis_fun r l l' : evis g t r l -> evis g t r l' -> l = l'.
Proof. intros [H1 _] [H2 _]. congruence. Qed.

Lemma lock_vvis r l : vvis g t r l -> exists v, lockVertex g t (Some l) = Some (l, v) /\
  vheap g !! l = Some v /\ v_rid v = r /\ checkReadWrite (v_state v) = false.
Proof.
  intros [Hr (v & Hv & Hs)]. exists v. split_and!; [by eapply lock_allV|done| |done].
  destruct (b_vheap _ _ Hb _ _ Hr) as (v' & Hv' & Hrid). congruence.
Qed.

Lemma lock_evis r l : evis g t r l -> exists e, lockEdge g t (Some l) = Some (l, e) /\
  eheap g !! l = Some e /\ e_rid e = r /\ checkReadWrite (e_state e) = false.
Proof.
  intros [Hr (v & Hv & Hs)]. exists v. split_and!; [by eapply lock_allE|done| |done].
  destruct (b_eheap _ _ Hb _ _ Hr) as (v' & Hv' & Hrid). congruence.
Qed.

Lemma lookupVertex_spec r l v :
  lookupVertex g t r = Some (l, v) <-> vvis g t r l /\ vheap g !! l = Some v.
Proof.
  destruct writer_flags as [Hro Hrw]. unfold lookupVertex, vvis, allV, hidden, findUncommittedVertex.
  rewrite Hro, Hrw; simpl. rewrite lookup_union.
  destruct (vertices g !! r) as [l1|], (ucVertices t !! r) as [l2|]; simpl;
    rewrite ?lookup_visible; naive_solver.
Qed.

Lemma lookupEdge_spec r l e :
  lookupEdge g t r = Some (l, e) <-> evis g t r l /\ eheap g !! l = Some e.
Proof.
  destruct writer_flags as [Hro Hrw]. unfold lookupEdge, evis, allE, hidden, findUncommittedEdge.
  rewrite Hro, Hrw; simpl. rewrite lookup_union.
  destruct (edges g !! r) as [l1|], (ucEdges t !! r) as [l2|]; simpl;
    rewrite ?lookup_visible; naive_solver.
Qed.
End views.

(** ** One edge changes, everything else is kept *)
#[export] Instance Side_eq_dec : EqDecision Side.
Proof. solve_decision. Defined.

Section change.
  Context (g g' : Graph) (t t' : BaseTxn) (E E' : gmap RecordId (RecordId * RecordId)) (k : RecordId).

(** The frame of an operation on the edge [k]. *)
Record framed : Prop := {
  f_map : forall k', k' <> k -> E' !! k' = E !! k';
  f_vvis : forall r l, vvis g' t' r l <-> vvis g t r l;
  f_evis : forall k' l, k' <> k -> evis g' t' k' l <-> evis g t k' l;
  f_end : forall s k' l, k' <> k -> evis g t k' l -> eEnd s g' l = eEnd s g l;
  f_adj : forall s l k', k' <> k -> vAdj s g' l k' = vAdj s g l k';
}.

Lemma side_change s X X' :
  side_ok s X g t E -> framed ->
  (forall sd, E' !! k = Some sd -> exists le l,
     evis g' t' k le /\ vvis g' t' (proj_of s sd) l /\ eEnd s g' le = (Some l, true)) ->
  (forall r l, vvis g' t' r l -> ~ X' r k -> entry_ok s g' t' E' r k (vAdj s g' l k)) ->
  (forall r k', k' <> k -> X r k' -> X' r k') ->
  side_ok s X' g' t' E'.
Proof.
  intros [Hend Hadj] Hf Hk1 Hk2 HX. split.
  - intros k' sd Hk'. destruct (decide (k' = k)) as [->|Hne]; [by apply Hk1|].
    rewrite (f_map Hf) in Hk' by done. destruct (Hend _ _ Hk') as (le & l & He & Hv & Hl).
    exists le, l. rewrite (f_evis Hf), (f_vvis Hf) by done. split_and!; [done..|].
    by rewrite (f_end Hf s k').
  - intros r l k' Hv HnX. destruct (decide (k' = k)) as [->|Hne]; [by apply Hk2|].
    rewrite (f_adj Hf) by done. rewrite (f_vvis Hf) in Hv.
    assert (~ X r k') as HnX' by naive_solver. specialize (Hadj r l k' Hv HnX').
    unfold entry_ok in *. destruct (vAdj s g l k') as [w []]; simpl in *.
    + destruct Hadj as (le & sd & -> & He & HE & Hp). exists le, sd.
      rewrite (f_evis Hf), (f_map Hf) by done. done.
    + intros sd. rewrite (f_map Hf) by done. apply Hadj.
Qed.

Lemma repr_change XS XD XS' XD' :
  repr_except XS XD g t E -> base_ok g' t' -> framed ->
  (forall le, evis g' t' k le -> is_Some (E' !! k)) ->
  side_ok SRC XS' g' t' E' -> side_ok DST XD' g' t' E' ->
  repr_except XS' XD' g' t' E'.
Proof.
  intros Hr Hb Hf Hk Hs Hd. split; [done| |done|done].
  intros k' le Hk'. destruct (decide (k' = k)) as [->|Hne]; [by eapply Hk|].
  rewrite (f_evis Hf) in Hk' by done. rewrite (f_map Hf) by done. by eapply r_only.
Qed.
End change.

Lemma repr_side s XS XD g t E :
  repr_except XS XD g t E -> side_ok s (match s with SRC => XS | DST => XD end) g t E.
Proof. intros Hr. destruct s; [by apply r_src in Hr|by apply r_dst in Hr]. Qed.

Lemma repr_side_none s g t E : repr g t E -> side_ok s none g t E.
Proof. intros Hr%(repr_side s). by destruct s. Qed.

(** ** Updating an adjacency map *)
Lemma lookup_updVertex f l g l' :
  vheap (updVertex f l g) !! l' = if decide (l = l') then f <$> vheap g !! l' else vheap g !! l'.
Proof. unfold updVertex, setVheap; simpl. rewrite lookup_alter. by case_decide; subst. Qed.

Lemma upd_fields s f v :
  v_rid (upd_of s f v) = v_rid v /\ v_state (upd_of s f v) = v_state v /\
  adj_of s (upd_of s f v) = f (adj_of s v) /\ adj_of (opposite s) (upd_of s f v) = adj_of (opposite s) v.
Proof. by destruct s. Qed.

Lemma adj_upd s s' f v :
  adj_of s' (upd_of s f v) = if decide (s = s') then f (adj_of s v) else adj_of s' v.
Proof. by destruct s, s'. Qed.

Section upd_adj.
  Context (s : Side) (f : Adj -> Adj) (l : Loc) (g : Graph) (t : BaseTxn).
Let g' := updVertex (upd_of s f) l g.

Lemma upd_heap l' v' :
  vheap g' !! l' = Some v' ->
  exists v, vheap g !! l' = Some v /\ v_rid v = v_rid v' /\ v_state v = v_state v'.
Proof.
  unfold g'. rewrite lookup_updVertex. case_decide; [|by eauto].
  destruct (vheap g !! l') as [v|]; simpl; intros Heq; simplify_eq. exists v.
  by destruct (upd_fields s f v) as (-> & -> & _).
Qed.

Lemma upd_heap' l' v :
  vheap g !! l' = Some v ->
  exists v', vheap g' !! l' = Some v' /\ v_rid v' = v_rid v /\ v_state v' = v_state v.
Proof.
  intros Hv. unfold g'. rewrite lookup_updVertex, Hv. case_decide; simpl; [|by eauto].
  eexists. split; [done|]. by destruct (upd_fields s f v) as (-> & -> & _).
Qed.

Lemma vvis_upd r l' : vvis g' t r l' <-> vvis g t r l'.
Proof.
  unfold vvis. change (allV g' t) with (allV g t). split; intros [Hr (v & Hv & Hs)]; split; try done.
  - destruct (upd_heap _ _ Hv) as (v0 & ? & _ & Hst). exists v0. by rewrite Hst.
  - destruct (upd_heap' _ _ Hv) as (v0 & ? & _ & Hst). exists v0. by rewrite Hst.
Qed.

Lemma base_upd : base_ok g t -> base_ok g' t.
Proof.
  intros [? Hv ? ? ? Hc ?]. split; try done.
  - intros r l' Hr. destruct (Hv _ _ Hr) as (v & Hvv & Hrid).
    destruct (upd_heap' _ _ Hvv) as (v' & ? & Hrid' & _). exists v'. by rewrite Hrid'.
  - intros r l' v Hr Hvv. destruct (upd_heap _ _ Hvv) as (v0 & Hv0 & _ & <-). by eapply Hc.
Qed.
End upd_adj.

Lemma vAdj_upd s s' f l g l' k :
  vAdj s' (updVertex (upd_of s f) l g) l' k =
    match vheap g !! l' with
    | Some v => if decide (s = s' /\ l = l') then tl_find k.1 k.2 (f (adj_of s v))
                else tl_find k.1 k.2 (adj_of s' v)
    | None => (None, false)
    end.
Proof.
  unfold vAdj. rewrite lookup_updVertex. destruct (vheap g !! l') as [v|]; [|by case_decide].
  destruct (decide (l = l')); simpl; [|by rewrite decide_False by naive_solver].
  rewrite adj_upd. destruct (decide (s = s')).
  - by rewrite decide_True.
  - by rewrite decide_False by naive_solver.
Qed.

Lemma vAdj_erase s s' k l g l' k' :
  vAdj s' (updVertex (upd_of s (tl_erase k.1 k.2)) l g) l' k' =
    if decide (s = s' /\ l = l' /\ k = k') then (None, false) else vAdj s' g l' k'.
Proof.
  rewrite vAdj_upd. unfold vAdj. destruct (vheap g !! l') as [v|]; [|by case_decide].
  destruct k as [c p], k' as [c' p']; simpl. destruct (decide (s = s' /\ l = l')) as [[<- <-]|Hne].
  - rewrite tl_find_erase. by repeat case_decide; naive_solver.
  - by rewrite decide_False by naive_solver.
Qed.

Lemma vAdj_insert s s' k x l g l' k' :
  is_Some (vheap g !! l) ->
  vAdj s' (updVertex (upd_of s (tl_insert k.1 k.2 x)) l g) l' k' =
    if decide (s = s' /\ l = l' /\ k = k') then (x, true) else vAdj s' g l' k'.
Proof.
  intros [v0 Hv0]. rewrite vAdj_upd. unfold vAdj. destruct (vheap g !! l') as [v|] eqn:Hv.
  - destruct k as [c p], k' as [c' p']; simpl. destruct (decide (s = s' /\ l = l')) as [[<- <-]|Hne].
    + rewrite tl_find_insert. by repeat case_decide; naive_solver.
    + by rewrite decide_False by naive_solver.
  - rewrite decide_False; [done|]. naive_solver congruence.
Qed.

(** ** Adding to and removing from the uncommitted sets *)
Lemma union_emplace (m1 m2 : gmap RecordId Loc) k l k' :
  (m1 ∪ emplace k l m2) !! k' =
    match (m1 ∪ m2) !! k' with Some x => Some x | None => if decide (k = k') then Some l else None end.
Proof.
  rewrite !lookup_union, lookup_emplace.
  destruct (m1 !! k'), (m2 !! k'); simpl; try done; by case_decide.
Qed.

Lemma lookup_updEdge (g : Graph) (le : Loc) (e : Edge) (f : Edge -> Edge) (l : Loc) :
  eheap g !! le = Some e ->
  eheap (updEdge f le g) !! l = if decide (le = l) then Some (f e) else eheap g !! l.
Proof.
  intros He. unfold updEdge, setEheap; simpl. rewrite lookup_alter.
  case_decide; [subst; by rewrite He|done].
Qed.

(** Changing an edge the writer owns and recording it as uncommitted. *)
Section touch.
  Context (g : Graph) (t : BaseTxn) (k : RecordId) (le : Loc) (e : Edge) (f : Edge -> Edge).
  Context (Hb : base_ok g t) (Hk : allE g t !! k = Some le) (He : eheap g !! le = Some e).
Let g' := updEdge f le g.
Let t' := addUncommittedEdge k le t.

Lemma touch_allE k' : allE g' t' !! k' = allE g t !! k'.
Proof.
  unfold allE, t', addUncommittedEdge; simpl. rewrite union_emplace.
  destruct ((edges g ∪ ucEdges t) !! k') eqn:E1; [done|]. case_decide; [|done].
  subst. unfold allE in Hk. congruence.
Qed.

Lemma touch_base :
  e_rid (f e) = e_rid e ->
  (st_status (e_state (f e)) = UNCOMMITTED_CREATE -> st_status (e_state e) = UNCOMMITTED_CREATE) ->
  base_ok g' t'.
Proof.
  intros Hrid Hst. destruct Hb as [? ? Hh ? Hag ? Hc]. split; try done.
  - intros r l. rewrite touch_allE. unfold g'. rewrite (lookup_updEdge g le e) by done. intros Hr.
    destruct (Hh _ _ Hr) as (e1 & He1 & Hr1). case_decide; [|by eauto].
    simplify_eq. by exists (f e).
  - intros r l l' Hr. unfold t'; simpl. rewrite lookup_emplace.
    destruct (ucEdges t !! r) eqn:E1; [intros; simplify_eq; by eapply Hag|].
    case_decide; intros; simplify_eq. change (edges g !! r = Some l) in Hr.
    apply (lookup_all_l _ (ucEdges t)) in Hr. unfold allE in Hk. congruence.
  - intros r l e1 Hr. unfold g'. rewrite (lookup_updEdge g le e) by done. case_decide; [|by eapply Hc].
    intros [= <-] Hs. subst. by eapply Hc; eauto.
Qed.
End touch.

(** Dropping an edge this transaction created. *)
Lemma untrack_spec (g : Graph) (t : BaseTxn) (k : RecordId) (le : Loc) (e : Edge) :
  base_ok g t -> allE g t !! k = Some le -> eheap g !! le = Some e ->
  st_status (e_state e) = UNCOMMITTED_CREATE ->
  base_ok g (deleteUncommittedEdge k t) /\
  (forall k', allE g (deleteUncommittedEdge k t) !! k' = if decide (k' = k) then None else allE g t !! k').
Proof.
  intros Hb Hk He Hst.
  assert (edges g !! k = None) as Hnone.
  { destruct (edges g !! k) as [l'|] eqn:Hl; [|done].
    assert (l' = le) as -> by (apply (lookup_all_l _ (ucEdges t)) in Hl; unfold allE in Hk; congruence).
    by destruct (b_ecommitted _ _ Hb _ _ _ Hl He). }
  assert (forall k', allE g (deleteUncommittedEdge k t) !! k' =
    if decide (k' = k) then None else allE g t !! k') as Hall.
  { intros k'. unfold allE; simpl. rewrite !lookup_union, lookup_delete.
    destruct (decide (k = k')) as [<-|]; case_decide; simplify_eq; try done. by rewrite Hnone. }
  split; [|done]. destruct Hb as [? ? Hh ? Hag ? ?]. split; try done.
  - intros r l. rewrite Hall. case_decide; [done|]. apply Hh.
  - intros r l l' Hr. simpl. rewrite lookup_delete. case_decide; [done|]. by apply Hag.
Qed.

(** The state change of [markEdgeDeleted] on an edge the writer sees. *)
Lemma mark_spec g t k le e :
  base_ok g t -> evis g t k le -> eheap g !! le = Some e ->
  let st := markEdgeDeleted le e g t in
  base_ok st.1 st.2 /\
  (forall k' l, evis st.1 st.2 k' l <-> evis g t k' l /\ k' <> k) /\
  (forall r l, vvis st.1 st.2 r l <-> vvis g t r l) /\
  (forall s l, eEnd s st.1 l = eEnd s g l) /\ (forall s l k', vAdj s st.1 l k' = vAdj s g l k') /\
  vheap st.1 = vheap g /\ ucVertices st.2 = ucVertices t.
Proof.
  intros Hb [Hk _] He. destruct (b_eheap _ _ Hb _ _ Hk) as (e0 & He0 & Hrid). simplify_eq/=.
  unfold markEdgeDeleted. simpl. case_bool_decide as Hst; simpl.
  - destruct (untrack_spec g t (e_rid e) le e) as [Hb' Hall]; [done..|].
    split_and!; try done. intros k' l. unfold evis. rewrite Hall. case_decide; naive_solver.
  - set (f := setEState (setStatus UNCOMMITTED_DELETE)). split_and!; try done.
    + by eapply touch_base.
    + intros k' l. unfold evis. rewrite touch_allE by done. erewrite lookup_updEdge by done.
      case_decide as Hle; subst.
      * split; [|intros [[Hk' _] Hne]; destruct Hne; by eapply allE_inj].
        intros [_ (e1 & [= <-] & Hd)]. done.
      * split; [|naive_solver]. intros [Hk' Hx]. split; [done|]. intros ->. congruence.
    + intros s l. unfold eEnd. erewrite lookup_updEdge by done.
      case_decide; [subst|done]. rewrite He. by destruct s.
Qed.

(** ** Deleting an edge *)
Lemma evis_upd s f l g t k le : evis (updVertex (upd_of s f) l g) t k le <-> evis g t k le.
Proof. done. Qed.

Lemma eEnd_upd s s' f l g le : eEnd s' (updVertex (upd_of s f) l g) le = eEnd s' g le.
Proof. done. Qed.

(** Only the vertex at the end of an edge has a live entry for it. *)
Lemma entry_other s X g t E k sd ls r l :
  base_ok g t -> side_ok s X g t E -> E !! k = Some sd -> vvis g t (proj_of s sd) ls ->
  vvis g t r l -> ~ X r k -> l <> ls -> (vAdj s g l k).2 = false.
Proof.
  intros Hb [_ Hadj] HE Hls Hl HX Hne. specialize (Hadj r l k Hl HX). unfold entry_ok in Hadj.
  destruct (vAdj s g l k) as [w []]; [|done]. simpl in Hadj.
  destruct Hadj as (le & sd' & _ & _ & HE' & Hp). simplify_eq. by destruct Hne; eapply vvis_fun.
Qed.

Lemma drop_edge XS XD (XS' XD' : RecordId -> RecordId -> Prop) g g2 t E k le e :
  repr_except XS XD g t E -> evis g t k le -> eheap g !! le = Some e ->
  base_ok g2 t -> eheap g2 = eheap g -> edges g2 = edges g ->
  (forall r l, vvis g2 t r l <-> vvis g t r l) ->
  (forall s l k', k' <> k -> vAdj s g2 l k' = vAdj s g l k') ->
  (forall s r l, vvis g t r l -> ~ (match s with SRC => XS' | DST => XD' end) r k -> (vAdj s g2 l k).2 = false) ->
  (forall r k', k' <> k -> XS r k' -> XS' r k') -> (forall r k', k' <> k -> XD r k' -> XD' r k') ->
  let st := markEdgeDeleted le e g2 t in repr_except XS' XD' st.1 st.2 (delete k E).
Proof.
  intros Hr Hk He Hb2 Heh Hed Hvv Hadj Hgone HXS HXD st.
  assert (forall k' l, evis g2 t k' l <-> evis g t k' l) as Hev.
  { intros k' l. unfold evis, allE. by rewrite Heh, Hed. }
  destruct (mark_spec g2 t k le e Hb2) as (Hb3 & Hev3 & Hvv3 & Hend3 & Hadj3 & _);
    [by apply Hev|by rewrite Heh|]. fold st in Hb3, Hev3, Hvv3, Hend3, Hadj3.
  assert (framed g st.1 t st.2 E (delete k E) k) as Hf.
  { split.
    - intros k' Hne. by rewrite lookup_delete_ne.
    - intros r l. by rewrite Hvv3, Hvv.
    - intros k' l Hne. rewrite Hev3, Hev. naive_solver.
    - intros s k' l Hne _. rewrite Hend3. unfold eEnd. by rewrite Heh.
    - intros s l k' Hne. by rewrite Hadj3, Hadj. }
  assert (forall s X X', side_ok s X g t E -> (forall r k', k' <> k -> X r k' -> X' r k') ->
    (forall r l, vvis g t r l -> ~ X' r k -> (vAdj s g2 l k).2 = false) ->
    side_ok s X' st.1 st.2 (delete k E)) as Hside.
  { intros s X X' Hs HX Hg. eapply side_change; [done..| | |done].
    - intros sd. by rewrite lookup_delete_eq.
    - intros r l Hl HnX. rewrite Hvv3, Hvv in Hl. rewrite Hadj3. unfold entry_ok.
      rewrite (Hg r l) by done. intros sd. by rewrite lookup_delete_eq. }
  eapply repr_change; [done..| | |].
  - intros l [_ Hne]%Hev3. done.
  - eapply Hside; [by eapply r_src|done|apply (Hgone SRC)].
  - eapply Hside; [by eapply r_dst|done|apply (Hgone DST)].
Qed.

(** The end of an edge the writer sees is the vertex of the map. *)
Lemma end_found s X g t E k sd le e :
  base_ok g t -> side_ok s X g t E -> E !! k = Some sd -> evis g t k le -> eheap g !! le = Some e ->
  exists l v, getLatestVersion (end_of s e) = (Some l, true) /\ vvis g t (proj_of s sd) l /\
    vheap g !! l = Some v.
Proof.
  intros Hb [Hend _] HE Hle He. destruct (Hend _ _ HE) as (le' & l & Hle' & Hv & Heq).
  assert (le' = le) as -> by (eapply evis_fun; eauto). unfold eEnd in Heq. rewrite He in Heq.
  destruct Hv as [Hv1 (v & Hv2 & Hv3)]. exists l, v. split_and!; [done|by split; eauto|done].
Qed.

Lemma eraseAt_vvis s g t k r l :
  base_ok g t -> vvis g t r l ->
  eraseAt (upd_of s) t k (Some l, true) g = updVertex (upd_of s (tl_erase k.1 k.2)) l g.
Proof.
  intros Hb Hl. unfold eraseAt. cbn [fst snd].
  destruct (lock_vvis g t Hb r l Hl) as (v & -> & _). done.
Qed.

Lemma deleteEdge_repr g t E k :
  repr g t E ->
  repr (deleteEdge g t k).1 (deleteEdge g t k).2 (delete k E) /\
  (E !! k = None -> deleteEdge g t k = (g, t)).
Proof.
  intros Hr. pose proof (r_base _ _ _ _ _ Hr) as Hb. unfold deleteEdge.
  destruct (lookupEdge g t k) as [[le e]|] eqn:Hl.
  - apply lookupEdge_spec in Hl as [Hk He]; [|done].
    destruct (r_only _ _ _ _ _ Hr _ _ Hk) as [sd HE]. split; [|by rewrite HE].
    destruct (end_found SRC none g t E k sd le e) as (ls & vs & Hls & Hvs & _); [done|apply Hr|done..|].
    destruct (end_found DST none g t E k sd le e) as (lt & vt & Hlt & Hvt & _); [done|apply Hr|done..|].
    simpl in Hls, Hlt. rewrite Hls, Hlt. change setOut with (upd_of SRC). change setIn with (upd_of DST).
    rewrite (eraseAt_vvis SRC g t k _ ls Hb Hvs).
    rewrite (eraseAt_vvis DST _ t k (proj_of DST sd) lt); [|by apply base_upd|by apply vvis_upd].
    apply (drop_edge none none none none g); try done.
    + by do 2 apply base_upd.
    + intros r l. by rewrite !vvis_upd.
    + intros s l k' Hne. rewrite !vAdj_erase. repeat case_decide; naive_solver.
    + intros s r l Hv HnX. rewrite !vAdj_erase. destruct s.
      * rewrite (decide_False (P := DST = SRC /\ _)) by naive_solver. case_decide; [done|].
        eapply (entry_other SRC none g t E k sd ls); [done|apply Hr|done..|naive_solver].
      * case_decide; [done|]. rewrite decide_False by naive_solver.
        eapply (entry_other DST none g t E k sd lt); [done|apply Hr|done..|naive_solver].
  - simpl. split; [|done]. rewrite delete_id; [done|].
    destruct (E !! k) as [sd|] eqn:HE; [|done].
    destruct (proj1 (r_src _ _ _ _ _ Hr) k sd HE) as (le & l & Hle & _).
    destruct (lock_evis g t Hb k le Hle) as (e & _ & He & _).
    assert (lookupEdge g t k = Some (le, e)) by (by apply lookupEdge_spec). congruence.
Qed.

(** Deleting an edge removes it from the map, and deleting an unknown edge
    changes nothing. *)
Theorem deleteEdge_refines g t E k :
  repr g t E ->
  repr (deleteEdge g t k).1 (deleteEdge g t k).2 (delete k E) /\
  (E !! k = None -> deleteEdge g t k = (g, t)).
Proof. apply deleteEdge_repr. Qed.

(** ** Creating a vertex on demand *)
Section alloc.
  Context (g : Graph) (t : BaseTxn) (r : RecordId) (Hb : base_ok g t) (Hfresh : allV g t !! r = None).
Let l := fresh (dom (vheap g)).
Let g' := setVheap <[l := newVertex r]> g.
Let t' := addUncommittedVertex r l t.

Lemma alloc_fresh : vheap g !! l = None.
Proof. apply not_elem_of_dom, is_fresh. Qed.

Lemma alloc_allV r' : allV g' t' !! r' = if decide (r = r') then Some l else allV g t !! r'.
Proof.
  unfold allV, t', addUncommittedVertex; simpl. rewrite union_emplace.
  case_decide; [subst; unfold allV in Hfresh; by rewrite Hfresh|].
  by destruct ((vertices g ∪ ucVertices t) !! r').
Qed.

Lemma alloc_vheap l' : vheap g' !! l' = if decide (l = l') then Some (newVertex r) else vheap g !! l'.
Proof. unfold g'; simpl. apply lookup_insert. Qed.

Lemma alloc_old r' l' : allV g t !! r' = Some l' -> r <> r' /\ l <> l'.
Proof.
  intros Hr. split; [congruence|]. intros <-.
  destruct (b_vheap _ _ Hb _ _ Hr) as (v & Hv & _). by rewrite alloc_fresh in Hv.
Qed.

Lemma alloc_vvis r' l' : vvis g' t' r' l' <-> vvis g t r' l' \/ (r' = r /\ l' = l).
Proof.
  unfold vvis. rewrite alloc_allV, alloc_vheap. split.
  - destruct (decide (r = r')) as [<-|Hne].
    + intros [[= <-] _]. by right.
    + intros [Hr Hv]. left. split; [done|]. destruct (alloc_old _ _ Hr) as [_ Hl].
      by rewrite decide_False in Hv.
  - intros [[Hr Hv]|[-> ->]].
    + destruct (alloc_old _ _ Hr) as [Hr' Hl]. by rewrite !decide_False.
    + rewrite !decide_True by done. split; [done|]. by exists (newVertex r).
Qed.

Lemma alloc_vAdj s l' k : vAdj s g' l' k = if decide (l = l') then (None, false) else vAdj s g l' k.
Proof. unfold vAdj. rewrite alloc_vheap. case_decide; [|done]. by destruct s. Qed.

Lemma alloc_base : base_ok g' t'.
Proof.
  destruct Hb as [? Hh ? Hag ? Hc ?]. split; try done.
  - intros r' l'. rewrite alloc_allV, alloc_vheap. case_decide; intros Hr.
    + simplify_eq. rewrite decide_True by done. by exists (newVertex r').
    + destruct (alloc_old _ _ Hr) as [_ Hl]. rewrite decide_False by done. by apply Hh.
  - intros r' l1 l2 H1. unfold t', addUncommittedVertex; simpl. rewrite lookup_emplace.
    destruct (ucVertices t !! r') eqn:E1; [intros; simplify_eq; by eapply Hag|].
    case_decide; [|done]. subst. apply (lookup_all_l _ (ucVertices t)) in H1.
    unfold allV in Hfresh. simpl in H1. congruence.
  - intros r' l' v H1. rewrite alloc_vheap.
    destruct (alloc_old r' l') as [_ Hl]; [by apply lookup_all_l|].
    rewrite decide_False by done. by eapply Hc.
Qed.

Lemma alloc_side s X E : side_ok s X g t E -> side_ok s X g' t' E.
Proof.
  intros [Hend Hadj]. split.
  - intros k sd Hk. destruct (Hend k sd Hk) as (le & l' & He & Hv & Heq).
    exists le, l'. split_and!; [done| |done]. apply alloc_vvis. by left.
  - intros r' l' k Hv HX. rewrite alloc_vAdj. apply alloc_vvis in Hv as [Hv|[-> ->]].
    + rewrite decide_False; [by apply (Hadj r' l' k)|]. destruct Hv as [Hv _]. by eapply alloc_old.
    + rewrite decide_True by done. intros sd HE Hp. destruct (Hend k sd HE) as (le & l' & _ & [Hv _] & _).
      by rewrite Hp, Hfresh in Hv.
Qed.
End alloc.

Lemma ensure_spec g t E r found l g' t' :
  repr g t E -> ensureVertex found r g t = (l, g', t') ->
  (forall l v, found = Some (l, v) -> vvis g t r l) -> (found = None -> allV g t !! r = None) ->
  repr g' t' E /\ vvis g' t' r l /\ (forall r' l', vvis g t r' l' -> vvis g' t' r' l') /\
  eheap g' = eheap g /\ edges g' = edges g /\ ucEdges t' = ucEdges t /\
  (forall r', r' <> r -> allV g' t' !! r' = allV g t !! r').
Proof.
  intros Hr Hens Hsome Hnone. pose proof (r_base _ _ _ _ _ Hr) as Hb. unfold ensureVertex, allocVertex in Hens.
  destruct found as [[l0 v0]|]; simplify_eq.
  - split_and!; eauto.
  - specialize (Hnone eq_refl). split_and!; try done.
    + split; [by apply alloc_base|by apply (r_only _ _ _ _ _ Hr)|..].
      * apply alloc_side; [done..|by apply r_src in Hr].
      * apply alloc_side; [done..|by apply r_dst in Hr].
    + apply alloc_vvis; [done..|by right].
    + intros. apply alloc_vvis; [done..|by left].
    + intros r' Hne. rewrite alloc_allV by done. by rewrite decide_False.
Qed.

(** ** Creating an edge *)
Section alloc_edge.
  Context (g : Graph) (t : BaseTxn) (k : RecordId) (ls lt : Loc) (Hb : base_ok g t).
  Context (Hfresh : allE g t !! k = None).
Let le := fresh (dom (eheap g)).
Let g' := setEheap <[le := newEdge k (Some ls) (Some lt)]> g.
Let t' := addUncommittedEdge k le t.

Lemma ealloc_allE k' : allE g' t' !! k' = if decide (k = k') then Some le else allE g t !! k'.
Proof.
  unfold allE, t', addUncommittedEdge; simpl. rewrite union_emplace.
  case_decide; [subst; unfold allE in Hfresh; by rewrite Hfresh|].
  by destruct ((edges g ∪ ucEdges t) !! k').
Qed.

Lemma ealloc_eheap l' :
  eheap g' !! l' = if decide (le = l') then Some (newEdge k (Some ls) (Some lt)) else eheap g !! l'.
Proof. unfold g'; simpl. apply lookup_insert. Qed.

Lemma ealloc_old k' l' : allE g t !! k' = Some l' -> k <> k' /\ le <> l'.
Proof.
  intros Hr. split; [congruence|]. intros <-.
  destruct (b_eheap _ _ Hb _ _ Hr) as (v & Hv & _).
  assert (eheap g !! le = None) as Hn by apply not_elem_of_dom, is_fresh. congruence.
Qed.

Lemma ealloc_evis k' l' : evis g' t' k' l' <-> evis g t k' l' \/ (k' = k /\ l' = le).
Proof.
  unfold evis. rewrite ealloc_allE, ealloc_eheap. split.
  - destruct (decide (k = k')) as [<-|Hne].
    + intros [[= <-] _]. by right.
    + intros [Hr Hv]. left. split; [done|]. destruct (ealloc_old _ _ Hr) as [_ Hl].
      by rewrite decide_False in Hv.
  - intros [[Hr Hv]|[-> ->]].
    + destruct (ealloc_old _ _ Hr) as [Hr' Hl]. by rewrite !decide_False.
    + rewrite !decide_True by done. split; [done|]. by eexists.
Qed.

Lemma ealloc_eEnd s l' :
  eEnd s g' l' = if decide (le = l') then (Some (match s with SRC => ls | DST => lt end), true)
                 else eEnd s g l'.
Proof. unfold eEnd. rewrite ealloc_eheap. case_decide; [|done]. by destruct s. Qed.

Lemma ealloc_base : base_ok g' t'.
Proof.
  destruct Hb as [? ? Hh ? Hag ? Hc]. split; try done.
  - intros r' l'. rewrite ealloc_allE, ealloc_eheap. case_decide; intros Hr.
    + simplify_eq. rewrite decide_True by done. by eexists.
    + destruct (ealloc_old _ _ Hr) as [_ Hl]. rewrite decide_False by done. by apply Hh.
  - intros r' l1 l2 H1. unfold t', addUncommittedEdge; simpl. rewrite lookup_emplace.
    destruct (ucEdges t !! r') eqn:E1; [intros; simplify_eq; by eapply Hag|].
    case_decide; [|done]. subst. apply (lookup_all_l _ (ucEdges t)) in H1.
    unfold allE in Hfresh. simpl in H1. congruence.
  - intros r' l' v H1. rewrite ealloc_eheap.
    destruct (ealloc_old r' l') as [_ Hl]; [by apply lookup_all_l|].
    rewrite decide_False by done. by eapply Hc.
Qed.

Lemma insert_edge E s d :
  repr g t E -> vvis g t s ls -> vvis g t d lt ->
  repr (updVertex (setIn (tl_insert k.1 k.2 (Some le))) lt
         (updVertex (setOut (tl_insert k.1 k.2 (Some le))) ls g')) t' (<[k := (s, d)]> E).
Proof.
  intros Hr Hs Hd. change setOut with (upd_of SRC). change setIn with (upd_of DST).
  set (g1 := updVertex (upd_of SRC _) ls g'). set (g2 := updVertex (upd_of DST _) lt g1).
  assert (E !! k = None) as HEk.
  { destruct (E !! k) eqn:HE; [|done]. destruct (proj1 (r_src _ _ _ _ _ Hr) _ _ HE) as (x & ? & [Hx _] & _).
    congruence. }
  assert (forall r l, vvis g2 t' r l <-> vvis g t r l) as Hvv.
  { intros r l. unfold g2, g1. by rewrite !vvis_upd. }
  assert (forall r l, vvis g t r l -> is_Some (vheap g' !! l) /\ is_Some (vheap g1 !! l)) as Hsome.
  { intros r l Hl. pose proof Hl as [_ (v & Hv & _)].
    apply Hvv in Hl. unfold g2 in Hl. rewrite vvis_upd in Hl. destruct Hl as [_ (v1 & Hv1 & _)]. eauto. }
  assert (forall s' l k', vAdj s' g2 l k' =
    if decide ((match s' with SRC => ls | DST => lt end) = l /\ k = k') then (Some le, true)
    else vAdj s' g l k') as Hadj.
  { intros s' l k'. unfold g2, g1. rewrite !vAdj_insert by (by eapply Hsome).
    destruct s'; repeat case_decide; naive_solver. }
  assert (framed g g2 t t' E (<[k := (s, d)]> E) k) as Hf.
  { split.
    - intros k' Hne. by rewrite lookup_insert_ne.
    - done.
    - intros k' l Hne. unfold g2, g1. rewrite !evis_upd, ealloc_evis. naive_solver.
    - intros s' k' l Hne [Hk' _]. unfold g2, g1. rewrite !eEnd_upd, ealloc_eEnd.
      rewrite decide_False; [done|]. by eapply ealloc_old.
    - intros s' l k' Hne. rewrite Hadj. by rewrite decide_False by naive_solver. }
  assert (evis g2 t' k le) as Hle.
  { unfold g2, g1. rewrite !evis_upd, ealloc_evis. by right. }
  assert (forall s', side_ok s' none g2 t' (<[k := (s, d)]> E)) as Hside.
  { intros s'. eapply side_change; [by apply repr_side_none|done| | |done].
    - intros sd. rewrite lookup_insert_eq. intros [= <-].
      exists le, (match s' with SRC => ls | DST => lt end). split_and!; [done| |].
      + rewrite Hvv. by destruct s'.
      + unfold g2, g1. rewrite !eEnd_upd, ealloc_eEnd. by rewrite decide_True.
    - intros r l Hl _. rewrite Hvv in Hl. rewrite Hadj. case_decide as Hd1.
      + destruct Hd1 as [<- _]. exists le, (s, d). rewrite lookup_insert_eq. split_and!; [done..|].
        destruct s'; simpl; eapply (vvis_inj g t Hb); eauto.
      + assert ((vAdj s' g l k).2 = false) as Hfalse.
        { pose proof (proj2 (repr_side_none s' _ _ _ Hr) r l k Hl) as Hx.
          unfold entry_ok in Hx. destruct (vAdj s' g l k) as [w []]; [|done]. simpl in Hx.
          destruct Hx as (? & ? & _ & _ & ? & _); [by intros []|congruence]. }
        unfold entry_ok. rewrite Hfalse. intros sd. rewrite lookup_insert_eq. intros [= <-] <-.
        apply Hd1. split; [|done]. destruct s'; simpl in *; eapply vvis_fun; eauto. }
  eapply repr_change; [done| |done| |apply Hside..].
  - unfold g2, g1. do 2 apply base_upd. apply ealloc_base.
  - intros. rewrite lookup_insert_eq. by eexists.
Qed.
End alloc_edge.

(** An end point the writer may use: it sees the vertex, or the graph never had it. *)
Definition usable (g : Graph) (t : BaseTxn) (r : RecordId) : Prop :=
  (exists l, vvis g t r l) \/ allV g t !! r = None.

Lemma lookup_usable g t r :
  base_ok g t -> usable g t r ->
  (forall l v, lookupVertex g t r = Some (l, v) -> vvis g t r l) /\
  (lookupVertex g t r = None -> allV g t !! r = None).
Proof.
  intros Hb Hu. split.
  - intros l v Hl. by apply lookupVertex_spec in Hl as [? _].
  - intros Hn. destruct Hu as [[l Hl]|]; [|done].
    destruct (lock_vvis g t Hb r l Hl) as (v & _ & Hv & _).
    assert (lookupVertex g t r = Some (l, v)) by (by apply lookupVertex_spec). congruence.
Qed.

(** Creating an edge under an unused id. *)
Lemma createEdge_repr g t E k s d :
  repr g t E -> allE g t !! k = None -> usable g t s -> usable g t d -> s <> d \/ (exists l, vvis g t s l) ->
  exists g' t', createEdge g t k s d = Ok (g', t') /\ repr g' t' (<[k := (s, d)]> E).
Proof.
  intros Hr. pose proof (r_base _ _ _ _ _ Hr) as Hb.
  intros Hk Hs Hd Hsd. unfold createEdge.
  destruct (lookupEdge g t k) as [[le e]|] eqn:Hle.
  { apply lookupEdge_spec in Hle as [[Hle _] _]; [congruence|done]. }
  destruct (lookup_usable g t s Hb Hs) as [Hs1 Hs2]. destruct (lookup_usable g t d Hb Hd) as [Hd1 Hd2].
  destruct (ensureVertex (lookupVertex g t s) s g t) as [[ls g1] t1] eqn:He1.
  destruct (ensure_spec g t E s _ ls g1 t1 Hr He1 Hs1 Hs2) as (Hr1 & Hls & Hkeep1 & Heh1 & Hed1 & Huc1 & Hall1).
  destruct (ensureVertex (lookupVertex g t d) d g1 t1) as [[lt g2] t2] eqn:He2.
  destruct (ensure_spec g1 t1 E d _ lt g2 t2 Hr1 He2) as (Hr2 & Hlt & Hkeep2 & Heh2 & Hed2 & Huc2 & Hall2).
  { intros l v Hl. by eapply Hkeep1, Hd1. }
  { intros Hn. destruct (decide (s = d)) as [<-|Hne]; [|rewrite Hall1; auto].
    destruct Hsd as [?|[l [Hl _]]]; [done|]. specialize (Hd2 Hn). congruence. }
  cbn [allocEdge]. eexists _, _. split; [reflexivity|].
  apply insert_edge; [by eapply r_base| |done|by apply Hkeep2|done].
  unfold allE. by rewrite Hed2, Huc2, Hed1, Huc1.
Qed.

(** Creating an edge under an unused id adds it to the map, creating the end
    points the graph does not have yet; an id in use is refused. *)
Theorem createEdge_refines g t E k s d :
  repr g t E ->
  (is_Some (E !! k) -> createEdge g t k s d = Throw NOGDB_GRAPH_DUP_EDGE) /\
  (allE g t !! k = None -> usable g t s -> usable g t d -> s <> d \/ (exists l, vvis g t s l) ->
   exists g' t', createEdge g t k s d = Ok (g', t') /\ repr g' t' (<[k := (s, d)]> E)).
Proof.
  intros Hr. pose proof (r_base _ _ _ _ _ Hr) as Hb. split; [|by apply createEdge_repr].
  intros [sd HE]. destruct (proj1 (r_src _ _ _ _ _ Hr) k sd HE) as (le & l & Hle & _).
  destruct (lock_evis g t Hb k le Hle) as (e & _ & He & _). unfold createEdge.
  by rewrite (proj2 (lookupEdge_spec g t Hb k le e)).
Qed.

(** ** Moving an end of an edge *)
Definition withEnd (s : Side) (r : RecordId) (sd : RecordId * RecordId) : RecordId * RecordId :=
  match s with SRC => (r, sd.2) | DST => (sd.1, r) end.

Lemma proj_withEnd s s' r sd : proj_of s' (withEnd s r sd) = if decide (s = s') then r else proj_of s' sd.
Proof. by destruct s, s'. Qed.

Lemma end_setEnd s s' f e :
  end_of s' (setEnd_of s f e) = if decide (s = s') then f (end_of s e) else end_of s' e.
Proof. by destruct s, s'. Qed.

Lemma move_end s g t E k sd le e ln lo newRid :
  repr g t E -> E !! k = Some sd -> evis g t k le -> eheap g !! le = Some e ->
  vvis g t (proj_of s sd) lo -> vvis g t newRid ln ->
  repr (updVertex (upd_of s (tl_insert k.1 k.2 (Some le))) ln
         (updEdge (setEnd_of s (addLatestVersion (Some ln))) le
            (updVertex (upd_of s (tl_erase k.1 k.2)) lo g)))
    (addUncommittedEdge k le t) (<[k := withEnd s newRid sd]> E).
Proof.
  intros Hr HE Hle He Hlo Hln. pose proof (r_base _ _ _ _ _ Hr) as Hb.
  set (g1 := updVertex _ lo g). set (f := setEnd_of s _). set (g2 := updEdge f le g1).
  set (g3 := updVertex _ ln g2). set (t' := addUncommittedEdge k le t).
  assert (base_ok g1 t) as Hb1 by (by apply base_upd).
  assert (e_rid (f e) = e_rid e /\ e_state (f e) = e_state e) as [Hf1 Hf2] by (by unfold f; destruct s).
  assert (base_ok g2 t') as Hb2.
  { eapply touch_base; [done|by destruct Hle|done|done|by rewrite Hf2]. }
  assert (forall r l, vvis g3 t' r l <-> vvis g t r l) as Hvv.
  { intros r l. unfold g3. rewrite vvis_upd. change (vvis g1 t r l <-> vvis g t r l). apply vvis_upd. }
  assert (is_Some (vheap g2 !! ln)) as Hsome.
  { apply Hvv in Hln. unfold g3 in Hln. rewrite vvis_upd in Hln. destruct Hln as [_ (v & Hv & _)]. eauto. }
  assert (forall k' l, evis g3 t' k' l <-> evis g t k' l) as Hev.
  { intros k' l. unfold g3. rewrite evis_upd. unfold evis, g2, t'.
    rewrite touch_allE by (by destruct Hle). erewrite lookup_updEdge by done.
    change (eheap g1) with (eheap g). change (allE g1 t) with (allE g t).
    case_decide; [subst l|done]. rewrite He. split; intros (? & ? & [= <-] & Hs); eauto 6 with congruence. }
  assert (forall s' l, eEnd s' g3 l = if decide (s = s' /\ le = l) then (Some ln, true) else eEnd s' g l) as Hend.
  { intros s' l. unfold g3. rewrite eEnd_upd. unfold eEnd. unfold g2. erewrite lookup_updEdge by done.
    change (eheap g1) with (eheap g). destruct (decide (le = l)) as [<-|]; [|by rewrite decide_False by naive_solver].
    rewrite He. unfold f. rewrite end_setEnd. repeat case_decide; naive_solver. }
  assert (forall s' l k', vAdj s' g3 l k' = if decide (s = s' /\ ln = l /\ k = k') then (Some le, true)
    else if decide (s = s' /\ lo = l /\ k = k') then (None, false) else vAdj s' g l k') as Hadj.
  { intros s' l k'. unfold g3. rewrite vAdj_insert by done. case_decide; [done|].
    change (vAdj s' g2 l k') with (vAdj s' g1 l k'). apply vAdj_erase. }
  assert (framed g g3 t t' E (<[k := withEnd s newRid sd]> E) k) as Hfr.
  { split.
    - intros k' Hne. by rewrite lookup_insert_ne.
    - done.
    - done.
    - intros s' k' l Hne Hk'. rewrite Hend, decide_False; [done|]. intros [_ <-].
      apply Hne. destruct Hle as [Hle _], Hk' as [Hk' _]. by eapply (allE_inj g t).
    - intros s' l k' Hne. rewrite Hadj. by rewrite !decide_False by naive_solver. }
  assert (forall s', side_ok s' none g3 t' (<[k := withEnd s newRid sd]> E)) as Hside.
  { intros s'. pose proof (repr_side_none s' _ _ _ Hr) as Hs'.
    eapply side_change; [done|done| | |done].
    - intros sd'. rewrite lookup_insert_eq. intros [= <-]. rewrite proj_withEnd.
      destruct (decide (s = s')) as [<-|Hne].
      + exists le, ln. rewrite Hev, Hvv, Hend. by rewrite decide_True.
      + destruct (proj1 Hs' k sd HE) as (le' & l & Hle' & Hl & Heq). exists le', l.
        rewrite Hev, Hvv, Hend. by rewrite decide_False by naive_solver.
    - intros r l Hl _. rewrite Hvv in Hl. rewrite Hadj. unfold entry_ok.
      destruct (decide (s = s')) as [<-|Hne].
      + destruct (decide (ln = l)) as [<-|Hnl].
        * rewrite decide_True by done. exists le, (withEnd s newRid sd).
          rewrite lookup_insert_eq, Hev, proj_withEnd, decide_True by done.
          split_and!; [done..|]. by apply (vvis_inj g t Hb newRid r ln).
        * rewrite decide_False by naive_solver.
          assert ((if decide (s = s /\ lo = l /\ k = k) then (None, false) else vAdj s g l k).2 = false) as ->.
          { case_decide; [done|]. eapply (entry_other s none g t E k sd lo); eauto; naive_solver. }
          intros sd'. rewrite lookup_insert_eq. intros [= <-]. rewrite proj_withEnd, decide_True by done.
          intros <-. apply Hnl. by eapply vvis_fun.
      + rewrite !decide_False by naive_solver. pose proof (proj2 Hs' r l k Hl (fun x => x)) as Hent.
        unfold entry_ok in Hent. rewrite lookup_insert_eq. rewrite HE in Hent.
        destruct (vAdj s' g l k) as [w []]; simpl in *.
        * destruct Hent as (le' & sd' & -> & Hle' & [= <-] & Hp). eexists _, _. rewrite Hev.
          split_and!; [done..|]. by rewrite proj_withEnd, decide_False.
        * intros sd' [= <-]. rewrite proj_withEnd, decide_False by done. by apply Hent. }
  eapply repr_change; [done|by apply base_upd|done| |apply Hside..].
  intros. rewrite lookup_insert_eq. by eexists.
Qed.

Lemma alterEnd_refines s g t E k newRid :
  repr g t E -> usable g t newRid ->
  (E !! k = None -> alterEnd (end_of s) (setEnd_of s) (upd_of s) g t k newRid = Throw NOGDB_GRAPH_NOEXST_EDGE) /\
  (forall sd, E !! k = Some sd ->
   exists g' t', alterEnd (end_of s) (setEnd_of s) (upd_of s) g t k newRid = Ok (g', t') /\
     repr g' t' (<[k := withEnd s newRid sd]> E)).
Proof.
  intros Hr Hu. pose proof (r_base _ _ _ _ _ Hr) as Hb. unfold alterEnd. split.
  - intros HE. destruct (lookupEdge g t k) as [[le e]|] eqn:Hl; [|done].
    apply lookupEdge_spec in Hl as [Hl _]; [|done]. destruct (r_only _ _ _ _ _ Hr _ _ Hl). congruence.
  - intros sd HE. pose proof (repr_side_none s _ _ _ Hr) as Hs.
    destruct (proj1 Hs k sd HE) as (le & lo & Hle & Hlo & _).
    destruct (lock_evis g t Hb k le Hle) as (e & _ & He & Hrid & _).
    rewrite (proj2 (lookupEdge_spec g t Hb k le e)) by done.
    destruct (end_found s none g t E k sd le e) as (lo' & v & Hfound & Hlo' & _); [done..|].
    assert (lo' = lo) as -> by (eapply vvis_fun; eauto). rewrite Hfound. cbn [fst snd].
    destruct (lock_vvis g t Hb _ lo Hlo) as (vo & -> & _).
    destruct (lookup_usable g t newRid Hb Hu) as [Hu1 Hu2].
    destruct (ensureVertex _ newRid g t) as [[ln g1] t1] eqn:He1.
    destruct (ensure_spec g t E newRid _ ln g1 t1 Hr He1 Hu1 Hu2) as (Hr1 & Hln & Hkeep & Heh & Hed & Huc & _).
    eexists _, _. split; [reflexivity|]. rewrite Hrid. apply (move_end s g1 t1 E k sd le e); try done.
    + unfold evis, allE. by rewrite Heh, Hed, Huc.
    + by rewrite Heh.
    + by apply Hkeep.
Qed.

(** ** Deleting a vertex *)
Lemma elem_of_adjKeys (m : Adj) k : k ∈ adjKeys m <-> is_Some (tl_get k.1 k.2 m).
Proof.
  destruct k as [c p]. rewrite <- tl_keys_spec. unfold adjKeys. rewrite list_elem_of_bind. split.
  - intros ([c' ps] & Hin & Hk). apply list_elem_of_bind in Hin as (p' & Hin & Hp').
    apply list_elem_of_singleton in Hin. simplify_eq. eauto.
  - intros (ps & Hps & Hp). exists (c, ps). split; [|done]. apply list_elem_of_bind.
    exists p. simpl. set_solver.
Qed.

Lemma live_adjKeys (m : Adj) k w : tl_find k.1 k.2 m = (w, true) -> k ∈ adjKeys m.
Proof.
  intros Hf. rewrite elem_of_adjKeys. unfold tl_find, tl_get, mv_find, mv_get in *.
  destruct (m !! k.1) as [inner|]; [|done]. destruct (inner !! k.2); [by eexists|done].
Qed.

Lemma NoDup_adjKeys (m : Adj) : NoDup (adjKeys m).
Proof.
  unfold adjKeys, tl_keys. set (cs := z_sort _).
  assert (NoDup cs) as Hcs.
  { unfold cs. rewrite z_sort_perm. apply NoDup_fst_map_to_list. }
  clearbody cs. induction Hcs as [|c cs Hc Hcs IH]; [constructor|].
  rewrite fmap_cons, bind_cons. apply NoDup_app. split_and!; [| |done].
  - assert (NoDup (tl_keys1 c m)) as Hnd.
    { unfold tl_keys1. destruct (m !! c); [apply NoDup_mv_keys|constructor]. }
    clear -Hnd. induction Hnd as [|p ps Hp Hnd IH]; [constructor|].
    rewrite bind_cons. constructor; [|done]. rewrite list_elem_of_bind.
    intros (p' & Hin & Hp'). apply list_elem_of_singleton in Hin. by simplify_eq.
  - intros [c' p] H1 H2. apply list_elem_of_bind in H1 as (p' & H1 & _).
    apply list_elem_of_singleton in H1. simplify_eq.
    apply list_elem_of_bind in H2 as ([c2 ps] & H2 & Hin).
    apply list_elem_of_bind in H2 as (p2 & H2 & _). apply list_elem_of_singleton in H2. simplify_eq.
    apply list_elem_of_fmap in Hin as (c3 & Heq & Hin). by simplify_eq.
Qed.

Lemma keys1_adjKeys (m : Adj) c p : p ∈ tl_keys1 c m <-> (c, p) ∈ adjKeys m.
Proof.
  rewrite elem_of_adjKeys. unfold tl_keys1, tl_get. simpl.
  destruct (m !! c); [apply mv_keys_spec|]. split; [by intros ?%not_elem_of_nil|by intros []].
Qed.

Lemma NoDup_keys1 (m : Adj) c : NoDup ((fun p => (c, p)) <$> tl_keys1 c m).
Proof.
  apply NoDup_fmap_2; [by intros ?? [= ->]|]. unfold tl_keys1.
  destruct (m !! c); [apply NoDup_mv_keys|constructor].
Qed.

(** The representation seen from one side: stale entries [Xs] on the side [s],
    [Xo] on the other. *)
Definition repr_sided (s : Side) (Xs Xo : RecordId -> RecordId -> Prop) :=
  match s with SRC => repr_except Xs Xo | DST => repr_except Xo Xs end.

Lemma sided_base s Xs Xo g t E : repr_sided s Xs Xo g t E -> base_ok g t.
Proof. destruct s; apply r_base. Qed.

Lemma sided_only s Xs Xo g t E k le : repr_sided s Xs Xo g t E -> evis g t k le -> is_Some (E !! k).
Proof. destruct s; intros Hr; by apply (r_only _ _ _ _ _ Hr). Qed.

Lemma sided_side s Xs Xo g t E :
  repr_sided s Xs Xo g t E -> side_ok s Xs g t E /\ side_ok (opposite s) Xo g t E.
Proof. destruct s; intros [_ _ H1 H2]; done. Qed.

Lemma mark_vertices le e g t r l s k :
  let st := markEdgeDeleted le e g t in
  (vvis st.1 st.2 r l <-> vvis g t r l) /\ vAdj s st.1 l k = vAdj s g l k /\ vheap st.1 = vheap g.
Proof. unfold markEdgeDeleted. simpl. by case_bool_decide. Qed.

Lemma drop_edge_sided s Xs Xo Xs' g g2 t E k le e :
  repr_sided s Xs Xo g t E -> evis g t k le -> eheap g !! le = Some e ->
  base_ok g2 t -> eheap g2 = eheap g -> edges g2 = edges g ->
  (forall r l, vvis g2 t r l <-> vvis g t r l) ->
  (forall s l k', k' <> k -> vAdj s g2 l k' = vAdj s g l k') ->
  (forall r l, vvis g t r l -> ~ Xs' r k -> (vAdj s g2 l k).2 = false) ->
  (forall r l, vvis g t r l -> ~ Xo r k -> (vAdj (opposite s) g2 l k).2 = false) ->
  (forall r k', Xs r k' -> Xs' r k') ->
  let st := markEdgeDeleted le e g2 t in repr_sided s Xs' Xo st.1 st.2 (delete k E).
Proof.
  intros Hr Hk He Hb2 Heh Hed Hvv Hadj Hs Ho HX. destruct s; simpl in *.
  - eapply (drop_edge Xs Xo Xs' Xo g); eauto. intros []; eauto.
  - eapply (drop_edge Xo Xs Xo Xs' g); eauto. intros []; eauto.
Qed.

Section incident.
  Context (s : Side) (Xo : RecordId -> RecordId -> Prop) (rid : RecordId) (lv : Loc).

Abbreviation step := (deleteIncident (adj_of s) (end_of (opposite s)) (upd_of (opposite s)) lv).

(** What is left of the map when the edges at this end of [rid] under the
    keys [ks] are gone. *)
Definition without (ks : list RecordId) (E : gmap RecordId (RecordId * RecordId)) :
    gmap RecordId (RecordId * RecordId) :=
  filter (fun p => ~ (proj_of s p.2 = rid /\ p.1 ∈ ks)) E.

Lemma without_app ks1 ks2 E : without ks2 (without ks1 E) = without (ks1 ++ ks2) E.
Proof.
  unfold without. rewrite map_filter_filter. apply map_filter_ext. intros k sd _. simpl. set_solver.
Qed.

Lemma sided_weaken Xs Xs' g t E :
  (forall r k, Xs r k -> Xs' r k) -> repr_sided s Xs Xo g t E -> repr_sided s Xs' Xo g t E.
Proof.
  intros HX Hr. destruct s; destruct Hr as [Hb Ho H1 H2]; split; try done.
  - destruct H1 as [He Ha]. split; [done|]. intros r l k Hv Hn. apply Ha; auto.
  - destruct H2 as [He Ha]. split; [done|]. intros r l k Hv Hn. apply Ha; auto.
Qed.

Lemma incident_step Xs g t E k :
  repr_sided s Xs Xo g t E -> vvis g t rid lv -> ~ Xs rid k ->
  let st := step (g, t) k in
  repr_sided s (fun r k' => Xs r k' \/ (r = rid /\ k' = k)) Xo st.1 st.2 (without [k] E) /\
  vvis st.1 st.2 rid lv /\ (v_state <$> vheap st.1 !! lv) = (v_state <$> vheap g !! lv).
Proof.
  intros Hr Hv HnX. pose proof (sided_base _ _ _ _ _ _ Hr) as Hb.
  destruct (sided_side _ _ _ _ _ _ Hr) as [Hs Ho].
  pose proof (proj2 Hs rid lv k Hv HnX) as Hent. pose proof Hv as [_ (v & Hhv & _)].
  unfold deleteIncident. rewrite Hhv. unfold vAdj in Hent. rewrite Hhv in Hent. unfold entry_ok in Hent.
  destruct (tl_find k.1 k.2 (adj_of s v)) as [w []] eqn:Hfind; simpl in *.
  - destruct Hent as (le & sd & -> & Hle & HE & Hp).
    destruct (lock_evis g t Hb k le Hle) as (e & -> & He & Hrid & _). rewrite Hrid.
    destruct (end_found (opposite s) Xo g t E k sd le e) as (lo & vo & Hfo & Hvo & _); [done..|].
    rewrite Hfo, (eraseAt_vvis (opposite s) g t k _ lo Hb Hvo).
    set (g2 := updVertex _ lo g).
    assert (without [k] E = delete k E) as ->.
    { apply map_eq. intros k'. unfold without. rewrite map_lookup_filter, lookup_delete.
      destruct (decide (k = k')) as [<-|Hne].
      - rewrite HE. simpl. rewrite option_guard_False; [done|]. simpl. set_solver.
      - destruct (E !! k'); simpl; [|done]. rewrite option_guard_True; [done|]. simpl. set_solver. }
    assert (forall r l, vvis g2 t r l <-> vvis g t r l) as Hvv by (intros; apply vvis_upd).
    assert (forall l, vAdj s g2 l k = vAdj s g l k) as Hsame.
    { intros l. unfold g2. rewrite vAdj_erase, decide_False; [done|]. by destruct s; intros []. }
    destruct (mark_vertices le e g2 t rid lv s k) as (Hmv & _ & Hmh). split_and!.
    + apply (drop_edge_sided s Xs Xo _ g g2 t E k le e); try done.
      * by apply base_upd.
      * intros s' l k' Hne. unfold g2. rewrite vAdj_erase. by rewrite decide_False by naive_solver.
      * intros r l Hl Hn. rewrite Hsame. apply (entry_other s Xs g t E k sd lv r l); try done.
        -- by rewrite Hp.
        -- naive_solver.
        -- intros ->. apply Hn. right. split; [|done]. by eapply vvis_inj.
      * intros r l Hl Hn. unfold g2. rewrite vAdj_erase. case_decide; [done|].
        apply (entry_other (opposite s) Xo g t E k sd lo r l); try done. naive_solver.
      * naive_solver.
    + by apply Hmv, Hvv.
    + rewrite Hmh. unfold g2. rewrite lookup_updVertex, Hhv. case_decide; simpl; [|done].
      by destruct (upd_fields (opposite s) (tl_erase k.1 k.2) v) as (_ & -> & _).
  - assert (without [k] E = E) as ->.
    { apply map_filter_id. intros k' sd HE. simpl. intros [Hp Hk]. apply list_elem_of_singleton in Hk.
      subst. by apply (Hent sd). }
    split_and!; [|done|by rewrite ?Hhv]. eapply sided_weaken; [|done]. naive_solver.
Qed.

Lemma incident_loop ks : forall Xs g t E,
  repr_sided s Xs Xo g t E -> vvis g t rid lv -> NoDup ks -> (forall k, k ∈ ks -> ~ Xs rid k) ->
  let st := fold_left step ks (g, t) in
  repr_sided s (fun r k => Xs r k \/ (r = rid /\ k ∈ ks)) Xo st.1 st.2 (without ks E) /\
  vvis st.1 st.2 rid lv /\ (v_state <$> vheap st.1 !! lv) = (v_state <$> vheap g !! lv).
Proof.
  induction ks as [|k ks IH]; intros Xs g t E Hr Hv Hnd HX; cbn [fold_left].
  - split_and!; [|done|done].
    assert (without [] E = E) as ->.
    { apply map_filter_id. intros k' sd HE. simpl. intros [_ Hk]. by apply not_elem_of_nil in Hk. }
    eapply sided_weaken; [|done]. naive_solver.
  - apply NoDup_cons in Hnd as [Hk Hnd].
    destruct (incident_step Xs g t E k) as (Hr1 & Hv1 & Hst1); [done..|set_solver|].
    destruct (step (g, t) k) as [g1 t1]. cbn [fst snd] in *.
    destruct (IH _ g1 t1 _ Hr1 Hv1 Hnd) as (Hr2 & Hv2 & Hst2).
    { intros k' Hk' [Hx|[_ ->]]; [|done]. apply (HX k'); [set_solver|done]. }
    split_and!; [|done|by rewrite Hst2].
    rewrite without_app in Hr2. eapply sided_weaken; [|exact Hr2].
    intros r k'. simpl. set_solver.
Qed.

(** Once every key of the map of [rid] was visited, no edge has [rid] at this end. *)
Lemma incident_done Xs g t E v :
  side_ok s Xs g t E -> vvis g t rid lv -> vheap g !! lv = Some v -> (forall k, ~ Xs rid k) ->
  without (adjKeys (adj_of s v)) E = filter (fun p => proj_of s p.2 <> rid) E.
Proof.
  intros [_ Hadj] Hv Hhv HX. apply map_filter_ext. intros k sd HE. simpl. split; [|naive_solver].
  intros Hn Hp. apply Hn. split; [done|]. specialize (Hadj rid lv k Hv (HX k)).
  unfold vAdj in Hadj. rewrite Hhv in Hadj. unfold entry_ok in Hadj.
  destruct (tl_find k.1 k.2 (adj_of s v)) as [w []] eqn:Hf; simpl in Hadj; [by eapply live_adjKeys|].
  by destruct (Hadj sd HE).
Qed.
End incident.

(** Dropping or marking the vertex itself. *)
Lemma mark_vertex_spec g t rid lv v v0 :
  base_ok g t -> vvis g t rid lv -> vheap g !! lv = Some v0 -> v_state v0 = v_state v -> v_rid v = rid ->
  let st := markVertexDeleted lv v g t in
  base_ok st.1 st.2 /\ (forall r l, vvis st.1 st.2 r l <-> vvis g t r l /\ r <> rid) /\
  (forall k l, evis st.1 st.2 k l <-> evis g t k l) /\
  (forall s l, eEnd s st.1 l = eEnd s g l) /\ (forall s l k, vAdj s st.1 l k = vAdj s g l k).
Proof.
  intros Hb [Hk _] Hv0 Hst <-. unfold markVertexDeleted. simpl. rewrite <- Hst.
  case_bool_decide as Hc; simpl.
  - assert (vertices g !! v_rid v = None) as Hnone.
    { destruct (vertices g !! v_rid v) as [l'|] eqn:Hl; [|done].
      assert (l' = lv) as -> by (apply (lookup_all_l _ (ucVertices t)) in Hl; unfold allV in Hk; congruence).
      by destruct (b_vcommitted _ _ Hb _ _ _ Hl Hv0). }
    assert (forall r, allV g (deleteUncommittedVertex (v_rid v) t) !! r =
      if decide (r = v_rid v) then None else allV g t !! r) as Hall.
    { intros r. unfold allV; simpl. rewrite !lookup_union, lookup_delete.
      destruct (decide (v_rid v = r)) as [<-|]; case_decide; simplify_eq; try done. by rewrite Hnone. }
    split_and!; try done.
    + destruct Hb as [? Hh ? Hag ? ? ?]. split; try done.
      * intros r l. rewrite Hall. case_decide; [done|]. apply Hh.
      * intros r l l' Hr. simpl. rewrite lookup_delete. case_decide; [done|]. by apply Hag.
    + intros r l. unfold vvis. rewrite Hall. case_decide; naive_solver.
  - set (g' := updVertex _ lv g).
    assert (forall r, allV g' (addUncommittedVertex (v_rid v) lv t) !! r = allV g t !! r) as Hall.
    { intros r. unfold allV, addUncommittedVertex; simpl. rewrite union_emplace.
      destruct ((vertices g ∪ ucVertices t) !! r) eqn:E1; [done|]. case_decide; [|done].
      subst. unfold allV in Hk. congruence. }
    assert (forall l, vheap g' !! l = if decide (lv = l)
      then Some (setVState (setStatus UNCOMMITTED_DELETE) v0) else vheap g !! l) as Hheap.
    { intros l. unfold g'. rewrite lookup_updVertex. case_decide; [subst; by rewrite Hv0|done]. }
    split_and!; try done.
    + destruct Hb as [? Hh ? Hag ? Hcm ?]. split; try done.
      * intros r l. rewrite Hall, Hheap. intros Hr. destruct (Hh _ _ Hr) as (v1 & Hv1 & Hr1).
        case_decide; [simplify_eq; by eexists|by eauto].
      * intros r l l' Hr. simpl. rewrite lookup_emplace.
        destruct (ucVertices t !! r) eqn:E1; [intros; simplify_eq; by eapply Hag|].
        case_decide; intros; simplify_eq. change (vertices g !! v_rid v = Some l) in Hr.
        apply (lookup_all_l _ (ucVertices t)) in Hr. unfold allV in Hk. congruence.
      * intros r l v1 Hr. rewrite Hheap. case_decide; [by intros [= <-]|by eapply Hcm].
    + intros r l. unfold vvis. rewrite Hall, Hheap. case_decide as Hle; subst.
      * split; [by intros [_ (v1 & [= <-] & Hd)]|].
        intros [[Hk' _] Hne]. destruct Hne. by eapply allV_inj.
      * split; [|naive_solver]. intros [Hk' Hx]. split; [done|]. intros ->. congruence.
    + intros s l k. unfold vAdj. rewrite Hheap. case_decide; [subst|done]. rewrite Hv0. by destruct s.
Qed.

Lemma drop_vertex XS XD g t E rid lv v v0 :
  repr_except XS XD g t E -> vvis g t rid lv -> vheap g !! lv = Some v0 ->
  v_state v0 = v_state v -> v_rid v = rid ->
  (forall r k, XS r k -> r = rid) -> (forall r k, XD r k -> r = rid) ->
  (forall k sd s, E !! k = Some sd -> proj_of s sd <> rid) ->
  let st := markVertexDeleted lv v g t in repr st.1 st.2 E /\ forall l, ~ vvis st.1 st.2 rid l.
Proof.
  intros Hr Hv Hv0 Hst Hrid HXS HXD HE st. pose proof (r_base _ _ _ _ _ Hr) as Hb.
  destruct (mark_vertex_spec g t rid lv v v0) as (Hb' & Hvv & Hev & Hend & Hadj); [done..|].
  fold st in Hb', Hvv, Hev, Hend, Hadj. split; [|intros l Hl; apply Hvv in Hl; by destruct Hl].
  assert (forall s X, side_ok s X g t E -> (forall r k, X r k -> r = rid) -> side_ok s none st.1 st.2 E) as Hside.
  { intros s X [He Ha] HX. split.
    - intros k sd HEk. destruct (He k sd HEk) as (le & l & Hle & Hl & Heq). exists le, l.
      rewrite Hev, Hvv, Hend. split_and!; try done. by eapply HE.
    - intros r l k Hl _. apply Hvv in Hl as [Hl Hne]. rewrite Hadj.
      assert (~ X r k) as HnX by naive_solver. specialize (Ha r l k Hl HnX).
      unfold entry_ok in *. destruct (vAdj s g l k) as [w []]; simpl in *; [|done].
      destruct Ha as (le & sd & ? & Hle & ?). exists le, sd. by rewrite Hev. }
  split; [done| | |].
  - intros k le Hk. apply Hev in Hk. by eapply r_only.
  - eapply Hside; [by eapply r_src|done].
  - eapply Hside; [by eapply r_dst|done].
Qed.

Lemma deleteVertex_repr g t E rid :
  repr g t E ->
  repr (deleteVertex g t rid).1 (deleteVertex g t rid).2
    (filter (fun p => p.2.1 <> rid /\ p.2.2 <> rid) E) /\
  (forall l, ~ vvis (deleteVertex g t rid).1 (deleteVertex g t rid).2 rid l).
Proof.
  intros Hr. pose proof (r_base _ _ _ _ _ Hr) as Hb. unfold deleteVertex.
  destruct (lookupVertex g t rid) as [[lv v]|] eqn:Hl.
  - apply lookupVertex_spec in Hl as [Hv Hhv]; [|done].
    destruct (lock_vvis g t Hb rid lv Hv) as (v' & _ & Hhv' & Hrid & _). simplify_eq.
    destruct (incident_loop DST none (v_rid v) lv (adjKeys (v_in v)) none g t E) as (Hr1 & Hv1 & Hs1);
      [done|done|apply NoDup_adjKeys|by intros ? _ []|].
    cbn [repr_sided adj_of end_of upd_of opposite] in Hr1, Hv1, Hs1.
    destruct (fold_left _ (adjKeys (v_in v)) (g, t)) as [g1 t1] eqn:Hloop1. cbn [fst snd] in *.
    pose proof (incident_done DST (v_rid v) lv none g t E v (r_dst _ _ _ _ _ Hr) Hv Hhv (fun _ x => x)) as Hd1.
    cbn [adj_of] in Hd1. rewrite Hd1 in Hr1. clear Hd1.
    pose proof Hv1 as [_ (v1 & Hhv1 & _)]. rewrite Hhv1.
    set (XD := fun r k => _) in Hr1.
    destruct (incident_loop SRC XD (v_rid v) lv (adjKeys (v_out v1)) none g1 t1 _ Hr1 Hv1)
      as (Hr2 & Hv2 & Hs2); [apply NoDup_adjKeys|by intros ? _ []|].
    cbn [repr_sided adj_of end_of upd_of opposite] in Hr2, Hv2, Hs2.
    destruct (fold_left _ (adjKeys (v_out v1)) (g1, t1)) as [g2 t2] eqn:Hloop2. cbn [fst snd] in *.
    pose proof (incident_done SRC (v_rid v) lv none g1 t1 _ v1 (r_src _ _ _ _ _ Hr1) Hv1 Hhv1 (fun _ x => x)) as Hd2.
    cbn [adj_of] in Hd2. rewrite Hd2 in Hr2. clear Hd2.
    pose proof Hv2 as [_ (v2 & Hhv2 & _)].
    rewrite Hhv1, Hhv in Hs1. rewrite Hhv1, Hhv2 in Hs2. simpl in Hs1, Hs2.
    rewrite map_filter_filter in Hr2.
    destruct (drop_vertex _ _ g2 t2 _ (v_rid v) lv v v2 Hr2 Hv2 Hhv2) as [Hr3 Hn]; [congruence|done|..].
    + intros r k [[]|[? _]]; done.
    + intros r k [[]|[? _]]; done.
    + intros k sd s [_ [Hsd Hdd]]%map_lookup_filter_Some. by destruct s.
    + split; [|done]. match type of Hr3 with repr _ _ ?M => replace (filter _ E) with M; [exact Hr3|] end.
      apply map_filter_ext. intros k sd _. simpl. naive_solver.
  - simpl. assert (forall l, ~ vvis g t rid l) as Hn.
    { intros l Hv. destruct (lock_vvis g t Hb rid l Hv) as (v & _ & Hhv & _).
      assert (lookupVertex g t rid = Some (l, v)) by (by apply lookupVertex_spec). congruence. }
    split; [|done]. rewrite map_filter_id; [done|]. intros k sd HE. simpl.
    destruct (proj1 (r_src _ _ _ _ _ Hr) k sd HE) as (_ & l1 & _ & Hs & _).
    destruct (proj1 (r_dst _ _ _ _ _ Hr) k sd HE) as (_ & l2 & _ & Hd & _).
    split; intros <-; by eapply Hn.
Qed.

(** C14. Deleting a vertex removes it with every edge that starts or ends at it,
    and nothing else. *)
Theorem deleteVertex_refines g t E rid :
  repr g t E ->
  repr (deleteVertex g t rid).1 (deleteVertex g t rid).2
    (filter (fun p => p.2.1 <> rid /\ p.2.2 <> rid) E) /\
  (forall l, ~ vvis (deleteVertex g t rid).1 (deleteVertex g t rid).2 rid l).
Proof. apply deleteVertex_repr. Qed.

(** Moving the source (target) of an edge replaces that end in the map and
    leaves the other end and every other edge; an unknown edge is refused. *)
Theorem alterVertex_refines g t E k r :
  repr g t E -> usable g t r ->
  (E !! k = None ->
   alterVertexSrc g t k r = Throw NOGDB_GRAPH_NOEXST_EDGE /\
   alterVertexDst g t k r = Throw NOGDB_GRAPH_NOEXST_EDGE) /\
  (forall s d, E !! k = Some (s, d) ->
   (exists g' t', alterVertexSrc g t k r = Ok (g', t') /\ repr g' t' (<[k := (r, d)]> E)) /\
   (exists g' t', alterVertexDst g t k r = Ok (g', t') /\ repr g' t' (<[k := (s, r)]> E))).
Proof.
  intros Hr Hu. destruct (alterEnd_refines SRC g t E k r Hr Hu) as [Hs1 Hs2].
  destruct (alterEnd_refines DST g t E k r Hr Hu) as [Hd1 Hd2]. split; [by auto|].
  intros s d HE. split; [apply (Hs2 _ HE)|apply (Hd2 _ HE)].
Qed.
