(* ===== verification/GraphQuery.v ===== *)
(** * What the writer reads from the relation graph

    The read operations of [Graph] (src/src/mem_edge.cpp, mem_vertex.cpp) under
    a read-write transaction, against the map of edges of GraphSpec. *)

From stdpp Require Import base gmap sets list sorting fin_sets.
From Stdlib Require Import ZArith Lia.
From S2P Require Import Prelude Types VersionControl MultiVersionMap TxnObject TxnData Graph GraphSpec.

(** ** End points *)
Lemma endpoint_spec s g t E k sd le e :
  repr g t E -> E !! k = Some sd -> evis g t k le -> eheap g !! le = Some e ->
  endpoint g t (end_of s e) = Ok (proj_of s sd).
Proof.
  intros Hr HE Hle He. pose proof (r_base _ _ _ _ _ Hr) as Hb.
  destruct (end_found s none g t E k sd le e) as (l & v & Hf & Hv & _); [done|by apply repr_side_none|done..|].
  unfold endpoint, getCurrentVersion. rewrite (b_rw _ _ Hb), Hf. cbn [fst snd].
  by destruct (lock_vvis g t Hb _ l Hv) as (v' & -> & _ & -> & _).
Qed.

Lemma endpoints_spec g t E k :
  repr g t E ->
  getVertexSrcDst g t k = match E !! k with Some sd => Ok sd | None => Throw NOGDB_GRAPH_NOEXST_EDGE end /\
  getVertexSrc g t k = match E !! k with Some sd => Ok sd.1 | None => Throw NOGDB_GRAPH_NOEXST_EDGE end /\
  getVertexDst g t k = match E !! k with Some sd => Ok sd.2 | None => Throw NOGDB_GRAPH_NOEXST_EDGE end.
Proof.
  intros Hr. pose proof (r_base _ _ _ _ _ Hr) as Hb.
  unfold getVertexSrcDst, getVertexSrc, getVertexDst.
  destruct (lookupEdge g t k) as [[le e]|] eqn:Hl.
  - apply lookupEdge_spec in Hl as [Hk He]; [|done].
    destruct (r_only _ _ _ _ _ Hr _ _ Hk) as [sd HE]. rewrite HE.
    pose proof (endpoint_spec SRC g t E k sd le e Hr HE Hk He) as Hs.
    pose proof (endpoint_spec DST g t E k sd le e Hr HE Hk He) as Hd.
    cbn [end_of proj_of] in Hs, Hd. rewrite Hs, Hd. by destruct sd.
  - destruct (E !! k) as [sd|] eqn:HE; [|done].
    destruct (proj1 (r_src _ _ _ _ _ Hr) k sd HE) as (le & l & Hle & _).
    destruct (lock_evis g t Hb k le Hle) as (e & _ & He & _).
    assert (lookupEdge g t k = Some (le, e)) by (by apply lookupEdge_spec). congruence.
Qed.

(** The end points the writer reads are those of the map, and an edge that is
    not in the map is reported as missing. *)
Theorem endpoints_refine g t E k :
  repr g t E ->
  getVertexSrcDst g t k = match E !! k with Some sd => Ok sd | None => Throw NOGDB_GRAPH_NOEXST_EDGE end /\
  getVertexSrc g t k = match E !! k with Some sd => Ok sd.1 | None => Throw NOGDB_GRAPH_NOEXST_EDGE end /\
  getVertexDst g t k = match E !! k with Some sd => Ok sd.2 | None => Throw NOGDB_GRAPH_NOEXST_EDGE end.
Proof. apply endpoints_spec. Qed.

(** ** Adjacent edges *)
Lemma adjEdge_spec s g t E r l v k x :
  repr g t E -> vvis g t r l -> vheap g !! l = Some v ->
  adjEdge g t (adj_of s v) k = Some x <-> x = k /\ exists sd, E !! k = Some sd /\ proj_of s sd = r.
Proof.
  intros Hr Hl Hv. pose proof (r_base _ _ _ _ _ Hr) as Hb.
  pose proof (proj2 (repr_side_none s _ _ _ Hr) r l k Hl (fun x => x)) as Hent.
  unfold vAdj, entry_ok in Hent. rewrite Hv in Hent. unfold adjEdge, adjFind. rewrite (b_rw _ _ Hb).
  destruct (tl_find k.1 k.2 (adj_of s v)) as [w []]; simpl in *.
  - destruct Hent as (le & sd & -> & Hle & HE & Hp).
    destruct (lock_evis g t Hb k le Hle) as (e & -> & _ & Hrid & _). simpl. rewrite Hrid. naive_solver.
  - naive_solver.
Qed.

Lemma NoDup_omap_id {A} (f : A -> option A) (l : list A) :
  (forall k x, f k = Some x -> x = k) -> NoDup l -> NoDup (omap f l).
Proof.
  intros Hf. induction 1 as [|k l Hk Hnd IH]; simpl; [constructor|].
  destruct (f k) as [x|] eqn:Hx; [|done]. constructor; [|done].
  rewrite list_elem_of_omap. intros (k' & Hk' & Hx'). apply Hf in Hx, Hx'. by subst.
Qed.

(** The edges of the map with [r] at the side [s], in the class [c] (0: any). *)
Definition incident_in (s : Side) (E : gmap RecordId (RecordId * RecordId)) (r : RecordId) (c : ClassId)
    (k : RecordId) : Prop :=
  (exists sd, E !! k = Some sd /\ proj_of s sd = r) /\ (c = 0%Z \/ k.1 = c).

Lemma adjEdges_spec s g t E r l v c :
  repr g t E -> vvis g t r l -> vheap g !! l = Some v ->
  NoDup (adjEdges g t (adj_of s v) c) /\
  forall k, k ∈ adjEdges g t (adj_of s v) c <-> incident_in s E r c k.
Proof.
  intros Hr Hl Hv. pose proof (fun k x => adjEdge_spec s g t E r l v k x Hr Hl Hv) as Hspec.
  assert (forall k sd, E !! k = Some sd -> proj_of s sd = r -> k ∈ adjKeys (adj_of s v)) as Hkeys.
  { intros k sd HE Hp. assert (adjEdge g t (adj_of s v) k = Some k) as Hk by (apply Hspec; eauto).
    unfold adjEdge, adjFind in Hk. rewrite (b_rw _ _ (r_base _ _ _ _ _ Hr)) in Hk.
    destruct (tl_find k.1 k.2 (adj_of s v)) as [w []] eqn:Hf; [by eapply live_adjKeys|done]. }
  unfold adjEdges, incident_in. destruct (Z.eqb_spec c 0) as [->|Hc].
  - split.
    + apply NoDup_omap_id; [|apply NoDup_adjKeys]. intros k x Hx. by apply Hspec in Hx as [-> _].
    + intros k. rewrite list_elem_of_omap. split.
      * intros (k' & _ & Hx). apply Hspec in Hx as [-> Hx]. auto.
      * intros [(sd & HE & Hp) _]. exists k. split; [by eapply Hkeys|]. apply Hspec. eauto.
  - split.
    + apply NoDup_omap_id; [intros k x Hx; by apply Hspec in Hx as [-> _]|apply NoDup_keys1].
    + intros k. rewrite list_elem_of_omap. split.
      * intros (k' & Hin & Hx). apply list_elem_of_fmap in Hin as (p & -> & _).
        apply Hspec in Hx as [-> Hx]. auto.
      * intros [(sd & HE & Hp) [?|<-]]; [done|]. exists k. split; [|apply Hspec; eauto].
        apply list_elem_of_fmap. exists k.2. destruct k; simpl. split; [done|].
        apply keys1_adjKeys. by eapply Hkeys.
Qed.

Lemma adjacency_spec g t E r c :
  repr g t E ->
  ((forall l, ~ vvis g t r l) ->
     getEdgeIn g t r c = Throw NOGDB_GRAPH_NOEXST_VERTEX /\
     getEdgeOut g t r c = Throw NOGDB_GRAPH_NOEXST_VERTEX) /\
  (forall l, vvis g t r l -> exists ins outs,
     getEdgeIn g t r c = Ok ins /\ getEdgeOut g t r c = Ok outs /\ NoDup ins /\ NoDup outs /\
     (forall k, k ∈ ins <-> incident_in DST E r c k) /\ (forall k, k ∈ outs <-> incident_in SRC E r c k)).
Proof.
  intros Hr. pose proof (r_base _ _ _ _ _ Hr) as Hb. unfold getEdgeIn, getEdgeOut, withVertex. split.
  - intros Hn. destruct (lookupVertex g t r) as [[l v]|] eqn:Hl; [|done].
    apply lookupVertex_spec in Hl as [Hl _]; [by destruct (Hn l)|done].
  - intros l Hl. destruct (lock_vvis g t Hb r l Hl) as (v & _ & Hv & _).
    rewrite (proj2 (lookupVertex_spec g t Hb r l v)) by done.
    destruct (adjEdges_spec DST g t E r l v c Hr Hl Hv) as [Hnd1 Hin1].
    destruct (adjEdges_spec SRC g t E r l v c Hr Hl Hv) as [Hnd2 Hin2].
    eexists _, _. split_and!; done.
Qed.

(** C27. The adjacent edges the writer reads are, without repetition, exactly the
    edges of the map at that end; an unknown vertex is reported. *)
Theorem adjacency_refines g t E r c :
  repr g t E ->
  ((forall l, ~ vvis g t r l) ->
     getEdgeIn g t r c = Throw NOGDB_GRAPH_NOEXST_VERTEX /\
     getEdgeOut g t r c = Throw NOGDB_GRAPH_NOEXST_VERTEX) /\
  (forall l, vvis g t r l -> exists ins outs,
     getEdgeIn g t r c = Ok ins /\ getEdgeOut g t r c = Ok outs /\ NoDup ins /\ NoDup outs /\
     (forall k, k ∈ ins <-> incident_in DST E r c k) /\ (forall k, k ∈ outs <-> incident_in SRC E r c k)).
Proof. apply adjacency_spec. Qed.

(** ** Both directions: sorted, without repetition *)
#[export] Instance rid_le_trans : Transitive rid_le.
Proof.
  intros [a1 a2] [b1 b2] [c1 c2]. unfold rid_le; simpl. repeat case_decide; simplify_eq; lia.
Qed.
#[export] Instance rid_le_total : Total rid_le.
Proof. intros [a1 a2] [b1 b2]. unfold rid_le; simpl. repeat case_decide; simplify_eq; lia. Qed.
#[export] Instance rid_le_antisymm : AntiSymm (=) rid_le.
Proof.
  intros [a1 a2] [b1 b2]. unfold rid_le; simpl. repeat case_decide; simplify_eq; intros; f_equal; lia.
Qed.

Section unique.
  Context {A : Type} `{EqDecision A}.

Lemma elem_of_unique (x : A) (l : list A) : x ∈ unique l <-> x ∈ l.
Proof.
  induction l as [|y l IH]; [done|]. destruct l as [|z l]; [done|].
  cbn [unique]. case_decide; [subst|]; rewrite !elem_of_cons, IH, ?elem_of_cons; tauto.
Qed.

Lemma unique_strict (R : A -> A -> Prop) (l : list A) :
  AntiSymm (=) R -> StronglySorted R l -> StronglySorted (fun a b => R a b /\ a <> b) (unique l).
Proof.
  intros Hanti. induction 1 as [|y l Hs IH Hy]; [constructor|].
  destruct l as [|z l]; [by repeat constructor|]. cbn [unique]. case_decide as Hyz; [done|].
  constructor; [done|]. apply Forall_forall. intros x Hx. rewrite (elem_of_unique x (z :: l)) in Hx.
  rewrite Forall_forall in Hy. split; [by apply Hy|]. intros <-. apply Hyz.
  apply StronglySorted_cons in Hs as [Hz _]. rewrite Forall_forall in Hz.
  apply elem_of_cons in Hx as [?|Hx]; [done|]. apply (anti_symm R); [apply Hy; left|by apply Hz].
Qed.
End unique.

Definition rid_lt (a b : RecordId) : Prop := rid_le a b /\ a <> b.

Lemma edgeInOut_spec g t E r c l :
  repr g t E -> vvis g t r l ->
  exists res, getEdgeInOut g t r c = Ok res /\ StronglySorted rid_lt res /\
    forall k, k ∈ res <-> incident_in SRC E r c k \/ incident_in DST E r c k.
Proof.
  intros Hr Hl. pose proof (r_base _ _ _ _ _ Hr) as Hb.
  destruct (lock_vvis g t Hb r l Hl) as (v & _ & Hv & _). unfold getEdgeInOut, withVertex.
  rewrite (proj2 (lookupVertex_spec g t Hb r l v)) by done.
  destruct (adjEdges_spec DST g t E r l v c Hr Hl Hv) as [_ Hin1].
  destruct (adjEdges_spec SRC g t E r l v c Hr Hl Hv) as [_ Hin2].
  eexists. split_and!; [done| |].
  - apply unique_strict; [apply _|]. apply (StronglySorted_merge_sort rid_le).
  - intros k. rewrite elem_of_unique, (merge_sort_Permutation rid_le), elem_of_app.
    rewrite (Hin1 k), (Hin2 k). tauto.
Qed.

(** The edges at either end, in strictly increasing order of record ids: a
    loop is reported once. *)
Theorem getEdgeInOut_refines g t E r c l :
  repr g t E -> vvis g t r l ->
  exists res, getEdgeInOut g t r c = Ok res /\ StronglySorted rid_lt res /\
    forall k, k ∈ res <-> incident_in SRC E r c k \/ incident_in DST E r c k.
Proof. apply edgeInOut_spec. Qed.

(** ** A loop on a new vertex *)
Lemma owns_false m l : (forall r, m !! r <> Some l) -> owns m l = false.
Proof. intros Hn. destruct (owns m l) eqn:Ho; [|done]. apply owns_spec in Ho as [r Hr]. by destruct (Hn r). Qed.

(** Creating a loop at a vertex the graph does not have yet makes two vertex
    objects for it, of which the transaction keeps only the first: the target
    pointer of the new edge dangles at once, and reading it fails. *)
Theorem createEdge_loop_dangles g t E k r :
  repr g t E -> allE g t !! k = None -> allV g t !! r = None -> heldVertices g ⊆ dom (vheap g) ->
  exists g' t', createEdge g t k r r = Ok (g', t') /\
    getVertexSrc g' t' k = Ok r /\ getVertexDst g' t' k = Throw NOGDB_GRAPH_UNKNOWN_ERR.
Proof.
  intros Hr Hk Hv Hheld. pose proof (r_base _ _ _ _ _ Hr) as Hb.
  destruct (writer_flags g t Hb) as [Hro Hrw].
  unfold allE in Hk. apply lookup_union_None in Hk as [Hk1 Hk2].
  pose proof Hv as Hv'. unfold allV in Hv'. apply lookup_union_None in Hv' as [Hv1 Hv2].
  set (l1 := fresh (dom (vheap g))). set (g1 := setVheap <[l1 := newVertex r]> g).
  set (l2 := fresh (dom (vheap g1))). set (g2 := setVheap <[l2 := newVertex r]> g1).
  set (le := fresh (dom (eheap g))).
  set (g3 := setEheap <[le := newEdge k (Some l1) (Some l2)]> g2).
  set (t1 := addUncommittedEdge k le (addUncommittedVertex r l2 (addUncommittedVertex r l1 t))).
  set (g4 := updVertex (setOut (tl_insert k.1 k.2 (Some le))) l1 g3).
  set (g5 := updVertex (setIn (tl_insert k.1 k.2 (Some le))) l2 g4).
  assert (l2 ∉ dom (vheap g1)) as Hl2 by apply is_fresh.
  assert (l1 <> l2 /\ vheap g !! l2 = None) as [Hne Hg2].
  { apply not_elem_of_dom in Hl2. unfold g1 in Hl2; simpl in Hl2. by apply lookup_insert_None in Hl2 as [? ?]. }
  exists g5, t1. split.
  { unfold createEdge. unfold lookupEdge, findUncommittedEdge. rewrite Hk1, Hk2, Hro.
    unfold lookupVertex, findUncommittedVertex. by rewrite Hv1, Hv2, Hro. }
  assert (lookupEdge g5 t1 k = Some (le, newEdge k (Some l1) (Some l2))) as Hlook.
  { unfold lookupEdge, findUncommittedEdge. change (edges g5) with (edges g).
    rewrite Hk1. change (isReadOnly t1) with (isReadOnly t). rewrite Hro.
    unfold t1; simpl. rewrite lookup_emplace, Hk2, decide_True by done. simpl.
    by rewrite lookup_insert_eq. }
  assert (ucVertices t1 = <[r := l1]> (ucVertices t)) as Huc.
  { unfold t1; simpl. unfold emplace. by rewrite Hv2, lookup_insert_eq. }
  unfold getVertexSrc, getVertexDst. rewrite Hlook. unfold endpoint, getCurrentVersion.
  change (txnType t1) with (txnType t). rewrite (b_rw _ _ Hb). cbn [newEdge e_source e_target].
  rewrite !(getLatest_add). cbn [fst snd].
  assert (exists v1, vheap g5 !! l1 = Some v1 /\ v_rid v1 = r) as (v1 & Hv1' & Hrid).
  { unfold g5. rewrite lookup_updVertex, decide_False by done. unfold g4.
    rewrite lookup_updVertex, decide_True by done. unfold g3, g2, g1; simpl.
    rewrite lookup_insert_ne, lookup_insert_eq by done. by eexists. }
  unfold lockVertex. cbn [mbind option_bind]. rewrite Hv1'. cbn [mbind option_bind]. unfold ownedV.
  rewrite Huc. split.
  - replace (owns (<[r:=l1]> (ucVertices t)) l1) with true; [by rewrite orb_true_r, <- Hrid|].
    symmetry. apply owns_spec. exists r. apply lookup_insert_eq.
  - assert (forall r', allV g t !! r' <> Some l2) as Hno.
    { intros r' Hr'. destruct (b_vheap _ _ Hb _ _ Hr') as (v & Hv0 & _). congruence. }
    change (vertices g5) with (vertices g). change (heldVertices g5) with (heldVertices g).
    rewrite (owns_false (vertices g) l2), (owns_false (<[r:=l1]> _) l2), bool_decide_false.
    + by destruct (vheap g5 !! l2).
    + intros Hin. apply Hheld, elem_of_dom in Hin as [? ?]. congruence.
    + intros r'. rewrite lookup_insert. case_decide; [by intros [= ?]|]. intros Hx.
      apply (Hno r'). unfold allV. apply lookup_all_r; [|done]. intros l' Hl'. by eapply b_vagree.
    + intros r' Hx. apply (Hno r'). by apply lookup_all_l.
Qed.
