(* ===== verification/GraphSteps.v ===== *)
(** * The operations of a writer as sequences of elementary steps

    Every operation of the relation graph under a read-write transaction
    changes the graph and the uncommitted sets of the transaction by a
    sequence of the steps [txn_step].  What a step keeps, every operation
    keeps: [owned_ok], that the graph owns committed objects only. *)

From stdpp Require Import base gmap sets list sorting fin_sets relations.
From Stdlib Require Import ZArith Lia.
From S2P Require Import Prelude Types VersionControl MultiVersionMap TxnObject TxnData Graph GraphSpec.

(** ** Elementary steps of a writer *)
Inductive txn_step : Graph * BaseTxn -> Graph * BaseTxn -> Prop :=
| st_new_vertex g t r l : vheap g !! l = None ->
    txn_step (g, t) (setVheap <[l := newVertex r]> g, addUncommittedVertex r l t)
| st_new_edge g t k src dst l : eheap g !! l = None ->
    txn_step (g, t) (setEheap <[l := newEdge k src dst]> g, addUncommittedEdge k l t)
| st_insert g t s (k : RecordId) x l : txn_step (g, t) (updVertex (upd_of s (tl_insert k.1 k.2 x)) l g, t)
| st_erase g t s (k : RecordId) l : txn_step (g, t) (updVertex (upd_of s (tl_erase k.1 k.2)) l g, t)
| st_end g t s x k le e : allE g t !! k = Some le -> eheap g !! le = Some e -> e_rid e = k ->
    txn_step (g, t) (updEdge (setEnd_of s (addLatestVersion x)) le g, addUncommittedEdge k le t)
| st_drop_edge g t k le e : allE g t !! k = Some le -> eheap g !! le = Some e ->
    st_status (e_state e) = UNCOMMITTED_CREATE -> txn_step (g, t) (g, deleteUncommittedEdge k t)
| st_mark_edge g t k le e : allE g t !! k = Some le -> eheap g !! le = Some e -> e_rid e = k ->
    st_status (e_state e) = COMMITTED_CREATE ->
    txn_step (g, t) (updEdge (setEState (setStatus UNCOMMITTED_DELETE)) le g, addUncommittedEdge k le t)
| st_drop_vertex g t r l v : allV g t !! r = Some l -> vheap g !! l = Some v ->
    st_status (v_state v) = UNCOMMITTED_CREATE -> txn_step (g, t) (g, deleteUncommittedVertex r t)
| st_mark_vertex g t r l v : allV g t !! r = Some l -> vheap g !! l = Some v -> v_rid v = r ->
    st_status (v_state v) = COMMITTED_CREATE ->
    txn_step (g, t) (updVertex (setVState (setStatus UNCOMMITTED_DELETE)) l g, addUncommittedVertex r l t).

Abbreviation txn_steps := (rtc txn_step).

(** A soft step changes no state of an object: it marks nothing as deleted. *)
Definition soft_step (a b : Graph * BaseTxn) : Prop :=
  txn_step a b /\
  (forall l v, vheap a.1 !! l = Some v -> v_state <$> vheap b.1 !! l = Some (v_state v)) /\
  (forall l e, eheap a.1 !! l = Some e -> e_state <$> eheap b.1 !! l = Some (e_state e)).
Abbreviation soft_steps := (rtc soft_step).

Lemma soft_txn a b : soft_steps a b -> txn_steps a b.
Proof. apply rtc_subrel. by intros ? ? []. Qed.

Lemma soft_new_vertex g t r l : vheap g !! l = None ->
  soft_step (g, t) (setVheap <[l := newVertex r]> g, addUncommittedVertex r l t).
Proof.
  intros Hl. split; [by constructor|]. split; cbn; [|by intros l' e ->].
  intros l' v Hv. by rewrite lookup_insert_ne, Hv by congruence.
Qed.

Lemma soft_new_edge g t k src dst l : eheap g !! l = None ->
  soft_step (g, t) (setEheap <[l := newEdge k src dst]> g, addUncommittedEdge k l t).
Proof.
  intros Hl. split; [by constructor|]. split; cbn [fst setEheap vheap eheap]; [by intros l' v ->|].
  intros l' e He. by rewrite lookup_insert_ne, He by congruence.
Qed.

Lemma soft_adjacency g t s f l :
  txn_step (g, t) (updVertex (upd_of s f) l g, t) -> soft_step (g, t) (updVertex (upd_of s f) l g, t).
Proof.
  intros Hst. split; [done|]. split; cbn [fst]; [|by intros l' e He; cbn; rewrite He]. intros l' v Hv.
  rewrite lookup_updVertex, Hv. case_decide; [|done]. cbn. by destruct s.
Qed.

Lemma soft_end g t s (k : RecordId) x le e :
  allE g t !! k = Some le -> eheap g !! le = Some e -> e_rid e = k ->
  soft_step (g, t) (updEdge (setEnd_of s (addLatestVersion x)) le g, addUncommittedEdge k le t).
Proof.
  intros Hk He Hr. split; [by econstructor|]. split; cbn [fst]; [by intros l' v Hv; cbn; rewrite Hv|]. intros l' e' He'.
  rewrite (lookup_updEdge g le e) by done. case_decide; [|by rewrite He']. simplify_eq. cbn. by destruct s.
Qed.

(** A property of states that every step keeps. *)
Lemma steps_inv (P : Graph * BaseTxn -> Prop) :
  (forall a b, txn_step a b -> P a -> P b) -> forall a b, txn_steps a b -> P a -> P b.
Proof. intros HP a b. induction 1; eauto. Qed.

(** ** The operations of a writer *)
Inductive growth_op (g : Graph) (t : BaseTxn) : Graph -> BaseTxn -> Prop :=
| wo_createVertex rid b g' t' : createVertex g t rid = (b, g', t') -> growth_op g t g' t'
| wo_createEdge k s d g' t' : createEdge g t k s d = Ok (g', t') -> growth_op g t g' t'
| wo_alterVertexSrc k r g' t' : alterVertexSrc g t k r = Ok (g', t') -> growth_op g t g' t'
| wo_alterVertexDst k r g' t' : alterVertexDst g t k r = Ok (g', t') -> growth_op g t g' t'.

Inductive deletion_op (g : Graph) (t : BaseTxn) : Graph -> BaseTxn -> Prop :=
| wo_deleteEdge k g' t' : deleteEdge g t k = (g', t') -> deletion_op g t g' t'
| wo_deleteVertex rid g' t' : deleteVertex g t rid = (g', t') -> deletion_op g t g' t'.

Lemma alloc_soft g t r :
  soft_steps (g, t) (setVheap <[fresh (dom (vheap g)) := newVertex r]> g,
                    addUncommittedVertex r (fresh (dom (vheap g))) t).
Proof. apply rtc_once, soft_new_vertex, not_elem_of_dom, is_fresh. Qed.

Lemma ensure_soft found r g t l g' t' : ensureVertex found r g t = (l, g', t') -> soft_steps (g, t) (g', t').
Proof.
  unfold ensureVertex, allocVertex. destruct found as [[]|]; intros; simplify_eq; [done|].
  apply alloc_soft.
Qed.

Lemma ensure_edges found r g t l g' t' :
  ensureVertex found r g t = (l, g', t') -> eheap g' = eheap g /\ allE g' t' = allE g t.
Proof. unfold ensureVertex, allocVertex. destruct found as [[]|]; intros; by simplify_eq. Qed.

Lemma eraseAt_steps s t k found g : txn_steps (g, t) (eraseAt (upd_of s) t k found g, t).
Proof.
  unfold eraseAt. destruct found.2; [|done]. destruct (lockVertex g t found.1) as [[]|]; [|done].
  apply rtc_once. constructor.
Qed.

Lemma eraseAt_same s t k found g :
  eheap (eraseAt (upd_of s) t k found g) = eheap g /\ edges (eraseAt (upd_of s) t k found g) = edges g.
Proof. unfold eraseAt. destruct found.2; [|done]. by destruct (lockVertex g t found.1) as [[]|]. Qed.

Lemma visible_committed st :
  checkReadWrite st = false -> st_status st <> UNCOMMITTED_CREATE -> st_status st = COMMITTED_CREATE.
Proof. unfold checkReadWrite. by destruct (st_status st). Qed.

Lemma mark_steps le e g t k :
  evis g t k le -> eheap g !! le = Some e -> e_rid e = k -> txn_steps (g, t) (markEdgeDeleted le e g t).
Proof.
  intros [Hk (e' & He' & Hs)] He Hrid. simplify_eq. unfold markEdgeDeleted. simpl.
  case_bool_decide; apply rtc_once; [by econstructor|]. econstructor; try done. by apply visible_committed.
Qed.

Lemma createEdge_soft g t k s d p : createEdge g t k s d = Ok p -> soft_steps (g, t) p.
Proof.
  unfold createEdge. destruct (lookupEdge g t k); [done|].
  destruct (ensureVertex _ s g t) as [[ls g1] t1] eqn:H1.
  destruct (ensureVertex _ d g1 t1) as [[lt g2] t2] eqn:H2. cbn [allocEdge]. intros [= <-].
  etransitivity; [by eapply ensure_soft|]. etransitivity; [by eapply ensure_soft|].
  eapply rtc_l; [apply soft_new_edge, not_elem_of_dom, is_fresh|].
  eapply rtc_l; [apply (soft_adjacency _ _ SRC), (st_insert _ _ SRC)|].
  apply rtc_once, (soft_adjacency _ _ DST), (st_insert _ _ DST).
Qed.

Lemma createEdge_steps g t k s d p : createEdge g t k s d = Ok p -> txn_steps (g, t) p.
Proof. intros H. by eapply soft_txn, createEdge_soft. Qed.

Lemma alterEnd_soft s g t k r p :
  base_ok g t -> alterEnd (end_of s) (setEnd_of s) (upd_of s) g t k r = Ok p -> soft_steps (g, t) p.
Proof.
  intros Hb. unfold alterEnd. destruct (lookupEdge g t k) as [[le e]|] eqn:Hl; [|done].
  apply lookupEdge_spec in Hl as [[Hk _] He]; [|done]. destruct (b_eheap _ _ Hb _ _ Hk) as (e' & He' & Hrid).
  simplify_eq. destruct (getLatestVersion (end_of s e)).2; [|done].
  destruct (lockVertex g t _) as [[lo v]|]; [|done].
  destruct (ensureVertex _ r g t) as [[ln g1] t1] eqn:H1. intros [= <-].
  destruct (ensure_edges _ _ _ _ _ _ _ H1) as [Hh Ha].
  etransitivity; [by eapply ensure_soft|].
  assert (eheap g1 !! le = Some e) as He1 by (by rewrite Hh).
  assert (allE g1 t1 !! e_rid e = Some le) as Ha1 by (by rewrite Ha).
  eapply rtc_l; [apply soft_adjacency, st_erase|]. eapply rtc_l; [by eapply soft_end|].
  apply rtc_once, soft_adjacency, st_insert.
Qed.

Lemma alterEnd_steps s g t k r p :
  base_ok g t -> alterEnd (end_of s) (setEnd_of s) (upd_of s) g t k r = Ok p -> txn_steps (g, t) p.
Proof. intros Hb H. by eapply soft_txn, alterEnd_soft. Qed.

Lemma deleteEdge_steps g t k : base_ok g t -> txn_steps (g, t) (deleteEdge g t k).
Proof.
  intros Hb. unfold deleteEdge. destruct (lookupEdge g t k) as [[le e]|] eqn:Hl; [|done].
  apply lookupEdge_spec in Hl as [Hk He]; [|done].
  destruct (b_eheap _ _ Hb _ _ (proj1 Hk)) as (e' & He' & Hrid). simplify_eq.
  set (g1 := eraseAt setOut t (e_rid e) _ g). set (g2 := eraseAt setIn t (e_rid e) _ g1).
  destruct (eraseAt_same SRC t (e_rid e) (getLatestVersion (e_source e)) g) as [A1 A2].
  destruct (eraseAt_same DST t (e_rid e) (getLatestVersion (e_target e)) g1) as [B1 B2].
  etransitivity; [apply (eraseAt_steps SRC t (e_rid e) (getLatestVersion (e_source e)))|].
  etransitivity; [apply (eraseAt_steps DST t (e_rid e) (getLatestVersion (e_target e)))|].
  change (eheap g1 = eheap g) in A1. change (edges g1 = edges g) in A2.
  change (eheap g2 = eheap g1) in B1. change (edges g2 = edges g1) in B2.
  assert (eheap g2 = eheap g) as Hh by congruence.
  eapply (mark_steps le e g2 t (e_rid e)); [|by rewrite Hh|done].
  unfold evis, allE in *. by rewrite Hh, B2, A2.
Qed.

Lemma incident_step_steps s Xs Xo rid lv g t E k :
  repr_sided s Xs Xo g t E -> vvis g t rid lv -> ~ Xs rid k ->
  txn_steps (g, t) (deleteIncident (adj_of s) (end_of (opposite s)) (upd_of (opposite s)) lv (g, t) k).
Proof.
  intros Hr Hv HnX. pose proof (sided_base _ _ _ _ _ _ Hr) as Hb.
  destruct (sided_side _ _ _ _ _ _ Hr) as [Hs Ho].
  pose proof (proj2 Hs rid lv k Hv HnX) as Hent. pose proof Hv as [_ (v & Hhv & _)].
  unfold deleteIncident. rewrite Hhv. unfold vAdj in Hent. rewrite Hhv in Hent. unfold entry_ok in Hent.
  destruct (tl_find k.1 k.2 (adj_of s v)) as [w []]; simpl in *; [|done].
  destruct Hent as (le & sd & -> & Hle & HE & Hp).
  destruct (lock_evis g t Hb k le Hle) as (e & -> & He & Hrid & _).
  destruct (end_found (opposite s) Xo g t E k sd le e) as (lo & vo & -> & Hvo & _); [done..|].
  rewrite (eraseAt_vvis (opposite s) g t _ _ lo Hb Hvo).
  etransitivity; [apply rtc_once, (st_erase _ _ (opposite s) (e_rid e) lo)|]. by eapply (mark_steps le e _ t k).
Qed.

Lemma incident_loop_steps s Xo rid lv ks : forall Xs g t E,
  repr_sided s Xs Xo g t E -> vvis g t rid lv -> NoDup ks -> (forall k, k ∈ ks -> ~ Xs rid k) ->
  txn_steps (g, t) (fold_left (deleteIncident (adj_of s) (end_of (opposite s)) (upd_of (opposite s)) lv) ks (g, t)).
Proof.
  induction ks as [|k ks IH]; intros Xs g t E Hr Hv Hnd HX; [done|]. cbn [fold_left].
  apply NoDup_cons in Hnd as [Hk Hnd].
  pose proof (incident_step_steps s Xs Xo rid lv g t E k Hr Hv ltac:(set_solver)) as Hstep.
  destruct (incident_step s Xo rid lv Xs g t E k) as (Hr1 & Hv1 & _); [done..|set_solver|].
  destruct (deleteIncident _ _ _ lv (g, t) k) as [g1 t1]. cbn [fst snd] in *.
  etransitivity; [done|]. eapply (IH _ g1 t1); [done..|].
  intros k' Hk' [Hx|[_ ->]]; [|done]. apply (HX k'); [set_solver|done].
Qed.

Lemma deleteVertex_steps g t E rid : repr g t E -> txn_steps (g, t) (deleteVertex g t rid).
Proof.
  intros Hr. pose proof (r_base _ _ _ _ _ Hr) as Hb. unfold deleteVertex.
  destruct (lookupVertex g t rid) as [[lv v]|] eqn:Hl; [|done].
  apply lookupVertex_spec in Hl as [Hv Hhv]; [|done].
  destruct (b_vheap _ _ Hb _ _ (proj1 Hv)) as (v' & Hv' & Hrid). simplify_eq.
  destruct (incident_loop DST none (v_rid v) lv (adjKeys (v_in v)) none g t E) as (Hr1 & Hv1 & Hs1);
    [done|done|apply NoDup_adjKeys|by intros ? _ []|].
  pose proof (incident_loop_steps DST none (v_rid v) lv (adjKeys (v_in v)) none g t E Hr Hv
    (NoDup_adjKeys _) (fun _ _ x => x)) as Hst1.
  cbn [repr_sided adj_of end_of upd_of opposite] in Hr1, Hv1, Hs1, Hst1.
  destruct (fold_left _ (adjKeys (v_in v)) (g, t)) as [g1 t1]. cbn [fst snd] in *.
  pose proof Hv1 as [_ (v1 & Hhv1 & _)]. rewrite Hhv1.
  set (XD := fun r k => _) in Hr1.
  destruct (incident_loop SRC XD (v_rid v) lv (adjKeys (v_out v1)) none g1 t1 _ Hr1 Hv1)
    as (Hr2 & Hv2 & Hs2); [apply NoDup_adjKeys|by intros ? _ []|].
  pose proof (incident_loop_steps SRC XD (v_rid v) lv (adjKeys (v_out v1)) none g1 t1 _ Hr1 Hv1
    (NoDup_adjKeys _) (fun _ _ x => x)) as Hst2.
  cbn [repr_sided adj_of end_of upd_of opposite] in Hr2, Hv2, Hs2, Hst2.
  destruct (fold_left _ (adjKeys (v_out v1)) (g1, t1)) as [g2 t2]. cbn [fst snd] in *.
  etransitivity; [exact Hst1|]. etransitivity; [exact Hst2|].
  pose proof Hv2 as [Hall2 (v2 & Hhv2 & Hvis2)]. rewrite Hhv1, Hhv in Hs1. rewrite Hhv1, Hhv2 in Hs2.
  simpl in Hs1, Hs2. injection Hs1 as Hs1. injection Hs2 as Hs2.
  pose proof (sided_base SRC _ _ _ _ _ Hr2) as Hb2. destruct (b_vheap _ _ Hb2 _ _ Hall2) as (v2' & Hv2' & Hrid2).
  simplify_eq. unfold markVertexDeleted. simpl. case_bool_decide as Hc; apply rtc_once.
  - eapply st_drop_vertex; [done..|congruence].
  - eapply st_mark_vertex; [done..|]. apply visible_committed; congruence.
Qed.

(** Every operation is a sequence of steps. *)
Lemma growth_op_steps g t g' t' : base_ok g t -> growth_op g t g' t' -> soft_steps (g, t) (g', t').
Proof.
  intros Hb Hop. destruct Hop as [? b ? ? Hc|? ? ? ? ? Hc|? ? ? ? Hc|? ? ? ? Hc].
  - unfold createVertex, allocVertex in Hc. destruct (lookupVertex g t rid); simplify_eq; [done|]. apply alloc_soft.
  - by eapply createEdge_soft.
  - by eapply (alterEnd_soft SRC).
  - by eapply (alterEnd_soft DST).
Qed.

Lemma deletion_op_steps g t E g' t' : repr g t E -> deletion_op g t g' t' -> txn_steps (g, t) (g', t').
Proof.
  intros Hr Hop. destruct Hop as [k ? ? Hc|? ? ? Hc]; rewrite <- Hc.
  - by eapply deleteEdge_steps, r_base.
  - by eapply deleteVertex_steps.
Qed.

(** ** The graph owns committed objects *)
Record owned_ok (g : Graph) : Prop := {
  o_edges : forall k le, edges g !! k = Some le ->
    exists e, eheap g !! le = Some e /\ e_rid e = k /\ st_status (e_state e) <> UNCOMMITTED_CREATE;
  o_vertices : forall r l, vertices g !! r = Some l ->
    exists v, vheap g !! l = Some v /\ v_rid v = r /\ st_status (v_state v) <> UNCOMMITTED_CREATE;
}.

Lemma base_owned g t : base_ok g t -> owned_ok g.
Proof.
  intros Hb. split.
  - intros k le Hk. destruct (b_eheap _ _ Hb k le) as (e & He & Hr); [by apply lookup_all_l|].
    exists e. split_and!; [done..|by eapply b_ecommitted].
  - intros r l Hr. destruct (b_vheap _ _ Hb r l) as (v & Hv & Hr'); [by apply lookup_all_l|].
    exists v. split_and!; [done..|by eapply b_vcommitted].
Qed.

(** Changing objects without making them new keeps that. *)
Lemma owned_ext g g' :
  edges g' = edges g -> vertices g' = vertices g ->
  (forall l e, eheap g !! l = Some e -> exists e', eheap g' !! l = Some e' /\ e_rid e' = e_rid e /\
     (st_status (e_state e) <> UNCOMMITTED_CREATE -> st_status (e_state e') <> UNCOMMITTED_CREATE)) ->
  (forall l v, vheap g !! l = Some v -> exists v', vheap g' !! l = Some v' /\ v_rid v' = v_rid v /\
     (st_status (v_state v) <> UNCOMMITTED_CREATE -> st_status (v_state v') <> UNCOMMITTED_CREATE)) ->
  owned_ok g -> owned_ok g'.
Proof.
  intros Hed Hvs HE HV [He Hv]. split.
  - intros k le. rewrite Hed. intros (e & Hle & Hr & Hs)%He. destruct (HE _ _ Hle) as (e' & H1 & H2 & H3).
    exists e'. split_and!; [done|congruence|auto].
  - intros r l. rewrite Hvs. intros (v & Hl & Hr & Hs)%Hv. destruct (HV _ _ Hl) as (v' & H1 & H2 & H3).
    exists v'. split_and!; [done|congruence|auto].
Qed.

Lemma step_owned a b : txn_step a b -> owned_ok a.1 -> owned_ok b.1.
Proof.
  destruct 1 as [g t r l Hl|g t k src dst l Hl|g t s k x l|g t s k l|g t s x k le e Hk He Hr|g t k le e Hk He Hs
    |g t k le e Hk He Hr Hs|g t r l v Hr Hv Hs|g t r l v Hr Hv Hrid Hs]; try done; simpl;
    apply owned_ext; try done; try (intros l' y Hy; by exists y).
  - intros l' v Hv. exists v. simpl. rewrite lookup_insert_ne by congruence. done.
  - intros l' e He. exists e. simpl. rewrite lookup_insert_ne by congruence. done.
  - intros l' v Hv. rewrite lookup_updVertex, Hv. case_decide; [|by exists v]. simpl. eexists.
    split; [done|]. by destruct s.
  - intros l' v Hv. rewrite lookup_updVertex, Hv. case_decide; [|by exists v]. simpl. eexists.
    split; [done|]. by destruct s.
  - intros l' e' He'. rewrite (lookup_updEdge g le e) by done. case_decide; [|by exists e'].
    simplify_eq. eexists. split; [done|]. by destruct s.
  - intros l' e' He'. rewrite (lookup_updEdge g le e) by done. case_decide; [|by exists e'].
    simplify_eq. by eexists.
  - intros l' v' Hv'. rewrite lookup_updVertex, Hv'. case_decide; [|by exists v']. simplify_eq. by eexists.
Qed.
