(* ===== verification/GraphSnapshot.v ===== *)
(** * Readers are isolated from the running writer

    Every operation of the relation graph under a read-write transaction is a
    sequence of the elementary mutations [txn_step] of
    [GraphSteps]; a read-only
    transaction reads the same graph before and after each of them. *)

From stdpp Require Import base gmap sets list sorting fin_sets relations.
From Stdlib Require Import ZArith Lia.
From S2P Require Import Prelude Types VersionControl MultiVersionMap TxnObject TxnData Graph GraphSpec GraphSteps.

(** ** What a snapshot of version [v] can observe of an object *)
Definition vertex_view (v : TxnId) (a b : Vertex) : Prop :=
  v_rid a = v_rid b /\ checkReadOnly v (v_state a) = checkReadOnly v (v_state b) /\
  forall s k, tl_findAt v k.1 k.2 (adj_of s a) = tl_findAt v k.1 k.2 (adj_of s b) /\
    (k ∈ adjKeys (adj_of s a) -> k ∈ adjKeys (adj_of s b)).

Definition edge_view (v : TxnId) (a b : Edge) : Prop :=
  e_rid a = e_rid b /\ checkReadOnly v (e_state a) = checkReadOnly v (e_state b) /\
  forall s, getStableVersionAt v (end_of s a) = getStableVersionAt v (end_of s b).

Record graph_view (v : TxnId) (g g' : Graph) : Prop := {
  gv_vertices : vertices g' = vertices g;
  gv_edges : edges g' = edges g;
  gv_heldV : heldVertices g' = heldVertices g;
  gv_heldE : heldEdges g' = heldEdges g;
  gv_vheap : forall l a, vheap g !! l = Some a -> exists b, vheap g' !! l = Some b /\ vertex_view v a b;
  gv_eheap : forall l a, eheap g !! l = Some a -> exists b, eheap g' !! l = Some b /\ edge_view v a b;
}.

(** Every committed object is at most as new as the snapshot. *)
Definition snapshot_ok (v : TxnId) (g : Graph) : Prop :=
  map_Forall (fun _ a => st_status (v_state a) = COMMITTED_CREATE -> (st_versionId (v_state a) <= v)%Z) (vheap g) /\
  map_Forall (fun _ a => st_status (e_state a) = COMMITTED_CREATE -> (st_versionId (e_state a) <= v)%Z) (eheap g).

#[export] Instance vertex_view_preorder v : PreOrder (vertex_view v).
Proof.
  split; [by intros a|]. intros a b c (H1 & H2 & H3) (H1' & H2' & H3'). split_and!; [congruence..|].
  intros s k. destruct (H3 s k), (H3' s k). split; [congruence|auto].
Qed.

#[export] Instance edge_view_preorder v : PreOrder (edge_view v).
Proof.
  split; [by intros a|]. intros a b c (H1 & H2 & H3) (H1' & H2' & H3'). split_and!; congruence.
Qed.

#[export] Instance graph_view_preorder v : PreOrder (graph_view v).
Proof.
  split.
  - intros g. split; try done; intros l a Ha; exists a; split; try done; reflexivity.
  - intros g1 g2 g3 [A1 A2 A3 A4 A5 A6] [B1 B2 B3 B4 B5 B6]. split; try congruence.
    + intros l a Ha. destruct (A5 l a Ha) as (b & Hb & Hab). destruct (B5 l b Hb) as (c & Hc & Hbc).
      exists c. split; [done|]. by transitivity b.
    + intros l a Ha. destruct (A6 l a Ha) as (b & Hb & Hab). destruct (B6 l b Hb) as (c & Hc & Hbc).
      exists c. split; [done|]. by transitivity b.
Qed.

Lemma graph_view_updVertex v g f l :
  (forall a, vheap g !! l = Some a -> vertex_view v a (f a)) -> graph_view v g (updVertex f l g).
Proof.
  intros Hf. split; try done.
  - intros l' a Ha. rewrite lookup_updVertex, Ha. case_decide; [subst|].
    + exists (f a). split; [done|]. by apply Hf.
    + exists a. split; [done|reflexivity].
  - intros l' a Ha. exists a. split; [done|reflexivity].
Qed.

Lemma graph_view_updEdge v g f l :
  (forall a, eheap g !! l = Some a -> edge_view v a (f a)) -> graph_view v g (updEdge f l g).
Proof.
  intros Hf. split; try done.
  - intros l' a Ha. exists a. split; [done|reflexivity].
  - intros l' a Ha. unfold updEdge, setEheap; simpl. rewrite lookup_alter. case_decide; [subst|].
    + exists (f a). rewrite Ha. split; [done|]. by apply Hf.
    + exists a. split; [done|reflexivity].
Qed.

Lemma view_insert v s k x a : vertex_view v a (upd_of s (tl_insert k.1 k.2 x) a).
Proof.
  destruct (upd_fields s (tl_insert k.1 k.2 x) a) as (H1 & H2 & _). split_and!; [by rewrite H1|by rewrite H2|].
  intros s' j. rewrite adj_upd. case_decide; [subst|done]. rewrite tl_findAt_insert. split; [done|].
  rewrite !elem_of_adjKeys, !tl_get_flat, flat_insert. unfold mv_get. rewrite lookup_mv_insert.
  by case_decide.
Qed.

Lemma view_erase v s k a : vertex_view v a (upd_of s (tl_erase k.1 k.2) a).
Proof.
  destruct (upd_fields s (tl_erase k.1 k.2) a) as (H1 & H2 & _). split_and!; [by rewrite H1|by rewrite H2|].
  intros s' j. rewrite adj_upd. case_decide; [subst|done]. rewrite tl_findAt_erase. split; [done|].
  rewrite !elem_of_adjKeys, !tl_get_flat, flat_erase. unfold mv_get. rewrite lookup_mv_erase.
  case_decide as Hk; [|done]. rewrite Hk. intros [y Hy]. rewrite Hy. by eexists.
Qed.

Lemma view_end v s x a : edge_view v a (setEnd_of s (addLatestVersion x) a).
Proof. destruct s; split_and!; try done; by intros []. Qed.

(** ** One step *)
Lemma step_view v a b :
  txn_step a b -> snapshot_ok v a.1 -> graph_view v a.1 b.1 /\ snapshot_ok v b.1.
Proof.
  destruct 1 as [g t r l Hl|g t k src dst l Hl|g t s k x l|g t s k l|g t s x k le e Hk He Hr|g t k le e Hk He Hs
    |g t k le e Hk He Hr Hst|g t r l a Hr Ha Hs|g t r l a Hr Ha Hrid Hst]; intros [Hsv Hse]; cbn [fst]; try done.
  - split.
    + split; try done.
      * intros l' a Ha. exists a. simpl. rewrite lookup_insert_ne by congruence. split; [done|reflexivity].
      * intros l' a Ha. exists a. split; [done|reflexivity].
    + split; [|done]. by apply map_Forall_insert_2.
  - split.
    + split; try done.
      * intros l' a Ha. exists a. split; [done|reflexivity].
      * intros l' a Ha. exists a. simpl. rewrite lookup_insert_ne by congruence. split; [done|reflexivity].
    + split; [done|]. by apply map_Forall_insert_2.
  - split; [apply graph_view_updVertex; intros; apply view_insert|]. split; [|done].
    intros l' b Hb. destruct (upd_heap _ _ _ _ _ _ Hb) as (a & Ha & _ & <-). by apply (Hsv l').
  - split; [apply graph_view_updVertex; intros; apply view_erase|]. split; [|done].
    intros l' b Hb. destruct (upd_heap _ _ _ _ _ _ Hb) as (a & Ha & _ & <-). by apply (Hsv l').
  - split; [apply graph_view_updEdge; intros; apply view_end|]. split; [done|].
    intros l' b. rewrite (lookup_updEdge g le e) by done. case_decide; [|apply Hse].
    intros [= <-]. specialize (Hse le e He). by destruct s.
  - split.
    + apply graph_view_updEdge. intros e' He'. assert (e' = e) as -> by congruence. split_and!; [done| |by intros []].
      pose proof (Hse le e He Hst) as Hver. unfold checkReadOnly. rewrite Hst. simpl. lia.
    + split; [done|]. intros l' b. rewrite (lookup_updEdge g le e) by done. case_decide; [|apply Hse].
      by intros [= <-].
  - split.
    + apply graph_view_updVertex. intros b Hb. assert (b = a) as -> by congruence. split_and!; [done| |by intros []].
      pose proof (Hsv l a Ha Hst) as Hver. unfold checkReadOnly. rewrite Hst. simpl. lia.
    + split; [|done]. intros l' b. rewrite lookup_updVertex. case_decide; [subst|apply Hsv].
      rewrite Ha. by intros [= <-].
Qed.

Lemma steps_view v a b :
  txn_steps a b -> snapshot_ok v a.1 -> graph_view v a.1 b.1 /\ snapshot_ok v b.1.
Proof.
  induction 1 as [a|a b c Hstep _ IH]; intros Hok; [by split|].
  destruct (step_view v a b Hstep Hok) as [Hv1 Hok1]. destruct (IH Hok1) as [Hv2 Hok2].
  split; [by transitivity b.1|done].
Qed.

(** A soft step changes the view of no snapshot. *)
Lemma soft_view v a b : soft_step a b -> graph_view v a.1 b.1.
Proof.
  intros [Hst [HV HE]].
  destruct Hst as [g t r l Hl|g t k src dst l Hl|g t s k x l|g t s k l|g t s k x le e Hk He Hr|g t k le e Hk He Hs
    |g t k le e Hk He Hr Hst|g t r l a Hr Ha Hs|g t r l a Hr Ha Hrid Hst]; cbn [fst] in *; try done.
  - split; try done.
    + intros l' a Ha. exists a. simpl. rewrite lookup_insert_ne by congruence. split; [done|reflexivity].
    + intros l' a Ha. exists a. split; [done|reflexivity].
  - split; try done.
    + intros l' a Ha. exists a. split; [done|reflexivity].
    + intros l' a Ha. exists a. simpl. rewrite lookup_insert_ne by congruence. split; [done|reflexivity].
  - apply graph_view_updVertex; intros; apply view_insert.
  - apply graph_view_updVertex; intros; apply view_erase.
  - apply graph_view_updEdge; intros; apply view_end.
  - specialize (HE le e He). rewrite (lookup_updEdge g le e), decide_True in HE by done.
    injection HE as HE. rewrite <- HE in Hst. discriminate Hst.
  - specialize (HV l a Ha). rewrite lookup_updVertex, decide_True, Ha in HV by done.
    injection HV as HV. rewrite <- HV in Hst. discriminate Hst.
Qed.

Lemma soft_steps_view v a b : soft_steps a b -> graph_view v a.1 b.1.
Proof. induction 1 as [a|a b c Hstep _ IH]; [done|]. etransitivity; [by apply soft_view|done]. Qed.

(** ** What a reader computes depends only on its view *)
Section reader.
  Context (g g' : Graph) (r : BaseTxn).
  Context (Hro : txnType r = READ_ONLY) (Hview : graph_view (txnVersionId r) g g').
  (** Owners point to objects of the heap. *)
  Context (HV : forall l, ownedV g r l = true -> is_Some (vheap g !! l)).
  Context (HE : forall l, ownedE g r l = true -> is_Some (eheap g !! l)).

Lemma ownedV_view l : ownedV g' r l = ownedV g r l.
Proof. unfold ownedV. by rewrite (gv_vertices _ _ _ Hview), (gv_heldV _ _ _ Hview). Qed.

Lemma ownedE_view l : ownedE g' r l = ownedE g r l.
Proof. unfold ownedE. by rewrite (gv_edges _ _ _ Hview), (gv_heldE _ _ _ Hview). Qed.

Lemma lockVertex_view w :
  (fun x => v_rid x.2) <$> lockVertex g' r w = (fun x => v_rid x.2) <$> lockVertex g r w.
Proof.
  unfold lockVertex. destruct w as [l|]; simpl; [|done]. rewrite ownedV_view.
  destruct (ownedV g r l) eqn:Ho.
  - destruct (HV l Ho) as [a Ha]. destruct (gv_vheap _ _ _ Hview l a Ha) as (b & Hb & Hab & _).
    rewrite Ha, Hb. simpl. by rewrite Hab.
  - by destruct (vheap g !! l), (vheap g' !! l).
Qed.

Lemma lockEdge_view w :
  (fun x => e_rid x.2) <$> lockEdge g' r w = (fun x => e_rid x.2) <$> lockEdge g r w.
Proof.
  unfold lockEdge. destruct w as [l|]; simpl; [|done]. rewrite ownedE_view.
  destruct (ownedE g r l) eqn:Ho.
  - destruct (HE l Ho) as [a Ha]. destruct (gv_eheap _ _ _ Hview l a Ha) as (b & Hb & Hab & _).
    rewrite Ha, Hb. simpl. by rewrite Hab.
  - by destruct (eheap g !! l), (eheap g' !! l).
Qed.

Lemma reader_flags : isReadOnly r = true /\ isReadWrite r = false.
Proof. unfold isReadOnly, isReadWrite. by rewrite Hro. Qed.

(** The lookups succeed together, on objects with the same view. *)
Lemma lookupVertex_view rid :
  (lookupVertex g r rid = None /\ lookupVertex g' r rid = None) \/
  exists l a b, lookupVertex g r rid = Some (l, a) /\ lookupVertex g' r rid = Some (l, b) /\
    vertex_view (txnVersionId r) a b.
Proof.
  destruct reader_flags as [H1 H2]. unfold lookupVertex, hidden. rewrite (gv_vertices _ _ _ Hview), H1, H2.
  destruct (vertices g !! rid) as [l|] eqn:Hl; [|by left].
  destruct (HV l) as [a Ha].
  { unfold ownedV. assert (owns (vertices g) l = true) as -> by (apply owns_spec; eauto). done. }
  destruct (gv_vheap _ _ _ Hview l a Ha) as (b & Hb & Hab). pose proof Hab as (_ & Hst & _).
  rewrite Ha, Hb. simpl. rewrite <- Hst. destruct (checkReadOnly _ (v_state a)); simpl; [by left|].
  right. by exists l, a, b.
Qed.

Lemma lookupEdge_view rid :
  (lookupEdge g r rid = None /\ lookupEdge g' r rid = None) \/
  exists l a b, lookupEdge g r rid = Some (l, a) /\ lookupEdge g' r rid = Some (l, b) /\
    edge_view (txnVersionId r) a b.
Proof.
  destruct reader_flags as [H1 H2]. unfold lookupEdge, hidden. rewrite (gv_edges _ _ _ Hview), H1, H2.
  destruct (edges g !! rid) as [l|] eqn:Hl; [|by left].
  destruct (HE l) as [a Ha].
  { unfold ownedE. assert (owns (edges g) l = true) as -> by (apply owns_spec; eauto). done. }
  destruct (gv_eheap _ _ _ Hview l a Ha) as (b & Hb & Hab). pose proof Hab as (_ & Hst & _).
  rewrite Ha, Hb. simpl. rewrite <- Hst. destruct (checkReadOnly _ (e_state a)); simpl; [by left|].
  right. by exists l, a, b.
Qed.

Lemma endpoint_view s a b :
  edge_view (txnVersionId r) a b -> endpoint g' r (end_of s b) = endpoint g r (end_of s a).
Proof.
  intros (_ & _ & Hs). unfold endpoint, getCurrentVersion. rewrite Hro, <- Hs.
  destruct (getStableVersionAt _ (end_of s a)) as [w []]; simpl; [|done].
  pose proof (lockVertex_view w) as Hl.
  destruct (lockVertex g r w) as [[]|], (lockVertex g' r w) as [[]|]; by simplify_eq/=; f_equal.
Qed.

Lemma adjEdge_view s a b k :
  vertex_view (txnVersionId r) a b -> adjEdge g' r (adj_of s b) k = adjEdge g r (adj_of s a) k.
Proof.
  intros (_ & _ & Hs). unfold adjEdge, adjFind. rewrite Hro, <- (proj1 (Hs s k)).
  destruct (tl_findAt _ _ _ (adj_of s a)) as [w []]; simpl; [|done]. apply lockEdge_view.
Qed.
End reader.

(** Extra keys that answer nothing do not change the edges found. *)
Lemma omap_more_keys {A B} (f : A -> option B) (l1 l2 : list A) :
  NoDup l1 -> NoDup l2 -> l1 ⊆ l2 -> (forall x, x ∈ l2 -> x ∉ l1 -> f x = None) ->
  Permutation (omap f l2) (omap f l1).
Proof.
  intros Hnd1 Hnd2 Hsub Hnone.
  assert (l1 ⊆+ l2) as Hs by (by apply NoDup_submseteq).
  apply submseteq_Permutation in Hs as [l3 Hl3].
  assert (forall x, x ∈ l3 -> x ∉ l1 -> f x = None) as Hnone3.
  { intros x Hx. apply Hnone. rewrite Hl3. set_solver. }
  rewrite Hl3 in Hnd2 |- *. clear Hnone Hl3 Hsub.
  rewrite omap_app. assert (omap f l3 = []) as ->; [|by rewrite app_nil_r].
  apply NoDup_app in Hnd2 as (_ & Hdisj & _).
  induction l3 as [|x l3 IH]; [done|]. simpl. rewrite Hnone3; [|set_solver|set_solver].
  apply IH; set_solver.
Qed.


Lemma absent_findAt v (m : Adj) k : k ∉ adjKeys m -> tl_findAt v k.1 k.2 m = (None, false).
Proof.
  rewrite elem_of_adjKeys. unfold tl_get, tl_findAt, mv_get, mv_findAt. intros Hn.
  destruct (m !! k.1) as [inner|]; [|done]. destruct (inner !! k.2); [|done].
  destruct Hn. by eexists.
Qed.

(** ** Isolation of a reader *)
Section isolation.
  Context (g g' : Graph) (r : BaseTxn).
  Context (Hro : txnType r = READ_ONLY) (Hview : graph_view (txnVersionId r) g g').
  Context (HV : forall l, ownedV g r l = true -> is_Some (vheap g !! l)).
  Context (HE : forall l, ownedE g r l = true -> is_Some (eheap g !! l)).

Lemma adjEdges_view s a b c :
  vertex_view (txnVersionId r) a b ->
  Permutation (adjEdges g' r (adj_of s b) c) (adjEdges g r (adj_of s a) c).
Proof.
  intros Hab. pose proof Hab as (_ & _ & Hs).
  assert (forall l : list RecordId, omap (adjEdge g' r (adj_of s b)) l = omap (adjEdge g r (adj_of s a)) l) as Hext.
  { intros l. induction l as [|k l IH]; [done|]. simpl.
    rewrite (adjEdge_view g g' r Hro Hview HE s a b k Hab).
    destruct (adjEdge g r (adj_of s a) k); [f_equal|]; exact IH. }
  assert (forall k, k ∉ adjKeys (adj_of s a) -> adjEdge g r (adj_of s a) k = None) as Hnone.
  { intros k Hk. unfold adjEdge, adjFind. rewrite Hro. by rewrite absent_findAt. }
  unfold adjEdges. case_match; rewrite Hext.
  - apply omap_more_keys; [apply NoDup_adjKeys..| |by auto]. intros k. apply Hs.
  - apply omap_more_keys; [apply NoDup_keys1..| |].
    + intros k Hk. apply list_elem_of_fmap in Hk as (p & -> & Hp). apply list_elem_of_fmap.
      exists p. split; [done|]. apply keys1_adjKeys. apply Hs. by apply keys1_adjKeys.
    + intros k Hk Hnk. apply list_elem_of_fmap in Hk as (p & -> & Hp). apply Hnone.
      rewrite <- keys1_adjKeys. intros Hin. apply Hnk, list_elem_of_fmap. by exists p.
Qed.

Lemma isolation_edges rid :
  getVertexSrc g' r rid = getVertexSrc g r rid /\ getVertexDst g' r rid = getVertexDst g r rid /\
  getVertexSrcDst g' r rid = getVertexSrcDst g r rid.
Proof.
  unfold getVertexSrc, getVertexDst, getVertexSrcDst.
  destruct (lookupEdge_view g g' r Hro Hview HE rid) as [[-> ->]|(l & a & b & -> & -> & Hab)]; [done|].
  pose proof (endpoint_view g g' r Hro Hview HV SRC a b Hab) as Hs.
  pose proof (endpoint_view g g' r Hro Hview HV DST a b Hab) as Hd.
  cbn [end_of] in Hs, Hd. by rewrite Hs, Hd.
Qed.

Definition outcome_perm {A} (x y : Outcome (list A)) : Prop :=
  match x, y with
  | Ok l, Ok l' => Permutation l l'
  | Throw e, Throw e' => e = e'
  | _, _ => False
  end.

Lemma isolation_adjacency rid c :
  outcome_perm (getEdgeIn g' r rid c) (getEdgeIn g r rid c) /\
  outcome_perm (getEdgeOut g' r rid c) (getEdgeOut g r rid c).
Proof.
  unfold getEdgeIn, getEdgeOut, withVertex.
  destruct (lookupVertex_view g g' r Hro Hview HV rid) as [[-> ->]|(l & a & b & -> & -> & Hab)]; [done|].
  split; [by apply (adjEdges_view DST)|by apply (adjEdges_view SRC)].
Qed.
End isolation.

(** Reader [r] is given the same answers by the two graphs. *)
Definition same_answers (g g' : Graph) (r : BaseTxn) : Prop :=
  forall rid c,
    getVertexSrc g' r rid = getVertexSrc g r rid /\
    getVertexDst g' r rid = getVertexDst g r rid /\
    getVertexSrcDst g' r rid = getVertexSrcDst g r rid /\
    outcome_perm (getEdgeIn g' r rid c) (getEdgeIn g r rid c) /\
    outcome_perm (getEdgeOut g' r rid c) (getEdgeOut g r rid c).

Lemma view_answers g g' r :
  txnType r = READ_ONLY -> graph_view (txnVersionId r) g g' ->
  (forall l, ownedV g r l = true -> is_Some (vheap g !! l)) ->
  (forall l, ownedE g r l = true -> is_Some (eheap g !! l)) -> same_answers g g' r.
Proof.
  intros Hro Hview HV HE rid c.
  destruct (isolation_edges g g' r Hro Hview HV HE rid) as (H1 & H2 & H3).
  by destruct (isolation_adjacency g g' r Hro Hview HV HE rid c).
Qed.

Lemma eraseAt_edge s t k found g l : eheap (eraseAt (upd_of s) t k found g) !! l = eheap g !! l.
Proof. by destruct (eraseAt_same s t k found g) as [-> _]. Qed.

(** An edge that was created after the snapshot, when a writer deletes it. *)
Lemma deletion_reveals_edge g t k le e r :
  txnType t = READ_WRITE -> lookupEdge g t k = Some (le, e) -> edges g !! k = Some le ->
  st_status (e_state e) = COMMITTED_CREATE -> (txnVersionId r < st_versionId (e_state e))%Z ->
  txnType r = READ_ONLY ->
  lookupEdge g r k = None /\ is_Some (lookupEdge (deleteEdge g t k).1 r k).
Proof.
  intros Ht Hl Hk Hst Hver Hr. pose proof Hl as Hl'. unfold lookupEdge in Hl'. rewrite Hk in Hl'.
  destruct (eheap g !! le) as [e0|] eqn:He; [|done]. cbn in Hl'. destruct (hidden t (e_state e0)); simplify_eq.
  destruct (reader_flags r Hr) as [H1 H2]. split.
  - unfold lookupEdge, hidden. rewrite Hk, He, H1. cbn. unfold checkReadOnly. rewrite Hst.
    by replace (txnVersionId r <? st_versionId (e_state e))%Z with true by lia.
  - unfold deleteEdge. rewrite Hl. set (g2 := eraseAt setIn _ _ _ _).
    assert (edges g2 = edges g /\ eheap g2 = eheap g) as [Hed Heh].
    { destruct (eraseAt_same SRC t k (getLatestVersion (e_source e)) g) as [A1 A2].
      destruct (eraseAt_same DST t k (getLatestVersion (e_target e))
        (eraseAt setOut t k (getLatestVersion (e_source e)) g)) as [B1 B2]. by rewrite <- A1, <- A2. }
    unfold markEdgeDeleted, getState. rewrite Hst. cbn [snd]. rewrite bool_decide_eq_false_2 by done. cbn [fst].
    unfold lookupEdge, hidden. rewrite H1, H2. change (edges (updEdge _ _ g2)) with (edges g2). rewrite Hed, Hk.
    rewrite (lookup_updEdge g2 le e), decide_True by (done || by rewrite Heh). by eexists.
Qed.

(** C5. What a reader is told does not change when a writer creates vertices or
    edges or moves the end of an edge.  Neither does it when the writer deletes,
    unless an object is newer than the snapshot: the deletion overwrites the
    version that hid the object, so an edge made after the snapshot appears in
    it when it is deleted. *)
Theorem reader_isolation g t E g' t' r :
  repr g t E -> txnType r = READ_ONLY ->
  (forall l, ownedV g r l = true -> is_Some (vheap g !! l)) ->
  (forall l, ownedE g r l = true -> is_Some (eheap g !! l)) ->
  (growth_op g t g' t' -> same_answers g g' r) /\
  (deletion_op g t g' t' -> snapshot_ok (txnVersionId r) g -> same_answers g g' r) /\
  (forall k le e, lookupEdge g t k = Some (le, e) -> edges g !! k = Some le ->
     st_status (e_state e) = COMMITTED_CREATE -> (txnVersionId r < st_versionId (e_state e))%Z ->
     lookupEdge g r k = None /\ is_Some (lookupEdge (deleteEdge g t k).1 r k)).
Proof.
  intros Hr Hro HV HE. split_and!.
  - intros Hop. apply view_answers; [done| |done..].
    exact (soft_steps_view _ _ _ (growth_op_steps _ _ _ _ (r_base _ _ _ _ _ Hr) Hop)).
  - intros Hop Hok. apply view_answers; [done| |done..].
    exact (proj1 (steps_view _ _ _ (deletion_op_steps _ _ _ _ _ Hr Hop) Hok)).
  - intros k le e Hl Hk Hst Hver. eapply deletion_reveals_edge; try done. by eapply b_rw, r_base.
Qed.
