(* ===== verification/Schema.v ===== *)
(** * The in-memory schema

    Model of [Schema] (src/src/schema.hpp, schema.cpp): class descriptors as
    shared objects on a heap, the committed classes by id, and the operations
    a transaction applies to them.  Inheritance is held by weak pointers. *)

From stdpp Require Import base gmap sets list strings sorting.
From Stdlib Require Import ZArith Lia.
From S2P Require Import Prelude Types VersionControl TxnObject TxnData RecordModel.

(** [Schema::PropertyDescriptor]; its index information is a multimap ordered
    by class id. *)
Record SPropertyDescriptor := mkSPropertyDescriptor {
  spd_id : PropertyId;
  spd_type : PropertyType;
  spd_indexInfo : SIndexInfo;
}.

Abbreviation SClassProperty := (gmap string SPropertyDescriptor).

(** [PropertyDescriptor::transform] *)
Definition transformProperty (d : SPropertyDescriptor) : PropertyDescriptor :=
  mkPropertyDescriptor (spd_id d) (spd_type d)
    (fold_left (fun m x => emplace (K := Z) x.2.1 (x.1, x.2.2) m) (spd_indexInfo d) ∅).

Record ClassDescriptor := mkClassDescriptor {
  cd_id : ClassId;
  cd_type : ClassType;
  cd_state : State;
  cd_name : VersionControl string;
  cd_properties : VersionControl SClassProperty;
  cd_super : VersionControl WeakPtr;
  cd_sub : VersionControl (list WeakPtr);
}.

Definition newClassDescriptor (id : ClassId) (name : string) (type : ClassType) : ClassDescriptor :=
  mkClassDescriptor id type initState (addLatestVersion name emptyVersionControl)
    emptyVersionControl emptyVersionControl emptyVersionControl.

Record Schema := mkSchema {
  sheap : gmap Loc ClassDescriptor;
  schemaInfo : gmap ClassId Loc;
  deletedClassId : list (ClassId * TxnId);
  heldClasses : gset Loc;
}.

Definition updClass (f : ClassDescriptor -> ClassDescriptor) (l : Loc) (s : Schema) : Schema :=
  mkSchema (alter f l (sheap s)) (schemaInfo s) (deletedClassId s) (heldClasses s).

Definition setName (f : VersionControl string -> VersionControl string) (c : ClassDescriptor) :=
  mkClassDescriptor (cd_id c) (cd_type c) (cd_state c) (f (cd_name c)) (cd_properties c) (cd_super c) (cd_sub c).
Definition setProperties (f : VersionControl SClassProperty -> VersionControl SClassProperty) (c : ClassDescriptor) :=
  mkClassDescriptor (cd_id c) (cd_type c) (cd_state c) (cd_name c) (f (cd_properties c)) (cd_super c) (cd_sub c).
Definition setSuper (f : VersionControl WeakPtr -> VersionControl WeakPtr) (c : ClassDescriptor) :=
  mkClassDescriptor (cd_id c) (cd_type c) (cd_state c) (cd_name c) (cd_properties c) (f (cd_super c)) (cd_sub c).
Definition setSub (f : VersionControl (list WeakPtr) -> VersionControl (list WeakPtr)) (c : ClassDescriptor) :=
  mkClassDescriptor (cd_id c) (cd_type c) (cd_state c) (cd_name c) (cd_properties c) (cd_super c) (f (cd_sub c)).
Definition setCState (f : State -> State) (c : ClassDescriptor) :=
  mkClassDescriptor (cd_id c) (cd_type c) (f (cd_state c)) (cd_name c) (cd_properties c) (cd_super c) (cd_sub c).

(** Locking a weak pointer to a class. *)
Definition ownedC (s : Schema) (t : BaseTxn) (l : Loc) : bool :=
  bool_decide (map_Exists (fun _ x => x = l) (schemaInfo s)) ||
  bool_decide (map_Exists (fun _ x => x = l) (ucSchema t)) || bool_decide (l ∈ heldClasses s).

Definition lockClass (s : Schema) (t : BaseTxn) (w : WeakPtr) : option (Loc * ClassDescriptor) :=
  l ← w; c ← sheap s !! l; if ownedC s t l then Some (l, c) else None.

Definition classHidden (t : BaseTxn) (c : ClassDescriptor) : bool :=
  (isReadOnly t && checkReadOnly (txnVersionId t) (cd_state c)) || (isReadWrite t && checkReadWrite (cd_state c)).

(** ** Lookup *)

(** [find(txn, classId)] *)
Definition findClass (s : Schema) (t : BaseTxn) (id : ClassId) : option (Loc * ClassDescriptor) :=
  match schemaInfo s !! id with
  | None =>
      if isReadOnly t then None
      else
        l ← findUncommittedSchema t id; c ← sheap s !! l;
        if checkReadWrite (cd_state c) then None else Some (l, c)
  | Some l => c ← sheap s !! l; if classHidden t c then None else Some (l, c)
  end.

(** The classes of a [std::map] in the order of their ids. *)
Definition classesOf (s : Schema) (m : gmap ClassId Loc) : list (Loc * ClassDescriptor) :=
  omap (fun id => l ← m !! id; c ← sheap s !! l; Some (l, c)) (z_sort (map_to_list m).*1).

(** [find(txn, className)]: the first class with that name decides, also when
    it is hidden. *)
Definition findClassByName (s : Schema) (t : BaseTxn) (name : string) : option (Loc * ClassDescriptor) :=
  let inUncommitted :=
    if isReadWrite t then
      List.find (fun x => bool_decide ((getUnstableVersion (cd_name x.2)).1 = name)) (classesOf s (ucSchema t))
    else None in
  match inUncommitted with
  | Some x => if checkReadWrite (cd_state x.2) then None else Some x
  | None =>
      match List.find (fun x => bool_decide ((getCurrentVersion t (cd_name x.2)).1 = name))
              (classesOf s (schemaInfo s)) with
      | Some x => if classHidden t x.2 then None else Some x
      | None => None
      end
  end.

Definition getNameToDescMapping (s : Schema) (t : BaseTxn) : gmap string Loc :=
  let fromUncommitted :=
    if isReadWrite t then
      fold_left (fun m x =>
        if bool_decide ((getState (cd_state x.2)).2 = UNCOMMITTED_CREATE)
        then emplace (getUnstableVersion (cd_name x.2)).1 x.1 m else m) (classesOf s (ucSchema t)) ∅
    else ∅ in
  fold_left (fun m x =>
    if classHidden t x.2 then m
    else let name := (getCurrentVersion t (cd_name x.2)).1 in
         if bool_decide (name = EmptyString) then m else emplace name x.1 m)
    (classesOf s (schemaInfo s)) fromUncommitted.

(** ** Changes *)
Definition insertClass (l : Loc) (id : ClassId) (t : BaseTxn) : BaseTxn := addUncommittedSchema id l t.

Definition replaceName (s : Schema) (t : BaseTxn) (l : Loc) (c : ClassDescriptor) (newName : string) :
    Schema * BaseTxn :=
  (updClass (setName (addLatestVersion newName)) l s, addUncommittedSchema (cd_id c) l t).

Definition eraseClass (s : Schema) (t : BaseTxn) (id : ClassId) : Schema * BaseTxn :=
  match findClass s t id with
  | None => (s, t)
  | Some (l, c) =>
      if bool_decide ((getState (cd_state c)).2 = UNCOMMITTED_CREATE)
      then (s, deleteUncommittedSchema id t)
      else (updClass (setCState (setStatus UNCOMMITTED_DELETE)) l s, addUncommittedSchema (cd_id c) l t)
  end.

(** The common shape of the property operations: [f] computes the new
    properties from the latest ones. *)
Definition changeProperties (s : Schema) (t : BaseTxn) (id : ClassId)
    (f : SClassProperty * bool -> Outcome SClassProperty) : Outcome (Schema * BaseTxn) :=
  match findClass s t id with
  | None => Ok (s, t)
  | Some (l, c) =>
      let* props := f (getLatestVersion (cd_properties c)) in
      Ok (updClass (setProperties (addLatestVersion props)) l s, addUncommittedSchema (cd_id c) l t)
  end.

Definition addProperty (s : Schema) (t : BaseTxn) (id : ClassId) (name : string) (d : SPropertyDescriptor) :=
  changeProperties s t id (fun p => Ok (emplace name d p.1)).

Definition addProperties (s : Schema) (t : BaseTxn) (id : ClassId) (props : SClassProperty) :=
  changeProperties s t id (fun _ => Ok props).

Definition deleteProperty (s : Schema) (t : BaseTxn) (id : ClassId) (name : string) :=
  changeProperties s t id (fun p => require p.2 ;;; Ok (delete name p.1)).

Definition renameProperty (s : Schema) (t : BaseTxn) (id : ClassId) (oldName newName : string) :=
  changeProperties s t id (fun p =>
    require p.2 ;;;
    match p.1 !! oldName with
    | None => Throw NOGDB_CTX_INTERNAL_ERR
    | Some d => Ok (emplace newName d (delete oldName p.1))
    end).

Definition updateProperty (s : Schema) (t : BaseTxn) (id : ClassId) (name : string) (d : SPropertyDescriptor) :=
  changeProperties s t id (fun p => require p.2 ;;; Ok (emplace name d (delete name p.1))).

(** [apply]: record each inheritance (subclass, superclass). *)
Definition applyOne (st : Schema * BaseTxn) (info : ClassId * ClassId) : Outcome (Schema * BaseTxn) :=
  let '(s, t) := st in
  if (0 <? info.2)%Z then
    match findClass s t info.1 with
    | None => Throw NOGDB_CTX_INTERNAL_ERR
    | Some (lsub, csub) =>
        match findClass s t info.2 with
        | None => Throw NOGDB_CTX_INTERNAL_ERR
        | Some (lsup, csup) =>
            let s1 := updClass (setSuper (addLatestVersion (Some lsup))) lsub s in
            let t1 := addUncommittedSchema (cd_id csub) lsub t in
            let subClasses :=
              match sheap s1 !! lsup with
              | Some c => (getLatestVersion (cd_sub c)).1 ++ [Some lsub]
              | None => [Some lsub]
              end in
            Ok (updClass (setSub (addLatestVersion subClasses)) lsup s1,
                addUncommittedSchema (cd_id csup) lsup t1)
        end
    end
  else Ok (s, t).

Definition apply_ (s : Schema) (t : BaseTxn) (info : list (ClassId * ClassId)) : Outcome (Schema * BaseTxn) :=
  ofold applyOne info (s, t).

(** ** Garbage collection *)
Definition forceDelete (ids : list ClassId) (s : Schema) : Schema :=
  mkSchema (sheap s) (foldl (fun m id => delete id m) (schemaInfo s) ids) (deletedClassId s) (heldClasses s).

Definition clearDeletedClasses (versionId : TxnId) (s : Schema) : Schema :=
  let '(ids, q) := pop_front (deletedClassId s) versionId in
  forceDelete ids (mkSchema (sheap s) (schemaInfo s) q (heldClasses s)).

Definition clearSchema (s : Schema) : Schema := mkSchema (sheap s) ∅ (deletedClassId s) (heldClasses s).

(** ** The inheritance chain *)
Definition superOf (s : Schema) (t : BaseTxn) (c : ClassDescriptor) : option (Loc * ClassDescriptor) :=
  lockClass s t (getCurrentVersion t (cd_super c)).1.

Definition propertiesOf (t : BaseTxn) (c : ClassDescriptor) : SClassProperty :=
  (getCurrentVersion t (cd_properties c)).1.

(** The public class descriptor. *)
Record PClassDescriptor := mkPClassDescriptor {
  pcd_id : ClassId;
  pcd_name : string;
  pcd_type : ClassType;
  pcd_properties : gmap string PropertyDescriptor;
  pcd_super : string;
  pcd_sub : list string;
}.

(** [emplace] of every property of a map that is not there yet. *)
Definition addMissing (m new : gmap string PropertyDescriptor) : gmap string PropertyDescriptor := m ∪ new.

Definition publicProperties (t : BaseTxn) (c : ClassDescriptor) : gmap string PropertyDescriptor :=
  transformProperty <$> propertiesOf t c.

(** The loop of [transform] over the ancestors above the direct superclass. *)
Fixpoint inheritedProperties (fuel : nat) (s : Schema) (t : BaseTxn) (c : ClassDescriptor)
    (m : gmap string PropertyDescriptor) : Outcome (gmap string PropertyDescriptor) :=
  match fuel with
  | O => UB
  | S f =>
      match superOf s t c with
      | None => Ok m
      | Some (_, p) => inheritedProperties f s t p (addMissing m (publicProperties t p))
      end
  end.

Definition transform (s : Schema) (t : BaseTxn) (c : ClassDescriptor) : Outcome PClassDescriptor :=
  let* props := inheritedProperties (S (size (sheap s))) s t c (publicProperties t c) in
  let super := match superOf s t c with
               | Some (_, p) => (getCurrentVersion t (cd_name p)).1
               | None => EmptyString
               end in
  let sub := omap (fun w => match lockClass s t w with
                            | Some (_, p) => Some (getCurrentVersion t (cd_name p)).1
                            | None => None
                            end) (getCurrentVersion t (cd_sub c)).1 in
  Ok (mkPClassDescriptor (cd_id c) (getCurrentVersion t (cd_name c)).1 (cd_type c) props super sub).

(** ** Changing the properties of a class *)
Lemma lookup_updClass f l s l' :
  sheap (updClass f l s) !! l' = if decide (l = l') then f <$> sheap s !! l' else sheap s !! l'.
Proof. unfold updClass; simpl. rewrite lookup_alter. by case_decide; subst. Qed.

Lemma findClass_heap s t id l c : findClass s t id = Some (l, c) -> sheap s !! l = Some c.
Proof.
  unfold findClass. destruct (schemaInfo s !! id) as [l0|].
  - destruct (sheap s !! l0) eqn:E; simpl; [|done]. case_match; intros; by simplify_eq.
  - destruct (isReadOnly t); [done|]. destruct (findUncommittedSchema t id) as [l0|]; simpl; [|done].
    destruct (sheap s !! l0) eqn:E; simpl; [|done]. case_match; intros; by simplify_eq.
Qed.

(** Updating the found class, and recording it, keeps it the class found. *)
Lemma findClass_upd s t id l c f :
  isReadWrite t = true -> isReadOnly t = false -> cd_id c = id ->
  findClass s t id = Some (l, c) -> cd_state (f c) = cd_state c ->
  findClass (updClass f l s) (addUncommittedSchema id l t) id = Some (l, f c).
Proof.
  intros Hrw Hro Hid Hf Hst. pose proof (findClass_heap _ _ _ _ _ Hf) as Hh.
  unfold findClass in *. change (schemaInfo (updClass f l s)) with (schemaInfo s).
  change (isReadOnly (addUncommittedSchema id l t)) with (isReadOnly t).
  unfold classHidden in *. change (isReadOnly (addUncommittedSchema id l t)) with (isReadOnly t).
  change (isReadWrite (addUncommittedSchema id l t)) with (isReadWrite t).
  rewrite Hrw, Hro in *. destruct (schemaInfo s !! id) as [l0|].
  - assert (l0 = l) as -> by (destruct (sheap s !! l0); simpl in Hf; [case_match|]; by simplify_eq).
    rewrite Hh in Hf. rewrite lookup_updClass, decide_True, Hh by done. simpl in *.
    rewrite Hst. case_match; by simplify_eq.
  - unfold findUncommittedSchema, addUncommittedSchema in *; simpl. rewrite lookup_emplace.
    destruct (ucSchema t !! id) as [l0|]; simpl in *; [|done].
    assert (l0 = l) as -> by (destruct (sheap s !! l0); simpl in Hf; [case_match|]; by simplify_eq).
    rewrite Hh in Hf. change (alter f l (sheap s)) with (sheap (updClass f l s)).
    rewrite lookup_updClass, decide_True, Hh by done. simpl in *. rewrite Hst. case_match; by simplify_eq.
Qed.

Lemma changeProperties_spec s t id f l c props :
  isReadWrite t = true -> isReadOnly t = false -> cd_id c = id -> findClass s t id = Some (l, c) ->
  f (getLatestVersion (cd_properties c)) = Ok props ->
  exists s' t' c', changeProperties s t id f = Ok (s', t') /\ findClass s' t' id = Some (l, c') /\
    getLatestVersion (cd_properties c') = (props, true) /\
    (forall v, getStableVersionAt v (cd_properties c') = getStableVersionAt v (cd_properties c)) /\
    (forall l', l' <> l -> sheap s' !! l' = sheap s !! l') /\ schemaInfo s' = schemaInfo s.
Proof.
  intros Hrw Hro Hid Hf Hp. unfold changeProperties. rewrite Hf, Hp. cbn [obind].
  eexists _, _, (setProperties (addLatestVersion props) c). split_and!; try done.
  - rewrite Hid. by apply findClass_upd.
  - intros l' Hne. by rewrite lookup_updClass, decide_False.
Qed.

(** Adding, removing and renaming a property of a class change exactly that
    property in the writer's view, keep the descriptor of a renamed property,
    and change no snapshot. *)
Theorem property_changes s t id l c name name' d :
  isReadWrite t = true -> isReadOnly t = false -> cd_id c = id -> findClass s t id = Some (l, c) ->
  getLatestVersion (cd_properties c) = ((getLatestVersion (cd_properties c)).1, true) ->
  (getLatestVersion (cd_properties c)).1 !! name' = None -> name <> name' ->
  (getLatestVersion (cd_properties c)).1 !! name = Some d ->
  forall d',
  (exists s' t' c', addProperty s t id name' d' = Ok (s', t') /\ findClass s' t' id = Some (l, c') /\
     propertiesOf t c' = <[name' := d']> (propertiesOf t c) /\
     forall v, getStableVersionAt v (cd_properties c') = getStableVersionAt v (cd_properties c)) /\
  (exists s' t' c', deleteProperty s t id name = Ok (s', t') /\ findClass s' t' id = Some (l, c') /\
     propertiesOf t c' = delete name (propertiesOf t c) /\
     forall v, getStableVersionAt v (cd_properties c') = getStableVersionAt v (cd_properties c)) /\
  (exists s' t' c', renameProperty s t id name name' = Ok (s', t') /\ findClass s' t' id = Some (l, c') /\
     propertiesOf t c' = <[name' := d]> (delete name (propertiesOf t c)) /\
     forall v, getStableVersionAt v (cd_properties c') = getStableVersionAt v (cd_properties c)) /\
  (exists s' t' c', updateProperty s t id name d' = Ok (s', t') /\ findClass s' t' id = Some (l, c') /\
     propertiesOf t c' = <[name := d']> (propertiesOf t c) /\
     forall v, getStableVersionAt v (cd_properties c') = getStableVersionAt v (cd_properties c)).
Proof.
  intros Hrw Hro Hid Hf Hlat Hnew Hne Hold d'.
  assert (txnType t = READ_WRITE) as Ht by (by apply bool_decide_eq_true in Hrw).
  assert (forall c0 p b, getLatestVersion (cd_properties c0) = (p, b) -> propertiesOf t c0 = p) as Hprops.
  { intros c0 p b Hc0. unfold propertiesOf, getCurrentVersion. by rewrite Ht, Hc0. }
  rewrite (Hprops _ _ _ Hlat).
  set (P := (getLatestVersion (cd_properties c)).1) in *.
  assert (forall g Q, g (P, true) = Ok Q -> exists s' t' c', changeProperties s t id g = Ok (s', t') /\
    findClass s' t' id = Some (l, c') /\ propertiesOf t c' = Q /\
    forall v, getStableVersionAt v (cd_properties c') = getStableVersionAt v (cd_properties c)) as Hchange.
  { intros g Q Hg. rewrite <- Hlat in Hg.
    destruct (changeProperties_spec s t id g l c Q Hrw Hro Hid Hf Hg) as (s' & t' & c' & ? & ? & Hl & ? & _).
    exists s', t', c'. split_and!; eauto. }
  split_and!; apply Hchange; simpl.
  - unfold emplace. by rewrite Hnew.
  - done.
  - rewrite Hold. unfold emplace. rewrite lookup_delete_ne by done. by rewrite Hnew.
  - unfold emplace. rewrite lookup_delete_eq. by rewrite insert_delete_eq.
Qed.
