(* ===== verification/Validate.v ===== *)
(** * Checks of names, types, classes and properties

    Model of [Validate] (src/src/validate.cpp).  The recursive checks walk the
    inheritance relation held by weak pointers; they carry fuel, one unit per
    class object that exists, and the theorems show that this is enough
    whenever the relation is acyclic. *)

From stdpp Require Import base gmap sets list strings sorting relations.
From Stdlib Require Import ZArith Lia Ascii.
From S2P Require Import Prelude Types VersionControl TxnObject TxnData Schema.

Definition isTransactionValid (t : BaseTxn) : Outcome unit :=
  match txnType t with
  | READ_ONLY => Throw NOGDB_TXN_INVALID_MODE
  | READ_WRITE => if isCompleted t then Throw NOGDB_TXN_COMPLETED else Ok tt
  end.

(** ** Names: the regular expression [^[A-Za-z_@][A-Za-z0-9_]*$] *)
Definition in_range (lo hi c : ascii) : bool :=
  (nat_of_ascii lo <=? nat_of_ascii c) && (nat_of_ascii c <=? nat_of_ascii hi).

Definition isAlpha (c : ascii) : bool := in_range "A" "Z" c || in_range "a" "z" c.
Definition isNameHead (c : ascii) : bool :=
  isAlpha c || bool_decide (c = "_"%char) || bool_decide (c = "@"%char).
Definition isNameTail (c : ascii) : bool :=
  isAlpha c || in_range "0" "9" c || bool_decide (c = "_"%char).

Fixpoint string_forall (p : ascii -> bool) (s : string) : bool :=
  match s with
  | EmptyString => true
  | String c s' => p c && string_forall p s'
  end.

Definition isNameValid (name : string) : bool :=
  match name with
  | EmptyString => false
  | String c s => isNameHead c && string_forall isNameTail s
  end.

Definition isClassNameValid (name : string) : Outcome unit :=
  if isNameValid name then Ok tt else Throw NOGDB_CTX_INVALID_CLASSNAME.
Definition isPropertyNameValid (name : string) : Outcome unit :=
  if isNameValid name then Ok tt else Throw NOGDB_CTX_INVALID_PROPERTYNAME.

Definition isClassTypeValid (type : ClassType) : Outcome unit :=
  match type with
  | VERTEX | EDGE => Ok tt
  | CT_UNDEFINED => Throw NOGDB_CTX_INVALID_CLASSTYPE
  end.

Definition isPropertyTypeValid (type : PropertyType) : Outcome unit :=
  match type with
  | PT_UNDEFINED => Throw NOGDB_CTX_INVALID_PROPTYPE
  | _ => Ok tt
  end.

(** ** Classes *)
Definition isNotDuplicatedClass (s : Schema) (t : BaseTxn) (name : string) : Outcome unit :=
  match findClassByName s t name with
  | Some _ => Throw NOGDB_CTX_DUPLICATE_CLASS
  | None => Ok tt
  end.

Definition isExistingClassByName (s : Schema) (t : BaseTxn) (name : string) : Outcome (Loc * ClassDescriptor) :=
  match findClassByName s t name with
  | Some x => Ok x
  | None => Throw NOGDB_CTX_NOEXST_CLASS
  end.

Definition isExistingClass (s : Schema) (t : BaseTxn) (id : ClassId) : Outcome (Loc * ClassDescriptor) :=
  match findClass s t id with
  | Some x => Ok x
  | None => Throw NOGDB_CTX_NOEXST_CLASS
  end.

(** ** Properties *)
Definition isExistingProperty (t : BaseTxn) (c : ClassDescriptor) (name : string) : Outcome SPropertyDescriptor :=
  match propertiesOf t c !! name with
  | Some d => Ok d
  | None => Throw NOGDB_CTX_NOEXST_PROPERTY
  end.

Fixpoint existingPropertyExtend (fuel : nat) (s : Schema) (t : BaseTxn) (c : ClassDescriptor) (name : string) :
    Outcome (ClassId * SPropertyDescriptor) :=
  match fuel with
  | O => UB
  | S f =>
      match propertiesOf t c !! name with
      | Some d => Ok (cd_id c, d)
      | None =>
          match superOf s t c with
          | Some (_, p) => existingPropertyExtend f s t p name
          | None => Throw NOGDB_CTX_NOEXST_PROPERTY
          end
      end
  end.

Definition isExistingPropertyExtend (s : Schema) (t : BaseTxn) (c : ClassDescriptor) (name : string) :=
  existingPropertyExtend (S (size (sheap s))) s t c name.

Fixpoint notDuplicatedProperty (fuel : nat) (s : Schema) (t : BaseTxn) (c : ClassDescriptor) (name : string) :
    Outcome unit :=
  match fuel with
  | O => UB
  | S f =>
      match propertiesOf t c !! name with
      | Some _ => Throw NOGDB_CTX_DUPLICATE_PROPERTY
      | None =>
          match superOf s t c with
          | Some (_, p) => notDuplicatedProperty f s t p name
          | None => Ok tt
          end
      end
  end.

Definition isNotDuplicatedProperty (s : Schema) (t : BaseTxn) (c : ClassDescriptor) (name : string) :=
  notDuplicatedProperty (S (size (sheap s))) s t c name.

(** The subclasses of a class that can be locked. *)
Definition subsOf (s : Schema) (t : BaseTxn) (c : ClassDescriptor) : list ClassDescriptor :=
  omap (fun w => snd <$> lockClass s t w) (getCurrentVersion t (cd_sub c)).1.

Fixpoint notOverridenProperty (fuel : nat) (s : Schema) (t : BaseTxn) (name : string) (c : ClassDescriptor) :
    Outcome unit :=
  match fuel with
  | O => UB
  | S f =>
      match propertiesOf t c !! name with
      | Some _ => Throw NOGDB_CTX_OVERRIDE_PROPERTY
      | None => ofold (fun _ d => notOverridenProperty f s t name d) (subsOf s t c) tt
      end
  end.

Definition isNotOverridenProperty (s : Schema) (t : BaseTxn) (c : ClassDescriptor) (name : string) :=
  notOverridenProperty (S (size (sheap s))) s t name c.

(** ** The chain of ancestors *)
Section chain.
  Context (s : Schema) (t : BaseTxn).

Inductive chain : ClassDescriptor -> list (Loc * ClassDescriptor) -> Prop :=
| chain_top c : superOf s t c = None -> chain c []
| chain_up c l p ps : superOf s t c = Some (l, p) -> chain p ps -> chain c ((l, p) :: ps).

Lemma chain_det c ps1 ps2 : chain c ps1 -> chain c ps2 -> ps1 = ps2.
Proof.
  intros H1. revert ps2. induction H1 as [c Hc|c l p ps Hc H1 IH]; intros ps2 H2; inversion H2; simplify_eq; try done.
  f_equal. by apply IH.
Qed.

Lemma chain_suffix c ps1 x ps2 : chain c (ps1 ++ x :: ps2) -> chain x.2 ps2.
Proof.
  revert c. induction ps1 as [|y ps1 IH]; intros c H1; inversion H1; simplify_eq; [done|]. by eapply IH.
Qed.

Lemma chain_heap c ps : chain c ps -> Forall (fun x => sheap s !! x.1 = Some x.2) ps.
Proof.
  induction 1 as [c Hc|c l p ps Hc H1 IH]; constructor; [|done]. simpl. unfold superOf, lockClass in Hc.
  destruct (getCurrentVersion t (cd_super c)).1 as [l'|]; simpl in Hc; [|done].
  destruct (sheap s !! l') eqn:E; simpl in Hc; [|done]. case_match; by simplify_eq.
Qed.

(** A finite chain never meets a class twice, so it is not longer than the
    number of classes. *)
Lemma chain_NoDup c ps : chain c ps -> NoDup ps.*1.
Proof.
  intros H1. pose proof (chain_heap _ _ H1) as Hh. rewrite Forall_forall in Hh.
  apply NoDup_alt. intros i j l Hi Hj.
  assert (forall i j l, ps.*1 !! i = Some l -> ps.*1 !! j = Some l -> i < j -> False) as Hlt.
  { clear i j l Hi Hj. intros i j l Hi Hj Hij. rewrite list_lookup_fmap in Hi, Hj.
    destruct (ps !! i) as [x|] eqn:Ei; [|done]. destruct (ps !! j) as [y|] eqn:Ej; [|done]. simplify_eq/=.
    assert (x.2 = y.2) as Hxy.
    { pose proof (Hh x (list_elem_of_lookup_2 _ _ _ Ei)) as Hx.
      pose proof (Hh y (list_elem_of_lookup_2 _ _ _ Ej)) as Hy. congruence. }
    apply list_elem_of_split_length in Ei as (p1 & p2 & -> & ->).
    apply list_elem_of_split_length in Ej as (q1 & q2 & Heq & ->).
    pose proof (chain_suffix _ _ _ _ H1) as Hc1. rewrite Heq in H1. pose proof (chain_suffix _ _ _ _ H1) as Hc2.
    rewrite Hxy in Hc1. pose proof (chain_det _ _ _ Hc1 Hc2) as ->.
    apply (f_equal length) in Heq. rewrite !length_app in Heq. simpl in Heq. lia. }
  destruct (Nat.lt_trichotomy i j) as [Hij|[?|Hij]]; [|done|]; exfalso; eauto.
Qed.

Lemma chain_length c ps : chain c ps -> length ps <= size (sheap s).
Proof.
  intros H1. pose proof (chain_NoDup _ _ H1) as Hnd. pose proof (chain_heap _ _ H1) as Hh.
  assert (list_to_set ps.*1 ⊆ dom (sheap s)) as Hsub.
  { intros l Hl. rewrite elem_of_list_to_set in Hl. apply list_elem_of_fmap in Hl as (x & -> & Hx).
    rewrite Forall_forall in Hh. apply elem_of_dom. by eexists; apply Hh. }
  apply subseteq_size in Hsub. rewrite size_list_to_set, length_fmap, size_dom in Hsub by done. done.
Qed.

(** The nearest class, from [c] upwards, that has the property. *)
Fixpoint nearest (cs : list ClassDescriptor) (name : string) : option (ClassDescriptor * SPropertyDescriptor) :=
  match cs with
  | [] => None
  | c :: cs' =>
      match propertiesOf t c !! name with
      | Some d => Some (c, d)
      | None => nearest cs' name
      end
  end.

Lemma existing_fuel c ps name : chain c ps -> forall fuel, length ps < fuel ->
  existingPropertyExtend fuel s t c name =
    match nearest (c :: ps.*2) name with
    | Some (p, d) => Ok (cd_id p, d)
    | None => Throw NOGDB_CTX_NOEXST_PROPERTY
    end /\
  notDuplicatedProperty fuel s t c name =
    match nearest (c :: ps.*2) name with
    | Some _ => Throw NOGDB_CTX_DUPLICATE_PROPERTY
    | None => Ok tt
    end.
Proof.
  induction 1 as [c Hc|c l p ps Hc H1 IH]; intros fuel Hf; (destruct fuel as [|fuel]; [simpl in Hf; lia|]);
    cbn [existingPropertyExtend notDuplicatedProperty nearest fmap list_fmap snd]; rewrite Hc;
    destruct (propertiesOf t c !! name); try done.
  apply IH. simpl in Hf. lia.
Qed.

Lemma inherited_fuel c ps name : chain c ps -> forall fuel m, length ps < fuel ->
  exists m', inheritedProperties fuel s t c m = Ok m' /\
    m' !! name = match m !! name with
                 | Some d => Some d
                 | None => (fun x => transformProperty x.2) <$> nearest ps.*2 name
                 end.
Proof.
  induction 1 as [c Hc|c l p ps Hc H1 IH]; intros fuel m Hf; (destruct fuel as [|fuel]; [simpl in Hf; lia|]);
    cbn [inheritedProperties]; rewrite Hc.
  - exists m. split; [done|]. by destruct (m !! name).
  - destruct (IH fuel (addMissing m (publicProperties t p))) as (m' & -> & Hm'); [simpl in Hf; lia|].
    exists m'. split; [done|]. rewrite Hm'. unfold addMissing, publicProperties.
    rewrite lookup_union, lookup_fmap. cbn [nearest fmap list_fmap snd].
    destruct (m !! name); simpl; [by destruct (propertiesOf t p !! name)|].
    by destruct (propertiesOf t p !! name).
Qed.
End chain.

(** On an acyclic hierarchy the property checks terminate and see the class
    and all its ancestors: the search returns the definition of the nearest
    class, which is also the one the public class descriptor shows, and a
    property is a duplicate exactly when some class of the chain has it. *)
Theorem property_search s t c ps name :
  chain s t c ps ->
  isExistingPropertyExtend s t c name =
    match nearest t (c :: ps.*2) name with
    | Some (p, d) => Ok (cd_id p, d)
    | None => Throw NOGDB_CTX_NOEXST_PROPERTY
    end /\
  isNotDuplicatedProperty s t c name =
    match nearest t (c :: ps.*2) name with
    | Some _ => Throw NOGDB_CTX_DUPLICATE_PROPERTY
    | None => Ok tt
    end /\
  exists r, transform s t c = Ok r /\
    pcd_properties r !! name = (fun x => transformProperty x.2) <$> nearest t (c :: ps.*2) name.
Proof.
  intros Hc. pose proof (chain_length _ _ _ _ Hc) as Hlen.
  destruct (existing_fuel s t c ps name Hc (S (size (sheap s)))) as [H1 H2]; [lia|].
  split_and!; [done|done|].
  destruct (inherited_fuel s t c ps name Hc (S (size (sheap s))) (publicProperties t c)) as (m & Hm & Hl); [lia|].
  unfold transform. rewrite Hm. cbn [obind]. eexists. split; [done|]. cbn [pcd_properties]. rewrite Hl.
  unfold publicProperties. rewrite lookup_fmap. cbn [nearest]. by destruct (propertiesOf t c !! name).
Qed.

(** ** The tree of descendants *)
Section descendants.
  Context (s : Schema) (t : BaseTxn) (name : string).

Definition subclass (c d : ClassDescriptor) : Prop := d ∈ subsOf s t c.

(** At most [n] levels of subclasses below [c]. *)
Fixpoint depth_le (n : nat) (c : ClassDescriptor) : Prop :=
  match n with
  | O => subsOf s t c = []
  | S n' => Forall (depth_le n') (subsOf s t c)
  end.

Definition clean (c : ClassDescriptor) : Prop := forall d, rtc subclass c d -> propertiesOf t d !! name = None.
Definition dirty (c : ClassDescriptor) : Prop := exists d, rtc subclass c d /\ is_Some (propertiesOf t d !! name).

Definition overriden_result (c : ClassDescriptor) (r : Outcome unit) : Prop :=
  (r = Ok tt /\ clean c) \/ (r = Throw NOGDB_CTX_OVERRIDE_PROPERTY /\ dirty c).

Lemma clean_split c :
  propertiesOf t c !! name = None -> (forall d, subclass c d -> clean d) -> clean c.
Proof. intros Hc Hsub d Hd. inversion Hd as [|? e ? H1 H2]; subst; [done|]. by apply (Hsub e). Qed.

Lemma subs_fold f ds :
  Forall (fun d => overriden_result d (f d)) ds ->
  (ofold (fun _ d => f d) ds tt = Ok tt /\ Forall clean ds) \/
  (ofold (fun _ d => f d) ds tt = Throw NOGDB_CTX_OVERRIDE_PROPERTY /\ Exists dirty ds).
Proof.
  induction 1 as [|d ds [[Hd Hc]|[Hd Hc]] Hds IH]; cbn [ofold]; [by left| |].
  - rewrite Hd. cbn [obind]. destruct IH as [[-> ?]|[-> ?]]; [left|right]; split; try done.
    + by constructor.
    + by apply Exists_cons_tl.
  - rewrite Hd. right. split; [done|]. by apply Exists_cons_hd.
Qed.

Lemma overriden_fuel n : forall c fuel, depth_le n c -> n < fuel ->
  overriden_result c (notOverridenProperty fuel s t name c).
Proof.
  induction n as [|n IH]; intros c [|fuel] Hd Hf; try lia; cbn [notOverridenProperty];
    (destruct (propertiesOf t c !! name) eqn:Hc; [by right; split; [done|]; exists c; split; [apply rtc_refl|eauto]|]).
  - simpl in Hd. rewrite Hd. left. split; [done|]. apply clean_split; [done|].
    intros d Hin. unfold subclass in Hin. rewrite Hd in Hin. by apply not_elem_of_nil in Hin.
  - assert (Forall (fun d => overriden_result d (notOverridenProperty fuel s t name d)) (subsOf s t c)) as Hall.
    { eapply Forall_impl; [exact Hd|]. intros d Hdd. apply IH; [done|lia]. }
    destruct (subs_fold _ _ Hall) as [[-> Hclean]|[-> Hdirty]]; [left|right]; split; try done.
    + apply clean_split; [done|]. rewrite Forall_forall in Hclean. apply Hclean.
    + apply Exists_exists in Hdirty as (d & Hin & e & He & Hs). exists e. split; [|done].
      by eapply rtc_l.
Qed.
End descendants.

(** On a hierarchy with fewer levels than classes the override check
    terminates; it accepts a name exactly when neither the class nor any class
    below it defines the property. *)
Theorem override_check s t c name n :
  depth_le s t n c -> n <= size (sheap s) ->
  (isNotOverridenProperty s t c name = Ok tt /\ clean s t name c) \/
  (isNotOverridenProperty s t c name = Throw NOGDB_CTX_OVERRIDE_PROPERTY /\ dirty s t name c).
Proof. intros Hd Hn. by apply (overriden_fuel s t name n); [|lia]. Qed.
