(* ===== verification/BaseTxn.v ===== *)
(** * Transactions

    Model of [BaseTxn] (src/src/base_txn.cpp): start, commit and rollback of a
    transaction on the shared context.  The data store is an external library:
    its transaction handle appears as the trace [dsTrace] of the calls made to
    it and as the outcome of its commit, an argument of [commit]. *)

From stdpp Require Import base gmap sets list strings sorting.
From Stdlib Require Import ZArith Lia.
From S2P Require Import Prelude Types VersionControl MultiVersionMap TxnObject TxnData Graph Schema.

Inductive DsCall := DS_BEGIN_RO | DS_BEGIN_RW | DS_COMMIT | DS_ROLLBACK.

(** The parts of [Context] a transaction works on. *)
Record Context := mkContext {
  dbSchema : Schema;
  dbRelation : Graph;
  dbTxnStat : TxnStat;
  dbInfo : DBInfo;
  dsTrace : list DsCall;
}.

Definition setSchema (f : Schema -> Schema) (c : Context) : Context :=
  mkContext (f (dbSchema c)) (dbRelation c) (dbTxnStat c) (dbInfo c) (dsTrace c).
Definition setRelation (f : Graph -> Graph) (c : Context) : Context :=
  mkContext (dbSchema c) (f (dbRelation c)) (dbTxnStat c) (dbInfo c) (dsTrace c).
Definition setTxnStat (f : TxnStat -> TxnStat) (c : Context) : Context :=
  mkContext (dbSchema c) (dbRelation c) (f (dbTxnStat c)) (dbInfo c) (dsTrace c).
Definition setDbInfo (i : DBInfo) (c : Context) : Context :=
  mkContext (dbSchema c) (dbRelation c) (dbTxnStat c) i (dsTrace c).
Definition dsCall (withDs : bool) (x : DsCall) (c : Context) : Context :=
  if withDs then mkContext (dbSchema c) (dbRelation c) (dbTxnStat c) (dbInfo c) (dsTrace c ++ [x]) else c.

Definition emptyDbInfo : DBInfo := mkDBInfo 0 0 0 0 0 0.

(** ** Start *)
Definition beginTxn (c : Context) (isReadWrite inMemory : bool) : Outcome (BaseTxn * Context) :=
  let ds := negb inMemory in
  if isReadWrite then
    let c1 := dsCall ds DS_BEGIN_RW c in
    let v := u64 (maxVersionId (dbTxnStat c1) + 1) in
    if (v =? UINT64_MAX)%Z then Throw NOGDB_TXN_VERSION_MAXREACH
    else Ok (mkBaseTxn READ_WRITE 0 v (dbInfo c1) ∅ ∅ ∅ ds false false, c1)
  else
    let c1 := dsCall ds DS_BEGIN_RO c in
    let '(id, stat1) := fetchAddMaxTxnId (dbTxnStat c1) in
    let v := maxVersionId stat1 in
    Ok (mkBaseTxn READ_ONLY id v emptyDbInfo ∅ ∅ ∅ ds false false,
        setTxnStat (fun _ => addActiveTxnId id v stat1) c1).

Definition complete (t : BaseTxn) : BaseTxn :=
  mkBaseTxn (txnType t) (txnId t) (txnVersionId t) (txnDbInfo t) (ucSchema t) (ucVertices t) (ucEdges t)
    (isWithDataStore t) true (isCommitDatastore t).
Definition setCommitDatastore (t : BaseTxn) : BaseTxn :=
  mkBaseTxn (txnType t) (txnId t) (txnVersionId t) (txnDbInfo t) (ucSchema t) (ucVertices t) (ucEdges t)
    (isWithDataStore t) (isCompleted t) (isCommitDatastore t || isWithDataStore t).

(** ** Commit of the schema *)
Definition commitClassObj (status : StatusFlag) (base w : TxnId) (c : ClassDescriptor) : ClassDescriptor :=
  let prune := match status with COMMITTED_CREATE | COMMITTED_DELETE => true | _ => false end in
  let cl {T} `{Default T} (vc : VersionControl T) := if prune then (clearStableVersion base vc).1 else vc in
  mkClassDescriptor (cd_id c) (cd_type c) ((updateState w (cd_state c)).1)
    (upgradeStableVersion w (cl (cd_name c))) (upgradeStableVersion w (cl (cd_properties c)))
    (upgradeStableVersion w (cl (cd_super c))) (upgradeStableVersion w (cl (cd_sub c))).

Definition commitClass (base w : TxnId) (st : Schema * list (ClassId * TxnId)) (l : Loc) :
    Schema * list (ClassId * TxnId) :=
  let '(s, q) := st in
  match sheap s !! l with
  | None => st
  | Some c =>
      let status := (getState (cd_state c)).2 in
      let info := match status with
                  | UNCOMMITTED_CREATE => lockAndEmplace (cd_id c) l (schemaInfo s)
                  | _ => schemaInfo s
                  end in
      let q' := match status with UNCOMMITTED_DELETE => q ++ [(cd_id c, w)] | _ => q end in
      (mkSchema (<[l := commitClassObj status base w c]> (sheap s)) info (deletedClassId s) (heldClasses s), q')
  end.

Definition commitSchema (base : TxnId) (t : BaseTxn) (s : Schema) : Schema :=
  if bool_decide (ucSchema t = ∅) then s
  else
    let '(s1, q) := fold_left (commitClass base (txnVersionId t))
                      (omap (fun id => ucSchema t !! id) (z_sort (map_to_list (ucSchema t)).*1)) (s, []) in
    mkSchema (sheap s1) (schemaInfo s1) (push_back (deletedClassId s1) q) (heldClasses s1).

(** ** Commit of the relations *)
Definition setVertices (f : gmap RecordId Loc -> gmap RecordId Loc) (g : Graph) : Graph :=
  mkGraph (vheap g) (eheap g) (f (vertices g)) (edges g) (deletedVertices g) (deletedEdges g)
    (heldVertices g) (heldEdges g).
Definition setEdges (f : gmap RecordId Loc -> gmap RecordId Loc) (g : Graph) : Graph :=
  mkGraph (vheap g) (eheap g) (vertices g) (f (edges g)) (deletedVertices g) (deletedEdges g)
    (heldVertices g) (heldEdges g).

Definition commitVertex (w : TxnId) (st : Graph * list (RecordId * TxnId)) (p : RecordId * Loc) :
    Graph * list (RecordId * TxnId) :=
  let '(g, q) := st in
  match vheap g !! p.2 with
  | None => st
  | Some v =>
      let status := (getState (v_state v)).2 in
      let g1 := match status with
                | UNCOMMITTED_CREATE => setVertices (lockAndEmplace p.1 p.2) g
                | _ => g
                end in
      let q' := match status with UNCOMMITTED_DELETE => q ++ [(v_rid v, w)] | _ => q end in
      (updVertex (setVState (fun s => (updateState w s).1)) p.2 g1, q')
  end.

(** Prune and publish the adjacency entry of an edge at one of its end points. *)
Definition commitAdj (upd : (Adj -> Adj) -> Vertex -> Vertex) (t : BaseTxn) (base w : TxnId) (rid : RecordId)
    (ptr : WeakPtr) (g : Graph) : Graph :=
  match lockVertex g t ptr with
  | None => g
  | Some (l, _) =>
      updVertex (upd (fun m => tl_modify (upgradeStableVersion w) rid.1 rid.2 (tl_clear base m))) l g
  end.

Definition commitEdge (base : TxnId) (t : BaseTxn) (st : Graph * list (RecordId * TxnId)) (p : RecordId * Loc) :
    Graph * list (RecordId * TxnId) :=
  let '(g, q) := st in
  let w := txnVersionId t in
  match eheap g !! p.2 with
  | None => st
  | Some e =>
      let status := (getState (e_state e)).2 in
      let g1 := match status with
                | UNCOMMITTED_DELETE => g
                | UNCOMMITTED_CREATE => setEdges (lockAndEmplace p.1 p.2) g
                | _ => updEdge (fun x => setSource (fun vc => (clearStableVersion base vc).1)
                                 (setTarget (fun vc => (clearStableVersion base vc).1) x)) p.2 g
                end in
      let q' := match status with UNCOMMITTED_DELETE => q ++ [(e_rid e, w)] | _ => q end in
      match eheap g1 !! p.2 with
      | None => (g1, q')
      | Some e1 =>
          let g2 := commitAdj setOut t base w (e_rid e) (getUnstableVersion (e_source e1)).1 g1 in
          let g3 := commitAdj setOut t base w (e_rid e) (getStableVersion (e_source e1)).1 g2 in
          let g4 := commitAdj setIn t base w (e_rid e) (getUnstableVersion (e_target e1)).1 g3 in
          let g5 := commitAdj setIn t base w (e_rid e) (getStableVersion (e_target e1)).1 g4 in
          (updEdge (fun x => setSource (upgradeStableVersion w) (setTarget (upgradeStableVersion w)
                      (setEState (fun s => (updateState w s).1) x))) p.2 g5, q')
      end
  end.

Definition commitRelation (base : TxnId) (t : BaseTxn) (g : Graph) : Graph :=
  if bool_decide (size (ucVertices t) + size (ucEdges t) = 0) then g
  else
    let '(g1, qv) := fold_left (commitVertex (txnVersionId t)) (map_to_list (ucVertices t)) (g, []) in
    let '(g2, qe) := fold_left (commitEdge base t) (map_to_list (ucEdges t)) (g1, []) in
    setQueues (push_back (deletedVertices g2) qv) (push_back (deletedEdges g2) qe) g2.

(** The version up to which old versions may be dropped. *)
Definition currentMinVersion (t : BaseTxn) (st : TxnStat) : TxnId :=
  let oldest := minActiveTxnId st in
  if (oldest.1 =? 0)%Z then (txnVersionId t - 1)%Z else oldest.2.

Definition collect (v : TxnId) (c : Context) : Context :=
  setRelation (clearDeletedElements v) (setSchema (clearDeletedClasses v) c).

(** ** Commit *)
Definition commit (dsCommit : Outcome unit) (c : Context) (t : BaseTxn) : Outcome (bool * Context * BaseTxn) :=
  if isCompleted t then Ok (false, c, t)
  else
    match txnType t with
    | READ_WRITE =>
        let c1 := dsCall (isWithDataStore t) DS_COMMIT c in
        (if isWithDataStore t then dsCommit else Ok tt) ;;;
        let t1 := setCommitDatastore t in
        let base := currentMinVersion t (dbTxnStat c1) in
        let c2 := setSchema (commitSchema base t1) c1 in
        let c3 := setRelation (commitRelation base t1) c2 in
        let c4 := if bool_decide (size (ucSchema t) + size (ucVertices t) + size (ucEdges t) = 0)
                  then c3 else setDbInfo (txnDbInfo t) c3 in
        let c5 := setTxnStat (fun s => (fetchAddMaxVersionId s).2) c4 in
        let minTxn := minActiveTxnId (dbTxnStat c5) in
        let c6 := if (minTxn.1 =? 0)%Z && (minTxn.2 =? 0)%Z then collect (txnVersionId t) c5 else c5 in
        Ok (true, c6, complete t1)
    | READ_ONLY =>
        let* last := isLastMinVersionId (txnId t) (dbTxnStat c) in
        let c1 := if (last : bool) then collect (u64 (txnVersionId t + 1)) c else c in
        let c2 := setTxnStat (removeActiveTxnId (txnId t)) c1 in
        Ok (true, dsCall (isWithDataStore t) DS_ROLLBACK c2, complete t)
    end.

(** ** Rollback *)
Definition restoreState (s : State) : State :=
  match (getState s).2 with UNCOMMITTED_DELETE => setStatus COMMITTED_CREATE s | _ => s end.

Definition rollbackAdj (upd : (Adj -> Adj) -> Vertex -> Vertex) (t : BaseTxn) (rid : RecordId)
    (found : WeakPtr * bool) (g : Graph) : Graph :=
  if found.2 then
    match lockVertex g t found.1 with
    | None => g
    | Some (l, _) => updVertex (upd (tl_clearKey rid.1 rid.2 0%Z)) l g
    end
  else g.

Definition rollbackEdge (t : BaseTxn) (g : Graph) (l : Loc) : Graph :=
  match eheap g !! l with
  | None => g
  | Some e =>
      let g0 := updEdge (setEState restoreState) l g in
      let g1 := rollbackAdj setOut t (e_rid e) (getUnstableVersion (e_source e)) g0 in
      let g2 := rollbackAdj setOut t (e_rid e) (getStableVersion (e_source e)) g1 in
      let g3 := rollbackAdj setIn t (e_rid e) (getUnstableVersion (e_target e)) g2 in
      let g4 := rollbackAdj setIn t (e_rid e) (getStableVersion (e_target e)) g3 in
      updEdge (fun x => setSource disableUnstableVersion (setTarget disableUnstableVersion x)) l g4
  end.

Definition rollbackClassObj (c : ClassDescriptor) : ClassDescriptor :=
  mkClassDescriptor (cd_id c) (cd_type c) (restoreState (cd_state c))
    (disableUnstableVersion (cd_name c)) (disableUnstableVersion (cd_properties c))
    (disableUnstableVersion (cd_super c)) (disableUnstableVersion (cd_sub c)).

Definition locations (m : gmap RecordId Loc) : list Loc := (map_to_list m).*2.

Definition rollbackRelation (t : BaseTxn) (g : Graph) : Graph :=
  let g1 := fold_left (fun g l => updVertex (setVState restoreState) l g) (locations (ucVertices t)) g in
  fold_left (rollbackEdge t) (locations (ucEdges t)) g1.

Definition rollbackSchema (t : BaseTxn) (s : Schema) : Schema :=
  fold_left (fun s l => updClass rollbackClassObj l s) (map_to_list (ucSchema t)).*2 s.

Definition rollback (c : Context) (t : BaseTxn) : Outcome (bool * Context * BaseTxn) :=
  if isCompleted t then Ok (false, c, t)
  else
    let* c1 :=
      match txnType t with
      | READ_WRITE => Ok (setSchema (rollbackSchema t) (setRelation (rollbackRelation t) c))
      | READ_ONLY =>
          let* last := isLastMinVersionId (txnId t) (dbTxnStat c) in
          let c1 := if (last : bool) then collect (u64 (txnVersionId t + 1)) c else c in
          Ok (setTxnStat (removeActiveTxnId (txnId t)) c1)
      end in
    Ok (true, dsCall (isWithDataStore t && negb (isCommitDatastore t)) DS_ROLLBACK c1, complete t).
