(* ===== verification/CommitSpec.v ===== *)
(** * What a commit publishes

    After a writer has committed, a reader that starts at the committed
    version sees the graph the writer saw. *)

From stdpp Require Import base gmap sets list strings sorting fin_sets.
From Stdlib Require Import ZArith Lia.
From S2P Require Import Prelude Types VersionControl MultiVersionMap TxnObject TxnData Graph GraphSpec Schema BaseTxn.

(** ** One edge *)
Definition commitEdgeObj (base w : TxnId) (e : Edge) : Edge :=
  let e1 := match st_status (e_state e) with
            | COMMITTED_CREATE | COMMITTED_DELETE =>
                setSource (fun vc => (clearStableVersion base vc).1)
                  (setTarget (fun vc => (clearStableVersion base vc).1) e)
            | _ => e
            end in
  setSource (upgradeStableVersion w) (setTarget (upgradeStableVersion w)
    (setEState (fun s => (updateState w s).1) e1)).

Lemma commitEdgeObj_end base w e s :
  older_than w (end_of s e) ->
  getStableVersionAt w (end_of s (commitEdgeObj base w e)) = getLatestVersion (end_of s e).
Proof.
  intros Hold. unfold commitEdgeObj. destruct (st_status (e_state e)), s;
    cbn [setSource setTarget setEState e_source e_target end_of] in *;
    first [by apply upgrade_latest|by apply upgrade_clear_latest].
Qed.

Lemma commitEdgeObj_fields base w e :
  e_rid (commitEdgeObj base w e) = e_rid e /\ e_state (commitEdgeObj base w e) = (updateState w (e_state e)).1.
Proof. unfold commitEdgeObj. by destruct (st_status (e_state e)). Qed.

(** A committed state is visible at the commit version exactly when the writer
    saw the object. *)
Lemma updateState_visible w st :
  (st_versionId st <= w)%Z -> checkReadOnly w (updateState w st).1 = checkReadWrite st.
Proof.
  unfold updateState, checkReadOnly, checkReadWrite. intros Hv. destruct (st_status st) eqn:E; simpl; rewrite ?E; lia.
Qed.

(** The vertices of a graph up to their adjacency maps. *)
Definition same_vertices (g g' : Graph) : Prop :=
  vertices g' = vertices g /\ heldVertices g' = heldVertices g /\ heldEdges g' = heldEdges g /\
  forall l, (fun v => (v_rid v, v_state v)) <$> vheap g' !! l = (fun v => (v_rid v, v_state v)) <$> vheap g !! l.

#[export] Instance same_vertices_preorder : PreOrder same_vertices.
Proof.
  split; [by intros g|]. intros g1 g2 g3 (A1 & A2 & A3 & A4) (B1 & B2 & B3 & B4).
  split_and!; [congruence..|]. intros l. by rewrite B4.
Qed.

Lemma commitAdj_frame s t base w rid ptr g :
  let g' := commitAdj (upd_of s) t base w rid ptr g in
  eheap g' = eheap g /\ edges g' = edges g /\ same_vertices g g'.
Proof.
  unfold commitAdj. destruct (lockVertex g t ptr) as [[l v]|]; [|done]. cbn zeta.
  split_and!; [done|done|]. split_and!; try done. intros l'. rewrite lookup_updVertex.
  case_decide; [|done]. destruct (vheap g !! l') as [v'|]; [|done]. simpl. by destruct s.
Qed.

Lemma commitEdge_step base t g q k le e :
  eheap g !! le = Some e ->
  exists g' q', commitEdge base t (g, q) (k, le) = (g', q') /\
    eheap g' = <[le := commitEdgeObj base (txnVersionId t) e]> (eheap g) /\
    edges g' = match st_status (e_state e) with
               | UNCOMMITTED_CREATE => emplace k le (edges g)
               | _ => edges g
               end /\ same_vertices g g'.
Proof.
  intros He. unfold commitEdge. cbn [snd fst]. rewrite He. simpl getState. cbn [snd].
  set (w := txnVersionId t).
  match goal with |- context [eheap ?x !! le] => set (g1 := x) end.
  assert (exists e1, eheap g1 !! le = Some e1 /\ eheap g1 = <[le := e1]> (eheap g) /\
    commitEdgeObj base w e = setSource (upgradeStableVersion w) (setTarget (upgradeStableVersion w)
      (setEState (fun s => (updateState w s).1) e1)) /\
    edges g1 = match st_status (e_state e) with UNCOMMITTED_CREATE => emplace k le (edges g) | _ => edges g end /\
    same_vertices g g1) as (e1 & He1 & Hh1 & Hobj & Hed1 & Hsv1).
  { assert (forall f, eheap (updEdge f le g) !! le = Some (f e) /\
      eheap (updEdge f le g) = <[le := f e]> (eheap g)) as Hupd.
    { intros f. split; [by rewrite (lookup_updEdge g le e), decide_True|].
      apply map_eq. intros l. by rewrite (lookup_updEdge g le e), lookup_insert. }
    unfold g1, commitEdgeObj, getState. cbn [snd]. destruct (st_status (e_state e)).
    1, 3: exists e; split_and!; try done; simpl; rewrite ?insert_id by done; done.
    1, 2: eexists; split_and!; [apply Hupd|apply Hupd|done|done|done]. }
  rewrite He1.
  set (g2 := commitAdj setOut t base w _ _ g1). set (g3 := commitAdj setOut t base w _ _ g2).
  set (g4 := commitAdj setIn t base w _ _ g3). set (g5 := commitAdj setIn t base w _ _ g4).
  destruct (commitAdj_frame SRC t base w (e_rid e) (getUnstableVersion (e_source e1)).1 g1) as (A1 & A2 & A3).
  destruct (commitAdj_frame SRC t base w (e_rid e) (getStableVersion (e_source e1)).1 g2) as (B1 & B2 & B3).
  destruct (commitAdj_frame DST t base w (e_rid e) (getUnstableVersion (e_target e1)).1 g3) as (C1 & C2 & C3).
  destruct (commitAdj_frame DST t base w (e_rid e) (getStableVersion (e_target e1)).1 g4) as (D1 & D2 & D3).
  eexists _, _. split; [reflexivity|]. split_and!.
  - unfold updEdge; simpl. rewrite Hobj. change (eheap g5 = eheap g4) in D1. change (eheap g4 = eheap g3) in C1.
    change (eheap g3 = eheap g2) in B1. change (eheap g2 = eheap g1) in A1.
    rewrite D1, C1, B1, A1, Hh1. apply map_eq. intros l. rewrite lookup_alter, !lookup_insert.
    by repeat case_decide.
  - change (edges g5 = edges g4) in D2. change (edges g4 = edges g3) in C2.
    change (edges g3 = edges g2) in B2. change (edges g2 = edges g1) in A2. simpl. congruence.
  - transitivity g1; [done|]. transitivity g2; [done|]. transitivity g3; [done|]. by transitivity g4.
Qed.

(** ** All edges, all vertices *)
Lemma commitEdges_loop base t l : forall g q,
  NoDup l.*1 -> NoDup l.*2 -> (forall k le, (k, le) ∈ l -> is_Some (eheap g !! le)) ->
  let g' := (fold_left (commitEdge base t) l (g, q)).1 in
  (forall le, eheap g' !! le = if decide (le ∈ l.*2) then commitEdgeObj base (txnVersionId t) <$> eheap g !! le
                               else eheap g !! le) /\
  (forall k le, edges g !! k = Some le -> edges g' !! k = Some le) /\
  (forall k le e, (k, le) ∈ l -> eheap g !! le = Some e -> st_status (e_state e) = UNCOMMITTED_CREATE ->
     edges g !! k = None -> edges g' !! k = Some le) /\
  (forall k le, edges g' !! k = Some le -> edges g !! k = Some le \/ (k, le) ∈ l) /\ same_vertices g g'.
Proof.
  induction l as [|[k0 le0] l IH]; intros g q Hk Hl Hin; cbn zeta.
  { split_and!; try done; intros; try (by left). exfalso. by eapply not_elem_of_nil. }
  rewrite fmap_cons in Hk. rewrite fmap_cons in Hl. apply NoDup_cons in Hk as [Hk0 Hk]. apply NoDup_cons in Hl as [Hl0 Hl].
  cbn [fst snd] in *. destruct (Hin k0 le0) as [e0 He0]; [left|].
  destruct (commitEdge_step base t g q k0 le0 e0 He0) as (g1 & q1 & Hstep & Hh1 & Hed1 & Hsv1).
  cbn [fold_left]. rewrite Hstep.
  assert (forall le, le ∈ l.*2 -> eheap g1 !! le = eheap g !! le) as Hother.
  { intros le Hle. rewrite Hh1, lookup_insert_ne; [done|]. by intros <-. }
  assert (forall k le, (k, le) ∈ l -> le ∈ l.*2) as Hsnd.
  { intros k le Hkl. apply list_elem_of_fmap. by exists (k, le). }
  destruct (IH g1 q1 Hk Hl) as (H1 & H2 & H3 & H4 & H5).
  { intros k le Hkl. rewrite Hother by eauto. apply (Hin k). by right. }
  assert (forall k le, edges g !! k = Some le -> edges g1 !! k = Some le) as Hmono.
  { intros k le Hx. rewrite Hed1. destruct (st_status (e_state e0)); try done. rewrite lookup_emplace. by rewrite Hx. }
  split_and!.
  - intros le. rewrite H1, fmap_cons. cbn [snd]. destruct (decide (le = le0)) as [->|Hne].
    + rewrite decide_False, decide_True by set_solver. by rewrite Hh1, lookup_insert_eq, He0.
    + rewrite Hh1, lookup_insert_ne by done. repeat case_decide; set_solver.
  - eauto.
  - intros k le e [[= -> ->]|Hkl]%elem_of_cons He Hst Hn.
    + apply H2. simplify_eq. rewrite Hed1, Hst, lookup_emplace, Hn. by rewrite decide_True.
    + eapply H3; eauto; [by rewrite Hother by eauto|]. rewrite Hed1.
      destruct (st_status (e_state e0)); try done. rewrite lookup_emplace, Hn, decide_False; [done|].
      intros ->. apply Hk0, list_elem_of_fmap. by exists (k, le).
  - intros k le Hx. apply H4 in Hx as [Hx|Hx]; [|right; by right]. rewrite Hed1 in Hx.
    destruct (st_status (e_state e0)); eauto. rewrite lookup_emplace in Hx.
    destruct (edges g !! k); [by left|]. case_decide; simplify_eq. right. by left.
  - by transitivity g1.
Qed.

Lemma commitVertices_loop w l : forall g q,
  NoDup l.*1 -> NoDup l.*2 -> (forall r lv, (r, lv) ∈ l -> is_Some (vheap g !! lv)) ->
  let g' := (fold_left (commitVertex w) l (g, q)).1 in
  eheap g' = eheap g /\ edges g' = edges g /\
  (forall lv, vheap g' !! lv = if decide (lv ∈ l.*2) then setVState (fun s => (updateState w s).1) <$> vheap g !! lv
                              else vheap g !! lv) /\
  (forall r lv, vertices g !! r = Some lv -> vertices g' !! r = Some lv) /\
  (forall r lv v, (r, lv) ∈ l -> vheap g !! lv = Some v -> st_status (v_state v) = UNCOMMITTED_CREATE ->
     vertices g !! r = None -> vertices g' !! r = Some lv) /\
  (forall r lv, vertices g' !! r = Some lv -> vertices g !! r = Some lv \/ (r, lv) ∈ l).
Proof.
  induction l as [|[r0 l0] l IH]; intros g q Hk Hl Hin; cbn zeta.
  { split_and!; try done; intros; try (by left). exfalso. by eapply not_elem_of_nil. }
  rewrite fmap_cons in Hk. rewrite fmap_cons in Hl. apply NoDup_cons in Hk as [Hk0 Hk]. apply NoDup_cons in Hl as [Hl0 Hl].
  cbn [fst snd] in *. destruct (Hin r0 l0) as [v0 Hv0]; [left|].
  set (g1 := match st_status (v_state v0) with UNCOMMITTED_CREATE => setVertices (lockAndEmplace r0 l0) g | _ => g end).
  set (g2 := updVertex (setVState (fun s => (updateState w s).1)) l0 g1).
  set (q2 := match st_status (v_state v0) with UNCOMMITTED_DELETE => q ++ [(v_rid v0, w)] | _ => q end).
  assert (commitVertex w (g, q) (r0, l0) = (g2, q2)) as Hstep.
  { unfold commitVertex. cbn [fst snd]. by rewrite Hv0. }
  cbn [fold_left]. rewrite Hstep.
  assert (vheap g1 = vheap g) as Hvh1 by (unfold g1; by destruct (st_status (v_state v0))).
  assert (forall lv, lv <> l0 -> vheap g2 !! lv = vheap g !! lv) as Hother.
  { intros lv Hne. unfold g2. by rewrite lookup_updVertex, decide_False, Hvh1. }
  assert (forall r lv, (r, lv) ∈ l -> lv <> l0) as Hne.
  { intros r lv Hin' ->. apply Hl0, list_elem_of_fmap. by exists (r, l0). }
  assert (forall r, vertices g2 !! r = match st_status (v_state v0) with
    | UNCOMMITTED_CREATE => emplace r0 l0 (vertices g) | _ => vertices g end !! r) as Hvs.
  { intros r. unfold g2, g1. by destruct (st_status (v_state v0)). }
  destruct (IH g2 q2 Hk Hl) as (H1 & H2 & H3 & H4 & H5 & H6).
  { intros r lv Hx. rewrite Hother by eauto. apply (Hin r). by right. }
  split_and!.
  - rewrite H1. unfold g2, g1. by destruct (st_status (v_state v0)).
  - rewrite H2. unfold g2, g1. by destruct (st_status (v_state v0)).
  - intros lv. rewrite H3, fmap_cons. cbn [snd]. destruct (decide (lv = l0)) as [->|Hd].
    + rewrite decide_False, decide_True by set_solver. unfold g2. by rewrite lookup_updVertex, decide_True, Hvh1.
    + rewrite Hother by done. repeat case_decide; set_solver.
  - intros r lv Hx. apply H4. rewrite Hvs. destruct (st_status (v_state v0)); try done.
    rewrite lookup_emplace. by rewrite Hx.
  - intros r lv v [[= -> ->]|Hx]%elem_of_cons Hv Hst Hn.
    + apply H4. simplify_eq. rewrite Hvs, Hst, lookup_emplace, Hn. by rewrite decide_True.
    + eapply H5; eauto; [by rewrite Hother by eauto|]. rewrite Hvs.
      destruct (st_status (v_state v0)); try done. rewrite lookup_emplace, Hn, decide_False; [done|].
      intros ->. apply Hk0, list_elem_of_fmap. by exists (r, lv).
  - intros r lv [Hx|Hx]%H6; [|right; by right]. rewrite Hvs in Hx.
    destruct (st_status (v_state v0)); eauto. rewrite lookup_emplace in Hx.
    destruct (vertices g !! r); [by left|]. case_decide; simplify_eq. right. by left.
Qed.

(** ** Publication *)

(** What a writer maintains until it commits: every change of an end point is
    recorded, recorded objects outside of the graph are its own creations, and
    everything committed is older than its version. *)
Record publishable (g : Graph) (t : BaseTxn) : Prop := {
  p_recorded : forall k le e, edges g !! k = Some le -> ucEdges t !! k = None -> eheap g !! le = Some e ->
    st_status (e_state e) <> UNCOMMITTED_DELETE /\ forall s, (unstableVersion_ (end_of s e)).2 = INVISIBLE;
  p_older : forall k le e, allE g t !! k = Some le -> eheap g !! le = Some e ->
    (st_versionId (e_state e) <= txnVersionId t)%Z /\ forall s, older_than (txnVersionId t) (end_of s e);
  p_ownE : forall k le e, ucEdges t !! k = Some le -> edges g !! k = None -> eheap g !! le = Some e ->
    st_status (e_state e) = UNCOMMITTED_CREATE;
  p_ownV : forall r l v, ucVertices t !! r = Some l -> vertices g !! r = None -> vheap g !! l = Some v ->
    st_status (v_state v) = UNCOMMITTED_CREATE;
}.

Section publish.
  Context (g : Graph) (t : BaseTxn) (base : TxnId) (Hb : base_ok g t) (Hp : publishable g t).
Let g' := commitRelation base t g.
Let w := txnVersionId t.

Lemma uc_allE k le : ucEdges t !! k = Some le -> allE g t !! k = Some le.
Proof. intros Hk. apply lookup_all_r; [|done]. intros l' Hl'. by eapply b_eagree. Qed.

Lemma uc_allV r l : ucVertices t !! r = Some l -> allV g t !! r = Some l.
Proof. intros Hk. apply lookup_all_r; [|done]. intros l' Hl'. by eapply b_vagree. Qed.

(** Distinct keys of the uncommitted sets have distinct objects. *)
Lemma NoDup_locs (m all : gmap RecordId Loc) :
  (forall k l, m !! k = Some l -> all !! k = Some l) ->
  (forall k k' l, all !! k = Some l -> all !! k' = Some l -> k = k') -> NoDup (map_to_list m).*2.
Proof.
  intros Hall Hinj. apply NoDup_fmap_2_strong; [|apply NoDup_map_to_list].
  intros [k1 l1] [k2 l2] H1 H2 Heq. simpl in Heq; subst l2.
  apply elem_of_map_to_list in H1, H2. f_equal. eapply Hinj; eauto.
Qed.

Lemma commitRelation_unfold :
  exists g1 q1 q2, g1 = (fold_left (commitVertex w) (map_to_list (ucVertices t)) (g, [])).1 /\
    g' = setQueues q1 q2 (fold_left (commitEdge base t) (map_to_list (ucEdges t)) (g1, [])).1.
Proof.
  unfold g', commitRelation. case_bool_decide as Hz.
  - assert (ucVertices t = ∅ /\ ucEdges t = ∅) as [-> ->].
    { split; apply map_size_empty_inv; lia. }
    rewrite !map_to_list_empty. simpl. eexists _, (deletedVertices g), (deletedEdges g).
    split; [done|]. by destruct g.
  - fold w. destruct (fold_left (commitVertex w) _ (g, [])) as [g1 qv] eqn:H1.
    destruct (fold_left (commitEdge base t) _ (g1, [])) as [g2 qe] eqn:H2.
    eexists g1, _, _. split; [done|]. by rewrite H2.
Qed.

(** The objects after the commit. *)
Lemma commit_objects :
  (forall le, eheap g' !! le = if decide (le ∈ (map_to_list (ucEdges t)).*2)
     then commitEdgeObj base w <$> eheap g !! le else eheap g !! le) /\
  (forall k, edges g' !! k = allE g t !! k) /\
  (forall l, (fun v => (v_rid v, v_state v)) <$> vheap g' !! l = if decide (l ∈ (map_to_list (ucVertices t)).*2)
     then (fun v => (v_rid v, (updateState w (v_state v)).1)) <$> vheap g !! l
     else (fun v => (v_rid v, v_state v)) <$> vheap g !! l) /\
  (forall r, vertices g' !! r = allV g t !! r) /\ heldVertices g' = heldVertices g /\ heldEdges g' = heldEdges g.
Proof.
  destruct commitRelation_unfold as (g1 & q1 & q2 & Hg1 & Hg').
  destruct (commitVertices_loop w (map_to_list (ucVertices t)) g []) as (A1 & A2 & A3 & A4 & A5 & A6).
  { apply NoDup_fst_map_to_list. }
  { apply (NoDup_locs _ (allV g t)); [apply uc_allV|by apply allV_inj]. }
  { intros r lv Hx%elem_of_map_to_list%uc_allV. destruct (b_vheap _ _ Hb _ _ Hx) as (v & ? & _). eauto. }
  assert (heldVertices g1 = heldVertices g /\ heldEdges g1 = heldEdges g) as [A7 A8].
  { rewrite Hg1. apply (fold_left_inv _ (fun st => heldVertices st.1 = heldVertices g /\ heldEdges st.1 = heldEdges g));
      [|done]. intros [h q] p. unfold commitVertex. destruct (vheap h !! p.2) as [v|]; [|done].
    unfold getState; cbn [snd]; destruct (st_status (v_state v)); by intros [? ?]. }
  rewrite <- Hg1 in A1, A2, A3, A4, A5, A6.
  destruct (commitEdges_loop base t (map_to_list (ucEdges t)) g1 []) as (B1 & B2 & B3 & B4 & B5 & B6 & B7 & B8).
  { apply NoDup_fst_map_to_list. }
  { apply (NoDup_locs _ (allE g t)); [apply uc_allE|by apply allE_inj]. }
  { intros k le Hx%elem_of_map_to_list%uc_allE. destruct (b_eheap _ _ Hb _ _ Hx) as (e & ? & _).
    rewrite A1. eauto. }
  set (g2 := (fold_left (commitEdge base t) (map_to_list (ucEdges t)) (g1, [])).1) in *.
  rewrite Hg'. change (eheap (setQueues q1 q2 g2)) with (eheap g2). change (edges (setQueues q1 q2 g2)) with (edges g2).
  change (vheap (setQueues q1 q2 g2)) with (vheap g2). change (vertices (setQueues q1 q2 g2)) with (vertices g2).
  split_and!.
  - intros le. rewrite <- A1. apply B1.
  - intros k. unfold allE. rewrite lookup_union. destruct (edges g !! k) as [le|] eqn:Hed.
    { rewrite union_Some_l. apply B2. by rewrite A2. }
    rewrite (left_id_L None _). destruct (ucEdges t !! k) as [le|] eqn:Hu.
    + destruct (b_eheap _ _ Hb k le) as (e & He & _); [by apply uc_allE|].
      eapply (B3 k le e); [by apply elem_of_map_to_list|by rewrite A1| |by rewrite A2]. by eapply p_ownE.
    + destruct (edges g2 !! k) as [l'|] eqn:El; [|done]. apply B4 in El as [El|El%elem_of_map_to_list]; congruence.
  - intros l. rewrite B8, A3. case_decide; [|done]. by destruct (vheap g !! l).
  - intros r. rewrite B5. unfold allV. rewrite lookup_union. destruct (vertices g !! r) as [l|] eqn:Hv.
    { rewrite union_Some_l. by apply A4. }
    rewrite (left_id_L None _). destruct (ucVertices t !! r) as [l|] eqn:Hu.
    + destruct (b_vheap _ _ Hb r l) as (v & Hv' & _); [by apply uc_allV|].
      eapply (A5 r l v); [by apply elem_of_map_to_list|done| |done]. by eapply p_ownV.
    + destruct (vertices g1 !! r) as [l'|] eqn:El; [|done]. apply A6 in El as [El|El%elem_of_map_to_list]; congruence.
  - change (heldVertices g2 = heldVertices g). congruence.
  - change (heldEdges g2 = heldEdges g). congruence.
Qed.

(** A recorded edge or a change of an edge is in the list the commit walks. *)
Lemma unrecorded k le e :
  allE g t !! k = Some le -> eheap g !! le = Some e -> le ∉ (map_to_list (ucEdges t)).*2 ->
  st_status (e_state e) <> UNCOMMITTED_DELETE /\ st_status (e_state e) <> UNCOMMITTED_CREATE /\
  forall s, (unstableVersion_ (end_of s e)).2 = INVISIBLE.
Proof.
  intros Hk He Hin. assert (ucEdges t !! k = None) as Huc.
  { destruct (ucEdges t !! k) as [l'|] eqn:Hu; [|done]. pose proof (uc_allE _ _ Hu). simplify_eq.
    destruct Hin. apply list_elem_of_fmap. exists (k, le). by rewrite elem_of_map_to_list. }
  assert (edges g !! k = Some le) as Hed.
  { apply lookup_union_Some_raw in Hk as [?|[_ ?]]; [done|congruence]. }
  destruct (p_recorded _ _ Hp _ _ _ Hed Huc He) as [Hnd Hinv].
  split_and!; [done|by eapply b_ecommitted|done].
Qed.

(** The committed state of every edge the writer owns. *)
Lemma publish_edges :
  (forall k le e, allE g t !! k = Some le -> eheap g !! le = Some e -> exists e',
     eheap g' !! le = Some e' /\ checkReadOnly w (e_state e') = checkReadWrite (e_state e) /\
     forall s, getStableVersionAt w (end_of s e') = getLatestVersion (end_of s e)) /\
  (forall k le, edges g' !! k = Some le -> allE g t !! k = Some le) /\
  (forall k le, evis g t k le -> edges g' !! k = Some le).
Proof.
  destruct commit_objects as (Hheap & Hed & _). split_and!.
  - intros k le e Hk He. destruct (p_older _ _ Hp _ _ _ Hk He) as [Hver Hold]. rewrite Hheap, He.
    case_decide as Hin.
    + exists (commitEdgeObj base w e). split; [done|].
      destruct (commitEdgeObj_fields base w e) as [_ ->]. split; [by apply updateState_visible|].
      intros s. by apply commitEdgeObj_end.
    + exists e. split; [done|]. destruct (unrecorded k le e Hk He Hin) as (Hnd & Hnc & Hinv). split.
      * rewrite <- (updateState_visible w) by done. unfold updateState.
        by destruct (st_status (e_state e)).
      * intros s. rewrite <- (upgrade_latest w) by done. unfold upgradeStableVersion. by rewrite (Hinv s).
  - intros k le. by rewrite Hed.
  - intros k le [Hk _]. by rewrite Hed.
Qed.

(** Vertices the writer sees are owned by the graph after the commit. *)
Lemma publish_vertices r l :
  vvis g t r l -> vertices g' !! r = Some l /\ v_rid <$> vheap g' !! l = Some r.
Proof.
  intros [Hr _]. destruct commit_objects as (_ & _ & Hvh & Hvs & _). rewrite Hvs. split; [done|].
  destruct (b_vheap _ _ Hb _ _ Hr) as (v & Hv & <-). specialize (Hvh l). rewrite Hv in Hvh.
  destruct (vheap g' !! l); case_decide; simplify_eq/=; congruence.
Qed.

(** A reader of the committed version reads the end points of the map. *)
Lemma commit_reads E r k :
  repr g t E -> txnType r = READ_ONLY -> txnVersionId r = w ->
  getVertexSrcDst g' r k =
    match E !! k with Some sd => Ok sd | None => Throw NOGDB_GRAPH_NOEXST_EDGE end.
Proof.
  intros Hr Hro Hver. destruct publish_edges as (He & Hback & Hfwd).
  assert (isReadOnly r = true /\ isReadWrite r = false) as [Hf1 Hf2]
    by (unfold isReadOnly, isReadWrite; by rewrite Hro).
  unfold getVertexSrcDst, lookupEdge, hidden. rewrite Hf1, Hf2, Hver.
  destruct (E !! k) as [sd|] eqn:HE.
  - destruct (proj1 (r_src _ _ _ _ _ Hr) k sd HE) as (le & _ & Hle & _).
    destruct (lock_evis g t Hb k le Hle) as (e & _ & Hhe & _ & Hvis).
    rewrite (Hfwd k le Hle). destruct Hle as [Hk Hx].
    destruct (He k le e Hk Hhe) as (e' & -> & Hst & Hend). simpl. rewrite Hst, Hvis. simpl.
    assert (forall s, endpoint g' r (end_of s e') = Ok (proj_of s sd)) as Hep.
    { intros s. destruct (end_found s none g t E k sd le e) as (l & v & Hf & Hv & _);
        [done|by apply repr_side_none|done|by split|done|].
      unfold endpoint, getCurrentVersion. rewrite Hro, Hver, Hend, Hf. cbn [fst snd].
      destruct (publish_vertices _ _ Hv) as [Hown Hrid].
      unfold lockVertex, ownedV; simpl. destruct (vheap g' !! l) as [v'|]; [|done]. injection Hrid as Hrid.
      assert (owns (vertices g') l = true) as -> by (apply owns_spec; eauto). simpl. by rewrite Hrid. }
    pose proof (Hep SRC) as Hs. pose proof (Hep DST) as Hd. cbn [end_of proj_of] in Hs, Hd.
    rewrite Hs, Hd. by destruct sd.
  - destruct (edges g' !! k) as [le|] eqn:Hed; [|done]. apply Hback in Hed.
    destruct (b_eheap _ _ Hb _ _ Hed) as (e & Hhe & _).
    destruct (He k le e Hed Hhe) as (e' & -> & Hst & _). simpl. rewrite Hst.
    destruct (checkReadWrite (e_state e)) eqn:Hc; simpl; [done|].
    destruct (r_only _ _ _ _ _ Hr k le) as [sd Hsd]; [|congruence]. split; eauto.
Qed.
End publish.

(** After the commit, a reader that starts at the committed version reads for
    every edge id exactly the end points the writer's map had. *)
Theorem commit_publishes g t E base r k :
  repr g t E -> publishable g t ->
  txnType r = READ_ONLY -> txnVersionId r = txnVersionId t ->
  getVertexSrcDst (commitRelation base t g) r k =
    match E !! k with Some sd => Ok sd | None => Throw NOGDB_GRAPH_NOEXST_EDGE end.
Proof. intros Hr Hp. apply commit_reads; [by eapply r_base|done..]. Qed.
