(* ===== verification/Lifecycle.v ===== *)
(** * From one transaction to the next

    What a writer hands over when it commits: [publishable], which the commit
    needs, holds at the start of a transaction, every operation keeps it, and
    the commit establishes it again, together with the representation of the
    same map, for the next writer. *)

From stdpp Require Import base gmap sets list strings sorting fin_sets relations.
From Stdlib Require Import ZArith Lia.
From S2P Require Import Prelude Types VersionControl MultiVersionMap TxnObject TxnData Graph GraphSpec.
From S2P Require Import GraphSteps Schema BaseTxn CommitSpec.

(** ** Steps keep what the commit needs *)
Lemma step_txn a b :
  txn_step a b -> txnVersionId b.2 = txnVersionId a.2 /\ txnType b.2 = txnType a.2.
Proof. by destruct 1. Qed.

Lemma allE_add g t k l k' :
  allE g (addUncommittedEdge k l t) !! k' =
    match allE g t !! k' with Some x => Some x | None => if decide (k = k') then Some l else None end.
Proof.
  unfold allE, addUncommittedEdge; simpl. rewrite !lookup_union, lookup_emplace.
  destruct (edges g !! k'), (ucEdges t !! k'); simpl; try done; by case_decide.
Qed.

Lemma uc_add k l t k' :
  ucEdges (addUncommittedEdge k l t) !! k' =
    match ucEdges t !! k' with Some x => Some x | None => if decide (k = k') then Some l else None end.
Proof. apply lookup_emplace. Qed.

(** Recording an edge that the writer already owns, after a change that only
    recorded edges may show. *)
Lemma publish_touch g t k le e f :
  allE g t !! k = Some le -> eheap g !! le = Some e -> e_rid e = k -> owned_ok g ->
  (st_status (e_state e) = UNCOMMITTED_CREATE -> st_status (e_state (f e)) = UNCOMMITTED_CREATE) ->
  st_versionId (e_state (f e)) = st_versionId (e_state e) ->
  (forall s, older_than (txnVersionId t) (end_of s e) -> older_than (txnVersionId t) (end_of s (f e))) ->
  publishable g t -> publishable (updEdge f le g) (addUncommittedEdge k le t).
Proof.
  intros Hk He Hrid Ho Hst Hver Hold [P1 P2 P3 P4].
  assert (forall k', allE (updEdge f le g) (addUncommittedEdge k le t) !! k' = allE g t !! k') as Hall.
  { intros k'. change (allE g (addUncommittedEdge k le t) !! k' = allE g t !! k'). rewrite allE_add.
    destruct (allE g t !! k') eqn:E; [done|]. case_decide; [congruence|done]. }
  split.
  - intros k' le' e' Hk'. rewrite uc_add. destruct (ucEdges t !! k') eqn:Eu; [done|].
    case_decide as Hkk; [done|]. intros _. change (edges g !! k' = Some le') in Hk'. rewrite (lookup_updEdge g le e) by done. case_decide as Hll; [|by apply (P1 k')].
    subst le'. destruct (o_edges _ Ho _ _ Hk') as (e2 & He2 & Hr2 & _). congruence.
  - intros k' le' e'. rewrite Hall. intros Hk'. rewrite (lookup_updEdge g le e) by done.
    case_decide; [|by apply P2 with k']. intros [= <-]. subst le'.
    destruct (P2 _ _ _ Hk' He) as [? Ho']. split; [by rewrite Hver|]. intros s. by apply Hold.
  - intros k' le' e'. change (edges (updEdge f le g)) with (edges g). rewrite uc_add.
    rewrite (lookup_updEdge g le e) by done. intros Hu Hn.
    assert (ucEdges t !! k' = Some le') as Hu'.
    { destruct (ucEdges t !! k') eqn:Eu; [done|]. case_decide; [|done]. simplify_eq.
      unfold allE in Hk. apply lookup_union_Some_raw in Hk as [?|[_ ?]]; congruence. }
    clear Hu. case_decide; [|by apply P3 with k']. intros [= <-]. subst. apply Hst. by eapply P3.
  - intros r l v. apply P4.
Qed.

Lemma step_publishable a b :
  txn_step a b -> owned_ok a.1 -> (0 <= txnVersionId a.2)%Z -> publishable a.1 a.2 -> publishable b.1 b.2.
Proof.
  destruct 1 as [g t r l Hl|g t k src dst l Hl|g t s k x l|g t s k l|g t s x k le e Hk He Hr|g t k le e Hk He Hs
    |g t k le e Hk He Hr Hst|g t r l v Hr Hv Hs|g t r l v Hr Hv Hrid Hst]; cbn [fst snd]; intros Ho Hw Hp.
  - destruct Hp as [P1 P2 P3 P4]. split; [exact P1|exact P2|exact P3|]. intros r' l' v. simpl.
    rewrite lookup_emplace, lookup_insert. intros Hu Hn. destruct (decide (l = l')); [by intros [= <-]|]. apply (P4 r'); [|done].
    destruct (ucVertices t !! r'); [done|]. case_decide; congruence.
  - destruct Hp as [P1 P2 P3 P4]. split; [| | |exact P4].
    + intros k' le e Hk'. simpl in *. rewrite lookup_emplace. destruct (ucEdges t !! k') eqn:Eu; [done|].
      case_decide; [done|]. intros _. destruct (o_edges _ Ho _ _ Hk') as (e0 & He0 & _).
      rewrite lookup_insert_ne by congruence. by apply (P1 k').
    + intros k' le e. change (allE (setEheap <[l:=newEdge k src dst]> g) (addUncommittedEdge k l t))
        with (allE g (addUncommittedEdge k l t)). rewrite allE_add. simpl. rewrite lookup_insert. intros Hk'.
      destruct (decide (l = le)).
      * intros [= <-]. split; [done|]. intros []; constructor.
      * apply (P2 k'). destruct (allE g t !! k'); [done|]. case_decide; congruence.
    + intros k' le e. simpl. rewrite lookup_emplace, lookup_insert. intros Hu Hn.
      destruct (decide (l = le)); [by intros [= <-]|]. apply (P3 k'); [|done].
      destruct (ucEdges t !! k'); [done|]. case_decide; congruence.
  - destruct Hp as [P1 P2 P3 P4]. split; [exact P1|exact P2|exact P3|]. intros r l' v Hu Hn Hv.
    destruct (upd_heap _ _ _ _ _ _ Hv) as (v0 & Hv0 & _ & <-). by apply (P4 r l').
  - destruct Hp as [P1 P2 P3 P4]. split; [exact P1|exact P2|exact P3|]. intros r l' v Hu Hn Hv.
    destruct (upd_heap _ _ _ _ _ _ Hv) as (v0 & Hv0 & _ & <-). by apply (P4 r l').
  - eapply publish_touch; try done; [by destruct s|by destruct s|]. intros s'. by destruct s, s'.
  - assert (edges g !! k = None) as Hn.
    { destruct (edges g !! k) as [l'|] eqn:El; [|done]. destruct (o_edges _ Ho _ _ El) as (e0 & He0 & _ & Hne).
      apply (lookup_all_l _ (ucEdges t)) in El. unfold allE in Hk. congruence. }
    assert (forall k' le', allE g (deleteUncommittedEdge k t) !! k' = Some le' -> allE g t !! k' = Some le') as Hall.
    { intros k' le'. unfold allE; simpl. rewrite !lookup_union, lookup_delete. case_decide; [|done].
      subst. by rewrite Hn. }
    destruct Hp as [P1 P2 P3 P4]. split; [| | |exact P4].
    + intros k' le' e' Hk'. simpl. rewrite lookup_delete. case_decide; [congruence|]. by apply P1.
    + intros k' le' e' Hk'%Hall. by apply (P2 k').
    + intros k' le' e'. simpl. rewrite lookup_delete. case_decide; [done|]. apply P3.
  - eapply publish_touch; try done; [by rewrite Hst|]. by intros [].
  - assert (vertices g !! r = None) as Hn.
    { destruct (vertices g !! r) as [l'|] eqn:El; [|done]. destruct (o_vertices _ Ho _ _ El) as (v0 & Hv0 & _ & Hne).
      apply (lookup_all_l _ (ucVertices t)) in El. unfold allV in Hr. congruence. }
    destruct Hp as [P1 P2 P3 P4]. split; [exact P1|exact P2|exact P3|].
    intros r' l' v'. simpl. rewrite lookup_delete. case_decide; [done|]. apply P4.
  - destruct Hp as [P1 P2 P3 P4]. split; [exact P1|exact P2|exact P3|]. intros r' l' v'.
    rewrite lookup_updVertex. simpl. rewrite lookup_emplace. intros Hu Hn.
    assert (ucVertices t !! r' = Some l') as Hu'.
    { destruct (ucVertices t !! r') eqn:Eu; [done|]. case_decide; [|done]. simplify_eq.
      unfold allV in Hr. apply lookup_union_Some_raw in Hr as [Hr|[_ ?]]; congruence. }
    clear Hu. case_decide; [|by apply P4 with r']. subst. rewrite Hv. intros _. exfalso.
    pose proof (P4 r' l' v Hu' Hn Hv). congruence.
Qed.

Lemma steps_publishable a b :
  txn_steps a b -> owned_ok a.1 -> (0 <= txnVersionId a.2)%Z -> publishable a.1 a.2 ->
  publishable b.1 b.2 /\ txnVersionId b.2 = txnVersionId a.2.
Proof.
  induction 1 as [a|a b c Hab Hbc IH]; intros Ho Hw Hp; [done|].
  destruct (step_txn a b Hab) as [Hv _]. destruct IH as [H1 H2].
  - by eapply step_owned.
  - lia.
  - by eapply step_publishable.
  - split; [done|congruence].
Qed.

(** ** What the commit leaves for the next writer *)
Lemma getLatest_upgrade {T} `{Default T} w (vc : VersionControl T) :
  getLatestVersion (upgradeStableVersion w vc) = getLatestVersion vc.
Proof.
  destruct vc as [l [u []]]; [done|]. unfold getLatestVersion, upgradeStableVersion; simpl.
  rewrite last_snoc. simpl. by destruct (status u).
Qed.

Lemma commitEdgeObj_latest base w e s :
  getLatestVersion (end_of s (commitEdgeObj base w e)) = getLatestVersion (end_of s e).
Proof.
  unfold commitEdgeObj. destruct (st_status (e_state e)), s;
    cbn [setSource setTarget setEState e_source e_target end_of];
    by rewrite getLatest_upgrade, ?clear_preserves_latest.
Qed.

Lemma updateState_hidden w st : checkReadWrite (updateState w st).1 = checkReadWrite st.
Proof. unfold updateState, checkReadWrite. by destruct (st_status st) eqn:E; simpl; rewrite ?E. Qed.

(** Pruning and publishing the cells of an adjacency map keeps what is found. *)
Lemma tl_find_commit base w (k : RecordId) (m : Adj) j :
  tl_find j.1 j.2 (tl_modify (upgradeStableVersion w) k.1 k.2 (tl_clear base m)) = tl_find j.1 j.2 m.
Proof.
  rewrite !tl_find_flat, flat_modify, flat_clear, <- (mv_find_clear base (j.1, j.2) (flat m)).
  unfold mv_find, mv_modify. rewrite lookup_alter. case_decide as Hk; [rewrite <- Hk|done].
  destruct (mv_clear base (flat m) !! (k.1, k.2)); simpl; [apply getLatest_upgrade|done].
Qed.

Lemma commitAdj_adj s s' t base w rid ptr g l k :
  vAdj s' (commitAdj (upd_of s) t base w rid ptr g) l k = vAdj s' g l k.
Proof.
  unfold commitAdj. destruct (lockVertex g t ptr) as [[l0 v0]|]; [|done]. unfold vAdj.
  rewrite lookup_updVertex. case_decide; [subst|done]. destruct (vheap g !! l) as [v|]; [simpl|done].
  rewrite adj_upd. case_decide; [|done]. subst. by rewrite tl_find_commit.
Qed.

Lemma commitEdge_adj base t st p s l k : vAdj s (commitEdge base t st p).1 l k = vAdj s st.1 l k.
Proof.
  destruct st as [g q]. unfold commitEdge. destruct (eheap g !! p.2) as [e|]; [|done].
  match goal with |- context [eheap ?x !! p.2] => set (g1 := x) end.
  assert (vAdj s g1 l k = vAdj s g l k) as Hg1 by (unfold g1; by destruct (getState (e_state e)).2).
  cbn [fst]. rewrite <- Hg1. destruct (eheap g1 !! p.2) as [e1|]; [|done]. cbn [fst].
  change setOut with (upd_of SRC). change setIn with (upd_of DST).
  change (vAdj s (updEdge ?f ?l0 ?h) l k) with (vAdj s h l k). by rewrite !commitAdj_adj.
Qed.

Lemma commitVertex_adj w st p s l k : vAdj s (commitVertex w st p).1 l k = vAdj s st.1 l k.
Proof.
  destruct st as [g q]. unfold commitVertex. destruct (vheap g !! p.2) as [v|]; [|done]. cbn [fst].
  set (g1 := match (getState (v_state v)).2 with UNCOMMITTED_CREATE => _ | _ => g end).
  assert (vheap g1 = vheap g) as Hh by (unfold g1; by destruct (getState (v_state v)).2).
  unfold vAdj. rewrite lookup_updVertex, Hh. case_decide; [|done]. destruct (vheap g !! l); by destruct s.
Qed.

Lemma fold_adj {P} (f : Graph * list (RecordId * TxnId) -> P -> Graph * list (RecordId * TxnId)) s l k ps st :
  (forall st p, vAdj s (f st p).1 l k = vAdj s st.1 l k) -> vAdj s (fold_left f ps st).1 l k = vAdj s st.1 l k.
Proof. intros Hf. revert st. induction ps as [|p ps IH]; intros st; simpl; [done|]. by rewrite IH, Hf. Qed.

Lemma commit_adj g t base s l k :
  base_ok g t -> publishable g t -> vAdj s (commitRelation base t g) l k = vAdj s g l k.
Proof.
  intros Hb Hp. destruct (commitRelation_unfold g t base Hb Hp) as (g1 & q1 & q2 & Hg1 & ->).
  transitivity (vAdj s (fold_left (commitEdge base t) (map_to_list (ucEdges t)) (g1, [])).1 l k); [done|].
  rewrite fold_adj by (intros; apply commitEdge_adj). cbn [fst]. rewrite Hg1.
  by rewrite fold_adj by (intros; apply commitVertex_adj).
Qed.

(** The representation depends on what the writer sees only. *)
Lemma repr_transport g t g' t' E :
  repr g t E -> base_ok g' t' -> (forall r l, vvis g' t' r l <-> vvis g t r l) ->
  (forall k l, evis g' t' k l <-> evis g t k l) -> (forall s l, eEnd s g' l = eEnd s g l) ->
  (forall s l k, vAdj s g' l k = vAdj s g l k) -> repr g' t' E.
Proof.
  intros Hr Hb Hv He Hend Hadj.
  assert (forall s, side_ok s none g' t' E) as Hside.
  { intros s. destruct (repr_side_none s _ _ _ Hr) as [H1 H2]. split.
    - intros k sd Hk. destruct (H1 k sd Hk) as (le & l & ? & ? & ?). exists le, l. by rewrite He, Hv, Hend.
    - intros r l k Hl%Hv HX. specialize (H2 r l k Hl HX). rewrite Hadj. unfold entry_ok in *.
      destruct (vAdj s g l k).2; [|done]. destruct H2 as (le & sd & ? & ? & ?). exists le, sd. by rewrite He. }
  split; [done| |apply (Hside SRC)|apply (Hside DST)]. intros k le Hk%He. by eapply r_only.
Qed.

(** A writer that has not done anything yet. *)
Record fresh_writer (t : BaseTxn) : Prop := {
  fw_type : txnType t = READ_WRITE;
  fw_vertices : ucVertices t = ∅;
  fw_edges : ucEdges t = ∅;
}.

Section handover.
  Context (g : Graph) (t : BaseTxn) (E : gmap RecordId (RecordId * RecordId)) (base : TxnId).
  Context (Hr : repr g t E) (Hp : publishable g t) (t' : BaseTxn) (Hf : fresh_writer t').
Let g' := commitRelation base t g.
Let Hb : base_ok g t := r_base _ _ _ _ _ Hr.

Lemma handover_all : (forall r, allV g' t' !! r = allV g t !! r) /\ (forall k, allE g' t' !! k = allE g t !! k).
Proof.
  destruct (commit_objects g t base Hb Hp) as (_ & He & _ & Hv & _).
  unfold allV at 1, allE at 1. rewrite (fw_vertices _ Hf), (fw_edges _ Hf), !(right_id_L ∅ _). done.
Qed.

(** An edge after the commit: where it leads, and that nothing is pending. *)
Lemma handover_edge k le e :
  allE g t !! k = Some le -> eheap g !! le = Some e ->
  exists e', eheap g' !! le = Some e' /\ e_rid e' = e_rid e /\
    checkReadWrite (e_state e') = checkReadWrite (e_state e) /\
    (st_status (e_state e') = COMMITTED_CREATE \/ st_status (e_state e') = COMMITTED_DELETE) /\
    (st_versionId (e_state e') <= txnVersionId t)%Z /\
    forall s, getLatestVersion (end_of s e') = getLatestVersion (end_of s e) /\
      (unstableVersion_ (end_of s e')).2 = INVISIBLE /\
      Forall (fun c => (versionId c <= txnVersionId t)%Z) (stableVersions_ (end_of s e')).
Proof.
  intros Hk He. destruct (commit_objects g t base Hb Hp) as (Hh & _). fold g' in Hh.
  destruct (p_older _ _ Hp _ _ _ Hk He) as [Hver Hold]. rewrite Hh, He. case_decide as Hin; simpl.
  - exists (commitEdgeObj base (txnVersionId t) e). destruct (commitEdgeObj_fields base (txnVersionId t) e) as [H1 H2].
    split_and!; [done|done|by rewrite H2, updateState_hidden|..].
    + rewrite H2. unfold updateState. destruct (st_status (e_state e)) eqn:E1; simpl; rewrite ?E1; auto.
    + rewrite H2. unfold updateState. destruct (st_status (e_state e)) eqn:E1; simpl; lia.
    + intros s. split; [apply commitEdgeObj_latest|]. specialize (Hold s).
      assert (exists vc, end_of s (commitEdgeObj base (txnVersionId t) e) = upgradeStableVersion (txnVersionId t) vc /\
        older_than (txnVersionId t) vc) as (vc & -> & Ho).
      { unfold commitEdgeObj. destruct (st_status (e_state e)), s; eexists; (split; [reflexivity|]);
          cbn [setSource setTarget setEState e_source e_target end_of] in *; first [done|by apply clear_older]. }
      destruct vc as [l [u []]]; unfold older_than in Ho; simpl in *; (split; [done|]).
      * eapply Forall_impl; [exact Ho|]. simpl; lia.
      * apply Forall_app. split; [|by constructor; [simpl; lia|]]. eapply Forall_impl; [exact Ho|]. simpl; lia.
  - exists e. destruct (unrecorded g t Hb Hp k le e Hk He Hin) as (H1 & H2 & H3). split_and!; try done.
    + destruct (st_status (e_state e)); auto; done.
    + intros s. split_and!; [done|done|]. eapply Forall_impl; [exact (Hold s)|]. simpl; lia.
Qed.

Lemma handover_vertex r l v :
  allV g t !! r = Some l -> vheap g !! l = Some v ->
  exists v', vheap g' !! l = Some v' /\ v_rid v' = v_rid v /\
    checkReadWrite (v_state v') = checkReadWrite (v_state v) /\ st_status (v_state v') <> UNCOMMITTED_CREATE.
Proof.
  intros Hk Hv. destruct (commit_objects g t base Hb Hp) as (_ & _ & Hh & _). fold g' in Hh.
  specialize (Hh l). rewrite Hv in Hh. destruct (vheap g' !! l) as [v'|]; [|by case_decide].
  exists v'. cbn in Hh. case_decide as Hin; injection Hh as H1 H2; rewrite H2; (split_and!; [done|done|..]).
  - by rewrite updateState_hidden.
  - unfold updateState. destruct (st_status (v_state v)) eqn:E1; simpl; by rewrite ?E1.
  - done.
  - eapply b_vcommitted; [done| |done].
    apply lookup_union_Some_raw in Hk as [Hk|[_ Hk]]; [done|]. destruct Hin. apply list_elem_of_fmap.
    exists (r, l). by rewrite elem_of_map_to_list.
Qed.

Lemma handover_base : base_ok g' t'.
Proof.
  destruct handover_all as [HV HE]. destruct (commit_objects g t base Hb Hp) as (_ & Hed & _ & Hvs & _).
  fold g' in Hed, Hvs. split.
  - apply Hf.
  - intros r l. rewrite HV. intros Hk. destruct (b_vheap _ _ Hb _ _ Hk) as (v & Hv & <-).
    destruct (handover_vertex _ _ _ Hk Hv) as (v' & ? & ? & _). by exists v'.
  - intros k l. rewrite HE. intros Hk. destruct (b_eheap _ _ Hb _ _ Hk) as (e & He & <-).
    destruct (handover_edge _ _ _ Hk He) as (e' & ? & ? & _). by exists e'.
  - intros r l l'. by rewrite (fw_vertices _ Hf), lookup_empty.
  - intros r l l'. by rewrite (fw_edges _ Hf), lookup_empty.
  - intros r l v'. rewrite Hvs. intros Hk Hv'. destruct (b_vheap _ _ Hb _ _ Hk) as (v & Hv & <-).
    destruct (handover_vertex _ _ _ Hk Hv) as (v2 & ? & _ & _ & ?). by simplify_eq.
  - intros k l e'. rewrite Hed. intros Hk He'. destruct (b_eheap _ _ Hb _ _ Hk) as (e & He & <-).
    destruct (handover_edge _ _ _ Hk He) as (e2 & ? & _ & _ & [Hs|Hs] & _); simplify_eq; by rewrite Hs.
Qed.

Lemma handover_repr : repr g' t' E.
Proof.
  destruct handover_all as [HV HE]. apply (repr_transport g t); [done|apply handover_base|..].
  - intros r l. unfold vvis. rewrite HV. split; intros [Hk (v & Hv & Hs)]; (split; [done|]);
      destruct (b_vheap _ _ Hb _ _ Hk) as (v0 & Hv0 & _);
      destruct (handover_vertex _ _ _ Hk Hv0) as (v1 & Hv1 & _ & Hs1 & _); simplify_eq.
    + exists v0. by rewrite <- Hs1.
    + exists v1. by rewrite Hs1.
  - intros k l. unfold evis. rewrite HE. split; intros [Hk (e & He & Hs)]; (split; [done|]);
      destruct (b_eheap _ _ Hb _ _ Hk) as (e0 & He0 & _);
      destruct (handover_edge _ _ _ Hk He0) as (e1 & He1 & _ & Hs1 & _); simplify_eq.
    + exists e0. by rewrite <- Hs1.
    + exists e1. by rewrite Hs1.
  - intros s l. unfold eEnd. destruct (commit_objects g t base Hb Hp) as (Hh & _). fold g' in Hh. rewrite Hh.
    case_decide; [|done]. destruct (eheap g !! l); simpl; [apply commitEdgeObj_latest|done].
  - intros s l k. by apply commit_adj.
Qed.

Lemma handover_publishable : (txnVersionId t < txnVersionId t')%Z -> publishable g' t'.
Proof.
  intros Hv. destruct handover_all as [HV HE].
  assert (forall k le e', allE g' t' !! k = Some le -> eheap g' !! le = Some e' ->
    (st_status (e_state e') = COMMITTED_CREATE \/ st_status (e_state e') = COMMITTED_DELETE) /\
    (st_versionId (e_state e') <= txnVersionId t)%Z /\
    forall s, (unstableVersion_ (end_of s e')).2 = INVISIBLE /\ older_than (txnVersionId t') (end_of s e')) as Hall.
  { intros k le e' Hk He'. rewrite HE in Hk. destruct (b_eheap _ _ Hb _ _ Hk) as (e & He & _).
    destruct (handover_edge _ _ _ Hk He) as (e2 & ? & _ & _ & H1 & H2 & H3). simplify_eq.
    split_and!; [done|done|]. intros s. destruct (H3 s) as (_ & H4 & H5). split; [done|].
    eapply Forall_impl; [exact H5|]. simpl; lia. }
  split.
  - intros k le e' Hk _ He'. destruct (Hall k le e') as (Hs & _ & H3); [by apply lookup_all_l|done|].
    split; [by destruct Hs as [-> | ->]|]. intros s. apply H3.
  - intros k le e' Hk He'. destruct (Hall k le e' Hk He') as (_ & H2 & H3). split; [lia|]. intros s. apply H3.
  - intros k le e'. by rewrite (fw_edges _ Hf), lookup_empty.
  - intros r l v. by rewrite (fw_vertices _ Hf), lookup_empty.
Qed.
End handover.
