(* ===== verification/TxnSpec.v ===== *)
(** * Transactions as a whole

    The life cycle of transactions and the garbage collection that the end of
    a reader triggers (src/src/base_txn.cpp). *)

From stdpp Require Import base gmap sets list strings sorting.
From Stdlib Require Import ZArith Lia.
From S2P Require Import Prelude Types VersionControl MultiVersionMap TxnObject TxnData Graph Schema BaseTxn.

(** ** Life cycle *)
Lemma collect_stat v c : dbTxnStat (collect v c) = dbTxnStat c.
Proof. done. Qed.

Lemma dsCall_stat b x c : dbTxnStat (dsCall b x c) = dbTxnStat c.
Proof. by destruct b. Qed.

(** The statistics after the commit of a writer. *)
Lemma commit_writer d c t :
  isCompleted t = false -> txnType t = READ_WRITE -> (isWithDataStore t = true -> d = Ok tt) ->
  exists c' t', commit d c t = Ok (true, c', t') /\
    dbTxnStat c' = (fetchAddMaxVersionId (dbTxnStat c)).2 /\ isCompleted t' = true.
Proof.
  intros Hc Ht Hd. unfold commit. rewrite Hc, Ht.
  replace (if isWithDataStore t then d else Ok tt) with (Ok tt : Outcome unit)
    by (destruct (isWithDataStore t); [by rewrite Hd|done]).
  cbn [obind]. eexists _, _. split; [reflexivity|]. split; [|done].
  case_match; [rewrite collect_stat|]; cbn [setTxnStat dbTxnStat];
    case_bool_decide; cbn [setDbInfo dbTxnStat setRelation setSchema]; by rewrite dsCall_stat.
Qed.

(** ** Garbage collection at the end of a reader *)
Lemma foldl_delete {A} `{Countable K} (ks : list K) (m : gmap K A) k :
  foldl (fun m k => delete k m) m ks !! k = if decide (k ∈ ks) then None else m !! k.
Proof.
  revert m. induction ks as [|k0 ks IH]; intros m; simpl.
  - done.
  - rewrite IH, lookup_delete. repeat case_decide; set_solver.
Qed.

(** The delete queues hold ids of objects whose deletion is committed. *)
Record queues_ok (c : Context) : Prop := {
  q_vertices : forall r d l v, (r, d) ∈ deletedVertices (dbRelation c) ->
    vertices (dbRelation c) !! r = Some l -> vheap (dbRelation c) !! l = Some v ->
    v_state v = mkState d COMMITTED_DELETE;
  q_edges : forall r d l e, (r, d) ∈ deletedEdges (dbRelation c) ->
    edges (dbRelation c) !! r = Some l -> eheap (dbRelation c) !! l = Some e ->
    e_state e = mkState d COMMITTED_DELETE;
  q_classes : forall i d l k, (i, d) ∈ deletedClassId (dbSchema c) ->
    schemaInfo (dbSchema c) !! i = Some l -> sheap (dbSchema c) !! l = Some k ->
    cd_state k = mkState d COMMITTED_DELETE;
}.

Lemma popped {A} (q : list (A * TxnId)) v x :
  x ∈ (pop_front q v).1 -> exists d, (x, d) ∈ q /\ (d <= v)%Z.
Proof.
  intros Hx. destruct (pop_front q v) as [r q'] eqn:Hp. simpl in Hx.
  destruct (pop_front_split q v r q' Hp) as (q1 & -> & -> & Hall).
  apply list_elem_of_fmap in Hx as ([y d] & -> & Hy). exists d. split; [set_solver|].
  rewrite Forall_forall in Hall. by apply (Hall (y, d)).
Qed.

Lemma deleted_hidden r d v :
  isReadOnly r = true -> (d <= v)%Z -> (v <= txnVersionId r)%Z ->
  checkReadOnly (txnVersionId r) (mkState d COMMITTED_DELETE) = true.
Proof. intros _ Hd Hv. unfold checkReadOnly; simpl. lia. Qed.

(** Collecting up to [v] is invisible to a reader of version [v] or newer. *)
Lemma collect_lookups c v r :
  queues_ok c -> txnType r = READ_ONLY -> (v <= txnVersionId r)%Z ->
  (forall rid, lookupVertex (dbRelation (collect v c)) r rid = lookupVertex (dbRelation c) r rid) /\
  (forall rid, lookupEdge (dbRelation (collect v c)) r rid = lookupEdge (dbRelation c) r rid) /\
  (forall id, findClass (dbSchema (collect v c)) r id = findClass (dbSchema c) r id).
Proof.
  intros Hq Hro Hv. assert (isReadOnly r = true) as Hf by (unfold isReadOnly; by rewrite Hro).
  destruct (pop_front (deletedEdges (dbRelation c)) v) as [es qe] eqn:He.
  destruct (pop_front (deletedVertices (dbRelation c)) v) as [vs qv] eqn:Hvs.
  destruct (pop_front (deletedClassId (dbSchema c)) v) as [ids qi] eqn:Hi.
  assert (dbRelation (collect v c) = forceDeleteVertices vs (setQueues qv qe
    (forceDeleteEdges es (setQueues (deletedVertices (dbRelation c)) qe (dbRelation c))))) as Hg.
  { unfold collect, setRelation; simpl. unfold clearDeletedElements. rewrite He.
    by change (deletedVertices (forceDeleteEdges _ _)) with (deletedVertices (dbRelation c)); rewrite Hvs. }
  assert (dbSchema (collect v c) = forceDelete ids
    (mkSchema (sheap (dbSchema c)) (schemaInfo (dbSchema c)) qi (heldClasses (dbSchema c)))) as Hs.
  { unfold collect, setSchema; simpl. unfold clearDeletedClasses. by rewrite Hi. }
  split_and!.
  - intros rid. rewrite Hg. unfold lookupVertex, hidden; simpl. rewrite foldl_delete, Hf.
    case_decide as Hin; [|done].
    assert (rid ∈ (pop_front (deletedVertices (dbRelation c)) v).1) as Hin' by (by rewrite Hvs).
    apply popped in Hin' as (d & Hd & Hle). destruct (vertices (dbRelation c) !! rid) as [l|] eqn:Hl; [|done].
    destruct (vheap (dbRelation c) !! l) as [a|] eqn:Ha; simpl; [|done].
    by rewrite (q_vertices c Hq _ _ _ _ Hd Hl Ha), (deleted_hidden r d v).
  - intros rid. rewrite Hg. unfold lookupEdge, hidden; simpl. rewrite foldl_delete, Hf.
    case_decide as Hin; [|done].
    assert (rid ∈ (pop_front (deletedEdges (dbRelation c)) v).1) as Hin' by (by rewrite He).
    apply popped in Hin' as (d & Hd & Hle). destruct (edges (dbRelation c) !! rid) as [l|] eqn:Hl; [|done].
    destruct (eheap (dbRelation c) !! l) as [a|] eqn:Ha; simpl; [|done].
    by rewrite (q_edges c Hq _ _ _ _ Hd Hl Ha), (deleted_hidden r d v).
  - intros id. rewrite Hs. unfold findClass, classHidden; simpl. rewrite foldl_delete, Hf.
    case_decide as Hin; [|done].
    assert (id ∈ (pop_front (deletedClassId (dbSchema c)) v).1) as Hin' by (by rewrite Hi).
    apply popped in Hin' as (d & Hd & Hle). destruct (schemaInfo (dbSchema c) !! id) as [l|] eqn:Hl; [|done].
    destruct (sheap (dbSchema c) !! l) as [a|] eqn:Ha; simpl; [|done].
    by rewrite (q_classes c Hq _ _ _ _ Hd Hl Ha), (deleted_hidden r d v).
Qed.

(** C24. When a reader ends, by commit or by rollback, and collects, every other
    active reader finds the same vertices, edges and classes as before.  The
    registry is that of any calm run: interleaved starts may break it
    ([interleaved_start_breaks_oldest_reader]). *)
Theorem reader_end_gc_safe n st d c t r :
  rtc calm_step (initRace n) st -> dbTxnStat c = rs_stat st -> queues_ok c ->
  txnType t = READ_ONLY -> isCompleted t = false -> (txnId t, txnVersionId t) ∈ activeTxnIds (dbTxnStat c) ->
  txnType r = READ_ONLY -> (txnId r, txnVersionId r) ∈ activeTxnIds (dbTxnStat c) -> txnId r <> txnId t ->
  exists c1 t1 c2 t2, commit d c t = Ok (true, c1, t1) /\ rollback c t = Ok (true, c2, t2) /\
    activeTxnIds (dbTxnStat c1) = smap_erase (txnId t) (activeTxnIds (dbTxnStat c)) /\
    (forall rid, lookupVertex (dbRelation c1) r rid = lookupVertex (dbRelation c) r rid /\
                 lookupVertex (dbRelation c2) r rid = lookupVertex (dbRelation c) r rid) /\
    (forall rid, lookupEdge (dbRelation c1) r rid = lookupEdge (dbRelation c) r rid /\
                 lookupEdge (dbRelation c2) r rid = lookupEdge (dbRelation c) r rid) /\
    (forall id, findClass (dbSchema c1) r id = findClass (dbSchema c) r id /\
                findClass (dbSchema c2) r id = findClass (dbSchema c) r id).
Proof.
  intros Hcalm Hst Hq Ht Hc Hin Hr Hrin Hne.
  assert (stat_inv (dbTxnStat c)) as Hinv by (rewrite Hst; by eapply calm_stat_inv, calm_inv_reachable).
  destruct (isLastMin_spec _ _ _ Hinv Hin) as (b & Hlast & Hb).
  set (c0 := if b then collect (u64 (txnVersionId t + 1)) c else c).
  assert ((forall rid, lookupVertex (dbRelation c0) r rid = lookupVertex (dbRelation c) r rid) /\
    (forall rid, lookupEdge (dbRelation c0) r rid = lookupEdge (dbRelation c) r rid) /\
    (forall id, findClass (dbSchema c0) r id = findClass (dbSchema c) r id)) as (H1 & H2 & H3).
  { unfold c0. destruct b; [|done]. apply collect_lookups; [done..|].
    destruct Hb as [Hall _]. specialize (Hall eq_refl). rewrite Forall_forall in Hall.
    assert (txnVersionId t < txnVersionId r)%Z as Hlt.
    { apply (Hall (txnId r, txnVersionId r)). apply list_elem_of_filter. by split. }
    destruct Hinv as (_ & Hbounds & _ & Hmax). rewrite Forall_forall in Hbounds.
    destruct (Hbounds _ Hin) as [_ Hbt]. unfold u64, UINT64_MAX in *. simpl in Hbt.
    rewrite Z.mod_small by lia. lia. }
  exists (dsCall (isWithDataStore t) DS_ROLLBACK (setTxnStat (removeActiveTxnId (txnId t)) c0)), (complete t).
  exists (dsCall (isWithDataStore t && negb (isCommitDatastore t)) DS_ROLLBACK
            (setTxnStat (removeActiveTxnId (txnId t)) c0)), (complete t).
  split_and!.
  - unfold commit. rewrite Hc, Ht, Hlast. done.
  - unfold rollback. rewrite Hc, Ht, Hlast. done.
  - rewrite dsCall_stat. unfold c0. by destruct b.
  - intros rid. unfold dsCall. repeat case_match; simpl; by rewrite H1.
  - intros rid. unfold dsCall. repeat case_match; simpl; by rewrite H2.
  - intros id. unfold dsCall. repeat case_match; simpl; by rewrite H3.
Qed.
