(* ===== verification/Handle.v ===== *)
(** * The transaction handle

    Model of [Txn] (src/src/txn.cpp): a variable of the program that owns a
    shared [BaseTxn].  The handles are copied, moved, assigned and destroyed.
    [txnBase] is a [std::shared_ptr]: each base has a use count that a copy of
    the pointer increments and the end of a pointer decrements, and the step
    to zero runs [~BaseTxn].  All handles are of one context, so the assignment
    of the context is that of an object to itself. *)

From stdpp Require Import base gmap sets list strings sorting.
From Stdlib Require Import ZArith Lia.
From S2P Require Import Prelude.
From S2P Require Import Types.
From S2P Require Import TxnObject.
From S2P Require Import TxnData.
From S2P Require Import Graph.
From S2P Require Import Schema.
From S2P Require Import BaseTxn.
From S2P Require Import TxnSpec.

(** Named variables, and the temporaries of a copy assignment. *)
Abbreviation Var := (string + bool)%type.
Definition tmp : Var := inr false.
Definition swapped : Var := inr true.

Record Handle := mkHandle { h_mode : TxnType; h_base : option Loc }.
Record Program := mkProgram {
  p_ctx : Context;
  p_bases : gmap Loc BaseTxn;
  p_handles : gmap Var Handle;
  p_counts : gmap Loc nat;        (* the use counts of the bases *)
}.

Definition Stmt : Type := Program -> Program * Outcome unit.
Definition sthen (a b : Stmt) : Stmt := fun p => match a p with (p', Ok _) => b p' | r => r end.

(** ** Shared ownership *)
Definition setCounts (f : gmap Loc nat -> gmap Loc nat) (p : Program) : Program :=
  mkProgram (p_ctx p) (p_bases p) (p_handles p) (f (p_counts p)).

(** [std::make_shared]: a new base with one owner. *)
Definition makeShared (l : Loc) (c : Context) (t : BaseTxn) (p : Program) : Program :=
  mkProgram c (<[l := t]> (p_bases p)) (p_handles p) (<[l := 1]> (p_counts p)).

(** The copy constructor of the pointer. *)
Definition acquire (o : option Loc) (p : Program) : Program :=
  match o with None => p | Some l => setCounts (alter S l) p end.

(** [~BaseTxn]. *)
Definition destroyBase (l : Loc) (p : Program) : Program :=
  match p_bases p !! l with
  | None => p
  | Some t =>
      mkProgram (dsCall (isWithDataStore t && negb (isCompleted t)) DS_ROLLBACK (p_ctx p))
        (delete l (p_bases p)) (p_handles p) (delete l (p_counts p))
  end.

(** The end of a pointer: one use less, and with the last the base goes. *)
Definition release (o : option Loc) (p : Program) : Program :=
  match o with
  | None => p
  | Some l =>
      match p_counts p !! l with
      | Some (S (S n)) => setCounts <[l := S n]> p
      | _ => destroyBase l p
      end
  end.

Definition setHandles (f : gmap Var Handle -> gmap Var Handle) (p : Program) : Program :=
  mkProgram (p_ctx p) (p_bases p) (f (p_handles p)) (p_counts p).
Definition setBase (l : Loc) (c : Context) (t : BaseTxn) (p : Program) : Program :=
  mkProgram c (<[l := t]> (p_bases p)) (p_handles p) (p_counts p).

(** A handle with its transaction; [None] is a handle that was moved from. *)
Definition baseOf (x : Var) (p : Program) : Outcome (option (Loc * BaseTxn)) :=
  match p_handles p !! x with
  | None => UB
  | Some h =>
      match h_base h with
      | None => Ok None
      | Some l => match p_bases p !! l with Some t => Ok (Some (l, t)) | None => UB end
      end
  end.

(** ** Operations *)
Definition newTxn (x : Var) (mode : TxnType) : Stmt := fun p =>
  match p_handles p !! x, beginTxn (p_ctx p) (bool_decide (mode = READ_WRITE)) false with
  | None, Ok (t, c) =>
      let l := fresh (dom (p_bases p)) in
      (setHandles <[x := mkHandle mode (Some l)]> (makeShared l c t p), Ok tt)
  | None, Throw e =>
      (mkProgram (dsCall true DS_ROLLBACK (dsCall true DS_BEGIN_RW (p_ctx p))) (p_bases p) (p_handles p) (p_counts p), Throw e)
  | _, _ => (p, UB)
  end.

(** [rollback] is [noexcept]. *)
Definition txnRollback (x : Var) : Stmt := fun p =>
  match baseOf x p with
  | Ok None => (p, Ok tt)
  | Ok (Some (l, t)) =>
      match rollback (p_ctx p) t with
      | Ok (_, c, t') => (setBase l c t' p, Ok tt)
      | _ => (p, UB)
      end
  | _ => (p, UB)
  end.

(** The answer of [BaseTxn::commit] is not used. *)
Definition txnCommit (dsCommit : Outcome unit) (x : Var) : Stmt := fun p =>
  match baseOf x p with
  | Ok (Some (l, t)) =>
      match commit dsCommit (p_ctx p) t with
      | Ok (_, c, t') => (setBase l c t' p, Ok tt)
      | Throw e =>
          match txnRollback x (setBase l (dsCall (isWithDataStore t) DS_COMMIT (p_ctx p)) t p) with
          | (p', Ok _) => (p', Throw e)
          | r => r
          end
      | UB => (p, UB)
      end
  | _ => (p, UB)
  end.

Definition destroyTxn (x : Var) : Stmt :=
  sthen (txnRollback x) (fun p =>
    match p_handles p !! x with
    | None => (p, UB)
    | Some h => (release (h_base h) (setHandles (delete x) p), Ok tt)
    end).

(** [Txn x(y)], [Txn x(std::move(y))]. *)
Definition copyTxn (x y : Var) : Stmt := fun p =>
  match p_handles p !! x, p_handles p !! y with
  | None, Some h => (acquire (h_base h) (setHandles <[x := h]> p), Ok tt)
  | _, _ => (p, UB)
  end.
Definition moveTxn (x y : Var) : Stmt := fun p =>
  match p_handles p !! x, p_handles p !! y with
  | None, Some h => (setHandles (fun hs => <[x := h]> (<[y := mkHandle (h_mode h) None]> hs)) p, Ok tt)
  | _, _ => (p, UB)
  end.

(** [x = std::move(y)]: the old transaction of [x] loses an owner, and is not
    rolled back. *)
Definition moveAssign (x y : Var) : Stmt := fun p =>
  if bool_decide (x = y) then (p, Ok tt)
  else
    match p_handles p !! x, p_handles p !! y with
    | Some h, Some h' =>
        (release (h_base h) (setHandles (fun hs => <[x := h']> (<[y := mkHandle (h_mode h') None]> hs)) p), Ok tt)
    | _, _ => (p, UB)
    end.

(** [x = y]: a copy, and a swap by moves. *)
Definition copyAssign (x y : Var) : Stmt := fun p =>
  if bool_decide (x = y) then (p, Ok tt)
  else
    sthen (copyTxn tmp y) (sthen (moveTxn swapped tmp) (sthen (moveAssign tmp x) (sthen (moveAssign x swapped)
      (sthen (destroyTxn swapped) (destroyTxn tmp))))) p.

Definition getTxnId (x : Var) (p : Program) : Outcome TxnId :=
  let* b := baseOf x p in match b with Some (_, t) => Ok (txnId t) | None => UB end.
Definition getVersionId (x : Var) (p : Program) : Outcome TxnId :=
  let* b := baseOf x p in match b with Some (_, t) => Ok (txnVersionId t) | None => UB end.
Definition getTxnMode (x : Var) (p : Program) : Outcome TxnType :=
  match p_handles p !! x with Some h => Ok (h_mode h) | None => UB end.

(** [Db::getDbInfo]: a reader is given the counters of the last commit, a
    writer its own. *)
Definition getDbInfo (x : Var) (p : Program) : Outcome DBInfo :=
  let* mode := getTxnMode x p in
  match mode with
  | READ_ONLY => Ok (dbInfo (p_ctx p))
  | READ_WRITE => let* b := baseOf x p in match b with Some (_, t) => Ok (txnDbInfo t) | None => UB end
  end.

(** ** The statements of a program *)
Inductive stmt :=
| SNew (x : Var) (mode : TxnType)
| SCommit (dsCommit : Outcome unit) (x : Var)
| SRollback (x : Var)
| SDestroy (x : Var)
| SCopy (x y : Var)
| SMove (x y : Var)
| SMoveAssign (x y : Var)
| SCopyAssign (x y : Var).
Definition run (s : stmt) : Stmt :=
  match s with
  | SNew x mode => newTxn x mode
  | SCommit d x => txnCommit d x
  | SRollback x => txnRollback x
  | SDestroy x => destroyTxn x
  | SCopy x y => copyTxn x y
  | SMove x y => moveTxn x y
  | SMoveAssign x y => moveAssign x y
  | SCopyAssign x y => copyAssign x y
  end.

(** ** Use counts

    [owners l hs] counts the handles on the base [l]. *)
Definition owners (l : Loc) (hs : gmap Var Handle) : nat :=
  size (filter (fun x => h_base x.2 = Some l) hs).
Definition uses (l : Loc) (h : Handle) : nat := if decide (h_base h = Some l) then 1 else 0.
Definition countOf (l : Loc) (p : Program) : nat := default 0 (p_counts p !! l).

(** The use count of a base is the number of its handles, and it has one
    exactly as long as that number is not zero. *)
Record handles_ok (p : Program) : Prop := {
  ho_count : forall l, countOf l p = owners l (p_handles p);
  ho_base : forall l, is_Some (p_bases p !! l) <-> 0 < owners l (p_handles p);
}.

Lemma owners_insert l x h hs : hs !! x = None -> owners l (<[x := h]> hs) = uses l h + owners l hs.
Proof.
  intros Hx. unfold owners, uses. case_decide as Hb.
  - rewrite map_filter_insert_True by done. rewrite map_size_insert_None; [done|].
    apply map_lookup_filter_None_2. by left.
  - rewrite map_filter_insert_False, delete_id by done. done.
Qed.

Lemma owners_delete l x h hs : hs !! x = Some h -> owners l hs = uses l h + owners l (delete x hs).
Proof.
  intros Hx. rewrite <- (insert_delete_id hs x h Hx) at 1. apply owners_insert, lookup_delete_eq.
Qed.

Lemma owners_replace l x h h' hs : hs !! x = Some h -> owners l (<[x := h']> hs) + uses l h = uses l h' + owners l hs.
Proof.
  intros Hx. rewrite <- insert_delete_eq, owners_insert by apply lookup_delete_eq.
  rewrite (owners_delete l x h hs Hx). lia.
Qed.

Lemma owner_uses l x h hs : hs !! x = Some h -> uses l h <= owners l hs.
Proof. intros Hx. rewrite (owners_delete l x h hs Hx). lia. Qed.

Lemma baseOf_Some x p l t :
  baseOf x p = Ok (Some (l, t)) <-> exists h, p_handles p !! x = Some h /\ h_base h = Some l /\ p_bases p !! l = Some t.
Proof.
  unfold baseOf. split; [intros; repeat case_match; simplify_eq; eauto|].
  intros (h & -> & -> & ->). done.
Qed.

(** Every count is that of the handles and of the pointers [o] that are about to
    end, and the bases are those with a use. *)
Record counted (o : option Loc) (p : Program) : Prop := {
  co_count : forall l, countOf l p = owners l (p_handles p) + (if decide (o = Some l) then 1 else 0);
  co_base : forall l, is_Some (p_bases p !! l) <-> 0 < countOf l p;
}.

Lemma counted_none p : counted None p <-> handles_ok p.
Proof.
  split; intros [H1 H2]; split; intros l.
  - rewrite H1, decide_False by done. lia.
  - rewrite H2, H1, decide_False by done. by rewrite Nat.add_0_r.
  - rewrite H1, decide_False by done. lia.
  - rewrite H2, H1. done.
Qed.

Lemma release_ok o p : counted o p -> handles_ok (release o p).
Proof.
  intros [H1 H2]. destruct o as [l|]; [|by apply counted_none]. cbn [release].
  pose proof (H1 l) as Hl. rewrite decide_True in Hl by done. unfold countOf in Hl.
  destruct (p_counts p !! l) as [[|[|n]]|] eqn:El; cbn in Hl; [lia| | |lia].
  - assert (is_Some (p_bases p !! l)) as [t Ht] by (apply H2; unfold countOf; rewrite El; cbn; lia).
    unfold destroyBase. rewrite Ht. split; intros l'; unfold countOf; cbn [p_counts p_handles p_bases];
      (destruct (decide (l = l')) as [<-|Hne]; [rewrite lookup_delete_eq|rewrite lookup_delete_ne by done]).
    + cbn. lia.
    + change (countOf l' p = owners l' (p_handles p)). rewrite H1, decide_False by congruence. lia.
    + split; [by intros []|lia].
    + rewrite H2, H1, decide_False by congruence. by rewrite Nat.add_0_r.
  - split; intros l'; unfold countOf; cbn [setCounts p_counts p_handles p_bases];
      (destruct (decide (l = l')) as [<-|Hne]; [|]).
    + rewrite lookup_insert_eq. cbn. lia.
    + rewrite lookup_insert_ne by done. change (countOf l' p = owners l' (p_handles p)).
      rewrite H1, decide_False by congruence. lia.
    + rewrite H2. unfold countOf. rewrite El. cbn. lia.
    + rewrite H2, H1, decide_False by congruence. by rewrite Nat.add_0_r.
Qed.

(** A change of handles that keeps the count of each base, but for one pointer
    that is about to end. *)
Lemma counted_handles o f p :
  handles_ok p ->
  (forall l, owners l (f (p_handles p)) + (if decide (o = Some l) then 1 else 0) = owners l (p_handles p)) ->
  counted o (setHandles f p).
Proof.
  intros [H1 H2] Hf. split; intros l; unfold countOf; cbn [setHandles p_counts p_handles p_bases];
    change (default 0 (p_counts p !! l)) with (countOf l p).
  - by rewrite Hf.
  - by rewrite H1, H2.
Qed.

Lemma acquire_ok o f p :
  handles_ok p ->
  (forall l, owners l (f (p_handles p)) = (if decide (o = Some l) then 1 else 0) + owners l (p_handles p)) ->
  (forall l, o = Some l -> 0 < owners l (p_handles p)) ->
  handles_ok (acquire o (setHandles f p)).
Proof.
  intros [H1 H2] Hf Ho. destruct o as [l0|]; cbn [acquire].
  - assert (countOf l0 p > 0) as Hpos by (rewrite H1; by apply Ho).
    split; intros l; unfold countOf; cbn [setCounts setHandles p_counts p_handles p_bases]; rewrite Hf.
    + rewrite lookup_alter. unfold countOf in Hpos. repeat case_decide; simplify_eq/=.
      * rewrite <- H1. unfold countOf. destruct (p_counts p !! l); cbn in *; lia.
      * rewrite <- H1. done.
    + rewrite H2. case_decide; simplify_eq; [|done]. specialize (Ho l eq_refl). lia.
  - split; intros l; unfold countOf; cbn [setHandles p_counts p_handles p_bases]; rewrite Hf, decide_False by done.
    + apply H1.
    + apply H2.
Qed.

(** ** Every statement keeps the counts *)
Definition isStmt (f : Stmt) : Prop := forall p, handles_ok p -> handles_ok (f p).1.

Lemma sthen_isStmt f k : isStmt f -> isStmt k -> isStmt (sthen f k).
Proof.
  intros Hf Hk p Hp. specialize (Hf p Hp). unfold sthen. destruct (f p) as [p' [[]|e|]]; [by apply Hk|done..].
Qed.

Lemma setBase_ok l c t p : is_Some (p_bases p !! l) -> handles_ok p -> handles_ok (setBase l c t p).
Proof.
  intros Hl [H1 H2]. split; intros l'; cbn [setBase p_bases p_handles]; [apply H1|].
  destruct (decide (l = l')) as [<-|Hne]; [rewrite lookup_insert_eq|by rewrite lookup_insert_ne by done].
  rewrite <- H2. by split.
Qed.

Lemma txnRollback_isStmt x : isStmt (txnRollback x).
Proof.
  intros p Hp. unfold txnRollback. destruct (baseOf x p) as [[[l t]|]|e|] eqn:Eb; [|done..].
  destruct (rollback (p_ctx p) t) as [[[b c] t']|e|]; [|done..]. apply setBase_ok; [|done].
  apply baseOf_Some in Eb as (h & _ & _ & Hl). by exists t.
Qed.

Lemma txnCommit_isStmt d x : isStmt (txnCommit d x).
Proof.
  intros p Hp. unfold txnCommit. destruct (baseOf x p) as [[[l t]|]|e|] eqn:Eb; [|done..].
  apply baseOf_Some in Eb as (h & _ & _ & Hl).
  destruct (commit d (p_ctx p) t) as [[[b c] t']|e|]; [apply setBase_ok; [by exists t|done]| |done].
  pose proof (txnRollback_isStmt x (setBase l (dsCall (isWithDataStore t) DS_COMMIT (p_ctx p)) t p)) as Hr.
  destruct (txnRollback x _) as [p' [[]|e'|]]; apply Hr, setBase_ok; done.
Qed.

Lemma owners_free p l : handles_ok p -> p_bases p !! l = None -> owners l (p_handles p) = 0.
Proof.
  intros [_ H2] Hl. destruct (owners l (p_handles p)) eqn:E; [done|].
  assert (is_Some (p_bases p !! l)) as [t Ht] by (apply H2; lia). congruence.
Qed.

Lemma newTxn_isStmt x mode : isStmt (newTxn x mode).
Proof.
  intros p Hp. unfold newTxn. destruct (p_handles p !! x) as [h|] eqn:Ex; [done|].
  destruct (beginTxn _ _ _) as [[t c]|e|]; [|by destruct Hp as [H1 H2]; split|done].
  assert (p_bases p !! fresh (dom (p_bases p)) = None) as Hf by (apply not_elem_of_dom, is_fresh).
  revert Hf. generalize (fresh (dom (p_bases p))). intros l Hf. pose proof (owners_free p l Hp Hf) as Hz.
  destruct Hp as [H1 H2]. split; intros l'; cbn [fst setHandles makeShared p_bases p_handles p_counts];
    rewrite owners_insert by done; unfold uses, countOf; cbn [setHandles makeShared p_counts h_base];
    (destruct (decide (l = l')) as [<-|Hne];
      [rewrite lookup_insert_eq, decide_True by done|rewrite lookup_insert_ne, decide_False by congruence]).
  - cbn. lia.
  - apply H1.
  - split; [lia|by eexists].
  - apply H2.
Qed.

Lemma copyTxn_isStmt x y : isStmt (copyTxn x y).
Proof.
  intros p Hp. unfold copyTxn. destruct (p_handles p !! x) as [h0|] eqn:Ex, (p_handles p !! y) as [h|] eqn:Ey; [done..| |done].
  apply acquire_ok; [done|..].
  - intros l. by rewrite owners_insert.
  - intros l Hl. pose proof (owner_uses l y h _ Ey) as Hu. unfold uses in Hu. rewrite decide_True in Hu by done. lia.
Qed.

Lemma uses_none l m : uses l (mkHandle m None) = 0.
Proof. unfold uses. by rewrite decide_False. Qed.

Lemma moveTxn_isStmt x y : isStmt (moveTxn x y).
Proof.
  intros p Hp. unfold moveTxn. destruct (p_handles p !! x) as [h0|] eqn:Ex, (p_handles p !! y) as [h|] eqn:Ey; [done..| |done].
  apply counted_none, counted_handles; [done|]. intros l. rewrite decide_False by done.
  rewrite owners_insert by (rewrite lookup_insert_ne by congruence; done).
  pose proof (owners_replace l y h (mkHandle (h_mode h) None) _ Ey) as H. rewrite uses_none in H. lia.
Qed.

Lemma moveAssign_isStmt x y : isStmt (moveAssign x y).
Proof.
  intros p Hp. unfold moveAssign. case_bool_decide as Hxy; [done|].
  destruct (p_handles p !! x) as [h|] eqn:Ex, (p_handles p !! y) as [h'|] eqn:Ey; [|done..].
  apply release_ok, counted_handles; [done|]. intros l.
  pose proof (owners_replace l y h' (mkHandle (h_mode h') None) _ Ey) as H. rewrite uses_none in H.
  assert (<[y := mkHandle (h_mode h') None]> (p_handles p) !! x = Some h) as Hx' by (by rewrite lookup_insert_ne).
  pose proof (owners_replace l x h h' _ Hx') as H'. unfold uses in H, H' |- *. lia.
Qed.

Lemma dropped_ok x h p : p_handles p !! x = Some h -> handles_ok p ->
  handles_ok (release (h_base h) (setHandles (delete x) p)).
Proof.
  intros Hx Hp. apply release_ok, counted_handles; [done|]. intros l.
  rewrite (owners_delete l x h _ Hx). unfold uses. lia.
Qed.

Lemma destroyTxn_isStmt x : isStmt (destroyTxn x).
Proof.
  apply sthen_isStmt; [apply txnRollback_isStmt|]. intros p Hp.
  destruct (p_handles p !! x) as [h|] eqn:Ex; [by apply dropped_ok|done].
Qed.

Lemma run_isStmt s : isStmt (run s).
Proof.
  destruct s; cbn [run];
    [apply newTxn_isStmt|apply txnCommit_isStmt|apply txnRollback_isStmt|apply destroyTxn_isStmt|apply copyTxn_isStmt
    |apply moveTxn_isStmt|apply moveAssign_isStmt|].
  intros p Hp. unfold copyAssign. case_bool_decide; [done|]. revert p Hp.
  match goal with |- forall p, _ -> handles_ok (?f p).1 => change (isStmt f) end.
  do 5 (apply sthen_isStmt; [solve [apply destroyTxn_isStmt|apply copyTxn_isStmt|apply moveTxn_isStmt|apply moveAssign_isStmt]|]).
  apply destroyTxn_isStmt.
Qed.

Lemma rollback_completes c t c' t' r : rollback c t = Ok (r, c', t') -> isCompleted t' = true.
Proof.
  unfold rollback. destruct (isCompleted t) eqn:Ec; [by intros [= _ _ <-]|].
  destruct (txnType t); cbn [obind]; [|by intros [= _ _ <-]].
  destruct (isLastMinVersionId _ _); cbn [obind]; [by intros [= _ _ <-]|done..].
Qed.

Lemma release_handles o q : p_handles (release o q) = p_handles q.
Proof. destruct o; [|done]. cbn [release]. unfold destroyBase. repeat case_match; done. Qed.

(** A pointer that ends leaves the bases alone, or takes its own with it. *)
Lemma release_bases l q :
  p_bases (release (Some l) q) !! l = None \/ p_bases (release (Some l) q) = p_bases q.
Proof.
  cbn [release]. unfold destroyBase. repeat case_match; cbn [setCounts p_bases]; rewrite ?lookup_delete_eq; first [by left|by right].
Qed.

(** The base of a handle that is destroyed: gone with its last owner, and
    completed when another handle keeps it. *)
Lemma destroyTxn_base x p p' h l :
  handles_ok p -> p_handles p !! x = Some h -> h_base h = Some l -> destroyTxn x p = (p', Ok tt) ->
  p_handles p' = delete x (p_handles p) /\
  match p_bases p' !! l with
  | None => owners l (p_handles p) = 1
  | Some t' => 1 < owners l (p_handles p) /\ isCompleted t' = true
  end.
Proof.
  intros Hp Hx Hb Hd. pose proof (destroyTxn_isStmt x p Hp) as Hp'. rewrite Hd in Hp'. cbn [fst] in Hp'.
  pose proof (owners_delete l x h _ Hx) as Ho. unfold uses in Ho. rewrite decide_True in Ho by done.
  assert (is_Some (p_bases p !! l)) as [t Ht] by (apply Hp; lia).
  unfold destroyTxn, sthen, txnRollback in Hd.
  assert (baseOf x p = Ok (Some (l, t))) as Hbase by (apply baseOf_Some; eauto). rewrite Hbase in Hd.
  destruct (rollback (p_ctx p) t) as [[[b c] t']|e|] eqn:Er; [|done..].
  cbn [setBase p_handles] in Hd. rewrite Hx, Hb in Hd. apply (f_equal fst) in Hd. change (release (Some l) (setHandles (delete x) (setBase l c t' p)) = p') in Hd.
  assert (p_handles p' = delete x (p_handles p)) as Hh by (by rewrite <- Hd, release_handles).
  split; [done|]. pose proof (ho_base _ Hp' l) as Hl. rewrite Hh in Hl.
  destruct (p_bases p' !! l) as [t0|] eqn:Et0.
  - split; [assert (0 < owners l (delete x (p_handles p))) by (by apply Hl); lia|].
    rewrite <- Hd in Et0. destruct (release_bases l (setHandles (delete x) (setBase l c t' p))) as [Hn|Hs];
      [congruence|]. rewrite Hs in Et0. cbn in Et0. rewrite lookup_insert_eq in Et0. simplify_eq.
    by eapply rollback_completes.
  - destruct (owners l (delete x (p_handles p))) eqn:E; [lia|].
    assert (is_Some (None : option BaseTxn)) as [? [=]]. apply Hl. lia.
Qed.

(** C26. Every statement keeps the use counts right and every transaction owned.  A
    construction makes a transaction with one use; a copy shares it and adds a
    use; a move passes it on and leaves the source empty; a destructor rolls
    back, and takes the transaction with it exactly when it was the last owner. *)
Theorem handles_own_bases p :
  handles_ok p ->
  (forall s, handles_ok (run s p).1) /\
  (forall x mode p', newTxn x mode p = (p', Ok tt) -> exists l, p_bases p !! l = None /\
     p_handles p' = <[x := mkHandle mode (Some l)]> (p_handles p) /\ countOf l p' = 1) /\
  (forall x y p' h, copyTxn x y p = (p', Ok tt) -> p_handles p !! y = Some h ->
     p_handles p' = <[x := h]> (p_handles p) /\ p_bases p' = p_bases p /\
     forall l, h_base h = Some l -> countOf l p' = S (countOf l p)) /\
  (forall x y p' h, moveTxn x y p = (p', Ok tt) -> p_handles p !! y = Some h ->
     p_handles p' = <[x := h]> (<[y := mkHandle (h_mode h) None]> (p_handles p)) /\
     p_bases p' = p_bases p /\ p_counts p' = p_counts p) /\
  (forall x p' h l, destroyTxn x p = (p', Ok tt) -> p_handles p !! x = Some h -> h_base h = Some l ->
     p_handles p' = delete x (p_handles p) /\
     match p_bases p' !! l with
     | None => countOf l p = 1
     | Some t' => 1 < countOf l p /\ isCompleted t' = true
     end).
Proof.
  intros Hp. split_and!.
  - intros s. by apply run_isStmt.
  - unfold newTxn. intros x mode p' Hn. destruct (p_handles p !! x); [done|].
    destruct (beginTxn _ _ _) as [[t c]|e|]; [|done..]. injection Hn as <-.
    exists (fresh (dom (p_bases p))). split; [apply not_elem_of_dom, is_fresh|]. split; [done|].
    unfold countOf. cbn. by rewrite lookup_insert_eq.
  - unfold copyTxn. intros x y p' h Hc Hy. rewrite Hy in Hc. destruct (p_handles p !! x); [done|].
    injection Hc as <-. split_and!; [by destruct (h_base h)..|]. intros l Hl.
    pose proof (owner_uses l y h _ Hy) as Hu. unfold uses in Hu. rewrite decide_True in Hu by done.
    rewrite <- (ho_count _ Hp) in Hu. rewrite Hl. unfold countOf in *. cbn. rewrite lookup_alter_eq.
    by destruct (p_counts p !! l); cbn in *; [|lia].
  - unfold moveTxn. intros x y p' h Hc Hy. rewrite Hy in Hc. destruct (p_handles p !! x); [done|]. by injection Hc as <-.
  - intros x p' h l Hd Hx Hb. rewrite (ho_count _ Hp). by eapply destroyTxn_base.
Qed.

(** ** The life of a handle *)
Section life.
Context (p : Program) (x : Var) (h : Handle) (l : Loc) (t : BaseTxn).
Hypothesis Hx : p_handles p !! x = Some h.
Hypothesis Hb : h_base h = Some l.
Hypothesis Hl : p_bases p !! l = Some t.

Lemma handle_base c t' : baseOf x (setBase l c t' p) = Ok (Some (l, t')).
Proof. apply baseOf_Some. exists h. unfold setBase. cbn. by rewrite lookup_insert_eq. Qed.

Lemma release_completed c t' : isCompleted t' = true ->
  p_ctx (release (Some l) (setHandles (delete x) (setBase l c t' p))) = c.
Proof.
  intros Hc. cbn [release]. repeat case_match; try done; unfold destroyBase; cbn [setHandles setBase p_bases p_ctx];
    rewrite lookup_insert_eq; cbn [p_ctx]; by rewrite Hc, andb_false_r.
Qed.

(** A completed transaction is left alone by the destructor of its handle. *)
Lemma destroy_completed c t' : isCompleted t' = true ->
  exists p', destroyTxn x (setBase l c t' p) = (p', Ok tt) /\ p_ctx p' = c.
Proof.
  intros Hc. unfold destroyTxn, sthen, txnRollback. rewrite handle_base. unfold rollback at 1. cbn [p_ctx setBase].
  rewrite Hc. cbn [p_handles setBase]. rewrite Hx, Hb. eexists. split; [reflexivity|].
  assert (setBase l c t' (setBase l c t' p) = setBase l c t' p) as ->
    by (unfold setBase; cbn; by rewrite insert_insert_eq).
  by apply release_completed.
Qed.

Lemma rollback_writer c : isCompleted t = false -> txnType t = READ_WRITE ->
  exists c' t', rollback c t = Ok (true, c', t') /\ isCompleted t' = true.
Proof. intros Hc Ht. unfold rollback. rewrite Hc, Ht. cbn [obind]. by eexists _, _. Qed.

Lemma txnRollback_runs r c t' : rollback (p_ctx p) t = Ok (r, c, t') -> txnRollback x p = (setBase l c t' p, Ok tt).
Proof.
  intros Hr. unfold txnRollback. assert (baseOf x p = Ok (Some (l, t))) as -> by (apply baseOf_Some; eauto). by rewrite Hr.
Qed.

Lemma destroy_open r c t' : rollback (p_ctx p) t = Ok (r, c, t') ->
  exists p', destroyTxn x p = (p', Ok tt) /\ p_ctx p' = c.
Proof.
  intros Hr. unfold destroyTxn, sthen. rewrite (txnRollback_runs r c t' Hr). cbn [setBase p_handles]. rewrite Hx, Hb.
  eexists. split; [reflexivity|]. apply release_completed. by eapply rollback_completes.
Qed.
End life.

(** C25. A writer in a scope: what it commits is left alone by the destructor of
    its handle, a commit the data store refuses is rolled back and reported,
    and a handle destroyed before any commit rolls back. *)
Theorem handle_scope p x h l t :
  p_handles p !! x = Some h -> h_base h = Some l -> p_bases p !! l = Some t ->
  isCompleted t = false -> txnType t = READ_WRITE ->
  (exists c' t' p1 p2, commit (Ok tt) (p_ctx p) t = Ok (true, c', t') /\
     txnCommit (Ok tt) x p = (p1, Ok tt) /\ p_ctx p1 = c' /\ destroyTxn x p1 = (p2, Ok tt) /\ p_ctx p2 = c') /\
  (forall e, isWithDataStore t = true -> exists c' t' p1 p2,
     rollback (dsCall true DS_COMMIT (p_ctx p)) t = Ok (true, c', t') /\
     txnCommit (Throw e) x p = (p1, Throw e) /\ p_ctx p1 = c' /\ destroyTxn x p1 = (p2, Ok tt) /\ p_ctx p2 = c') /\
  (exists c' t' p1, rollback (p_ctx p) t = Ok (true, c', t') /\ destroyTxn x p = (p1, Ok tt) /\ p_ctx p1 = c').
Proof.
  intros Hx Hb Hl Hc Ht. assert (baseOf x p = Ok (Some (l, t))) as Hbase by (apply baseOf_Some; eauto). split_and!.
  - destruct (commit_writer (Ok tt) (p_ctx p) t) as (c' & t' & Hcm & _ & Hdone); [done..|].
    destruct (destroy_completed p x h l Hx Hb c' t' Hdone) as (p2 & Hd & Hc2).
    exists c', t', (setBase l c' t' p), p2. unfold txnCommit. by rewrite Hbase, Hcm.
  - intros e Hds. destruct (rollback_writer t (dsCall true DS_COMMIT (p_ctx p))) as (c' & t' & Hr & Hdone); [done..|].
    destruct (destroy_completed p x h l Hx Hb c' t' Hdone) as (p2 & Hd & Hc2).
    exists c', t', (setBase l c' t' p), p2. split; [done|]. split; [|done].
    unfold txnCommit. rewrite Hbase. unfold commit. rewrite Hc, Ht, Hds. cbn [obind].
    rewrite (txnRollback_runs (setBase l (dsCall true DS_COMMIT (p_ctx p)) t p) x h l t Hx Hb
      ltac:(apply lookup_insert_eq) true c' t' Hr).
    unfold setBase. cbn. by rewrite insert_insert_eq.
  - destruct (rollback_writer t (p_ctx p)) as (c' & t' & Hr & Hdone); [done..|].
    destruct (destroy_open p x h l t Hx Hb Hl true c' t' Hr) as (p1 & Hd & Hc1). by exists c', t', p1.
Qed.

(** The destructor of a copy of the handle rolls the shared transaction back;
    the commit of the handle that is left then reports no error, whatever the
    data store would have answered, and publishes nothing. *)
Theorem copy_ends_transaction p x y h l t d :
  handles_ok p -> p_handles p !! x = Some h -> h_base h = Some l -> p_bases p !! l = Some t ->
  p_handles p !! y = None -> isCompleted t = false -> txnType t = READ_WRITE ->
  exists c' t' p1 p2, rollback (p_ctx p) t = Ok (true, c', t') /\
    sthen (copyTxn y x) (destroyTxn y) p = (p1, Ok tt) /\ p_ctx p1 = c' /\
    txnCommit d x p1 = (p2, Ok tt) /\ p_ctx p2 = c'.
Proof.
  intros Hp Hx Hb Hl Hy Hc Ht. destruct (rollback_writer t (p_ctx p)) as (c' & t' & Hr & Hdone); [done..|].
  set (q := acquire (Some l) (setHandles <[y := h]> p)).
  assert (p_handles q !! y = Some h) as Hqy by apply lookup_insert_eq.
  assert (exists n, p_counts q !! l = Some (S (S n))) as [n Hn].
  { pose proof (owner_uses l x h _ Hx) as Hu. unfold uses in Hu. rewrite decide_True in Hu by done.
    rewrite <- (ho_count _ Hp) in Hu. unfold countOf in Hu. cbn. rewrite lookup_alter_eq.
    destruct (p_counts p !! l) as [[|n]|]; cbn in *; [lia|by exists n|lia]. }
  set (p1 := setCounts <[l := S n]> (setHandles (delete y) (setBase l c' t' q))).
  assert (baseOf x p1 = Ok (Some (l, t'))) as Hbase.
  { apply baseOf_Some. exists h. cbn. rewrite delete_insert_eq, delete_id, lookup_insert_eq by done. done. }
  exists c', t', p1, (setBase l c' t' p1). split; [done|].
  assert (sthen (copyTxn y x) (destroyTxn y) p = (p1, Ok tt)) as ->.
  { unfold sthen at 1. unfold copyTxn. rewrite Hy, Hx, Hb. fold q. unfold destroyTxn, sthen.
    rewrite (txnRollback_runs q y h l t Hqy Hb Hl true c' t' Hr). cbn [setBase p_handles]. rewrite Hqy, Hb.
    unfold release. change (p_counts (setHandles (delete y) (setBase l c' t' q))) with (p_counts q). by rewrite Hn. }
  split_and!; [done..| |done].
  unfold txnCommit. rewrite Hbase. unfold commit. by rewrite Hdone.
Qed.

(** Moving a handle onto the only owner of an open transaction ends that
    transaction in the data store alone: a reader stays registered for ever,
    the changes of a writer stay in memory as uncommitted. *)
Theorem moveAssign_abandons p x y h h' l t :
  p_handles p !! x = Some h -> h_base h = Some l -> p_bases p !! l = Some t ->
  p_handles p !! y = Some h' -> countOf l p = 1 -> x <> y -> isCompleted t = false ->
  exists p', moveAssign x y p = (p', Ok tt) /\ p_bases p' !! l = None /\
    p_ctx p' = dsCall (isWithDataStore t) DS_ROLLBACK (p_ctx p) /\
    activeTxnIds (dbTxnStat (p_ctx p')) = activeTxnIds (dbTxnStat (p_ctx p)) /\
    dbRelation (p_ctx p') = dbRelation (p_ctx p) /\ dbSchema (p_ctx p') = dbSchema (p_ctx p).
Proof.
  intros Hx Hb Hl Hy Hsole Hxy Hc. unfold moveAssign. rewrite bool_decide_eq_false_2 by done. rewrite Hx, Hy, Hb.
  eexists. split; [reflexivity|]. unfold release. cbn [setHandles p_counts]. unfold countOf in Hsole.
  destruct (p_counts p !! l) as [[|[|n]]|]; simplify_eq/=. unfold destroyBase. cbn [setHandles p_bases p_ctx].
  rewrite Hl. cbn [p_bases p_ctx]. rewrite lookup_delete_eq, Hc, andb_true_r. unfold dsCall. by destruct (isWithDataStore t).
Qed.
