(* ===== verification/Cycle.v ===== *)
(** * Write transactions one after the other

    Between transactions the relation graph of a context represents a map of
    edges, [quiescent]; a write transaction, from its start over any sequence
    of steps to its commit and the garbage collection the commit may run,
    leads from one such state to the next. *)

From stdpp Require Import base gmap sets list strings sorting fin_sets relations.
From Stdlib Require Import ZArith Lia.
From S2P Require Import Prelude Types VersionControl MultiVersionMap TxnObject TxnData Graph GraphSpec.
From S2P Require Import GraphSteps Schema BaseTxn CommitSpec Lifecycle TxnSpec.

(** ** The queues of deleted objects *)
Record queue_ok (g : Graph) : Prop := {
  qo_vertices : forall r d, (r, d) ∈ deletedVertices g -> exists l v,
    vertices g !! r = Some l /\ vheap g !! l = Some v /\ v_state v = mkState d COMMITTED_DELETE;
  qo_edges : forall r d, (r, d) ∈ deletedEdges g -> exists l e,
    edges g !! r = Some l /\ eheap g !! l = Some e /\ e_state e = mkState d COMMITTED_DELETE;
  qo_vnodup : NoDup (deletedVertices g).*1;
  qo_enodup : NoDup (deletedEdges g).*1;
}.

(** Deleted objects stay as they are. *)
Lemma queue_ext g g' :
  deletedVertices g' = deletedVertices g -> deletedEdges g' = deletedEdges g ->
  (forall r l, vertices g !! r = Some l -> vertices g' !! r = Some l) ->
  (forall r l, edges g !! r = Some l -> edges g' !! r = Some l) ->
  (forall l v, vheap g !! l = Some v -> st_status (v_state v) = COMMITTED_DELETE ->
     exists v', vheap g' !! l = Some v' /\ v_state v' = v_state v) ->
  (forall l e, eheap g !! l = Some e -> st_status (e_state e) = COMMITTED_DELETE ->
     exists e', eheap g' !! l = Some e' /\ e_state e' = e_state e) ->
  queue_ok g -> queue_ok g'.
Proof.
  intros Hqv Hqe HV HE Hv He [Q1 Q2 Q3 Q4]. split; [| |by rewrite Hqv|by rewrite Hqe].
  - intros r d. rewrite Hqv. intros (l & v & Hl & Hlv & Hs)%Q1. destruct (Hv l v Hlv) as (v' & ? & ?); [by rewrite Hs|].
    exists l, v'. split_and!; [auto|done|congruence].
  - intros r d. rewrite Hqe. intros (l & e & Hl & Hle & Hs)%Q2. destruct (He l e Hle) as (e' & ? & ?); [by rewrite Hs|].
    exists l, e'. split_and!; [auto|done|congruence].
Qed.

Lemma step_queue a b : txn_step a b -> queue_ok a.1 -> queue_ok b.1.
Proof.
  destruct 1 as [g t r l Hl|g t k src dst l Hl|g t s k x l|g t s k l|g t s x k le e Hk He Hr|g t k le e Hk He Hs
    |g t k le e Hk He Hr Hs|g t r l v Hr Hv Hs|g t r l v Hr Hv Hrid Hs]; try done; simpl;
    apply queue_ext; try done; try (intros l' y Hy _; by exists y).
  - intros l' v Hv _. exists v. simpl. rewrite lookup_insert_ne by congruence. done.
  - intros l' e He _. exists e. simpl. rewrite lookup_insert_ne by congruence. done.
  - intros l' v Hv _. rewrite lookup_updVertex, Hv. case_decide; [|by exists v]. simpl. eexists.
    split; [done|]. by destruct s.
  - intros l' v Hv _. rewrite lookup_updVertex, Hv. case_decide; [|by exists v]. simpl. eexists.
    split; [done|]. by destruct s.
  - intros l' e' He' _. rewrite (lookup_updEdge g le e) by done. case_decide; [|by exists e'].
    simplify_eq. eexists. split; [done|]. by destruct s.
  - intros l' e' He' Hs'. rewrite (lookup_updEdge g le e) by done. case_decide; [|by exists e'].
    simplify_eq. congruence.
  - intros l' v' Hv' Hs'. rewrite lookup_updVertex, Hv'. case_decide; [|by exists v']. simplify_eq. congruence.
Qed.

Lemma steps_queue a b : txn_steps a b -> queue_ok a.1 -> queue_ok b.1.
Proof. apply (steps_inv (fun x => queue_ok x.1)). intros ??. apply step_queue. Qed.

(** ** The commit appends what the writer deleted *)
Definition deletedIn {A} (h : gmap Loc A) (rid : A -> RecordId) (state : A -> State) (w : TxnId)
    (l : list (RecordId * Loc)) : list (RecordId * TxnId) :=
  omap (fun p => x ← h !! p.2; if bool_decide (st_status (state x) = UNCOMMITTED_DELETE) then Some (rid x, w) else None) l.

Lemma deletedIn_ext {A} (h h' : gmap Loc A) rid state w l :
  (forall p, p ∈ l -> h' !! p.2 = h !! p.2) -> deletedIn h' rid state w l = deletedIn h rid state w l.
Proof.
  unfold deletedIn. induction l as [|p l IH]; [done|]. intros Hh. cbn. rewrite Hh by by left.
  assert (forall p, p ∈ l -> h' !! p.2 = h !! p.2) as Hl by (intros q Hq; apply Hh; by right).
  specialize (IH Hl). cbn in IH. by rewrite IH.
Qed.

Lemma commitVertices_queue w l : forall g q,
  NoDup l.*2 ->
  let st := fold_left (commitVertex w) l (g, q) in
  st.2 = q ++ deletedIn (vheap g) v_rid v_state w l /\
  deletedVertices st.1 = deletedVertices g /\ deletedEdges st.1 = deletedEdges g.
Proof.
  induction l as [|[r0 l0] l IH]; intros g q Hnd; cbn zeta; [by rewrite app_nil_r|].
  rewrite fmap_cons in Hnd. apply NoDup_cons in Hnd as [Hl0 Hnd]. cbn [fold_left snd] in *.
  destruct (commitVertex w (g, q) (r0, l0)) as [g1 q1] eqn:Hstep.
  assert (q1 = q ++ deletedIn (vheap g) v_rid v_state w [(r0, l0)] /\ deletedVertices g1 = deletedVertices g /\
    deletedEdges g1 = deletedEdges g /\ forall lv, lv <> l0 -> vheap g1 !! lv = vheap g !! lv) as (-> & Hd1 & Hd2 & Hh).
  { unfold commitVertex, deletedIn, getState in *. simpl in *. destruct (vheap g !! l0) as [v|] eqn:Hv; simpl.
    - injection Hstep as <- <-. split_and!.
      + case_bool_decide as Hs; [by rewrite Hs|]. rewrite app_nil_r. by destruct (st_status (v_state v)).
      + by destruct (st_status (v_state v)).
      + by destruct (st_status (v_state v)).
      + intros lv Hne. rewrite lookup_updVertex, decide_False by done. by destruct (st_status (v_state v)).
    - simplify_eq. by rewrite app_nil_r. }
  destruct (IH g1 (q ++ deletedIn (vheap g) v_rid v_state w [(r0, l0)]) Hnd) as (-> & -> & ->). split_and!; [|done..].
  rewrite <- app_assoc. f_equal. unfold deletedIn at 3. rewrite (omap_app _ [(r0, l0)] l). f_equal.
  apply deletedIn_ext. intros [r lv] Hp. apply Hh. simpl. intros ->. destruct Hl0. apply list_elem_of_fmap. by exists (r, l0).
Qed.

Lemma commitEdges_queue base t l : forall g q,
  NoDup l.*2 ->
  let st := fold_left (commitEdge base t) l (g, q) in
  st.2 = q ++ deletedIn (eheap g) e_rid e_state (txnVersionId t) l /\
  deletedVertices st.1 = deletedVertices g /\ deletedEdges st.1 = deletedEdges g.
Proof.
  induction l as [|[k0 l0] l IH]; intros g q Hnd; cbn zeta; [by rewrite app_nil_r|].
  rewrite fmap_cons in Hnd. apply NoDup_cons in Hnd as [Hl0 Hnd]. cbn [fold_left snd] in *.
  assert (forall s base w rid ptr g, deletedVertices (commitAdj (upd_of s) t base w rid ptr g) = deletedVertices g /\
    deletedEdges (commitAdj (upd_of s) t base w rid ptr g) = deletedEdges g) as Hadj.
  { intros. unfold commitAdj. by destruct (lockVertex _ t ptr) as [[]|]. }
  destruct (commitEdge base t (g, q) (k0, l0)) as [g1 q1] eqn:Hstep.
  assert (q1 = q ++ deletedIn (eheap g) e_rid e_state (txnVersionId t) [(k0, l0)] /\
    deletedVertices g1 = deletedVertices g /\
    deletedEdges g1 = deletedEdges g /\ forall lv, lv <> l0 -> eheap g1 !! lv = eheap g !! lv) as (-> & Hd1 & Hd2 & Hh).
  { destruct (eheap g !! l0) as [e|] eqn:He.
    - destruct (commitEdge_step base t g q k0 l0 e He) as (g2 & q2 & Hstep2 & Hh2 & _). rewrite Hstep in Hstep2.
      injection Hstep2 as <- <-. revert Hstep. unfold commitEdge, deletedIn, getState. cbn [fst snd omap list_omap].
      rewrite He. cbn [mbind option_bind]. cbn zeta.
      match goal with |- context [eheap ?x !! l0] => set (g3 := x) end.
      assert (deletedVertices g3 = deletedVertices g /\ deletedEdges g3 = deletedEdges g /\ is_Some (eheap g3 !! l0))
        as (H1 & H2 & [e3 H3]).
      { unfold g3. destruct (st_status (e_state e)); split_and!; try done; try (by exists e);
          rewrite (lookup_updEdge g l0 e), decide_True by done; by eexists. }
      rewrite H3. intros [= <- <-]. split_and!.
      + case_bool_decide as Hs; [by rewrite Hs|]. rewrite app_nil_r. by destruct (st_status (e_state e)).
      + change setOut with (upd_of SRC). change setIn with (upd_of DST).
        change (deletedVertices (updEdge ?f ?x ?h)) with (deletedVertices h).
        by rewrite !(proj1 (Hadj _ _ _ _ _ _)).
      + change setOut with (upd_of SRC). change setIn with (upd_of DST).
        change (deletedEdges (updEdge ?f ?x ?h)) with (deletedEdges h).
        by rewrite !(proj2 (Hadj _ _ _ _ _ _)).
      + intros lv Hne. rewrite Hh2. by rewrite lookup_insert_ne.
    - unfold commitEdge, deletedIn in *. simpl in *. rewrite He in *. simplify_eq. simpl. by rewrite app_nil_r. }
  destruct (IH g1 (q ++ deletedIn (eheap g) e_rid e_state (txnVersionId t) [(k0, l0)]) Hnd) as (-> & -> & ->).
  split_and!; [|done..].
  rewrite <- app_assoc. f_equal. unfold deletedIn at 3. rewrite (omap_app _ [(k0, l0)] l). f_equal.
  apply deletedIn_ext. intros [r lv] Hp. apply Hh. simpl. intros ->. destruct Hl0. apply list_elem_of_fmap. by exists (r, l0).
Qed.

Lemma elem_of_deletedIn {A} (h : gmap Loc A) rid state w l r d :
  (r, d) ∈ deletedIn h rid state w l <->
  d = w /\ exists k lx x, (k, lx) ∈ l /\ h !! lx = Some x /\ st_status (state x) = UNCOMMITTED_DELETE /\ rid x = r.
Proof.
  unfold deletedIn. rewrite list_elem_of_omap. split.
  - intros ([k lx] & Hin & Heq). simpl in Heq. destruct (h !! lx) as [x|] eqn:Hx; simpl in Heq; [|done].
    case_bool_decide; simplify_eq. split; [done|]. by exists k, lx, x.
  - intros (-> & k & lx & x & Hin & Hx & Hs & <-). exists (k, lx). split; [done|]. simpl. rewrite Hx. simpl.
    by rewrite bool_decide_eq_true_2.
Qed.

Lemma NoDup_deletedIn {A} (h : gmap Loc A) rid state w (l : list (RecordId * Loc)) :
  NoDup l.*1 -> (forall k lx x, (k, lx) ∈ l -> h !! lx = Some x -> rid x = k) -> NoDup (deletedIn h rid state w l).*1.
Proof.
  induction l as [|[k lx] l IH]; intros Hnd Hrid; [constructor|]. rewrite fmap_cons in Hnd.
  apply NoDup_cons in Hnd as [Hk Hnd].
  assert (NoDup (deletedIn h rid state w l).*1) as IH' by (apply IH; [done|intros; eapply Hrid; [by right|done]]).
  unfold deletedIn. rewrite (omap_app _ [(k, lx)] l), fmap_app. fold (deletedIn h rid state w l).
  apply NoDup_app. split_and!; [| |done].
  - cbn. destruct (h !! lx) as [x|]; simpl; [|constructor]. case_bool_decide; simpl; [|constructor].
    apply NoDup_singleton.
  - intros r Hr Hr'. apply Hk. apply list_elem_of_fmap in Hr' as ([r' d] & -> & Hin).
    apply elem_of_deletedIn in Hin as (_ & k' & lx' & x' & Hin & Hx' & _ & <-). cbn [fst] in Hr.
    assert (rid x' = k') as E by (eapply Hrid; [by right|done]). rewrite E in Hr.
    assert (k' = k) as ->.
    { cbn in Hr. destruct (h !! lx) as [x|] eqn:Hx; simpl in Hr; [|by apply not_elem_of_nil in Hr].
      case_bool_decide; simpl in Hr; [|by apply not_elem_of_nil in Hr]. apply list_elem_of_singleton in Hr.
      rewrite Hr. eapply Hrid; [by left|done]. }
    apply list_elem_of_fmap. by exists (k, lx').
Qed.

Section commit.
  Context (g : Graph) (t : BaseTxn) (base : TxnId) (Hb : base_ok g t) (Hp : publishable g t).
Let w := txnVersionId t.

Lemma commit_queues :
  deletedVertices (commitRelation base t g) =
    deletedVertices g ++ deletedIn (vheap g) v_rid v_state w (map_to_list (ucVertices t)) /\
  deletedEdges (commitRelation base t g) =
    deletedEdges g ++ deletedIn (eheap g) e_rid e_state w (map_to_list (ucEdges t)).
Proof.
  assert (NoDup (map_to_list (ucVertices t)).*2) as Hn1
    by (apply (NoDup_locs _ (allV g t)); [by eapply uc_allV|by apply allV_inj]).
  assert (NoDup (map_to_list (ucEdges t)).*2) as Hn2
    by (apply (NoDup_locs _ (allE g t)); [by eapply uc_allE|by apply allE_inj]).
  unfold commitRelation. fold w. case_bool_decide as Hz.
  - assert (ucVertices t = ∅ /\ ucEdges t = ∅) as [-> ->] by (split; apply map_size_empty_inv; lia).
    rewrite !map_to_list_empty. unfold deletedIn; simpl. by rewrite !app_nil_r.
  - destruct (commitVertices_queue w (map_to_list (ucVertices t)) g [] Hn1) as (Hq1 & Hv1 & He1).
    destruct (commitVertices_loop w (map_to_list (ucVertices t)) g []) as (A1 & _); [apply NoDup_fst_map_to_list|done| |].
    { intros r lv Hx%elem_of_map_to_list. destruct (b_vheap _ _ Hb r lv) as (v & ? & _); [by eapply uc_allV|eauto]. }
    destruct (fold_left (commitVertex w) _ (g, [])) as [g1 qv]. cbn [fst snd] in *.
    destruct (commitEdges_queue base t (map_to_list (ucEdges t)) g1 [] Hn2) as (Hq2 & Hv2 & He2).
    destruct (fold_left (commitEdge base t) _ (g1, [])) as [g2 qe]. cbn [fst snd] in *.
    unfold push_back. simpl. rewrite Hq1, Hq2, Hv2, He2, Hv1, He1, A1. done.
Qed.

Lemma commit_queue : queue_ok g -> queue_ok (commitRelation base t g).
Proof.
  intros [Q1 Q2 Q3 Q4]. destruct commit_queues as [Hqv Hqe].
  destruct (commit_objects g t base Hb Hp) as (Hh & He & Hvh & Hv & _). fold w in Hh, Hvh.
  set (g' := commitRelation base t g) in *.
  assert (forall r d, (r, d) ∈ deletedVertices g -> forall l v, ucVertices t !! r = Some l -> vheap g !! l = Some v ->
    st_status (v_state v) <> UNCOMMITTED_DELETE) as Hdv.
  { intros r d (l' & v' & Hl' & Hv' & Hs')%Q1 l v Hl Hlv. assert (l' = l) as -> by by eapply b_vagree.
    simplify_eq. by rewrite Hs'. }
  assert (forall r d, (r, d) ∈ deletedEdges g -> forall l e, ucEdges t !! r = Some l -> eheap g !! l = Some e ->
    st_status (e_state e) <> UNCOMMITTED_DELETE) as Hde.
  { intros r d (l' & e' & Hl' & He' & Hs')%Q2 l e Hl Hle. assert (l' = l) as -> by by eapply b_eagree.
    simplify_eq. by rewrite Hs'. }
  split.
  - intros r d. rewrite Hqv, elem_of_app, elem_of_deletedIn. intros [Hin|(-> & k & l & v & Hk & Hlv & Hs & <-)].
    + destruct (Q1 r d Hin) as (l & v & Hl & Hlv & Hs). specialize (Hvh l). rewrite Hlv in Hvh. exists l.
      destruct (vheap g' !! l) as [v'|]; [|by case_decide]. exists v'. split_and!; [|done|].
      * rewrite Hv. by apply lookup_all_l.
      * case_decide; cbn in Hvh; injection Hvh as _ ->; [|done]. by rewrite Hs.
    + apply elem_of_map_to_list in Hk as Hu. apply (uc_allV g t Hb) in Hu.
      destruct (b_vheap _ _ Hb _ _ Hu) as (v0 & Hv0 & Hr0). simplify_eq. specialize (Hvh l). rewrite Hlv in Hvh.
      rewrite decide_True in Hvh by (apply list_elem_of_fmap; by exists (v_rid v, l)).
      destruct (vheap g' !! l) as [v'|] eqn:Hv'; [|done]. exists l, v'. rewrite Hv. split_and!; [done|done|].
      cbn in Hvh. injection Hvh as _ ->. unfold updateState. by rewrite Hs.
  - intros r d. rewrite Hqe, elem_of_app, elem_of_deletedIn. intros [Hin|(-> & k & l & e & Hk & Hle & Hs & <-)].
    + destruct (Q2 r d Hin) as (l & e & Hl & Hle & Hs). specialize (Hh l). rewrite Hle in Hh. exists l.
      case_decide; eexists; (split_and!; [rewrite He; by apply lookup_all_l|exact Hh|]); [|done].
      destruct (commitEdgeObj_fields base w e) as [_ ->]. by rewrite Hs.
    + apply elem_of_map_to_list in Hk as Hu. apply (uc_allE g t Hb) in Hu.
      destruct (b_eheap _ _ Hb _ _ Hu) as (e0 & He0 & Hr0). simplify_eq. specialize (Hh l). rewrite Hle in Hh.
      rewrite decide_True in Hh by (apply list_elem_of_fmap; by exists (e_rid e, l)).
      exists l, (commitEdgeObj base w e). rewrite He. split_and!; [done|done|].
      destruct (commitEdgeObj_fields base w e) as [_ ->]. unfold updateState. by rewrite Hs.
  - rewrite Hqv, fmap_app. apply NoDup_app. split_and!; [done| |].
    + intros r ([r' d] & -> & Hin)%list_elem_of_fmap ([r2 d2] & Hr2 & Hin2)%list_elem_of_fmap. cbn [fst] in *. subst r2.
      apply elem_of_deletedIn in Hin2 as (_ & k & l & v & Hk & Hlv & Hs & Hr). apply elem_of_map_to_list in Hk.
      destruct (b_vheap _ _ Hb k l) as (v0 & Hv0 & Hr0); [by apply uc_allV|]. simplify_eq. by eapply Hdv.
    + apply NoDup_deletedIn; [apply NoDup_fst_map_to_list|]. intros k l v Hk%elem_of_map_to_list Hlv.
      destruct (b_vheap _ _ Hb k l) as (v0 & Hv0 & Hr0); [by apply uc_allV|]. congruence.
  - rewrite Hqe, fmap_app. apply NoDup_app. split_and!; [done| |].
    + intros r ([r' d] & -> & Hin)%list_elem_of_fmap ([r2 d2] & Hr2 & Hin2)%list_elem_of_fmap. cbn [fst] in *. subst r2.
      apply elem_of_deletedIn in Hin2 as (_ & k & l & e & Hk & Hle & Hs & Hr). apply elem_of_map_to_list in Hk.
      destruct (b_eheap _ _ Hb k l) as (e0 & He0 & Hr0); [by apply uc_allE|]. simplify_eq. by eapply Hde.
    + apply NoDup_deletedIn; [apply NoDup_fst_map_to_list|]. intros k l e Hk%elem_of_map_to_list Hle.
      destruct (b_eheap _ _ Hb k l) as (e0 & He0 & Hr0); [by apply uc_allE|]. congruence.
Qed.
End commit.

(** ** What a reader sees *)

(** The graph at the snapshot [v] shows the map [E]. *)
Record snapshot_repr (v : TxnId) (g : Graph) (E : gmap RecordId (RecordId * RecordId)) : Prop := {
  sr_edges : forall k sd, E !! k = Some sd -> exists le e,
    edges g !! k = Some le /\ eheap g !! le = Some e /\ checkReadOnly v (e_state e) = false /\
    forall s, exists l x, getStableVersionAt v (end_of s e) = (Some l, true) /\
      vertices g !! proj_of s sd = Some l /\ vheap g !! l = Some x /\ v_rid x = proj_of s sd /\
      checkReadOnly v (v_state x) = false;
  sr_none : forall k le e, E !! k = None -> edges g !! k = Some le -> eheap g !! le = Some e ->
    checkReadOnly v (e_state e) = true;
}.

Lemma snapshot_reads v g E r k :
  snapshot_repr v g E -> (forall k le, edges g !! k = Some le -> is_Some (eheap g !! le)) ->
  txnType r = READ_ONLY -> txnVersionId r = v ->
  getVertexSrcDst g r k = match E !! k with Some sd => Ok sd | None => Throw NOGDB_GRAPH_NOEXST_EDGE end.
Proof.
  intros [Hs Hn] Hh Hro Hver. assert (isReadOnly r = true /\ isReadWrite r = false) as [Hf1 Hf2]
    by (unfold isReadOnly, isReadWrite; by rewrite Hro).
  unfold getVertexSrcDst, lookupEdge, hidden. rewrite Hf1, Hf2, Hver. destruct (E !! k) as [sd|] eqn:HE.
  - destruct (Hs k sd HE) as (le & e & -> & He & Hvis & Hends). rewrite He. simpl. rewrite Hvis. simpl.
    assert (forall s, endpoint g r (end_of s e) = Ok (proj_of s sd)) as Hep.
    { intros s. destruct (Hends s) as (l & x & Hst & Hv & Hx & <- & _). unfold endpoint, getCurrentVersion.
      rewrite Hro, Hver, Hst. cbn [fst snd]. unfold lockVertex, ownedV; simpl. rewrite Hx. simpl.
      assert (owns (vertices g) l = true) as -> by (apply owns_spec; eauto). done. }
    pose proof (Hep SRC) as H1. pose proof (Hep DST) as H2. cbn [end_of proj_of] in H1, H2.
    rewrite H1, H2. by destruct sd.
  - destruct (edges g !! k) as [le|] eqn:Hed; [|done]. destruct (Hh k le Hed) as [e He]. rewrite He. simpl.
    by rewrite (Hn k le e).
Qed.

(** Vertices are not newer than the version [w]. *)
Definition versions_ok (w : TxnId) (g : Graph) : Prop :=
  map_Forall (fun _ v => st_versionId (v_state v) <= w)%Z (vheap g).

Lemma step_versions w a b : txn_step a b -> (0 <= w)%Z -> versions_ok w a.1 -> versions_ok w b.1.
Proof.
  destruct 1 as [g t r l Hl|g t k src dst l Hl|g t s k x l|g t s k l|g t s x k le e Hk He Hr|g t k le e Hk He Hs
    |g t k le e Hk He Hr Hs|g t r l v Hr Hv Hs|g t r l v Hr Hv Hrid Hs]; intros Hw Hvo; try done; cbn [fst] in *.
  - by apply map_Forall_insert_2.
  - intros l' b Hb. destruct (upd_heap _ _ _ _ _ _ Hb) as (a & Ha & _ & <-). by apply (Hvo l').
  - intros l' b Hb. destruct (upd_heap _ _ _ _ _ _ Hb) as (a & Ha & _ & <-). by apply (Hvo l').
  - intros l' b. rewrite lookup_updVertex. case_decide; [subst|apply Hvo]. rewrite Hv. intros [= <-].
    by apply (Hvo _ _ Hv).
Qed.

Lemma commit_versions g t base :
  base_ok g t -> publishable g t -> versions_ok (txnVersionId t) g -> versions_ok (txnVersionId t) (commitRelation base t g).
Proof.
  intros Hb Hp Hvo l x Hx. destruct (commit_objects g t base Hb Hp) as (_ & _ & Hvh & _).
  specialize (Hvh l). rewrite Hx in Hvh. destruct (vheap g !! l) as [v|] eqn:Hv; [|by case_decide].
  specialize (Hvo _ _ Hv). cbn in *. case_decide; injection Hvh as _ ->; [|done].
  unfold updateState. destruct (st_status (v_state v)); simpl; lia.
Qed.

Lemma commit_snapshot g t base E :
  repr g t E -> publishable g t ->
  versions_ok (txnVersionId t) g ->
  snapshot_repr (txnVersionId t) (commitRelation base t g) E.
Proof.
  intros Hr Hp Hvo. pose proof (r_base _ _ _ _ _ Hr) as Hb.
  destruct (commit_objects g t base Hb Hp) as (_ & Hed & Hvh & Hvs & _).
  destruct (publish_edges g t base Hb Hp) as (He & _ & _). set (g' := commitRelation base t g) in *. split.
  - intros k sd HE. destruct (proj1 (r_src _ _ _ _ _ Hr) k sd HE) as (le & _ & Hle & _).
    destruct (lock_evis g t Hb k le Hle) as (e & _ & Hhe & _ & Hvis). destruct Hle as [Hk Hx].
    destruct (He k le e Hk Hhe) as (e' & He' & Hst & Hend). exists le, e'. rewrite Hed, Hst, Hvis.
    split_and!; [done..|]. intros s.
    destruct (end_found s none g t E k sd le e) as (l & v & Hf & Hv & Hlv);
      [done|by apply repr_side_none|done|by split|done|].
    destruct Hv as [Hall (v0 & Hv0 & Hvis0)]. assert (v0 = v) as -> by congruence.
    destruct (b_vheap _ _ Hb _ _ Hall) as (v1 & Hv1 & Hrid). assert (v1 = v) as -> by congruence. specialize (Hvh l). rewrite Hlv in Hvh. destruct (vheap g' !! l) as [x|] eqn:Hx'; [|by case_decide].
    exists l, x. rewrite Hend, Hvs. cbn in Hvh. split_and!; try done.
    + case_decide; injection Hvh as H1 H2; congruence.
    + pose proof (Hvo _ _ Hlv) as Hver. cbn in Hver. case_decide as Hin; injection Hvh as H1 H2; rewrite H2.
      * by rewrite updateState_visible.
      * assert (vertices g !! proj_of s sd = Some l) as Hown.
        { apply lookup_union_Some_raw in Hall as [?|[_ Hu]]; [done|]. destruct Hin. apply list_elem_of_fmap.
          exists (proj_of s sd, l). by rewrite elem_of_map_to_list. }
        pose proof (b_vcommitted _ _ Hb _ _ _ Hown Hlv) as Hnc. revert Hvis0 Hnc Hver.
        unfold checkReadOnly, checkReadWrite. destruct (st_status (v_state v)); try done. lia.
  - intros k le e' HE Hk He'. rewrite Hed in Hk. destruct (b_eheap _ _ Hb _ _ Hk) as (e & Hhe & _).
    destruct (He k le e Hk Hhe) as (e2 & He2 & Hst & _). simplify_eq. rewrite Hst.
    destruct (checkReadWrite (e_state e)) eqn:Hc; [done|].
    destruct (r_only _ _ _ _ _ Hr k le) as [sd Hsd]; [|congruence]. split; eauto.
Qed.

(** ** Garbage collection *)
Section collect.
  Context (v : TxnId) (g : Graph).
Let g' := clearDeletedElements v g.
Let gone {A} (q : list (A * TxnId)) : list A := (pop_front q v).1.

Lemma collected :
  vheap g' = vheap g /\ eheap g' = eheap g /\
  (forall r, vertices g' !! r = if decide (r ∈ gone (deletedVertices g)) then None else vertices g !! r) /\
  (forall k, edges g' !! k = if decide (k ∈ gone (deletedEdges g)) then None else edges g !! k) /\
  deletedVertices g' = (pop_front (deletedVertices g) v).2 /\ deletedEdges g' = (pop_front (deletedEdges g) v).2.
Proof.
  unfold g', clearDeletedElements, gone. destruct (pop_front (deletedEdges g) v) as [es qe].
  change (deletedVertices (forceDeleteEdges _ _)) with (deletedVertices g).
  destruct (pop_front (deletedVertices g) v) as [vs qv]. cbn. split_and!; try done; intros; apply foldl_delete.
Qed.

Context (Hq : queue_ok g).

Lemma gone_vertex r : r ∈ gone (deletedVertices g) -> exists l x d,
  vertices g !! r = Some l /\ vheap g !! l = Some x /\ v_state x = mkState d COMMITTED_DELETE /\ (d <= v)%Z.
Proof.
  intros (d & Hd & Hle)%popped. destruct (qo_vertices _ Hq _ _ Hd) as (l & x & ? & ? & ?). by exists l, x, d.
Qed.
Lemma gone_edge k : k ∈ gone (deletedEdges g) -> exists l x d,
  edges g !! k = Some l /\ eheap g !! l = Some x /\ e_state x = mkState d COMMITTED_DELETE /\ (d <= v)%Z.
Proof.
  intros (d & Hd & Hle)%popped. destruct (qo_edges _ Hq _ _ Hd) as (l & x & ? & ? & ?). by exists l, x, d.
Qed.

Lemma collect_queue : queue_ok g'.
Proof.
  destruct collected as (Hvh & Heh & Hv & He & Hdv & Hde). unfold gone in *.
  destruct (pop_front (deletedVertices g) v) as [vs qv] eqn:Hpv. destruct (pop_front (deletedEdges g) v) as [es qe] eqn:Hpe.
  destruct (pop_front_split _ _ _ _ Hpv) as (q1 & Hq1 & -> & _). destruct (pop_front_split _ _ _ _ Hpe) as (q2 & Hq2 & -> & _).
  destruct Hq as [Q1 Q2 Q3 Q4]. cbn [fst snd] in *. rewrite Hq1 in Q1, Q3. rewrite Hq2 in Q2, Q4.
  rewrite fmap_app in Q3, Q4. apply NoDup_app in Q3 as (_ & Q3 & Q5). apply NoDup_app in Q4 as (_ & Q4 & Q6).
  split; [| |by rewrite Hdv|by rewrite Hde].
  - intros r d. rewrite Hdv. intros Hin. destruct (Q1 r d) as (l & x & ? & ? & ?); [set_solver|].
    exists l, x. rewrite Hv, Hvh, decide_False; [done|]. intros Hg. apply (Q3 r Hg), list_elem_of_fmap. by exists (r, d).
  - intros r d. rewrite Hde. intros Hin. destruct (Q2 r d) as (l & x & ? & ? & ?); [set_solver|].
    exists l, x. rewrite He, Heh, decide_False; [done|]. intros Hg. apply (Q4 r Hg), list_elem_of_fmap. by exists (r, d).
Qed.

Lemma collect_snapshot w E : snapshot_repr w g E -> (v <= w)%Z -> snapshot_repr w g' E.
Proof.
  intros [Hs Hn] Hw. destruct collected as (Hvh & Heh & Hv & He & _).
  assert (forall d, (d <= v)%Z -> checkReadOnly w (mkState d COMMITTED_DELETE) = true) as Hhid
    by (intros d Hd; unfold checkReadOnly; simpl; lia).
  split.
  - intros k sd HE. destruct (Hs k sd HE) as (le & e & Hk & Hle & Hvis & Hends). exists le, e. rewrite He, Heh.
    split_and!; [|done|done|].
    + rewrite decide_False; [done|]. intros (l & x & d & Hl & Hx & Hst & Hd)%gone_edge. simplify_eq.
      rewrite Hst, Hhid in Hvis; done.
    + intros s. destruct (Hends s) as (l & x & ? & Hl & Hx & ? & Hvx). exists l, x. rewrite Hv, Hvh.
      split_and!; try done. rewrite decide_False; [done|]. intros (l' & x' & d & Hl' & Hx' & Hst & Hd)%gone_vertex.
      simplify_eq. rewrite Hst, Hhid in Hvx; done.
  - intros k le e HE. rewrite He, Heh. case_decide; [done|]. by apply Hn.
Qed.

Lemma collect_writer t E :
  fresh_writer t -> repr g t E -> publishable g t -> repr g' t E /\ publishable g' t.
Proof.
  intros Hf Hr [P1 P2 P3 P4]. destruct collected as (Hvh & Heh & Hv & He & _). pose proof (r_base _ _ _ _ _ Hr) as Hb.
  assert (forall r l, vertices g' !! r = Some l -> vertices g !! r = Some l) as HV
    by (intros r l; rewrite Hv; by case_decide).
  assert (forall r l, edges g' !! r = Some l -> edges g !! r = Some l) as HE
    by (intros r l; rewrite He; by case_decide).
  assert (forall r l, allV g' t !! r = Some l -> allV g t !! r = Some l) as HaV.
  { intros r l. unfold allV. rewrite (fw_vertices _ Hf), !(right_id_L ∅ _). apply HV. }
  assert (forall r l, allE g' t !! r = Some l -> allE g t !! r = Some l) as HaE.
  { intros r l. unfold allE. rewrite (fw_edges _ Hf), !(right_id_L ∅ _). apply HE. }
  split.
  - apply (repr_transport g t); [done| | | |intros s l; unfold eEnd; by rewrite Heh|intros s l k; unfold vAdj; by rewrite Hvh].
    + destruct Hb as [B1 B2 B3 B4 B5 B6 B7]. rewrite <- Hvh in B2, B6. rewrite <- Heh in B3, B7. split; eauto.
    + intros r l. unfold vvis. rewrite Hvh. split; [intros [Ha Hx]; eauto|]. intros [Ha (x & Hx & Hs)].
      split; [|by exists x]. unfold allV in *. rewrite (fw_vertices _ Hf), !(right_id_L ∅ _) in *. rewrite Hv.
      rewrite decide_False; [done|]. intros (l' & x' & d & Hl' & Hx' & Hst & _)%gone_vertex. simplify_eq.
      by rewrite Hst in Hs.
    + intros r l. unfold evis. rewrite Heh. split; [intros [Ha Hx]; eauto|]. intros [Ha (x & Hx & Hs)].
      split; [|by exists x]. unfold allE in *. rewrite (fw_edges _ Hf), !(right_id_L ∅ _) in *. rewrite He.
      rewrite decide_False; [done|]. intros (l' & x' & d & Hl' & Hx' & Hst & _)%gone_edge. simplify_eq.
      by rewrite Hst in Hs.
  - split.
    + intros k le e Hk. rewrite Heh. intros Hu He1; apply (P1 k le e); [by apply HE|done|done].
    + intros k le e Hk. rewrite Heh. intros He2; apply (P2 k le e); [by apply HaE|done].
    + intros k le e. by rewrite (fw_edges _ Hf), lookup_empty.
    + intros r l x. by rewrite (fw_vertices _ Hf), lookup_empty.
Qed.
End collect.

(** ** The cycle *)

(** Between write transactions: the next writer works on the map [E], a
    reader that starts now reads [E]. *)
Record quiescent (c : Context) (E : gmap RecordId (RecordId * RecordId)) : Prop := {
  qs_version : (0 <= maxVersionId (dbTxnStat c))%Z;
  qs_writer : forall t, fresh_writer t -> (maxVersionId (dbTxnStat c) < txnVersionId t)%Z ->
    repr (dbRelation c) t E /\ publishable (dbRelation c) t;
  qs_reader : snapshot_repr (maxVersionId (dbTxnStat c)) (dbRelation c) E;
  qs_queue : queue_ok (dbRelation c);
  qs_versions : versions_ok (maxVersionId (dbTxnStat c)) (dbRelation c);
}.

Lemma steps_flags a b :
  txn_steps a b -> isCompleted b.2 = isCompleted a.2 /\ isWithDataStore b.2 = isWithDataStore a.2 /\
    txnType b.2 = txnType a.2 /\ txnVersionId b.2 = txnVersionId a.2.
Proof. induction 1 as [|a b c Hab _ (-> & -> & -> & ->)]; [done|]. by destruct Hab. Qed.

(** What a commit does to the relations and to the version. *)
Lemma commit_relation d c t :
  isCompleted t = false -> txnType t = READ_WRITE -> (isWithDataStore t = true -> d = Ok tt) ->
  exists c' t' base, commit d c t = Ok (true, c', t') /\
    maxVersionId (dbTxnStat c') = u64 (maxVersionId (dbTxnStat c) + 1) /\
    (dbRelation c' = commitRelation base t (dbRelation c) \/
     dbRelation c' = clearDeletedElements (txnVersionId t) (commitRelation base t (dbRelation c))).
Proof.
  intros Hc Ht Hd. unfold commit. rewrite Hc, Ht.
  replace (if isWithDataStore t then d else Ok tt) with (Ok tt : Outcome unit)
    by (destruct (isWithDataStore t); [by rewrite Hd|done]).
  cbn [obind]. set (c1 := dsCall _ DS_COMMIT c). set (base := currentMinVersion t (dbTxnStat c1)).
  assert (dbRelation c1 = dbRelation c /\ dbTxnStat c1 = dbTxnStat c) as [Hrel1 Hst1]
    by (unfold c1; by destruct (isWithDataStore t)).
  set (c3 := setRelation (commitRelation base (setCommitDatastore t)) _).
  assert (dbRelation c3 = commitRelation base t (dbRelation c) /\ dbTxnStat c3 = dbTxnStat c) as [Hrel3 Hst3].
  { unfold c3. cbn [setRelation setSchema dbRelation dbTxnStat]. by rewrite Hrel1, Hst1. }
  clearbody c3. set (c4 := if bool_decide _ then c3 else _).
  assert (dbRelation c4 = dbRelation c3 /\ dbTxnStat c4 = dbTxnStat c3) as [Hrel4 Hst4]
    by (unfold c4; by case_bool_decide).
  clearbody c4. set (c5 := setTxnStat _ c4).
  assert (dbRelation c5 = dbRelation c3 /\ maxVersionId (dbTxnStat c5) = u64 (maxVersionId (dbTxnStat c) + 1)) as [Hrel5 Hst5]
    by (unfold c5; cbn [setTxnStat dbRelation dbTxnStat]; by rewrite Hrel4, Hst4, Hst3).
  clearbody c5. eexists _, _, base. split; [reflexivity|].
  destruct (_ && _); [|split; [done|left; congruence]].
  split; [by rewrite collect_stat|]. right. unfold collect. cbn [setRelation setSchema dbRelation]. congruence.
Qed.

(** The state a commit leaves. *)
Lemma commit_quiescent d c t E :
  repr (dbRelation c) t E -> publishable (dbRelation c) t -> queue_ok (dbRelation c) ->
  versions_ok (txnVersionId t) (dbRelation c) ->
  txnVersionId t = (maxVersionId (dbTxnStat c) + 1)%Z -> (0 <= maxVersionId (dbTxnStat c))%Z ->
  (txnVersionId t < UINT64_MAX)%Z -> isCompleted t = false -> (isWithDataStore t = true -> d = Ok tt) ->
  exists c' t', commit d c t = Ok (true, c', t') /\ maxVersionId (dbTxnStat c') = txnVersionId t /\ quiescent c' E.
Proof.
  intros Hr Hp Hq Hvo Hver H0 Hmax Hc Hd. pose proof (r_base _ _ _ _ _ Hr) as Hb.
  destruct (commit_relation d c t Hc (b_rw _ _ Hb) Hd) as (c' & t' & base & Hcm & Hv' & Hrel).
  set (g := dbRelation c) in *. set (g1 := commitRelation base t g) in *.
  unfold u64 in Hv'. unfold UINT64_MAX in Hmax. rewrite Z.mod_small in Hv' by lia. rewrite <- Hver in Hv'.
  exists c', t'. split_and!; [done|done|].
  assert (forall t', fresh_writer t' -> (txnVersionId t < txnVersionId t')%Z -> repr g1 t' E /\ publishable g1 t') as Hw.
  { intros t2 Hf Hlt. split; [by apply handover_repr|by eapply handover_publishable]. }
  assert (snapshot_repr (txnVersionId t) g1 E) as Hs by (by apply commit_snapshot).
  assert (queue_ok g1) as Hq1 by (by apply commit_queue).
  assert (versions_ok (txnVersionId t) g1) as Hv1 by (by apply commit_versions).
  destruct Hrel as [Hrel|Hrel]; split; rewrite ?Hv', ?Hrel; try done; try lia.
  - intros t2 Hf Hlt. destruct (Hw t2 Hf Hlt). by apply collect_writer.
  - by apply collect_snapshot.
  - by apply collect_queue.
  - destruct (collected (txnVersionId t) g1) as (Hvh & _). unfold versions_ok. by rewrite Hvh.
Qed.

(** A reader that starts now reads the end points of the map. *)
Lemma quiescent_reads c E inMem r c1 k :
  quiescent c E -> beginTxn c false inMem = Ok (r, c1) ->
  getVertexSrcDst (dbRelation c1) r k =
    match E !! k with Some sd => Ok sd | None => Throw NOGDB_GRAPH_NOEXST_EDGE end.
Proof.
  intros Hqs. unfold beginTxn. cbn [fetchAddMaxTxnId]. intros [= <- <-].
  set (t := mkBaseTxn READ_WRITE 0 (maxVersionId (dbTxnStat c) + 1) emptyDbInfo ∅ ∅ ∅ false false false).
  destruct (qs_writer _ _ Hqs t) as [Hr _]; [by split|simpl; lia|].
  pose proof (r_base _ _ _ _ _ Hr) as Hb. cbn [setTxnStat dbRelation].
  assert (dbRelation (dsCall (negb inMem) DS_BEGIN_RO c) = dbRelation c /\
    dbTxnStat (dsCall (negb inMem) DS_BEGIN_RO c) = dbTxnStat c) as [-> ->] by (by destruct (negb inMem)).
  apply (snapshot_reads (maxVersionId (dbTxnStat c))); [apply Hqs| |done|done].
  intros k' le Hk. destruct (b_eheap _ _ Hb k' le) as (e & He & _); [|by exists e]. by apply lookup_all_l.
Qed.

(** The start of a write transaction on a quiescent context. *)
Lemma begin_writer c E inMem :
  quiescent c E -> (maxVersionId (dbTxnStat c) + 1 < UINT64_MAX)%Z ->
  exists t0 c0, beginTxn c true inMem = Ok (t0, c0) /\ fresh_writer t0 /\
    txnVersionId t0 = (maxVersionId (dbTxnStat c) + 1)%Z /\ isCompleted t0 = false /\
    isWithDataStore t0 = negb inMem /\ dbRelation c0 = dbRelation c /\ dbTxnStat c0 = dbTxnStat c /\
    dbSchema c0 = dbSchema c /\ dbInfo c0 = dbInfo c /\ txnDbInfo t0 = dbInfo c /\ ucSchema t0 = ∅.
Proof.
  intros Hqs Hmax. pose proof (qs_version _ _ Hqs) as H0. unfold beginTxn. rewrite dsCall_stat.
  unfold u64. unfold UINT64_MAX in *. rewrite Z.mod_small by lia.
  destruct (Z.eqb_spec (maxVersionId (dbTxnStat c) + 1) 18446744073709551615); [lia|].
  eexists _, _. split; [reflexivity|]. by destruct (negb inMem).
Qed.

(** The commit of a writer that took steps from there, in a context whose
    relations and versions are the ones it left. *)
Lemma cycle_commit c E t0 g t E' d c1 :
  quiescent c E -> (maxVersionId (dbTxnStat c) + 1 < UINT64_MAX)%Z -> fresh_writer t0 ->
  txnVersionId t0 = (maxVersionId (dbTxnStat c) + 1)%Z -> isCompleted t0 = false ->
  txn_steps (dbRelation c, t0) (g, t) -> repr g t E' -> (isWithDataStore t0 = true -> d = Ok tt) ->
  dbRelation c1 = g -> dbTxnStat c1 = dbTxnStat c ->
  exists c' t', commit d c1 t = Ok (true, c', t') /\
    maxVersionId (dbTxnStat c') = (maxVersionId (dbTxnStat c) + 1)%Z /\ quiescent c' E'.
Proof.
  intros Hqs Hmax Hf Hver Hcomp Hsteps Hr Hd Hg Hstat. pose proof (qs_version _ _ Hqs) as H0.
  destruct (qs_writer _ _ Hqs t0) as [Hr0 Hp0]; [done|lia|].
  destruct (steps_flags _ _ Hsteps) as (F1 & F2 & F3 & F4). cbn [snd] in *.
  destruct (steps_publishable _ _ Hsteps) as [Hp _]; [by eapply base_owned, r_base|simpl; lia|done|].
  pose proof (steps_queue _ _ Hsteps (qs_queue _ _ Hqs)) as Hq.
  assert (versions_ok (txnVersionId t) g) as Hvo.
  { assert (forall w a b, txn_steps a b -> (0 <= w)%Z -> versions_ok w a.1 -> versions_ok w b.1) as Hstepsv.
    { intros w a b Hab Hw. apply (steps_inv (fun x => versions_ok w x.1)); [|done]. intros ?? Hst. by eapply step_versions. }
    apply (Hstepsv _ _ _ Hsteps); [rewrite F4; lia|]. cbn [fst].
    eapply map_Forall_impl; [apply (qs_versions _ _ Hqs)|]. simpl. rewrite F4, Hver. intros; lia. }
  subst g. destruct (commit_quiescent d c1 t E') as (c' & t' & Hcm & Hv' & Hq'); try done.
  - by rewrite Hstat, F4.
  - by rewrite Hstat.
  - by rewrite F4, Hver.
  - by rewrite F1.
  - by rewrite F2.
  - exists c', t'. split_and!; [done| |done]. by rewrite Hv', F4, Hver.
Qed.

(** C2. A write transaction on a quiescent context, from its start over any
    sequence of graph operations to its commit: the version advances by one,
    the next reader and the next writer find the map the operations produced. *)
Theorem transaction_cycle c E inMem t0 c0 g t E' d :
  quiescent c E -> (maxVersionId (dbTxnStat c) + 1 < UINT64_MAX)%Z -> beginTxn c true inMem = Ok (t0, c0) ->
  repr (dbRelation c0) t0 E /\
  (txn_steps (dbRelation c0, t0) (g, t) -> repr g t E' -> (inMem = false -> d = Ok tt) ->
   exists c' t', commit d (setRelation (fun _ => g) c0) t = Ok (true, c', t') /\
     maxVersionId (dbTxnStat c') = (maxVersionId (dbTxnStat c) + 1)%Z /\ quiescent c' E' /\
     forall inMem' r c'' k, beginTxn c' false inMem' = Ok (r, c'') ->
       getVertexSrcDst (dbRelation c'') r k =
         match E' !! k with Some sd => Ok sd | None => Throw NOGDB_GRAPH_NOEXST_EDGE end).
Proof.
  intros Hqs Hmax Hbegin.
  destruct (begin_writer c E inMem Hqs Hmax) as (? & ? & Hb & Hf & Hver & Hc & Hds & Hg & Hst & _).
  rewrite Hbegin in Hb. injection Hb as <- <-. rewrite Hg.
  split; [apply (qs_writer _ _ Hqs); [done|lia]|]. intros Hsteps Hr Hd.
  destruct (cycle_commit c E t0 g t E' d (setRelation (fun _ => g) c0)) as (c' & t' & ? & ? & ?); try done.
  { rewrite Hds. intros ?. apply Hd. by destruct inMem. }
  exists c', t'. split_and!; try done. intros. by eapply quiescent_reads.
Qed.

(** A context that was just created. *)
Lemma quiescent_empty c : dbRelation c = mkGraph ∅ ∅ ∅ ∅ [] [] ∅ ∅ -> maxVersionId (dbTxnStat c) = 0%Z -> quiescent c ∅.
Proof.
  intros Hg Hv. split; rewrite ?Hg, ?Hv; try done.
  - intros t [Ht Hvs Hes]. assert (forall r, allV (mkGraph ∅ ∅ ∅ ∅ [] [] ∅ ∅) t !! r = None) as HV
      by (intros r; unfold allV; by rewrite Hvs, (right_id_L ∅ _)).
    assert (forall r, allE (mkGraph ∅ ∅ ∅ ∅ [] [] ∅ ∅) t !! r = None) as HE
      by (intros r; unfold allE; by rewrite Hes, (right_id_L ∅ _)).
    intros _. split.
    + split.
      * split; try done; intros r l; rewrite ?HV, ?HE; done.
      * intros k le [Hk _]. by rewrite HE in Hk.
      * split; [by intros k sd; rewrite lookup_empty|]. intros r l k [Hk _]. by rewrite HV in Hk.
      * split; [by intros k sd; rewrite lookup_empty|]. intros r l k [Hk _]. by rewrite HV in Hk.
    + split; intros k le e; [simpl; by rewrite lookup_empty|by rewrite HE| |]; by rewrite ?Hes, ?Hvs, lookup_empty.
  - split; try constructor; intros r d Hin; by apply not_elem_of_nil in Hin.
Qed.
