(* ===== verification/Compare.v ===== *)
(** * Conditions and their evaluation

    Models [Condition] and [MultiCondition] (include/nogdb/nogdb_compare.h,
    src/src/condition.cpp, multi_condition.cpp) and the comparison of stored
    values (src/src/compare.cpp, compare.hpp).  The regular expression engine
    of the C++ library is the argument [regex_match]; numbers of type REAL are
    IEEE 754 doubles in their specification form. *)

From stdpp Require Import base gmap list strings sorting.
From Stdlib Require Import ZArith Lia SpecFloat.
From S2P Require Import Prelude Types Blob RecordModel Parser.

Inductive Comparator :=
| IS_NULL | NOT_NULL | EQUAL | GREATER | LESS | GREATER_EQUAL | LESS_EQUAL
| CONTAIN | BEGIN_WITH | END_WITH | LIKE | REGEX | IN
| BETWEEN | BETWEEN_NO_UPPER | BETWEEN_NO_LOWER | BETWEEN_NO_BOUND.
#[export] Instance Comparator_eq_dec : EqDecision Comparator.
Proof. solve_decision. Defined.

Record Condition := mkCondition {
  propName : string;
  valueBytes : list byte;
  valueSet : list (list byte);
  comp : Comparator;
  isIgnoreCase : bool;
  isNegative : bool;
}.

(** ** Building conditions *)
Definition newCondition (name : string) : Condition := mkCondition name [] [] NOT_NULL false false.

(** [eq], [gt], ..., [regex]: a comparator with one value. *)
Definition withValue (cmp : Comparator) (v : list byte) (c : Condition) : Condition :=
  mkCondition (propName c) v (valueSet c) cmp (isIgnoreCase c) (isNegative c).
Definition ignoreCase (c : Condition) : Condition :=
  mkCondition (propName c) (valueBytes c) (valueSet c) (comp c) true (isNegative c).
Definition null (c : Condition) : Condition := withValue IS_NULL [] c.
Definition between (lower upper : list byte) (bounds : bool * bool) (c : Condition) : Condition :=
  mkCondition (propName c) (valueBytes c) [lower; upper]
    (match bounds with
     | (false, false) => BETWEEN_NO_BOUND
     | (false, true) => BETWEEN_NO_LOWER
     | (true, false) => BETWEEN_NO_UPPER
     | (true, true) => BETWEEN
     end) (isIgnoreCase c) (isNegative c).
Definition in_ (values : list (list byte)) (c : Condition) : Condition :=
  mkCondition (propName c) (valueBytes c) values IN (isIgnoreCase c) (isNegative c).

(** [Condition::operator!] *)
Definition negate (c : Condition) : Condition :=
  match comp c with
  | NOT_NULL => mkCondition (propName c) (valueBytes c) (valueSet c) IS_NULL (isIgnoreCase c) (isNegative c)
  | IS_NULL => mkCondition (propName c) (valueBytes c) (valueSet c) NOT_NULL (isIgnoreCase c) (isNegative c)
  | k => mkCondition (propName c) (valueBytes c) (valueSet c) k (isIgnoreCase c) (negb (isNegative c))
  end.

(** ** Text *)
Definition lowerByte (b : byte) : byte := if ((65 <=? b) && (b <=? 90))%Z then (b + 32)%Z else b.
Definition toLower (l : list byte) : list byte := lowerByte <$> l.

Fixpoint is_prefix (p l : list byte) : bool :=
  match p, l with
  | [], _ => true
  | x :: p', y :: l' => (x =? y)%Z && is_prefix p' l'
  | _ :: _, [] => false
  end.

(** [std::string::find(p)]: the first position, [None] for [npos]. *)
Fixpoint find_from (i : nat) (p l : list byte) : option nat :=
  if is_prefix p l then Some i
  else match l with [] => None | _ :: l' => find_from (S i) p l' end.
Definition str_find (p l : list byte) : option nat := find_from 0 p l.

(** [replaceAll] with a pattern of one byte. *)
Definition replaceAll1 (from : byte) (to l : list byte) : list byte :=
  l ≫= fun b => if (b =? from)%Z then to else [b].

Definition percent : byte := 37.
Definition underscore : byte := 95.
Definition any_text : list byte := bytes_of_string "(.*)".
Definition any_char : list byte := bytes_of_string "(.)".
Definition like_pattern (p : list byte) : list byte :=
  replaceAll1 underscore any_char (replaceAll1 percent any_text p).

(** ** Doubles *)
Definition binary64_of_bits (z : Z) : spec_float :=
  let sign := Z.testbit z 63 in
  let ex := ((z / 2 ^ 52) mod 2048)%Z in
  let frac := (z mod 2 ^ 52)%Z in
  if (ex =? 0)%Z then
    match frac with Zpos m => S754_finite sign m (-1074) | _ => S754_zero sign end
  else if (ex =? 2047)%Z then if (frac =? 0)%Z then S754_infinity sign else S754_nan
  else match (2 ^ 52 + frac)%Z with Zpos m => S754_finite sign m (ex - 1075) | _ => S754_nan end.

Definition toReal (b : list byte) : Outcome spec_float :=
  if bool_decide (8 <= length b) then Ok (binary64_of_bits (le_value (take 8 b))) else UB.

(** [Record::getReal] *)
Definition getReal (name : string) (r : DbRecord) : Outcome spec_float := getWith toReal name r.

(** ** Comparing two values of one type *)
Section compare.
  Context (regex_match : list byte -> list byte -> Outcome bool).

Definition cmpWith {A} (eqb ltb leb : A -> A -> bool) (conv : list byte -> Outcome A)
    (value cmp1 cmp2 : list byte) (cmp : Comparator) : Outcome bool :=
  let rel (r : A -> A -> bool) (a b : list byte) :=
    let* x := conv a in let* y := conv b in Ok (r x y) in
  let both (r1 r2 : A -> A -> bool) :=
    let* lo := rel r1 cmp1 value in
    if (lo : bool) then rel r2 value cmp2 else Ok false in
  match cmp with
  | EQUAL => rel eqb value cmp1
  | GREATER => rel (fun x y => ltb y x) value cmp1
  | GREATER_EQUAL => rel (fun x y => leb y x) value cmp1
  | LESS => rel ltb value cmp1
  | LESS_EQUAL => rel leb value cmp1
  | BETWEEN => both leb leb
  | BETWEEN_NO_LOWER => both ltb leb
  | BETWEEN_NO_UPPER => both leb ltb
  | BETWEEN_NO_BOUND => both ltb ltb
  | _ => Throw NOGDB_CTX_INVALID_COMPARATOR
  end.

Definition cmpZ := cmpWith Z.eqb Z.ltb Z.leb.

Definition cmpText (value cmp1 cmp2 : list byte) (cmp : Comparator) (ignore : bool) : Outcome bool :=
  let text (b : list byte) := let* t := toText b in Ok (if ignore then toLower t else t) in
  let* v := text value in
  let* c1 := text cmp1 in
  let* c2 := match cmp2 with [] => Ok [] | _ => text cmp2 end in
  match cmp with
  | EQUAL => Ok (text_eqb v c1)
  | GREATER => Ok (text_ltb c1 v)
  | GREATER_EQUAL => Ok (text_leb c1 v)
  | LESS => Ok (text_ltb v c1)
  | LESS_EQUAL => Ok (text_leb v c1)
  | CONTAIN => Ok (match str_find c1 v with Some i => bool_decide (i < length (cstr v)) | None => false end)
  | BEGIN_WITH => Ok (bool_decide (str_find c1 v = Some 0))
  | END_WITH => Ok (bool_decide (str_find (reverse c1) (reverse v) = Some 0))
  | LIKE => regex_match v (like_pattern c1)
  | REGEX => regex_match v c1
  | BETWEEN => Ok (text_leb c1 v && text_leb v c2)
  | BETWEEN_NO_LOWER => Ok (text_ltb c1 v && text_leb v c2)
  | BETWEEN_NO_UPPER => Ok (text_leb c1 v && text_ltb v c2)
  | BETWEEN_NO_BOUND => Ok (text_ltb c1 v && text_ltb v c2)
  | _ => Throw NOGDB_CTX_INVALID_COMPARATOR
  end.

(** [memcmp] over the size of the stored value only. *)
Definition cmpBlob (value cmp1 : list byte) (cmp : Comparator) : Outcome bool :=
  match cmp with
  | EQUAL => if bool_decide (length value <= length cmp1)
             then Ok (bool_decide (take (length value) cmp1 = value)) else UB
  | _ => Throw NOGDB_CTX_INVALID_COMPARATOR
  end.

Definition genericCompareFunc (value : list byte) (type : PropertyType) (cmp1 cmp2 : list byte)
    (cmp : Comparator) (ignore : bool) : Outcome bool :=
  match type with
  | TINYINT => cmpZ toTinyInt value cmp1 cmp2 cmp
  | UNSIGNED_TINYINT => cmpZ toTinyIntU value cmp1 cmp2 cmp
  | SMALLINT => cmpZ toSmallInt value cmp1 cmp2 cmp
  | UNSIGNED_SMALLINT => cmpZ toSmallIntU value cmp1 cmp2 cmp
  | INTEGER => cmpZ toInt value cmp1 cmp2 cmp
  | UNSIGNED_INTEGER => cmpZ toIntU value cmp1 cmp2 cmp
  | BIGINT => cmpZ toBigInt value cmp1 cmp2 cmp
  | UNSIGNED_BIGINT => cmpZ toBigIntU value cmp1 cmp2 cmp
  | REAL => cmpWith SFeqb SFltb SFleb toReal value cmp1 cmp2 cmp
  | TEXT => cmpText value cmp1 cmp2 cmp ignore
  | BLOB => cmpBlob value cmp1 cmp
  | PT_UNDEFINED => Throw NOGDB_CTX_INVALID_PROPTYPE
  end.

(** The loop of [IN]: the negation applies to each element. *)
Fixpoint compareIn (value : list byte) (type : PropertyType) (ignore negative : bool)
    (vs : list (list byte)) : Outcome bool :=
  match vs with
  | [] => Ok false
  | v :: vs' =>
      let* b := genericCompareFunc value type v [] EQUAL ignore in
      if xorb b negative then Ok true else compareIn value type ignore negative vs'
  end.

Definition isBetween (k : Comparator) : bool :=
  match k with BETWEEN | BETWEEN_NO_UPPER | BETWEEN_NO_LOWER | BETWEEN_NO_BOUND => true | _ => false end.

Definition compareBytesValue (value : list byte) (type : PropertyType) (c : Condition) : Outcome bool :=
  match comp c with
  | IN => compareIn value type (isIgnoreCase c) (isNegative c) (valueSet c)
  | k =>
      if isBetween k then
        match valueSet c with
        | lower :: upper :: _ =>
            let* b := genericCompareFunc value type lower upper k (isIgnoreCase c) in
            Ok (xorb b (isNegative c))
        | _ => UB
        end
      else
        let* b := genericCompareFunc value type (valueBytes c) [] k (isIgnoreCase c) in
        Ok (xorb b (isNegative c))
  end.

(** ** Conditions on records *)

(** The filter of [getRecordCondition] and [getEdgeCondition]. *)
Definition checkCondition (c : Condition) (type : PropertyType) (r : DbRecord) : Outcome bool :=
  let* value := get (propName c) r in
  let empty := bool_decide (value = []) in
  match comp c with
  | IS_NULL => Ok empty
  | NOT_NULL => Ok (negb empty)
  | _ => if empty then Ok false else compareBytesValue value type c
  end.

(** [ConditionNode::check] *)
Definition checkNode (types : gmap string PropertyType) (c : Condition) (r : DbRecord) : Outcome bool :=
  let* value := get (propName c) r in
  match types !! propName c with
  | None => Throw NOGDB_CTX_UNKNOWN_ERR
  | Some type =>
      let empty := bool_decide (value = []) in
      match comp c with
      | IS_NULL => Ok (xorb empty (isNegative c))
      | NOT_NULL => Ok (xorb (negb empty) (isNegative c))
      | _ => if empty then Ok false else compareBytesValue value type c
      end
  end.

Inductive Operator := AND | OR.

(** [ExprNode]: [ConditionNode] or [CompositeNode]. *)
Inductive ExprNode :=
| ConditionNode (c : Condition)
| CompositeNode (lhs rhs : ExprNode) (opt : Operator) (negative : bool).

Definition checkIfCondition (e : ExprNode) : bool :=
  match e with ConditionNode _ => true | CompositeNode _ _ _ _ => false end.

(** [CompositeNode::check]: a right operand that is a single condition is
    evaluated first. *)
Fixpoint check (types : gmap string PropertyType) (r : DbRecord) (e : ExprNode) : Outcome bool :=
  match e with
  | ConditionNode c => checkNode types c r
  | CompositeNode lhs rhs opt negative =>
      let first := if checkIfCondition rhs then check types r rhs else check types r lhs in
      let second := if checkIfCondition rhs then check types r lhs else check types r rhs in
      let* b := first in
      match opt with
      | AND => if (b : bool) then let* b2 := second in Ok (xorb b2 negative) else Ok negative
      | OR => if (b : bool) then Ok (negb negative) else let* b2 := second in Ok (xorb b2 negative)
      end
  end.

(** The leaves of an expression, from left to right. *)
Fixpoint leaves (e : ExprNode) : list Condition :=
  match e with
  | ConditionNode c => [c]
  | CompositeNode lhs rhs _ _ => leaves lhs ++ leaves rhs
  end.

(** [MultiCondition]: the root is a [CompositeNode]; [conditions] holds the
    condition nodes as weak pointers, all of them owned by the root.  Nodes are
    never modified, so sharing them between expressions is not observable. *)
Record MultiCondition := mkMultiCondition {
  rootLeft : ExprNode;
  rootRight : ExprNode;
  rootOpt : Operator;
  rootNegative : bool;
  conditions : list Condition;
}.

Definition root (m : MultiCondition) : ExprNode :=
  CompositeNode (rootLeft m) (rootRight m) (rootOpt m) (rootNegative m).

(** [MultiCondition(c1, c2, opt)], [MultiCondition(c, e, opt)] *)
Definition multiOf (c1 c2 : Condition) (opt : Operator) : MultiCondition :=
  mkMultiCondition (ConditionNode c1) (ConditionNode c2) opt false [c1; c2].
Definition multiOfMulti (c : Condition) (e : MultiCondition) (opt : Operator) : MultiCondition :=
  mkMultiCondition (ConditionNode c) (root e) opt false (c :: conditions e).

(** [m && e], [m || e] with a [MultiCondition] and with a [Condition] *)
Definition multiJoin (m e : MultiCondition) (opt : Operator) : MultiCondition :=
  mkMultiCondition (root m) (root e) opt false (conditions m ++ conditions e).
Definition multiAppend (m : MultiCondition) (c : Condition) (opt : Operator) : MultiCondition :=
  mkMultiCondition (root m) (ConditionNode c) opt false (conditions m ++ [c]).
Definition multiNegate (m : MultiCondition) : MultiCondition :=
  mkMultiCondition (rootLeft m) (rootRight m) (rootOpt m) (negb (rootNegative m)) (conditions m).

Definition execute (m : MultiCondition) (r : DbRecord) (types : gmap string PropertyType) : Outcome bool :=
  check types r (root m).

(** ** Scanning the records of classes *)
Section scan.
  Context (records : ClassId -> list (PositionId * list byte)).

(** The loop over the cursor of one class: the record that holds the next
    position is skipped. *)
Definition scanClass (accept : DbRecord -> Outcome bool) (result : list (RecordId * DbRecord))
    (info : ClassInfo) : Outcome (list (RecordId * DbRecord)) :=
  ofold (fun res kv =>
           if (kv.1 =? EM_MAXRECNUM)%Z then Ok res
           else
             let* record := parseRawDataWithBasicInfo (bytes_of_string (ci_name info))
                              (ci_id info, kv.1) (Some kv.2) (ci_propertyInfo info) in
             let* b := accept record in
             Ok (if (b : bool) then res ++ [((ci_id info, kv.1), record)] else res))
        (records (ci_id info)) result.

Definition scanClasses (infos : list ClassInfo) (accept : DbRecord -> Outcome bool) :
    Outcome (list (RecordId * DbRecord)) :=
  ofold (scanClass accept) infos [].

Definition getRecordCondition (infos : list ClassInfo) (c : Condition) (type : PropertyType) :=
  scanClasses infos (checkCondition c type).

Definition getRecordMultiCondition (infos : list ClassInfo) (m : MultiCondition)
    (types : gmap string PropertyType) :=
  scanClasses infos (fun r => execute m r types).

(** [compareCondition]: the type of the property in the first class that has
    it; every other class must agree. *)
Definition resolveType (name : string) (type : PropertyType) (info : ClassInfo) : Outcome PropertyType :=
  match nameToDesc (ci_propertyInfo info) !! name with
  | None => Ok type
  | Some d =>
      if bool_decide (type = PT_UNDEFINED) then Ok (pd_type d)
      else if bool_decide (type = pd_type d) then Ok type
      else Throw NOGDB_CTX_CONFLICT_PROPTYPE
  end.

Definition compareCondition (infos : list ClassInfo) (c : Condition) :
    Outcome (list (RecordId * DbRecord)) :=
  let* type := ofold (resolveType (propName c)) infos PT_UNDEFINED in
  if bool_decide (type = PT_UNDEFINED) then Throw NOGDB_CTX_NOEXST_PROPERTY
  else getRecordCondition infos c type.
End scan.
End compare.

(** ** Comparing integers *)

(** The width in bytes of an integer type and whether it is signed. *)
Definition intType (type : PropertyType) : option (nat * bool) :=
  match type with
  | TINYINT => Some (1, true) | UNSIGNED_TINYINT => Some (1, false)
  | SMALLINT => Some (2, true) | UNSIGNED_SMALLINT => Some (2, false)
  | INTEGER => Some (4, true) | UNSIGNED_INTEGER => Some (4, false)
  | BIGINT => Some (8, true) | UNSIGNED_BIGINT => Some (8, false)
  | _ => None
  end.

Definition inRange (w : nat * bool) (z : Z) : Prop :=
  if w.2 then (- 2 ^ (8 * Z.of_nat w.1 - 1) <= z < 2 ^ (8 * Z.of_nat w.1 - 1))%Z
  else (0 <= z < 256 ^ Z.of_nat w.1)%Z.

(** What a comparator means on integers; [None] where it has no meaning. *)
Definition meansZ (cmp : Comparator) (x lo hi : Z) : option Prop :=
  match cmp with
  | EQUAL => Some (x = lo)
  | GREATER => Some (lo < x)%Z
  | GREATER_EQUAL => Some (lo <= x)%Z
  | LESS => Some (x < lo)%Z
  | LESS_EQUAL => Some (x <= lo)%Z
  | BETWEEN => Some (lo <= x <= hi)%Z
  | BETWEEN_NO_LOWER => Some (lo < x <= hi)%Z
  | BETWEEN_NO_UPPER => Some (lo <= x < hi)%Z
  | BETWEEN_NO_BOUND => Some (lo < x < hi)%Z
  | _ => None
  end.

Lemma convertAll_uint n x :
  inRange (n, false) x -> ofmap uint_val (convertAll (T := UInt n) (le_bytes n x)) = Ok x.
Proof.
  intros Hx. unfold convertAll. cbn [convert Converter_plain].
  pose proof (readPlain_app (mkUInt (n := n) x) [] (Z.of_nat (length (le_bytes n x))) Hx) as Hr.
  rewrite app_nil_r in Hr. simpl in Hr. by rewrite Hr.
Qed.

Lemma convertAll_sint n x :
  0 < n -> inRange (n, true) x -> ofmap sint_val (convertAll (T := SInt n) (le_bytes n x)) = Ok x.
Proof.
  intros Hn Hx. unfold convertAll, convert, Converter_plain, readPlain.
  rewrite bool_decide_true by (simpl; rewrite length_le_bytes; lia). cbn [obind ofmap].
  change (ptr (mkReader ?l _)) with l.
  rewrite take_ge by (simpl; rewrite length_le_bytes; lia).
  change (le_bytes n x) with (plain_bytes (mkSInt (n := n) x)).
  by rewrite sint_value_bytes.
Qed.

Lemma cmpZ_spec conv value cmp1 cmp2 x lo hi cmp :
  conv value = Ok x -> conv cmp1 = Ok lo -> conv cmp2 = Ok hi ->
  match meansZ cmp x lo hi with
  | Some P => exists b, cmpZ conv value cmp1 cmp2 cmp = Ok b /\ (b = true <-> P)
  | None => cmpZ conv value cmp1 cmp2 cmp = Throw NOGDB_CTX_INVALID_COMPARATOR
  end.
Proof.
  intros Hv H1 H2. unfold cmpZ, cmpWith. rewrite Hv, H1, H2. cbn [obind].
  destruct cmp; cbn [meansZ]; try done;
    repeat match goal with |- context[if ?b then _ else _] => destruct b eqn:? end;
    eexists; (split; [reflexivity|]); lia.
Qed.

(** ** Comparing text *)
Lemma is_prefix_spec p l : is_prefix p l = true <-> p `prefix_of` l.
Proof.
  revert l; induction p as [|x p IH]; intros l; simpl.
  - split; [intros _; apply prefix_nil|done].
  - destruct l as [|y l]; [split; [done|by intros ?%prefix_nil_inv]|].
    rewrite andb_true_iff, IH, Z.eqb_eq. split.
    + intros [-> ?]. by apply prefix_cons.
    + intros Hp. split; [by eapply prefix_cons_inv_1|by eapply prefix_cons_inv_2].
Qed.

(** [find] gives the first occurrence. *)
Lemma find_from_spec i p l :
  match find_from i p l with
  | Some j => exists k, j = i + k /\ k <= length l /\ p `prefix_of` drop k l /\
                forall k', k' < k -> ~ p `prefix_of` drop k' l
  | None => forall k, k <= length l -> ~ p `prefix_of` drop k l
  end.
Proof.
  revert i; induction l as [|y l IH]; intros i.
  - unfold find_from. destruct (is_prefix p []) eqn:E.
    + exists 0. rewrite is_prefix_spec in E. split_and!; [lia|lia|done|lia].
    + intros k Hk Hp. rewrite drop_nil, <- is_prefix_spec in Hp. congruence.
  - cbn [find_from]. destruct (is_prefix p (y :: l)) eqn:E.
    { exists 0. rewrite is_prefix_spec in E. split_and!; [lia|lia|done|lia]. }
    assert (~ p `prefix_of` y :: l) as Hn by (rewrite <- is_prefix_spec; congruence).
    specialize (IH (S i)). destruct (find_from (S i) p l) as [j|].
    + destruct IH as (k & -> & Hk & Hp & Hf). exists (S k). simpl. split_and!; [lia|lia|done|].
      intros [|k'] Hk'; [done|]. apply Hf. lia.
    + intros [|k] Hk; [done|]. simpl in *. apply IH. lia.
Qed.

Lemma str_find_zero p l : str_find p l = Some 0 <-> p `prefix_of` l.
Proof.
  unfold str_find. pose proof (find_from_spec 0 p l) as Hf. split.
  - intros E. rewrite E in Hf. destruct Hf as (k & ? & _ & Hp & _). by assert (k = 0) as -> by lia.
  - intros Hp. destruct (find_from 0 p l) as [j|].
    + destruct Hf as ([|k] & -> & _ & _ & Hf); [done|]. destruct (Hf 0); [lia|done].
    + destruct (Hf 0); [lia|done].
Qed.

(** [CONTAIN]: an occurrence that starts before the end of the text. *)
Lemma str_find_before_end p l :
  match str_find p l with Some i => bool_decide (i < length l) | None => false end = true <->
  l <> [] /\ exists l1 l2, l = l1 ++ p ++ l2.
Proof.
  unfold str_find. pose proof (find_from_spec 0 p l) as Hf.
  destruct (find_from 0 p l) as [j|].
  - destruct Hf as (k & -> & Hk & [l2 Hp] & Hfirst). rewrite bool_decide_eq_true. split.
    + intros Hlt. split; [by intros ->; simpl in *; lia|].
      exists (take k l), l2. by rewrite <- Hp, take_drop.
    + intros [Hne (l1 & l3 & Heq)]. destruct (decide (k < length l)); [done|exfalso].
      assert (length l <= length l1) as Hl1.
      { destruct (decide (length l <= length l1)); [done|].
        destruct (Hfirst (length l1)); [lia|]. rewrite Heq, drop_app_length. by exists l3. }
      assert (length p = 0) as Hp0 by (rewrite Heq, !length_app in Hl1; lia).
      destruct p; [|done]. destruct k; [by destruct l; simpl in *; [|lia]|].
      destruct (Hfirst 0); [lia|apply prefix_nil].
  - split; [done|]. intros [_ (l1 & l3 & Heq)]. destruct (Hf (length l1)).
    + rewrite Heq, length_app. lia.
    + rewrite Heq, drop_app_length. by exists l3.
Qed.

(** The strict order on texts the comparators stand for. *)
Definition text_lt (a b : list byte) : Prop := text_ltb a b = true.
Definition text_le (a b : list byte) : Prop := text_lt a b \/ a = b.

Lemma text_leb_spec a b : text_leb a b = true <-> text_le a b.
Proof.
  unfold text_leb, text_le, text_lt. rewrite negb_true_iff. split.
  - intros H. destruct (text_ltb a b) eqn:E; [by left|right]. by apply text_ltb_total.
  - intros [H| ->]; [|apply text_ltb_irrefl]. destruct (text_ltb b a) eqn:E; [|done].
    by rewrite <- (text_ltb_irrefl a), (text_ltb_trans _ _ _ H E).
Qed.

(** What a comparator means on texts. *)
Definition meansText (cmp : Comparator) (v lo hi : list byte) : option Prop :=
  match cmp with
  | EQUAL => Some (v = lo)
  | GREATER => Some (text_lt lo v)
  | GREATER_EQUAL => Some (text_le lo v)
  | LESS => Some (text_lt v lo)
  | LESS_EQUAL => Some (text_le v lo)
  | CONTAIN => Some (v <> [] /\ exists l1 l2, v = l1 ++ lo ++ l2)
  | BEGIN_WITH => Some (lo `prefix_of` v)
  | END_WITH => Some (lo `suffix_of` v)
  | BETWEEN => Some (text_le lo v /\ text_le v hi)
  | BETWEEN_NO_LOWER => Some (text_lt lo v /\ text_le v hi)
  | BETWEEN_NO_UPPER => Some (text_le lo v /\ text_lt v hi)
  | BETWEEN_NO_BOUND => Some (text_lt lo v /\ text_lt v hi)
  | _ => None
  end.

(** The text a comparison looks at. *)
Definition seenText (ignore : bool) (l : list byte) : list byte := if ignore then toLower l else l.

Lemma toText_all l : toText l = Ok l.
Proof.
  unfold toText, convertAll, convert, Converter_text. cbn [ptr total_size].
  rewrite Nat2Z.id, bool_decide_true by lia. cbn [obind ofmap text_bytes]. by rewrite firstn_all.
Qed.

Lemma cstr_seenText ignore l :
  Forall (fun b => b <> 0%Z) l -> cstr (seenText ignore l) = seenText ignore l.
Proof.
  intros Hl. apply cstr_id. destruct ignore; [|done].
  apply Forall_fmap. eapply Forall_impl; [done|]. intros b Hb. unfold compose, lowerByte. cbn beta in *.
  destruct ((65 <=? b) && (b <=? 90))%Z eqn:E; lia.
Qed.

Lemma reverse_prefix (a b : list byte) : reverse a `prefix_of` reverse b <-> a `suffix_of` b.
Proof.
  split; intros [k Hk]; exists (reverse k).
  - apply (f_equal reverse) in Hk. by rewrite reverse_involutive, reverse_app, reverse_involutive in Hk.
  - by rewrite Hk, reverse_app.
Qed.

Lemma cmpText_unfold regex v c1 c2 cmp ignore :
  cmpText regex v c1 c2 cmp ignore =
  (let vt := seenText ignore v in let t1 := seenText ignore c1 in
   let t2 := match c2 with [] => [] | _ => seenText ignore c2 end in
   match cmp with
   | EQUAL => Ok (text_eqb vt t1)
   | GREATER => Ok (text_ltb t1 vt)
   | GREATER_EQUAL => Ok (text_leb t1 vt)
   | LESS => Ok (text_ltb vt t1)
   | LESS_EQUAL => Ok (text_leb vt t1)
   | CONTAIN => Ok (match str_find t1 vt with Some i => bool_decide (i < length (cstr vt)) | None => false end)
   | BEGIN_WITH => Ok (bool_decide (str_find t1 vt = Some 0))
   | END_WITH => Ok (bool_decide (str_find (reverse t1) (reverse vt) = Some 0))
   | LIKE => regex vt (like_pattern t1)
   | REGEX => regex vt t1
   | BETWEEN => Ok (text_leb t1 vt && text_leb vt t2)
   | BETWEEN_NO_LOWER => Ok (text_ltb t1 vt && text_leb vt t2)
   | BETWEEN_NO_UPPER => Ok (text_leb t1 vt && text_ltb vt t2)
   | BETWEEN_NO_BOUND => Ok (text_ltb t1 vt && text_ltb vt t2)
   | _ => Throw NOGDB_CTX_INVALID_COMPARATOR
   end).
Proof.
  unfold cmpText. rewrite !toText_all. cbn [obind].
  by destruct c2.
Qed.

(** ** Boolean expressions *)

(** The truth value of an expression from those of its conditions. *)
Fixpoint evalExpr (f : Condition -> bool) (e : ExprNode) : bool :=
  match e with
  | ConditionNode c => f c
  | CompositeNode lhs rhs opt negative =>
      let b := match opt with
               | AND => evalExpr f lhs && evalExpr f rhs
               | OR => evalExpr f lhs || evalExpr f rhs
               end in
      xorb b negative
  end.

Lemma check_eval regex types r f e :
  (forall c, c ∈ leaves e -> checkNode regex types c r = Ok (f c)) ->
  check regex types r e = Ok (evalExpr f e).
Proof.
  induction e as [c|lhs IHl rhs IHr opt negative]; cbn [leaves check evalExpr]; intros H.
  { apply H. apply list_elem_of_singleton; reflexivity. }
  rewrite IHl by (intros c Hc; apply H, elem_of_app; by left).
  rewrite IHr by (intros c Hc; apply H, elem_of_app; by right).
  by destruct (checkIfCondition rhs), opt, (evalExpr f lhs), (evalExpr f rhs), negative.
Qed.

(** An error comes from a condition. *)
Lemma check_error regex types r e err :
  check regex types r e = Throw err -> exists c, c ∈ leaves e /\ checkNode regex types c r = Throw err.
Proof.
  induction e as [c|lhs IHl rhs IHr opt negative]; cbn [leaves check]; intros H.
  { exists c. split; [apply list_elem_of_singleton; reflexivity|done]. }
  assert (check regex types r lhs = Throw err \/ check regex types r rhs = Throw err) as [E|E].
  { destruct (checkIfCondition rhs), opt, (check regex types r lhs) as [[]| |], (check regex types r rhs) as [[]| |];
      simplify_eq/=; auto. }
  - destruct (IHl E) as (c & Hc & ?). exists c. rewrite elem_of_app. auto.
  - destruct (IHr E) as (c & Hc & ?). exists c. rewrite elem_of_app. auto.
Qed.

(** The expressions the public operators build. *)
Inductive built : MultiCondition -> Prop :=
| built_of c1 c2 opt : built (multiOf c1 c2 opt)
| built_ofMulti c e opt : built e -> built (multiOfMulti c e opt)
| built_join m e opt : built m -> built e -> built (multiJoin m e opt)
| built_append m c opt : built m -> built (multiAppend m c opt)
| built_negate m : built m -> built (multiNegate m).

Lemma built_conditions m : built m -> conditions m = leaves (root m).
Proof.
  induction 1 as [c1 c2 opt|c e opt He IH|m e opt Hm IHm He IHe|m c opt Hm IH|m Hm IH];
    cbn [conditions multiOf multiOfMulti multiJoin multiAppend multiNegate leaves root rootLeft rootRight app] in *;
    congruence.
Qed.

(** ** Loops over the elements of [IN] *)
Lemma compareIn_spec regex value type ignore negative (vs : list (list byte)) f :
  (forall v, v ∈ vs -> genericCompareFunc regex value type v [] EQUAL ignore = Ok (f v)) ->
  compareIn regex value type ignore negative vs = Ok (existsb (fun v => xorb (f v) negative) vs).
Proof.
  induction vs as [|v vs IH]; intros H; cbn [compareIn existsb]; [done|].
  rewrite H by (by left). cbn [obind]. destruct (xorb (f v) negative); [done|].
  apply IH. intros w Hw. apply H. by right.
Qed.

(** ** Loops over records *)
Section scanning.
Context (records : ClassId -> list (PositionId * list byte)).

Definition recordAt (info : ClassInfo) (kv : PositionId * list byte) : Outcome DbRecord :=
  parseRawDataWithBasicInfo (bytes_of_string (ci_name info)) (ci_id info, kv.1) (Some kv.2) (ci_propertyInfo info).

(** The record [rid] of one of the classes is accepted as [r]. *)
Definition accepted (infos : list ClassInfo) (accept : DbRecord -> Outcome bool) (x : RecordId * DbRecord) : Prop :=
  exists info kv, info ∈ infos /\ kv ∈ records (ci_id info) /\ kv.1 <> EM_MAXRECNUM /\
    x.1 = (ci_id info, kv.1) /\ recordAt info kv = Ok x.2 /\ accept x.2 = Ok true.

Lemma scanClass_spec accept info : forall kvs res res',
  ofold (fun res kv =>
           if (kv.1 =? EM_MAXRECNUM)%Z then Ok res
           else
             let* record := recordAt info kv in
             let* b := accept record in
             Ok (if (b : bool) then res ++ [((ci_id info, kv.1), record)] else res)) kvs res = Ok res' ->
  forall x, x ∈ res' <-> x ∈ res \/ exists kv, kv ∈ kvs /\ kv.1 <> EM_MAXRECNUM /\
    x.1 = (ci_id info, kv.1) /\ recordAt info kv = Ok x.2 /\ accept x.2 = Ok true.
Proof.
  induction kvs as [|kv kvs IH]; intros res res' Hrun x.
  { cbn [ofold] in Hrun. injection Hrun as <-. set_solver. }
  cbn [ofold] in Hrun. destruct (Z.eqb_spec kv.1 EM_MAXRECNUM) as [Hem|Hem]; cbn [obind] in Hrun.
  - rewrite (IH _ _ Hrun x). setoid_rewrite elem_of_cons. naive_solver.
  - destruct (recordAt info kv) as [r| |] eqn:Er; [|discriminate Hrun|discriminate Hrun].
    cbn [obind] in Hrun. destruct (accept r) as [b| |] eqn:Eb; [|discriminate Hrun|discriminate Hrun].
    cbn [obind] in Hrun. rewrite (IH _ _ Hrun x). setoid_rewrite elem_of_cons.
    destruct b; [rewrite elem_of_app, list_elem_of_singleton|]; destruct x as [rid rx]; simpl.
    + split; [intros [[?|Heq]|(kv' & ? & ?)]|intros [?|(kv' & [->|?] & Hx)]]; simplify_eq; eauto 10.
      destruct Hx as (_ & -> & Hr & Ha). rewrite Er in Hr. simplify_eq. auto.
    + split; [intros [?|(kv' & ? & ?)]|intros [?|(kv' & [->|?] & Hx)]]; eauto 10.
      destruct Hx as (_ & _ & Hr & Ha). congruence.
Qed.

Lemma scanClasses_spec accept infos res :
  scanClasses records infos accept = Ok res -> forall x, x ∈ res <-> accepted infos accept x.
Proof.
  unfold scanClasses, accepted. intros Hrun x.
  enough (forall res0, ofold (scanClass records accept) infos res0 = Ok res ->
            x ∈ res <-> x ∈ res0 \/ accepted infos accept x) as H.
  { rewrite (H [] Hrun), elem_of_nil. unfold accepted. naive_solver. }
  clear Hrun. induction infos as [|info infos IH]; intros res0 Hrun; cbn [ofold] in Hrun.
  { injection Hrun as <-. unfold accepted. setoid_rewrite elem_of_nil. naive_solver. }
  destruct (scanClass records accept res0 info) as [res1| |] eqn:E; [|discriminate Hrun|discriminate Hrun].
  cbn [obind] in Hrun. rewrite (IH _ Hrun), (scanClass_spec _ _ _ _ _ E x). unfold accepted.
  setoid_rewrite elem_of_cons. naive_solver.
Qed.

(** Every stored record of the classes can be read and the test decides it. *)
Definition decided (infos : list ClassInfo) (accept : DbRecord -> Outcome bool) : Prop :=
  forall info kv, info ∈ infos -> kv ∈ records (ci_id info) -> kv.1 <> EM_MAXRECNUM ->
    exists r b, recordAt info kv = Ok r /\ accept r = Ok b.

Lemma scanClasses_total infos accept :
  decided infos accept -> exists res, scanClasses records infos accept = Ok res.
Proof.
  intros Hdec. unfold scanClasses. apply ofold_total. intros res info Hinfo.
  apply ofold_total. intros res' kv Hkv. destruct (Z.eqb_spec kv.1 EM_MAXRECNUM) as [|Hne]; [by eexists|].
  destruct (Hdec info kv Hinfo Hkv Hne) as (r & b & Hr & Hb). unfold recordAt in Hr.
  rewrite Hr. cbn [obind]. rewrite Hb. by eexists.
Qed.
End scanning.

(** ** The type of a property over several classes *)
Definition typeIn (name : string) (info : ClassInfo) : PropertyType :=
  match nameToDesc (ci_propertyInfo info) !! name with Some d => pd_type d | None => PT_UNDEFINED end.

(** Descriptors carry a type. *)
Definition typed (name : string) (info : ClassInfo) : Prop :=
  forall d, nameToDesc (ci_propertyInfo info) !! name = Some d -> pd_type d <> PT_UNDEFINED.

Lemma resolveType_spec name type info :
  typed name info ->
  resolveType name type info =
    if bool_decide (typeIn name info = PT_UNDEFINED) then Ok type
    else if bool_decide (type = PT_UNDEFINED) then Ok (typeIn name info)
    else if bool_decide (type = typeIn name info) then Ok type else Throw NOGDB_CTX_CONFLICT_PROPTYPE.
Proof.
  unfold resolveType, typeIn, typed. destruct (nameToDesc (ci_propertyInfo info) !! name) as [d|]; [|done].
  intros Hd. by rewrite (bool_decide_false (pd_type d = PT_UNDEFINED)) by (by apply Hd).
Qed.

Lemma resolveTypes_spec name infos : forall type0,
  Forall (typed name) infos ->
  match ofold (resolveType name) infos type0 with
  | Ok type => (type0 <> PT_UNDEFINED -> type = type0) /\
      (type = type0 \/ exists info, info ∈ infos /\ typeIn name info = type) /\
      (forall info, info ∈ infos -> typeIn name info = PT_UNDEFINED \/ typeIn name info = type)
  | Throw e => e = NOGDB_CTX_CONFLICT_PROPTYPE /\
      exists info, info ∈ infos /\ typeIn name info <> PT_UNDEFINED /\
        (typeIn name info <> type0 /\ type0 <> PT_UNDEFINED \/
         exists info', info' ∈ infos /\ typeIn name info' <> PT_UNDEFINED /\ typeIn name info' <> typeIn name info)
  | UB => False
  end.
Proof.
  induction infos as [|info infos IH]; intros type0 Hty; cbn [ofold].
  { split_and!; [done|by left|]. intros info Hi. by apply elem_of_nil in Hi. }
  apply Forall_cons in Hty as [H1 H2]. rewrite resolveType_spec by done.
  assert (forall P : ClassInfo -> Prop, (exists i, i ∈ infos /\ P i) -> exists i, i ∈ info :: infos /\ P i) as Hlift.
  { intros P (i & ? & ?). exists i. split; [by right|done]. }
  case_bool_decide as Hu; [|case_bool_decide as H0; [|case_bool_decide as He]]; cbn [obind].
  - specialize (IH type0 H2). destruct (ofold _ _ _) as [type|e|]; [|..|done].
    + destruct IH as (IH1 & IH2 & IH3). split_and!; [done|naive_solver|].
      intros i [->|?]%elem_of_cons; auto.
    + destruct IH as [-> (i & Hi & Hiu & [Hne|(i' & Hi' & ? & ?)])]; (split; [done|]);
        exists i; setoid_rewrite elem_of_cons; (split_and!; [by right|done|]); eauto 10.
  - specialize (IH (typeIn name info) H2). subst type0. destruct (ofold _ _ _) as [type|e|]; [|..|done].
    + destruct IH as (IH1 & IH2 & IH3). rewrite (IH1 Hu) in *. split_and!; [done|right; exists info; split; [by left|done]|].
      intros i [->|?]%elem_of_cons; auto.
    + destruct IH as [-> (i & Hi & Hiu & [[Hne _]|(i' & Hi' & ? & ?)])]; (split; [done|]);
        exists i; setoid_rewrite elem_of_cons; (split_and!; [by right|done|right]); eauto 10.
  - specialize (IH type0 H2). destruct (ofold _ _ _) as [type|e|]; [|..|done].
    + destruct IH as (IH1 & IH2 & IH3). split_and!; [done|naive_solver|].
      intros i [->|?]%elem_of_cons; [right; by rewrite (IH1 H0)|auto].
    + destruct IH as [-> (i & Hi & Hiu & [Hne|(i' & Hi' & ? & ?)])]; (split; [done|]);
        exists i; setoid_rewrite elem_of_cons; (split_and!; [by right|done|]); eauto 10.
  - split; [done|]. exists info. split_and!; [by left|done|left; done].
Qed.

(** The encoding of an integer type is injective on its range. *)
Lemma le_bytes_inj type w x y :
  intType type = Some w -> inRange w x -> inRange w y -> le_bytes w.1 x = le_bytes w.1 y -> x = y.
Proof.
  destruct w as [n sgn]. intros Ht Hx Hy Heq. cbn [fst] in *. destruct sgn.
  - assert (0 < n) as Hn by (destruct type; simplify_eq/=; lia).
    pose proof (convertAll_sint n x Hn Hx) as E1. pose proof (convertAll_sint n y Hn Hy) as E2. congruence.
  - pose proof (convertAll_uint n x Hx) as E1. pose proof (convertAll_uint n y Hy) as E2. congruence.
Qed.

Lemma integer_run regex type w x lo hi cmp ignore :
  intType type = Some w -> inRange w x -> inRange w lo -> inRange w hi ->
  let run := genericCompareFunc regex (le_bytes w.1 x) type (le_bytes w.1 lo) (le_bytes w.1 hi) cmp ignore in
  match meansZ cmp x lo hi with
  | Some P => exists b, run = Ok b /\ (b = true <-> P)
  | None => run = Throw NOGDB_CTX_INVALID_COMPARATOR
  end.
Proof.
  intros Ht Hx Hlo Hhi run. subst run.
  destruct type; try discriminate Ht; injection Ht as <-;
    unfold genericCompareFunc; cbn [fst] in *; apply cmpZ_spec;
    first [by apply convertAll_uint | apply convertAll_sint; [lia|done]].
Qed.

Lemma integer_equal regex type w x y ignore :
  intType type = Some w -> inRange w x -> inRange w y ->
  genericCompareFunc regex (le_bytes w.1 x) type (le_bytes w.1 y) [] EQUAL ignore =
    Ok (bool_decide (le_bytes w.1 x = le_bytes w.1 y)).
Proof.
  intros Ht Hx Hy.
  destruct (integer_run regex type w x y y EQUAL ignore Ht Hx Hy Hy) as (b & Hrun & Hb).
  assert (genericCompareFunc regex (le_bytes w.1 x) type (le_bytes w.1 y) [] EQUAL ignore = Ok b) as ->.
  { rewrite <- Hrun. by destruct type. }
  f_equal. apply eq_true_iff_eq. rewrite Hb, bool_decide_eq_true.
  split; [by intros ->|]. by apply (le_bytes_inj type w).
Qed.

Section theorems.
Context (regex_match : list byte -> list byte -> Outcome bool).

(** C40. Comparisons of integer properties: on the little-endian encodings of numbers
    within the range of the type, signed or unsigned, of 8 to 64 bits, every
    order comparator decides the order of the numbers, and every other
    comparator is refused. *)
Theorem integer_compare type w x lo hi cmp ignore :
  intType type = Some w -> inRange w x -> inRange w lo -> inRange w hi ->
  let run := genericCompareFunc regex_match (le_bytes w.1 x) type (le_bytes w.1 lo) (le_bytes w.1 hi) cmp ignore in
  match meansZ cmp x lo hi with
  | Some P => exists b, run = Ok b /\ (b = true <-> P)
  | None => run = Throw NOGDB_CTX_INVALID_COMPARATOR
  end.
Proof. apply integer_run. Qed.

(** Comparisons of texts (lowered first when the case is ignored): order is
    lexicographic on bytes, CONTAIN, BEGIN_WITH and END_WITH are the existence of
    a decomposition, LIKE and REGEX are handed to the regular-expression engine. *)
Theorem text_compare v p q cmp ignore :
  Forall (fun b => b <> 0%Z) v ->
  match meansText cmp (seenText ignore v) (seenText ignore p) (seenText ignore q) with
  | Some P => exists b, genericCompareFunc regex_match v TEXT p q cmp ignore = Ok b /\ (b = true <-> P)
  | None => genericCompareFunc regex_match v TEXT p q cmp ignore =
      match cmp with
      | LIKE => regex_match (seenText ignore v) (like_pattern (seenText ignore p))
      | REGEX => regex_match (seenText ignore v) (seenText ignore p)
      | _ => Throw NOGDB_CTX_INVALID_COMPARATOR
      end
  end.
Proof.
  intros Hv. unfold genericCompareFunc. rewrite cmpText_unfold. cbv zeta.
  rewrite (cstr_seenText ignore v Hv).
  assert (match q with [] => [] | _ => seenText ignore q end = seenText ignore q) as ->
    by (destruct q, ignore; done).
  destruct cmp; cbn [meansText]; try done; eexists; (split; [reflexivity|]).
  all: unfold text_eqb;
    rewrite ?bool_decide_eq_true, ?andb_true_iff, ?text_leb_spec, ?str_find_before_end, ?str_find_zero,
      ?reverse_prefix; done.
Qed.

(** Negating a condition (other than IN) complements its check of a record, except
    that a record without the value satisfies neither a comparison nor its
    negation; negating twice is the identity. *)
Theorem negate_complements c type r b :
  comp c <> IN ->
  checkCondition regex_match c type r = Ok b ->
  (exists value, get (propName c) r = Ok value /\
     checkCondition regex_match (negate c) type r =
       Ok (match comp c with
           | IS_NULL | NOT_NULL => negb b
           | _ => if bool_decide (value = []) then false else negb b
           end)) /\
  negate (negate c) = c.
Proof.
  intros Hin Hb. split.
  - unfold checkCondition in *. replace (propName (negate c)) with (propName c) by (by destruct c as [? ? ? []]).
    destruct (get (propName c) r) as [value| |]; [|discriminate Hb|discriminate Hb].
    exists value. split; [done|]. cbn [obind] in *.
    destruct c as [p vb vs k ic neg]; unfold negate, compareBytesValue in *; cbn in Hin, Hb |- *.
    destruct k; try done; case_bool_decide; simplify_eq/=; try done;
      repeat match goal with
      | H : context[match vs with _ => _ end] |- _ => destruct vs as [|? [|? ?]]; try discriminate H
      | H : (let* _ := ?m in _) = Ok _ |- _ => destruct m as [[]| |]; simplify_eq/=
      end; first [by destruct neg | by destruct b].
  - by destruct c as [? ? ? [] ? []].
Qed.

(** On an integer property IN is membership, and its negation is not the complement
    but holds as soon as one listed value differs. *)
Theorem in_membership type w x ys c :
  intType type = Some w -> inRange w x -> Forall (inRange w) ys ->
  let values := le_bytes w.1 <$> ys in
  exists b, compareBytesValue regex_match (le_bytes w.1 x) type (in_ values c) = Ok b /\
    (b = true <-> if isNegative c then exists y, y ∈ ys /\ x <> y else x ∈ ys).
Proof.
  intros Ht Hx Hys values. subst values. unfold compareBytesValue, in_; cbn [comp isIgnoreCase isNegative valueSet].
  rewrite (compareIn_spec _ _ _ _ _ _ (fun v => bool_decide (le_bytes w.1 x = v))).
  2:{ intros v (y & -> & Hy)%list_elem_of_fmap. rewrite Forall_forall in Hys.
      pose proof (integer_equal regex_match type w x y (isIgnoreCase c) Ht Hx (Hys _ Hy)) as H. exact H. }
  eexists; split; [reflexivity|]. rewrite existsb_exists. setoid_rewrite <- list_elem_of_In.
  destruct (isNegative c).
  - split.
    + intros (v & (y & -> & Hy)%list_elem_of_fmap & Hv). exists y. split; [done|].
      intros ->. by rewrite bool_decide_true in Hv.
    + intros (y & Hy & Hne). exists (le_bytes w.1 y). split; [by apply list_elem_of_fmap_2|].
      rewrite bool_decide_false; [done|]. rewrite Forall_forall in Hys.
      intros Heq. apply Hne. apply (le_bytes_inj type w); auto.
  - split.
    + intros (v & (y & -> & Hy)%list_elem_of_fmap & Hv). rewrite xorb_false_r, bool_decide_eq_true in Hv.
      rewrite Forall_forall in Hys. by apply (le_bytes_inj type w) in Hv as ->; auto.
    + intros Hy. exists (le_bytes w.1 x). split; [by apply list_elem_of_fmap_2|]. by rewrite bool_decide_true.
Qed.

(** C23. Evaluating a composed condition, which looks at the right operand first when it
    is a simple condition, is the boolean evaluation of the tree whenever the
    simple conditions can be decided; negation, conjunction and disjunction of
    composed conditions are those of booleans. *)
Theorem execute_boolean m r types f :
  built m -> (forall c, c ∈ conditions m -> checkNode regex_match types c r = Ok (f c)) ->
  execute regex_match m r types = Ok (evalExpr f (root m)) /\
  execute regex_match (multiNegate m) r types = Ok (negb (evalExpr f (root m))) /\
  (forall e, built e -> (forall c, c ∈ conditions e -> checkNode regex_match types c r = Ok (f c)) ->
     execute regex_match (multiJoin m e AND) r types = Ok (evalExpr f (root m) && evalExpr f (root e)) /\
     execute regex_match (multiJoin m e OR) r types = Ok (evalExpr f (root m) || evalExpr f (root e))).
Proof.
  intros Hm Hf.
  assert (forall m', built m' -> (forall c, c ∈ conditions m' -> checkNode regex_match types c r = Ok (f c)) ->
            execute regex_match m' r types = Ok (evalExpr f (root m'))) as Hex.
  { intros m' Hm' Hf'. apply check_eval. by rewrite <- (built_conditions _ Hm'). }
  split_and!; [by apply Hex| |].
  - rewrite Hex; [|by constructor|done]. destruct m as [lhs rhs opt neg cs]. cbn -[evalExpr]. cbn.
    by destruct opt, (evalExpr f lhs), (evalExpr f rhs), neg.
  - intros e He Hfe. split; (rewrite Hex; [|by constructor|]).
    + cbn. by rewrite xorb_false_r.
    + intros c. cbn [conditions multiJoin]. rewrite elem_of_app. intros [?|?]; auto.
    + cbn. by rewrite xorb_false_r.
    + intros c. cbn [conditions multiJoin]. rewrite elem_of_app. intros [?|?]; auto.
Qed.

(** C39. Selecting the records of classes by a condition on one property: a property no
    class has is reported, classes that disagree on its type are reported, and
    otherwise the result holds exactly the records of the classes whose value
    satisfies the condition at that type. *)
Theorem compareCondition_exact records infos c :
  Forall (typed (propName c)) infos ->
  ((forall info, info ∈ infos -> nameToDesc (ci_propertyInfo info) !! propName c = None) ->
   compareCondition regex_match records infos c = Throw NOGDB_CTX_NOEXST_PROPERTY) /\
  (forall i1 i2, i1 ∈ infos -> i2 ∈ infos -> typeIn (propName c) i1 <> PT_UNDEFINED ->
     typeIn (propName c) i2 <> PT_UNDEFINED -> typeIn (propName c) i1 <> typeIn (propName c) i2 ->
   compareCondition regex_match records infos c = Throw NOGDB_CTX_CONFLICT_PROPTYPE) /\
  (forall type info0, info0 ∈ infos -> typeIn (propName c) info0 = type -> type <> PT_UNDEFINED ->
     (forall info, info ∈ infos -> typeIn (propName c) info = PT_UNDEFINED \/ typeIn (propName c) info = type) ->
     decided records infos (checkCondition regex_match c type) ->
   exists res, compareCondition regex_match records infos c = Ok res /\
     forall x, x ∈ res <-> accepted records infos (checkCondition regex_match c type) x).
Proof.
  intros Hty. pose proof (resolveTypes_spec (propName c) infos PT_UNDEFINED Hty) as Hr.
  unfold compareCondition.
  destruct (ofold (resolveType (propName c)) infos PT_UNDEFINED) as [type|e|] eqn:E; [| |done]; cbn [obind].
  - destruct Hr as (_ & Hsome & Hall). split_and!.
    + intros Hnone. destruct Hsome as [->|(i & Hi & <-)]; [done|].
      unfold typeIn. by rewrite (Hnone i Hi).
    + intros i1 i2 H1 H2 Hu1 Hu2 Hne.
      destruct (Hall i1 H1) as [?|?]; [done|]. destruct (Hall i2 H2) as [?|?]; [done|]. congruence.
    + intros type' i Hi Hit Hu _ Hdec. destruct (Hall i Hi) as [?|Ht]; [congruence|].
      assert (type = type') as -> by congruence. rewrite bool_decide_false by done.
      destruct (scanClasses_total _ _ _ Hdec) as [res Hres]. exists res. split; [done|].
      by apply scanClasses_spec.
  - destruct Hr as [-> (i & Hi & Hiu & Hr)]. split_and!; [|done|].
    + intros Hnone. destruct Hiu. unfold typeIn. by rewrite (Hnone i Hi).
    + intros type' i' _ _ _ Hall _. destruct Hr as [[_ ?]|(i2 & Hi2 & Hu2 & Hne)]; [done|].
      destruct (Hall i Hi) as [?|?], (Hall i2 Hi2) as [?|?]; congruence.
Qed.
End theorems.

(** A stored blob is equal to every value it is a prefix of, and the empty
    stored blob to all of them. *)
Theorem blob_equal_is_prefix (value cmp1 : list byte) :
  (value `prefix_of` cmp1 -> cmpBlob value cmp1 EQUAL = Ok true) /\
  (length cmp1 < length value -> cmpBlob value cmp1 EQUAL = UB).
Proof.
  unfold cmpBlob. split.
  - intros [k ->]. rewrite length_app, bool_decide_true by lia.
    by rewrite take_app_length, bool_decide_true.
  - intros Hlt. by rewrite bool_decide_false by lia.
Qed.
