(* ===== verification/Generic.v ===== *)
(** * Classes and records as queries see them

    Model of [Generic] (src/src/generic.hpp, generic.cpp): resolving classes
    together with their subclasses, the properties a class has and inherits,
    and reading records and neighbours of a vertex.  The data store is an
    external library: [records] is the content of its databases in the order
    of the keys.  A [std::set] of shared pointers is ordered by addresses:
    [ptr_order] is that unspecified order. *)

From stdpp Require Import base gmap sets list strings sorting relations.
From Stdlib Require Import ZArith Lia.
From S2P Require Import Prelude Types VersionControl TxnObject TxnData RecordModel Parser Graph Schema Validate.

Record RecordDescriptor := mkRecordDescriptor { rd_rid : RecordId; rd_depth : Z }.
Definition rdescOf (rid : RecordId) : RecordDescriptor := mkRecordDescriptor rid 0.
(** [RecordDescriptor{}]; descriptors are compared by their record id. *)
Definition noRdesc : RecordDescriptor := rdescOf (0, 0)%Z.
Definition isNoRdesc (d : RecordDescriptor) : bool := bool_decide (rd_rid d = rd_rid noRdesc).

Inductive RecordStatus := RECORD_NOT_EXIST | RECORD_NOT_EXIST_IN_MEMORY | RECORD_EXIST.
#[export] Instance RecordStatus_eq_dec : EqDecision RecordStatus.
Proof. solve_decision. Defined.

Section generic.
  Context (s : Schema) (g : Graph) (t : BaseTxn).
  Context (records : ClassId -> list (PositionId * list byte)).
  Context (ptr_order : gset Loc -> list Loc).

(** [get] on the database of a class. *)
Definition dsGet (rid : RecordId) : option (list byte) :=
  snd <$> List.find (fun kv => (kv.1 =? rid.2)%Z) (records rid.1).

(** ** Classes *)
Definition checkType (type : ClassType) (x : Loc * ClassDescriptor) : Outcome (Loc * ClassDescriptor) :=
  if bool_decide (type = CT_UNDEFINED) || bool_decide (cd_type x.2 = type) then Ok x
  else Throw NOGDB_CTX_MISMATCH_CLASSTYPE.

Definition getClassDescriptor (id : ClassId) (type : ClassType) : Outcome (Loc * ClassDescriptor) :=
  let* x := isExistingClass s t id in checkType type x.
Definition getClassDescriptorByName (name : string) (type : ClassType) : Outcome (Loc * ClassDescriptor) :=
  let* x := isExistingClassByName s t name in checkType type x.

(** [resolveSubclass]: every subclass pointer must be alive.  The recursion
    goes down the hierarchy; fuel is one unit per class object. *)
Fixpoint resolveSubclass (fuel : nat) (acc : gset Loc) (c : ClassDescriptor) : Outcome (gset Loc) :=
  match fuel with
  | O => UB
  | S f =>
      ofold (fun acc w =>
               match lockClass s t w with
               | None => Throw NOGDB_CTX_INTERNAL_ERR
               | Some (l, d) => resolveSubclass f ({[l]} ∪ acc) d
               end) (getCurrentVersion t (cd_sub c)).1 acc
  end.

Definition resolveAt (acc : gset Loc) (l : Loc) : Outcome (gset Loc) :=
  match sheap s !! l with
  | None => Ok acc
  | Some c => resolveSubclass (S (size (sheap s))) acc c
  end.

Definition getClassExtend (classes : gset Loc) : Outcome (gset Loc) :=
  ofold resolveAt (ptr_order classes) classes.

Definition getMultipleClassDescriptor (ids : list ClassId) (type : ClassType) : Outcome (gset Loc) :=
  match ids with
  | [] => Ok ∅
  | _ =>
      let* found := ofold (fun acc id =>
                      if (0 <? id)%Z then
                        let* x := getClassDescriptor id type in Ok ({[x.1]} ∪ acc)
                      else Ok acc) ids ∅ in
      getClassExtend found
  end.

(** The names of a [std::set], in their order. *)
Definition getMultipleClassDescriptorByName (names : list string) (type : ClassType) : Outcome (gset Loc) :=
  match names with
  | [] => Ok ∅
  | _ =>
      let* found := ofold (fun acc name =>
                      if bool_decide (name = EmptyString) then Ok acc
                      else let* x := getClassDescriptorByName name type in Ok ({[x.1]} ∪ acc)) names ∅ in
      getClassExtend found
  end.

Definition getEdgeClassId (names : list string) : Outcome (list ClassId) :=
  let* found := getMultipleClassDescriptorByName names EDGE in
  Ok (omap (fun l => cd_id <$> sheap s !! l) (ptr_order found)).

(** ** Properties *)
Definition basicPropertyInfo : ClassPropertyInfo :=
  fold_left (fun info (p : PropertyId * string * PropertyType) =>
      cpi_insert p.1.2 (mkPropertyDescriptor p.1.1 p.2 ∅) info)
    [(CLASS_NAME_PROPERTY_ID, CLASS_NAME_PROPERTY, TEXT);
     (RECORD_ID_PROPERTY_ID, RECORD_ID_PROPERTY, TEXT);
     (DEPTH_PROPERTY_ID, DEPTH_PROPERTY, UNSIGNED_INTEGER);
     (VERSION_PROPERTY_ID, VERSION_PROPERTY, UNSIGNED_BIGINT);
     (TXN_VERSION_ID, TXN_VERSION, UNSIGNED_BIGINT)] defaultClassPropertyInfo.

Definition insertProperties (props : SClassProperty) (info : ClassPropertyInfo) : ClassPropertyInfo :=
  fold_left (fun info p => cpi_insert p.1 (transformProperty p.2) info) (map_items props) info.

Fixpoint getInheritProperties (fuel : nat) (info : ClassPropertyInfo) (c : ClassDescriptor) :
    Outcome ClassPropertyInfo :=
  match fuel with
  | O => UB
  | S f =>
      let info1 := insertProperties (propertiesOf t c) info in
      match superOf s t c with
      | Some (_, p) => getInheritProperties f info1 p
      | None => Ok info1
      end
  end.

Definition getClassMapProperty (c : ClassDescriptor) : Outcome ClassPropertyInfo :=
  let info := insertProperties (propertiesOf t c) basicPropertyInfo in
  match superOf s t c with
  | Some (_, p) => getInheritProperties (S (size (sheap s))) info p
  | None => Ok info
  end.

Definition classInfoOf (c : ClassDescriptor) : Outcome ClassInfo :=
  let* info := getClassMapProperty c in
  Ok (mkClassInfo (cd_id c) (getCurrentVersion t (cd_name c)).1 info).

Definition getMultipleClassMapProperty (classes : gset Loc) : Outcome (list ClassInfo) :=
  ofold (fun res l =>
           match sheap s !! l with
           | None => Ok res
           | Some c => let* info := classInfoOf c in Ok (res ++ [info])
           end) (ptr_order classes) [].

(** ** Records *)

(** Reading one record: the class of the record id, its properties, the
    bytes of the data store. *)
Definition retrieveRecord (rid : RecordId) : Outcome DbRecord :=
  let* x := getClassDescriptor rid.1 CT_UNDEFINED in
  let* info := getClassMapProperty x.2 in
  parseRawDataWithBasicInfo (bytes_of_string (getCurrentVersion t (cd_name x.2)).1) rid (dsGet rid) info.

(** [getRecordResult]: the caller provides the properties of the class. *)
Definition getRecordResult (info : ClassPropertyInfo) (d : RecordDescriptor) : Outcome (RecordDescriptor * DbRecord) :=
  let* x := getClassDescriptor (rd_rid d).1 CT_UNDEFINED in
  let* r := parseRawDataWithBasicInfo (bytes_of_string (getCurrentVersion t (cd_name x.2)).1) (rd_rid d)
              (dsGet (rd_rid d)) info in
  Ok (d, setBasicInfo DEPTH_PROPERTY (le_bytes 4 (rd_depth d)) r).

Definition getRecordFromRdesc (d : RecordDescriptor) : Outcome (list (RecordDescriptor * DbRecord)) :=
  let* r := retrieveRecord (rd_rid d) in
  Ok [(d, setBasicInfo DEPTH_PROPERTY (le_bytes 4 (rd_depth d)) r)].

(** The class of the first descriptor serves all of them. *)
Definition getMultipleRecordFromRdesc (ds : list RecordDescriptor) :
    Outcome (list (RecordDescriptor * DbRecord)) :=
  match ds with
  | [] => Ok []
  | d0 :: _ =>
      let id := (rd_rid d0).1 in
      let* x := getClassDescriptor id CT_UNDEFINED in
      let* info := getClassMapProperty x.2 in
      ofold (fun res d =>
               let* r := parseRawDataWithBasicInfo (bytes_of_string (getCurrentVersion t (cd_name x.2)).1)
                           (rd_rid d) (dsGet (id, (rd_rid d).2)) info in
               Ok (res ++ [(d, r)])) ds []
  end.

Definition getRecordFromClassInfo (info : ClassInfo) : Outcome (list (RecordDescriptor * DbRecord)) :=
  ofold (fun res kv =>
           if (kv.1 =? EM_MAXRECNUM)%Z then Ok res
           else
             let* r := parseRawDataWithBasicInfo (bytes_of_string (ci_name info)) (ci_id info, kv.1)
                         (Some kv.2) (ci_propertyInfo info) in
             Ok (res ++ [(rdescOf (ci_id info, kv.1), r)])) (records (ci_id info)) [].

Definition getRdescFromClassInfo (info : ClassInfo) : list RecordDescriptor :=
  omap (fun kv => if (kv.1 =? EM_MAXRECNUM)%Z then None else Some (rdescOf (ci_id info, kv.1)))
    (records (ci_id info)).

Definition checkIfRecordExist (d : RecordDescriptor) : RecordStatus :=
  match lookupVertex g t (rd_rid d) with
  | Some _ => RECORD_EXIST
  | None =>
      match dsGet (rd_rid d) with
      | Some (_ :: _) => RECORD_NOT_EXIST_IN_MEMORY
      | _ => RECORD_NOT_EXIST
      end
  end.

(** ** Neighbours *)

(** [catch (Error) ...]: a vertex that is missing during the traversal is an
    unknown error. *)
Definition rethrow {A} (m : Outcome A) : Outcome A :=
  match m with
  | Throw e => Throw (if bool_decide (e = NOGDB_GRAPH_NOEXST_VERTEX) then NOGDB_GRAPH_UNKNOWN_ERR else e)
  | _ => m
  end.

(** The edges of all classes, or of each of the given classes in turn. *)
Definition edgesOfClasses (edgeFunc : RecordId -> ClassId -> Outcome (list RecordId)) (rid : RecordId)
    (edgeClassIds : list ClassId) : Outcome (list RecordId) :=
  match edgeClassIds with
  | [] => edgeFunc rid 0%Z
  | _ => ofold (fun res id => let* es := edgeFunc rid id in Ok (res ++ es)) edgeClassIds []
  end.

Definition getRdescEdgeNeighbour (edgeFunc : RecordId -> ClassId -> Outcome (list RecordId))
    (d : RecordDescriptor) (edgeClassIds : list ClassId) : Outcome (list RecordDescriptor) :=
  match checkIfRecordExist d with
  | RECORD_NOT_EXIST => Throw NOGDB_GRAPH_NOEXST_VERTEX
  | RECORD_NOT_EXIST_IN_MEMORY => Ok []
  | RECORD_EXIST =>
      rethrow (let* es := edgesOfClasses edgeFunc (rd_rid d) edgeClassIds in Ok (rdescOf <$> es))
  end.

(** The records are read while the edges of each class are listed. *)
Definition retrieveEdges (edgeFunc : RecordId -> ClassId -> Outcome (list RecordId)) (rid : RecordId)
    (res : list (RecordDescriptor * DbRecord)) (id : ClassId) : Outcome (list (RecordDescriptor * DbRecord)) :=
  let* es := edgeFunc rid id in
  ofold (fun res e => let* r := retrieveRecord e in Ok (res ++ [(rdescOf e, r)])) es res.

Definition getEdgeNeighbour (edgeFunc : RecordId -> ClassId -> Outcome (list RecordId))
    (d : RecordDescriptor) (edgeClassIds : list ClassId) : Outcome (list (RecordDescriptor * DbRecord)) :=
  match checkIfRecordExist d with
  | RECORD_NOT_EXIST => Throw NOGDB_GRAPH_NOEXST_VERTEX
  | RECORD_NOT_EXIST_IN_MEMORY => Ok []
  | RECORD_EXIST =>
      rethrow (match edgeClassIds with
               | [] => retrieveEdges edgeFunc (rd_rid d) [] 0%Z
               | _ => ofold (retrieveEdges edgeFunc (rd_rid d)) edgeClassIds []
               end)
  end.
End generic.

(** ** The subclasses of a class *)
Section extend.
  Context (s : Schema) (t : BaseTxn).

(** [l'] is a direct subclass of [l]. *)
Definition subLoc (l l' : Loc) : Prop :=
  exists c w d, sheap s !! l = Some c /\ w ∈ (getCurrentVersion t (cd_sub c)).1 /\ lockClass s t w = Some (l', d).

(** A pointer to a subclass that no longer exists. *)
Definition deadSub (c : ClassDescriptor) : Prop :=
  exists w, w ∈ (getCurrentVersion t (cd_sub c)).1 /\ lockClass s t w = None.

Lemma lockClass_heap w l d : lockClass s t w = Some (l, d) -> sheap s !! l = Some d.
Proof.
  unfold lockClass. destruct w as [l0|]; simpl; [|done]. destruct (sheap s !! l0) eqn:E; simpl; [|done].
  case_match; intros; by simplify_eq.
Qed.

Lemma subsOf_lock c w l d :
  w ∈ (getCurrentVersion t (cd_sub c)).1 -> lockClass s t w = Some (l, d) -> d ∈ subsOf s t c.
Proof. intros Hw Hl. apply list_elem_of_omap. exists w. by rewrite Hl. Qed.

(** A class at or below [l0] has a dead pointer. *)
Definition deadBelow (l0 : Loc) : Prop :=
  exists l c, rtc subLoc l0 l /\ sheap s !! l = Some c /\ deadSub c.

(** A resolution adds exactly [below], or fails because [dead]. *)
Definition resolves (below : Loc -> Prop) (dead : Prop) (acc : gset Loc) (m : Outcome (gset Loc)) : Prop :=
  (exists res, m = Ok res /\ forall l, l ∈ res <-> l ∈ acc \/ below l) \/
  (m = Throw NOGDB_CTX_INTERNAL_ERR /\ dead).

(** A loop of resolutions. *)
Lemma resolves_loop {A} (f : gset Loc -> A -> Outcome (gset Loc)) (below : A -> Loc -> Prop) (dead : A -> Prop) xs :
  (forall x acc, x ∈ xs -> resolves (below x) (dead x) acc (f acc x)) -> forall acc,
  resolves (fun l => exists x, x ∈ xs /\ below x l) (exists x, x ∈ xs /\ dead x) acc (ofold f xs acc).
Proof.
  induction xs as [|x xs IH]; intros Hf acc; cbn [ofold].
  { left. exists acc. split; [done|]. set_solver. }
  destruct (Hf x acc ltac:(by left)) as [(res & -> & Hres)|[-> Hdead]]; cbn [obind]; [|by right; split; [|exists x; split; [left|]]].
  destruct (IH (fun y a Hy => Hf y a ltac:(by right)) res) as [(res' & -> & Hres')|[-> (y & Hy & Hdead)]]; [left|right].
  - exists res'. split; [done|]. intros l. rewrite Hres', Hres. setoid_rewrite elem_of_cons. naive_solver.
  - split; [done|]. exists y. split; [by right|done].
Qed.

Lemma rtc_or_tc (l l' : Loc) : rtc subLoc l l' <-> l = l' \/ tc subLoc l l'.
Proof.
  split; [|intros [->|?]; [apply rtc_refl|by apply tc_rtc]].
  intros H. inversion H as [|? y ? H1 H2]; subst; [by left|right]. by eapply tc_rtc_r; [apply tc_once|].
Qed.

Lemma tc_first (l l' : Loc) c : sheap s !! l = Some c ->
  tc subLoc l l' <-> exists w, w ∈ (getCurrentVersion t (cd_sub c)).1 /\
    exists l1 d, lockClass s t w = Some (l1, d) /\ rtc subLoc l1 l'.
Proof.
  intros Hc. split.
  - intros Htc. assert (exists l1, subLoc l l1 /\ rtc subLoc l1 l') as (l1 & (c' & w & d & Hc' & Hw & Hl) & Hr).
    { inversion Htc as [? ? H1|? y ? H1 H2]; subst; eexists; (split; [exact H1|]);
        [apply rtc_refl|by apply tc_rtc]. }
    simplify_eq. eauto 10.
  - intros (w & Hw & l1 & d & Hl & Hr). eapply tc_rtc_r; [apply tc_once|exact Hr]. by exists c, w, d.
Qed.

Lemma resolveSubclass_spec n : forall fuel l0 c acc,
  sheap s !! l0 = Some c -> depth_le s t n c -> n < fuel ->
  resolves (tc subLoc l0) (deadBelow l0) acc (resolveSubclass s t fuel acc c).
Proof.
  induction n as [|n IH]; intros [|fuel] l0 c acc Hc Hd Hf; try lia; cbn [resolveSubclass].
  all: set (step := fun acc w => match lockClass s t w with
                             | None => Throw NOGDB_CTX_INTERNAL_ERR
                             | Some (l, d) => resolveSubclass s t fuel ({[l]} ∪ acc) d
                             end).
  all: assert (forall w acc, w ∈ (getCurrentVersion t (cd_sub c)).1 ->
      resolves (fun l => exists l1 d, lockClass s t w = Some (l1, d) /\ rtc subLoc l1 l)
        (deadBelow l0) acc (step acc w)) as Hstep.
  1,3: intros w acc' Hw; unfold step; destruct (lockClass s t w) as [[l1 d]|] eqn:Hl;
    [|by right; split; [done|]; exists l0, c; split_and!; [apply rtc_refl|done|by exists w]].
  1: { exfalso. simpl in Hd. pose proof (subsOf_lock _ _ _ _ Hw Hl) as Hin. rewrite Hd in Hin.
       by apply elem_of_nil in Hin. }
  1: { simpl in Hd. rewrite Forall_forall in Hd.
       destruct (IH fuel l1 d ({[l1]} ∪ acc') (lockClass_heap _ _ _ Hl) (Hd _ (subsOf_lock _ _ _ _ Hw Hl)) ltac:(lia))
         as [(res & Hrun & Hres)|[Hrun (l & c' & Hr & Hc' & Hdead)]]; [left|right].
       - exists res. split; [done|]. intros l. rewrite Hres. setoid_rewrite rtc_or_tc. set_unfold. naive_solver.
       - split; [done|]. exists l, c'. split_and!; [|done..]. eapply rtc_l; [|exact Hr]. by exists c, w, d. }
  all: destruct (resolves_loop step _ (fun _ => deadBelow l0) _ Hstep acc) as [(res & Hrun & Hres)|[Hrun (w & _ & Hdead)]];
    [left; exists res; split; [exact Hrun|]; intros l; by rewrite Hres, (tc_first l0 l c Hc)|by right].
Qed.
End extend.

(** ** The properties of a class *)
Lemma cpi_insert_desc name d info name' :
  nameToDesc (cpi_insert name d info) !! name' =
    match nameToDesc info !! name' with
    | Some x => Some x
    | None => if decide (name = name') then Some d else None
    end.
Proof. unfold cpi_insert; simpl. apply lookup_emplace. Qed.

Lemma insertProperties_desc (props : SClassProperty) info name :
  nameToDesc (insertProperties props info) !! name =
    match nameToDesc info !! name with
    | Some x => Some x
    | None => transformProperty <$> props !! name
    end.
Proof.
  unfold insertProperties.
  enough (forall l info, NoDup l.*1 ->
     nameToDesc (fold_left (fun info p => cpi_insert p.1 (transformProperty p.2) info) l info) !! name =
       match nameToDesc info !! name with
       | Some x => Some x
       | None => transformProperty <$> (list_to_map l : SClassProperty) !! name
       end) as H.
  { rewrite H by apply NoDup_map_items.
    by rewrite (list_to_map_proper _ _ (NoDup_map_items props) (map_items_perm props)), list_to_map_to_list. }
  induction l as [|[k d] l IH]; intros info0 Hnd; cbn [fold_left].
  { by destruct (nameToDesc info0 !! name). }
  apply NoDup_cons in Hnd as [Hk Hnd]. rewrite IH, cpi_insert_desc by done. cbn [list_to_map foldr fst snd].
  rewrite lookup_insert. destruct (nameToDesc info0 !! name); [done|].
  by case_decide; subst.
Qed.

(** The two maps of a [ClassPropertyInfo] agree, and the names come from the
    definitions [D]. *)
Definition consistent (D : string -> PropertyId -> Prop) (info : ClassPropertyInfo) : Prop :=
  (forall name d, nameToDesc info !! name = Some d -> idToName info !! pd_id d = Some name) /\
  (forall id name, idToName info !! id = Some name -> D name id).

Lemma cpi_insert_consistent (D : string -> PropertyId -> Prop) name d info :
  (forall id n1 n2, D n1 id -> D n2 id -> n1 = n2) -> D name (pd_id d) ->
  consistent D info -> consistent D (cpi_insert name d info).
Proof.
  intros Hfun Hd [H1 H2]. unfold cpi_insert. split; simpl.
  - intros name' d'. rewrite !lookup_emplace. destruct (nameToDesc info !! name') eqn:E.
    + intros [= <-]. by rewrite (H1 _ _ E).
    + case_decide as Hn; [|done]. subst name'. intros [= <-].
      destruct (idToName info !! pd_id d) as [n|] eqn:Ei; [|by rewrite decide_True].
      f_equal. by apply (Hfun (pd_id d)); [apply H2|].
  - intros id n. rewrite lookup_emplace. destruct (idToName info !! id) eqn:E; [intros [= <-]; by apply H2|].
    case_decide; [|done]. intros [= <-]. by subst.
Qed.

Lemma insertProperties_consistent (D : string -> PropertyId -> Prop) (props : SClassProperty) info :
  (forall id n1 n2, D n1 id -> D n2 id -> n1 = n2) ->
  (forall name d, props !! name = Some d -> D name (spd_id d)) ->
  consistent D info -> consistent D (insertProperties props info).
Proof.
  intros Hfun Hd. unfold insertProperties.
  assert (forall p, p ∈ map_items props -> D p.1 (spd_id p.2)) as Hl.
  { intros [k x] Hp%elem_of_map_items. by apply Hd. }
  revert info Hl. induction (map_items props) as [|p l IH]; intros info Hl Hc; cbn [fold_left]; [done|].
  apply IH; [intros q Hq; apply Hl; by right|]. apply cpi_insert_consistent; [done| |done].
  apply Hl. by left.
Qed.

(** The properties defined by the classes of a list, and the basic ones. *)
Definition defined (t : BaseTxn) (cs : list ClassDescriptor) (name : string) (id : PropertyId) : Prop :=
  (exists d, nameToDesc basicPropertyInfo !! name = Some d /\ pd_id d = id) \/
  (exists c d, c ∈ cs /\ propertiesOf t c !! name = Some d /\ spd_id d = id).

(** A property id names one property. *)
Definition ids_unique (t : BaseTxn) (cs : list ClassDescriptor) : Prop :=
  forall id n1 n2, defined t cs n1 id -> defined t cs n2 id -> n1 = n2.

Lemma inherit_fuel s t c ps D : chain s t c ps -> forall fuel info, length ps < fuel ->
  (forall id n1 n2, D n1 id -> D n2 id -> n1 = n2) ->
  (forall c' name d, c' ∈ c :: ps.*2 -> propertiesOf t c' !! name = Some d -> D name (spd_id d)) ->
  consistent D info ->
  exists info', getInheritProperties s t fuel info c = Ok info' /\ consistent D info' /\
    forall name, nameToDesc info' !! name =
      match nameToDesc info !! name with
      | Some d => Some d
      | None => (fun x => transformProperty x.2) <$> nearest t (c :: ps.*2) name
      end.
Proof.
  intros Hch. induction Hch as [c Hc|c l p ps Hc Hch IH]; intros [|fuel] info Hf Hfun HD Hcons;
    try (simpl in Hf; lia); cbn [getInheritProperties]; rewrite Hc.
  - eexists; split; [reflexivity|]. split.
    + apply insertProperties_consistent; [done| |done]. intros name d. apply HD. by left.
    + intros name. rewrite insertProperties_desc. cbn [nearest fmap list_fmap].
      destruct (nameToDesc info !! name); [done|]. by destruct (propertiesOf t c !! name).
  - destruct (IH fuel (insertProperties (propertiesOf t c) info)) as (info' & -> & Hcons' & Hn).
    + simpl in Hf. lia.
    + done.
    + intros c' name d Hin. apply HD. by right.
    + apply insertProperties_consistent; [done| |done]. intros name d. apply HD. by left.
    + exists info'. split_and!; [done..|]. intros name. rewrite Hn, insertProperties_desc.
      cbn [nearest fmap list_fmap snd]. destruct (nameToDesc info !! name); [done|].
      by destruct (propertiesOf t c !! name).
Qed.

Lemma basic_consistent (D : string -> PropertyId -> Prop) :
  (forall name d, nameToDesc basicPropertyInfo !! name = Some d -> D name (pd_id d)) ->
  consistent D basicPropertyInfo.
Proof.
  intros HD.
  assert (map_Forall (fun name d => idToName basicPropertyInfo !! pd_id d = Some name)
            (nameToDesc basicPropertyInfo)) as H1 by (apply (bool_decide_eq_true_1 _); vm_compute; reflexivity).
  assert (map_Forall (fun id name => is_Some (nameToDesc basicPropertyInfo !! name ≫= fun d =>
             if decide (pd_id d = id) then Some d else None))
            (idToName basicPropertyInfo)) as H2 by (apply (bool_decide_eq_true_1 _); vm_compute; reflexivity).
  split; [exact H1|]. intros id name Hid. destruct (H2 id name Hid) as [d Hd].
  destruct (nameToDesc basicPropertyInfo !! name) as [d'|] eqn:E; simpl in Hd; [|done].
  case_decide; [|done]. subst id. by apply HD.
Qed.

(** On an acyclic hierarchy, the property table of a class is total: it knows
    the basic properties and, by the nearest definition, every property of the
    class and its ancestors; when property ids are unique along the hierarchy
    it maps the id of each of them back to its name, which is what the record
    codec needs. *)
Theorem class_property_table s t c ps :
  chain s t c ps -> ids_unique t (c :: ps.*2) ->
  exists info, getClassMapProperty s t c = Ok info /\
    (forall name, nameToDesc info !! name =
       match nameToDesc basicPropertyInfo !! name with
       | Some d => Some d
       | None => (fun x => transformProperty x.2) <$> nearest t (c :: ps.*2) name
       end) /\
    (forall name d, nameToDesc info !! name = Some d -> idToName info !! pd_id d = Some name).
Proof.
  intros Hch Hids. set (D := defined t (c :: ps.*2)).
  assert (forall c' name d, c' ∈ c :: ps.*2 -> propertiesOf t c' !! name = Some d -> D name (spd_id d)) as HD.
  { intros c' name d Hc' Hd. right. by exists c', d. }
  assert (consistent D (insertProperties (propertiesOf t c) basicPropertyInfo)) as Hcons.
  { apply insertProperties_consistent; [exact Hids| |].
    - intros name d. apply HD. by left.
    - apply basic_consistent. intros name d Hd. left. by exists d. }
  unfold getClassMapProperty. pose proof (chain_length _ _ _ _ Hch) as Hlen.
  inversion Hch as [? Htop|? l p ps' Hup Hch']; subst.
  - rewrite Htop. eexists. split_and!; [reflexivity| |by apply Hcons].
    intros name. rewrite insertProperties_desc. cbn [nearest fmap list_fmap].
    destruct (nameToDesc basicPropertyInfo !! name); [done|]. by destruct (propertiesOf t c !! name).
  - rewrite Hup. destruct (inherit_fuel s t p ps' D Hch' (S (size (sheap s)))
      (insertProperties (propertiesOf t c) basicPropertyInfo)) as (info & -> & Hc & Hn).
    + simpl in Hlen. lia.
    + exact Hids.
    + intros c' name d Hin. apply HD. by right.
    + done.
    + exists info. split_and!; [done| |by apply Hc]. intros name. rewrite Hn, insertProperties_desc.
      cbn [nearest fmap list_fmap snd]. destruct (nameToDesc basicPropertyInfo !! name); [done|].
      by destruct (propertiesOf t c !! name).
Qed.

(** Extending a set of classes by their subclasses: on hierarchies of bounded
    depth it terminates, with exactly the classes reachable downwards, or
    fails because a class of them has a pointer to a class that is gone. *)
Theorem class_extend s t order classes n :
  (forall X, Permutation (order X) (elements X)) ->
  (forall l, l ∈ classes -> exists c, sheap s !! l = Some c /\ depth_le s t n c) -> n <= size (sheap s) ->
  (exists res, getClassExtend s t order classes = Ok res /\
     forall l, l ∈ res <-> exists l0, l0 ∈ classes /\ rtc (subLoc s t) l0 l) \/
  (getClassExtend s t order classes = Throw NOGDB_CTX_INTERNAL_ERR /\
     exists l0, l0 ∈ classes /\ deadBelow s t l0).
Proof.
  intros Hord Hcl Hn. unfold getClassExtend.
  assert (forall l, l ∈ order classes <-> l ∈ classes) as Hin.
  { intros l. by rewrite (Hord classes), elem_of_elements. }
  destruct (resolves_loop (resolveAt s t) (tc (subLoc s t)) (deadBelow s t) (order classes)) with (acc := classes)
    as [(res & -> & Hres)|[-> (l0 & Hl0 & Hdead)]].
  - intros l acc Hl. apply Hin in Hl. destruct (Hcl l Hl) as (c & Hc & Hd). unfold resolveAt. rewrite Hc.
    apply (resolveSubclass_spec s t n); [done..|lia].
  - left. exists res. split; [done|]. intros l. rewrite Hres. setoid_rewrite Hin.
    setoid_rewrite (rtc_or_tc s t). naive_solver.
  - right. split; [done|]. exists l0. split; [by apply Hin|done].
Qed.

(** ** Descriptors and records agree *)
Lemma fst_fold_collect {A B C} (f : A -> Outcome C) (d : A -> B) l res0 res :
  ofold (fun res x => let* y := f x in Ok (res ++ [(d x, y)])) l res0 = Ok res ->
  res.*1 = res0.*1 ++ (d <$> l).
Proof.
  revert res0. induction l as [|x l IH]; intros res0; cbn [ofold].
  { intros [= <-]. by rewrite app_nil_r. }
  destruct (f x) as [y| |]; cbn [obind]; [|done|done]. intros H.
  rewrite (IH _ H), fmap_app, <- app_assoc. done.
Qed.

Lemma getRecordFromClassInfo_fst info : forall kvs res0 res,
  ofold (fun res (kv : PositionId * list byte) =>
           if (kv.1 =? EM_MAXRECNUM)%Z then Ok res
           else
             let* r := parseRawDataWithBasicInfo (bytes_of_string (ci_name info)) (ci_id info, kv.1)
                         (Some kv.2) (ci_propertyInfo info) in
             Ok (res ++ [(rdescOf (ci_id info, kv.1), r)])) kvs res0 = Ok res ->
  res.*1 = res0.*1 ++ omap (fun kv => if (kv.1 =? EM_MAXRECNUM)%Z then None
                                      else Some (rdescOf (ci_id info, kv.1))) kvs.
Proof.
  induction kvs as [|kv kvs IH]; intros res0 res; cbn [ofold].
  { intros [= <-]. by rewrite app_nil_r. }
  cbn [omap list_omap]. destruct (kv.1 =? EM_MAXRECNUM)%Z; cbn [obind]; [apply IH|].
  destruct (parseRawDataWithBasicInfo _ _ _ _) as [r| |]; cbn [obind]; [|done|done].
  intros H. rewrite (IH _ _ H), fmap_app, <- app_assoc. done.
Qed.

Lemma retrieveEdges_fst s t records edgeFunc rid res0 id res :
  retrieveEdges s t records edgeFunc rid res0 id = Ok res ->
  exists es, edgeFunc rid id = Ok es /\ res.*1 = res0.*1 ++ (rdescOf <$> es).
Proof.
  unfold retrieveEdges. destruct (edgeFunc rid id) as [es| |]; cbn [obind]; [|done|done].
  intros H. exists es. split; [done|]. by apply (fst_fold_collect (retrieveRecord s t records)) in H.
Qed.

Lemma retrieveEdges_loop s t records edgeFunc rid ids : forall res0 res es0,
  ofold (retrieveEdges s t records edgeFunc rid) ids res0 = Ok res -> res0.*1 = rdescOf <$> es0 ->
  exists es, ofold (fun acc id => let* es := edgeFunc rid id in Ok (acc ++ es)) ids es0 = Ok es /\
    res.*1 = rdescOf <$> es.
Proof.
  induction ids as [|id ids IH]; intros res0 res es0; cbn [ofold]; [intros [= <-] H; eauto|].
  destruct (retrieveEdges s t records edgeFunc rid res0 id) as [res1| |] eqn:E; cbn [obind]; [|done|done].
  apply retrieveEdges_fst in E as (es & -> & Hes). cbn [obind]. intros H H0.
  apply (IH res1); [done|]. by rewrite Hes, H0, fmap_app.
Qed.

(** The queries that return records and those that return only descriptors
    list the same records in the same order. *)
Theorem records_match_descriptors s g t records edgeFunc info d ids :
  (forall res, getRecordFromClassInfo records info = Ok res -> res.*1 = getRdescFromClassInfo records info) /\
  (forall res, getEdgeNeighbour s g t records edgeFunc d ids = Ok res ->
     getRdescEdgeNeighbour g t records edgeFunc d ids = Ok res.*1).
Proof.
  split.
  - intros res H. apply getRecordFromClassInfo_fst in H. by rewrite H.
  - intros res. unfold getEdgeNeighbour, getRdescEdgeNeighbour, edgesOfClasses.
    destruct (checkIfRecordExist g t records d); [done|by intros [= <-]|].
    destruct ids as [|id ids].
    + destruct (retrieveEdges s t records edgeFunc (rd_rid d) [] 0%Z) as [res'| |] eqn:E; [|done|done].
      apply retrieveEdges_fst in E as (es & -> & Hes). intros [= <-]. cbn [obind rethrow]. by rewrite Hes.
    + destruct (ofold _ (id :: ids) []) as [res'| |] eqn:E; [|done|done].
      apply (retrieveEdges_loop _ _ _ _ _ _ _ _ []) in E as (es & -> & Hes); [|done].
      intros [= <-]. cbn [obind rethrow]. by rewrite Hes.
Qed.
