(* ===== verification/Index.v ===== *)
(** * Indexes

    Model of src/src/index.hpp and src/src/index.cpp: an index on a property
    of a class keeps, in one or two databases of the data store, the position
    of every record under the value of the property.  Values of unsigned types
    and texts are in one database; the others are split by sign, because the
    integer keys of the store are unsigned.  [addIndex] and [deleteIndex]
    maintain an index, [getIndexRecord] answers a condition from it. *)

From stdpp Require Import base gmap sets list strings sorting.
From Stdlib Require Import ZArith Lia SpecFloat.
From S2P Require Import Prelude Types Store Blob Parser TxnData Schema Generic Compare.

(** ** Names of the databases *)
Definition TB_INDEXING_PREFIX : list byte := bytes_of_string ".index_".
Definition INDEX_POSITIVE_SUFFIX : list byte := bytes_of_string "_p".
Definition INDEX_NEGATIVE_SUFFIX : list byte := bytes_of_string "_n".

Definition getIndexingName (indexId : IndexId) : DbName := TB_INDEXING_PREFIX ++ to_string indexId.
Definition getSignedIndexingName (indexId : IndexId) (isPositive : bool) : DbName :=
  getIndexingName indexId ++ (if isPositive then INDEX_POSITIVE_SUFFIX else INDEX_NEGATIVE_SUFFIX).

(** ** The keys of an index

    A value of the type of the property, as the code passes it to the store:
    [uint64_t], [int64_t], [double] (its 64 bits) or a string. *)
Inductive IndexValue :=
| IUnsigned (z : Z)
| ISigned (z : Z)
| IReal (bits : Z)
| IText (s : list byte).

Definition zeroReal : spec_float := S754_zero false.

Definition isGe0 (v : IndexValue) : bool :=
  match v with
  | ISigned z => (0 <=? z)%Z
  | IReal b => SFleb zeroReal (binary64_of_bits b)
  | _ => true
  end.
Definition isLt0 (v : IndexValue) : bool :=
  match v with
  | ISigned z => (z <? 0)%Z
  | IReal b => SFltb (binary64_of_bits b) zeroReal
  | _ => false
  end.

Definition indexKey (v : IndexValue) : Key :=
  match v with
  | IUnsigned z | ISigned z => KNum (u64 z)
  | IReal b => KNum b
  | IText s => KStr s
  end.

(** The value of a property read from its bytes; types that are not indexed
    have none. *)
Definition indexValue (type : PropertyType) (v : list byte) : Outcome (option IndexValue) :=
  match type with
  | UNSIGNED_TINYINT => let* x := toTinyIntU v in Ok (Some (IUnsigned x))
  | UNSIGNED_SMALLINT => let* x := toSmallIntU v in Ok (Some (IUnsigned x))
  | UNSIGNED_INTEGER => let* x := toIntU v in Ok (Some (IUnsigned x))
  | UNSIGNED_BIGINT => let* x := toBigIntU v in Ok (Some (IUnsigned x))
  | TINYINT => let* x := toTinyInt v in Ok (Some (ISigned x))
  | SMALLINT => let* x := toSmallInt v in Ok (Some (ISigned x))
  | INTEGER => let* x := toInt v in Ok (Some (ISigned x))
  | BIGINT => let* x := toBigInt v in Ok (Some (ISigned x))
  | REAL => if bool_decide (8 <= length v) then Ok (Some (IReal (le_value (take 8 v)))) else UB
  | TEXT => let* x := toText v in Ok (Some (IText x))
  | BLOB | PT_UNDEFINED => Ok None
  end.

(** [key == value] after [numeric] or [string] of the key. *)
Definition keyEq (k : Key) (v : IndexValue) : bool :=
  match k, v with
  | KNum x, IUnsigned z => (x =? z)%Z
  | KNum x, ISigned z => (sint 64 x =? z)%Z
  | KNum x, IReal b => SFeqb (binary64_of_bits x) (binary64_of_bits b)
  | KStr s, IText t => bool_decide (s = t)
  | _, _ => false
  end.
Definition keyGt (k : Key) (v : IndexValue) : bool :=
  match k, v with
  | KNum x, IUnsigned z => (z <? x)%Z
  | KNum x, ISigned z => (z <? sint 64 x)%Z
  | KNum x, IReal b => SFltb (binary64_of_bits b) (binary64_of_bits x)
  | KStr s, IText t => text_ltb t s
  | _, _ => false
  end.
Definition isReal (v : IndexValue) : bool := match v with IReal _ => true | _ => false end.

Section index.
  Context {D : Type} `{!Lmdb D}.

(** ** Maintenance *)
Definition addIndex (indexId : IndexId) (positionId : PositionId) (bytesValue : list byte) (type : PropertyType)
    (isUnique : bool) (d : D) : Outcome D :=
  match bytesValue with
  | [] => Ok d
  | _ =>
      let* v := indexValue type bytesValue in
      let put (n : DbName) (k : Key) :=
        catch MDB_KEYEXIST (dbPut isUnique n k (le_bytes 4 positionId) false (negb isUnique) d)
          (Throw NOGDB_CTX_UNIQUE_CONSTRAINT) in
      match v with
      | None => Ok d
      | Some (IUnsigned z) => put (getIndexingName indexId) (indexKey (IUnsigned z))
      | Some (IText []) => Ok d
      | Some (IText s) => put (getIndexingName indexId) (indexKey (IText s))
      | Some x => put (getSignedIndexingName indexId (isGe0 x)) (indexKey x)
      end
  end.

(** [deleteIndexCursor]: the first entry of the value with the position. *)
Fixpoint findPosition (v : IndexValue) (positionId : PositionId) (l : list Entry) : Outcome (option Entry) :=
  match l with
  | [] => Ok None
  | e :: l' =>
      if keyEq e.1 v then
        let* p := numeric 4 e.2 in
        if (positionId =? p)%Z then Ok (Some e) else findPosition v positionId l'
      else Ok None
  end.

Definition deleteIndexCursor (n : DbName) (positionId : PositionId) (v : IndexValue) (d : D) : Outcome D :=
  let* l := findKey (indexKey v) (entries d n) in
  let* found := findPosition v positionId l in
  Ok (match found with Some e => dbDelEntry n e d | None => d end).

Definition deleteIndex (indexId : IndexId) (positionId : PositionId) (bytesValue : list byte) (type : PropertyType)
    (d : D) : Outcome D :=
  match bytesValue with
  | [] => Ok d
  | _ =>
      let* v := indexValue type bytesValue in
      match v with
      | None => Ok d
      | Some (IUnsigned z) => deleteIndexCursor (getIndexingName indexId) positionId (IUnsigned z) d
      | Some (IText []) => Ok d
      | Some (IText s) => deleteIndexCursor (getIndexingName indexId) positionId (IText s) d
      | Some x => deleteIndexCursor (getSignedIndexingName indexId (negb (isLt0 x))) positionId x d
      end
  end.

(** ** Searches over one database

    The result holds the record descriptors of the entries' positions. *)
Definition positionOf (classId : ClassId) (e : Entry) : Outcome RecordDescriptor :=
  let* p := numeric 4 e.2 in Ok (rdescOf (classId, p)).

Fixpoint positionsOf (classId : ClassId) (l : list Entry) : Outcome (list RecordDescriptor) :=
  match l with
  | [] => Ok []
  | e :: l' => let* r := positionOf classId e in let* rs := positionsOf classId l' in Ok (r :: rs)
  end.

Fixpoint whileEqual (v : IndexValue) (l : list Entry) : list Entry :=
  match l with
  | e :: l' => if keyEq e.1 v then e :: whileEqual v l' else []
  | [] => []
  end.

Definition exactMatchIndex (l : list Entry) (classId : ClassId) (v : IndexValue) : Outcome (list RecordDescriptor) :=
  let* found := findKey (indexKey v) l in
  positionsOf classId (whileEqual v found).

Definition fullScanIndex (l : list Entry) (classId : ClassId) : Outcome (list RecordDescriptor) :=
  positionsOf classId l.

(** The loops that skip the first entries equal to the bound unless it is
    included. *)
Fixpoint skipEqual (v : IndexValue) (isInclude : bool) (l : list Entry) : list Entry :=
  match l with
  | e :: l' => if negb isInclude && keyEq e.1 v then skipEqual v isInclude l' else l
  | [] => []
  end.

(** The entries from the value on, and the ones before it, with its own when
    it is included. *)
Definition ascending (l : list Entry) (classId : ClassId) (v : IndexValue) (isInclude : bool) :
    Outcome (list RecordDescriptor) :=
  let* found := findRange (indexKey v) l in
  positionsOf classId (skipEqual v isInclude found).
Definition descending (l : list Entry) (classId : ClassId) (v : IndexValue) (isInclude : bool) :
    Outcome (list RecordDescriptor) :=
  let* same := if isInclude then exactMatchIndex l classId v else Ok [] in
  let* _ := findRange (indexKey v) l in
  let* rest := positionsOf classId (previousOf (indexKey v) l) in
  Ok (same ++ rest).

(** [backwardSearchIndex]; with a [std::string] the loop copies the bytes of
    each key over a string object. *)
Definition backwardSearchIndex (l : list Entry) (classId : ClassId) (v : IndexValue) (positive isInclude : bool) :
    Outcome (list RecordDescriptor) :=
  match v with
  | IText _ =>
      let* same := if isInclude then exactMatchIndex l classId v else Ok [] in
      let* _ := findRange (indexKey v) l in
      match previousOf (indexKey v) l with [] => Ok same | _ => UB end
  | _ => if negb (isReal v) || positive then descending l classId v isInclude else ascending l classId v isInclude
  end.

Definition forwardSearchIndex (l : list Entry) (classId : ClassId) (v : IndexValue) (positive isInclude : bool) :
    Outcome (list RecordDescriptor) :=
  if negb (isReal v) || positive then ascending l classId v isInclude else descending l classId v isInclude.

(** The loop of [betweenSearchIndex] over the entries from the lower bound
    on. *)
Fixpoint upTo (lower upper : IndexValue) (bounds : bool * bool) (l : list Entry) : list Entry :=
  match l with
  | [] => []
  | e :: l' =>
      if negb bounds.1 && keyEq e.1 lower then upTo lower upper bounds l'
      else if (negb bounds.2 && keyEq e.1 upper) || keyGt e.1 upper then []
      else e :: upTo lower upper bounds l'
  end.

(** The loop over negative numbers, whose keys grow towards minus infinity. *)
Fixpoint upToReal (upper : IndexValue) (isIncludeUpper : bool) (l : list Entry) : list Entry :=
  match l with
  | [] => []
  | e :: l' =>
      if (negb isIncludeUpper && keyEq e.1 upper) || keyGt e.1 upper then []
      else e :: upToReal upper isIncludeUpper l'
  end.

Definition betweenSearchIndex (l : list Entry) (classId : ClassId) (lower upper : IndexValue)
    (isLowerPositive : bool) (bounds : bool * bool) : Outcome (list RecordDescriptor) :=
  if negb (isReal lower) || isLowerPositive then
    let* found := findRange (indexKey lower) l in
    positionsOf classId (upTo lower upper bounds found)
  else
    let* same := if bounds.1 then exactMatchIndex l classId lower else Ok [] in
    let* _ := findRange (indexKey lower) l in
    let* rest := positionsOf classId (upToReal upper bounds.2 (previousOf (indexKey lower) l)) in
    Ok (same ++ rest).

(** ** Searches over an index *)

(** [IndexPropertyType]: the index, whether it is unique, and the type of the
    property. *)
Abbreviation IndexPropertyType := (IndexId * bool * PropertyType)%type.

Context (d : D) (classId : ClassId).

Definition plain (indexId : IndexId) : list Entry := entries d (getIndexingName indexId).
Definition signed (indexId : IndexId) (isPositive : bool) : list Entry :=
  entries d (getSignedIndexingName indexId isPositive).

(** The templates [getLess], [getEqual], [getGreater] and [getBetween], and the
    direct searches for unsigned types and texts. *)
Definition searchLess (indexId : IndexId) (includeEqual : bool) (v : IndexValue) : Outcome (list RecordDescriptor) :=
  match v with
  | IUnsigned _ | IText _ => backwardSearchIndex (plain indexId) classId v true includeEqual
  | _ =>
      if isLt0 v then backwardSearchIndex (signed indexId false) classId v false includeEqual
      else
        let* positiveResult := backwardSearchIndex (signed indexId true) classId v true includeEqual in
        let* negativeResult := fullScanIndex (signed indexId false) classId in
        Ok (positiveResult ++ negativeResult)
  end.

Definition searchEqual (indexId : IndexId) (v : IndexValue) : Outcome (list RecordDescriptor) :=
  match v with
  | IUnsigned _ | IText _ => exactMatchIndex (plain indexId) classId v
  | _ => exactMatchIndex (signed indexId (negb (isLt0 v))) classId v
  end.

Definition searchGreater (indexId : IndexId) (includeEqual : bool) (v : IndexValue) :
    Outcome (list RecordDescriptor) :=
  match v with
  | IUnsigned _ | IText _ => forwardSearchIndex (plain indexId) classId v true includeEqual
  | _ =>
      if isLt0 v then
        let* positiveResult := fullScanIndex (signed indexId true) classId in
        let* negativeResult := forwardSearchIndex (signed indexId false) classId v false includeEqual in
        Ok (positiveResult ++ negativeResult)
      else forwardSearchIndex (signed indexId true) classId v true includeEqual
  end.

(** [static_cast<T>(0)] *)
Definition zeroLike (v : IndexValue) : IndexValue := match v with IReal _ => IReal 0 | _ => ISigned 0 end.

Definition searchBetween (indexId : IndexId) (bounds : bool * bool) (lower upper : IndexValue) :
    Outcome (list RecordDescriptor) :=
  match lower with
  | IUnsigned _ | IText _ => betweenSearchIndex (plain indexId) classId lower upper true bounds
  | _ =>
      if isLt0 lower && isLt0 upper then
        betweenSearchIndex (signed indexId false) classId lower upper false bounds
      else if isLt0 lower && isGe0 upper then
        let* positiveResult :=
          betweenSearchIndex (signed indexId true) classId (zeroLike lower) upper true (true, bounds.2) in
        let* negativeResult :=
          betweenSearchIndex (signed indexId false) classId lower (zeroLike lower) false (bounds.1, true) in
        Ok (positiveResult ++ negativeResult)
      else betweenSearchIndex (signed indexId true) classId lower upper true bounds
  end.

Definition withIndexValue (search : IndexId -> IndexValue -> Outcome (list RecordDescriptor))
    (i : IndexPropertyType) (value : list byte) : Outcome (list RecordDescriptor) :=
  let* v := indexValue i.2 value in
  match v with Some x => search i.1.1 x | None => Ok [] end.

Definition getLessEqual := withIndexValue (fun i => searchLess i true).
Definition getLess := withIndexValue (fun i => searchLess i false).
Definition getEqual := withIndexValue searchEqual.
Definition getGreaterEqual := withIndexValue (fun i => searchGreater i true).
Definition getGreater := withIndexValue (fun i => searchGreater i false).
Definition getBetween (i : IndexPropertyType) (lowerBound upperBound : list byte) (isIncludeBound : bool * bool) :
    Outcome (list RecordDescriptor) :=
  let* lo := indexValue i.2 lowerBound in
  let* hi := indexValue i.2 upperBound in
  match lo, hi with
  | Some l, Some h => searchBetween i.1.1 isIncludeBound l h
  | _, _ => Ok []
  end.

(** ** Answering a condition *)

(** [sortByRdesc] *)
Definition rid_le (a b : RecordDescriptor) : Prop :=
  ((rd_rid a).1 < (rd_rid b).1 \/ ((rd_rid a).1 = (rd_rid b).1 /\ (rd_rid a).2 <= (rd_rid b).2))%Z.
#[local] Instance rid_le_dec : RelDecision rid_le.
Proof. intros a b. unfold rid_le. apply _. Defined.
Definition sortByRdesc (l : list RecordDescriptor) : list RecordDescriptor := merge_sort rid_le l.

Definition sorted (m : Outcome (list RecordDescriptor)) : Outcome (list RecordDescriptor) := ofmap sortByRdesc m.
Definition both (lessResult greaterResult : Outcome (list RecordDescriptor)) : Outcome (list RecordDescriptor) :=
  let* a := lessResult in let* b := greaterResult in Ok (sortByRdesc (a ++ b)).

(** [condition.valueSet[0]] and [condition.valueSet[1]] *)
Definition valueSetAt (i : nat) (c : Condition) : Outcome (list byte) :=
  match valueSet c !! i with Some v => Ok v | None => UB end.

Definition betweenRecord (i : IndexPropertyType) (c : Condition) (isApplyNegative : bool) (bounds : bool * bool) :
    Outcome (list RecordDescriptor) :=
  let* lo := valueSetAt 0 c in
  let* hi := valueSetAt 1 c in
  if isApplyNegative
  then both ((if bounds.1 : bool then getLess else getLessEqual) i lo)
            ((if bounds.2 : bool then getGreater else getGreaterEqual) i hi)
  else sorted (getBetween i lo hi bounds).

Definition getIndexRecord (i : IndexPropertyType) (c : Condition) (isNegative_ : bool) :
    Outcome (list RecordDescriptor) :=
  let isApplyNegative := xorb (isNegative c) isNegative_ in
  let v := valueBytes c in
  match comp c with
  | EQUAL => if isApplyNegative then both (getLess i v) (getGreater i v) else sorted (getEqual i v)
  | LESS_EQUAL => sorted ((if isApplyNegative then getGreater else getLessEqual) i v)
  | LESS => sorted ((if isApplyNegative then getGreaterEqual else getLess) i v)
  | GREATER_EQUAL => sorted ((if isApplyNegative then getLess else getGreaterEqual) i v)
  | GREATER => sorted ((if isApplyNegative then getLessEqual else getGreater) i v)
  | BETWEEN_NO_BOUND => betweenRecord i c isApplyNegative (false, false)
  | BETWEEN => betweenRecord i c isApplyNegative (true, true)
  | BETWEEN_NO_UPPER => betweenRecord i c isApplyNegative (true, false)
  | BETWEEN_NO_LOWER => betweenRecord i c isApplyNegative (false, true)
  | _ => Ok []
  end.

(** ** Conditions an index can answer *)
Definition validComparators : list Comparator :=
  [EQUAL; BETWEEN_NO_BOUND; BETWEEN; BETWEEN_NO_UPPER; BETWEEN_NO_LOWER; LESS_EQUAL; LESS; GREATER_EQUAL; GREATER].

Definition hasIndex (info : ClassInfo) (c : Condition) : option IndexPropertyType :=
  if bool_decide (comp c ∈ validComparators) then
    if bool_decide (comp c = EQUAL) && isNegative c then None
    else
      match nameToDesc (ci_propertyInfo info) !! propName c with
      | Some p => match findIndex classId p with Some (i, u) => Some (i, u, pd_type p) | None => None end
      | None => None
      end
  else None.

(** For a composed condition: an index for every property it names, taken for
    the first condition on the property. *)
Fixpoint hasIndexes (info : ClassInfo) (cs : list Condition) (result : gmap string IndexPropertyType) :
    option (gmap string IndexPropertyType) :=
  match cs with
  | [] => Some result
  | c :: cs' =>
      match result !! propName c with
      | Some _ => hasIndexes info cs' result
      | None =>
          match hasIndex info c with
          | Some i => hasIndexes info cs' (<[propName c := i]> result)
          | None => None
          end
      end
  end.

(** [std::set_intersection] and [std::set_union] on sorted ranges. *)
Definition rid_ltb (a b : RecordDescriptor) : bool := pair_ltb Z.ltb Z.ltb (rd_rid a) (rd_rid b).

Fixpoint set_intersection (l1 : list RecordDescriptor) : list RecordDescriptor -> list RecordDescriptor :=
  fix go l2 :=
    match l1, l2 with
    | a :: l1', b :: l2' =>
        if rid_ltb a b then set_intersection l1' l2
        else if rid_ltb b a then go l2'
        else a :: set_intersection l1' l2'
    | _, _ => []
    end.

Fixpoint set_union (l1 : list RecordDescriptor) : list RecordDescriptor -> list RecordDescriptor :=
  fix go l2 :=
    match l1, l2 with
    | [], _ => l2
    | _, [] => l1
    | a :: l1', b :: l2' =>
        if rid_ltb a b then a :: set_union l1' l2
        else if rid_ltb b a then b :: go l2'
        else a :: set_union l1' l2'
    end.

Fixpoint getRecordFromIndex (types : gmap string IndexPropertyType) (e : ExprNode) (isParentNegative : bool) :
    Outcome (list RecordDescriptor) :=
  match e with
  | ConditionNode c =>
      match types !! propName c with
      | Some i => getIndexRecord i c isParentNegative
      | None => Throw NOGDB_CTX_INTERNAL_ERR
      end
  | CompositeNode lhs rhs opt negative =>
      let isApplyNegative := xorb negative isParentNegative in
      let* rightNodeResult := getRecordFromIndex types rhs isApplyNegative in
      let* leftNodeResult := getRecordFromIndex types lhs isApplyNegative in
      Ok (match opt, isApplyNegative with
          | AND, false | OR, true => set_intersection rightNodeResult leftNodeResult
          | _, _ => set_union rightNodeResult leftNodeResult
          end)
  end.

(** The composed condition: what the lambda computes is not returned. *)
Definition getIndexRecordMulti (types : gmap string IndexPropertyType) (m : MultiCondition) :
    Outcome (list RecordDescriptor) :=
  let* _ := getRecordFromIndex types (root m) false in Ok [].
End index.
