(* ===== verification/IndexSpec.v ===== *)
(** * Indexes on integer properties

    The databases of an index on a property of integer type hold one entry per
    record that has the property ([indexed]).  Adding and deleting entries
    keeps this, a unique index refuses exactly the values it has, and every
    condition an index can answer is answered with exactly the records whose
    value satisfies it in the sense of the scan of [Compare]. *)

From stdpp Require Import base gmap sets list strings sorting.
From Stdlib Require Import ZArith Lia.
From S2P Require Import Prelude.
From S2P Require Import Types.
From S2P Require Import Store.
From S2P Require Import Blob.
From S2P Require Import Parser.
From S2P Require Import TxnData.
From S2P Require Import Schema.
From S2P Require Import Generic.
From S2P Require Import Compare.
From S2P Require Import Index.

(** ** Integer keys

    [region s b]: the values kept together in one database, with [s] for a
    signed type and [b] for the database of the values from zero on. *)
Definition region (s b : bool) (z : Z) : Prop :=
  if s then if b then (0 <= z < 9223372036854775808)%Z else (-9223372036854775808 <= z < 0)%Z
  else (0 <= z < 18446744073709551616)%Z.

Definition ival (s : bool) (z : Z) : IndexValue := if s then ISigned z else IUnsigned z.

(** The entry of a value and a position. *)
Definition enc (x : Z * Z) : Entry := (KNum (u64 x.1), le_bytes 4 x.2).

Lemma indexKey_ival s z : indexKey (ival s z) = KNum (u64 z).
Proof. by destruct s. Qed.

Lemma isReal_ival s z : isReal (ival s z) = false.
Proof. by destruct s. Qed.

Lemma u64_region s b z : region s b z -> u64 z = if s && negb b then (z + 18446744073709551616)%Z else z.
Proof.
  unfold region, u64. destruct s, b; cbn [andb negb]; intros Hz; try (by apply Z.mod_small; lia).
  symmetry. apply (Z.mod_unique_pos _ _ (-1)); lia.
Qed.

Lemma u64_ltb s b x y : region s b x -> region s b y -> (u64 x <? u64 y)%Z = (x <? y)%Z.
Proof.
  intros Hx Hy. rewrite (u64_region s b x Hx), (u64_region s b y Hy). destruct (s && negb b); [|done].
  destruct (Z.ltb_spec x y), (Z.ltb_spec (x + 18446744073709551616) (y + 18446744073709551616)); lia.
Qed.

Lemma u64_inj s b x y : region s b x -> region s b y -> u64 x = u64 y -> x = y.
Proof. intros Hx Hy. rewrite (u64_region s b x Hx), (u64_region s b y Hy). destruct (s && negb b); lia. Qed.

(** The number a key reads back as. *)
Lemma sint_u64 b z : region true b z -> sint 64 (u64 z) = z.
Proof.
  intros Hz. transitivity (sint 64 z).
  - unfold sint, u64. change 18446744073709551616%Z with (2 ^ 64)%Z. by rewrite Z.mod_mod by lia.
  - apply sint_id; [lia|]. destruct b; cbn in Hz |- *; lia.
Qed.

Lemma keyEq_enc s b z v : region s b z -> keyEq (KNum (u64 z)) (ival s v) = (z =? v)%Z.
Proof.
  intros Hz. destruct s; cbn.
  - by rewrite (sint_u64 b).
  - by rewrite (u64_region false b z Hz).
Qed.

Lemma keyGt_enc s b z v : region s b z -> keyGt (KNum (u64 z)) (ival s v) = (v <? z)%Z.
Proof.
  intros Hz. destruct s; cbn.
  - by rewrite (sint_u64 b).
  - by rewrite (u64_region false b z Hz).
Qed.

Lemma isLt0_ival v : isLt0 (ISigned v) = negb (0 <=? v)%Z.
Proof. cbn. destruct (Z.ltb_spec v 0), (Z.leb_spec 0 v); lia. Qed.

(** ** One database of an index *)
Definition ascending_values (L : list (Z * Z)) : Prop := StronglySorted (fun x y => (x.1 <= y.1)%Z) L.

Record part (s b : bool) (L : list (Z * Z)) : Prop := mkPart {
  p_region x : x ∈ L -> region s b x.1 /\ (0 <= x.2 <= UINT32_MAX)%Z;
  p_asc : ascending_values L;
}.

Lemma part_cons s b x L :
  part s b (x :: L) ->
  region s b x.1 /\ (0 <= x.2 <= UINT32_MAX)%Z /\ part s b L /\ forall y, y ∈ L -> (x.1 <= y.1)%Z.
Proof.
  intros [Hr Ha]. inversion Ha as [|? ? HL HF]; subst. rewrite Forall_forall in HF.
  destruct (Hr x) as [? ?]; [by left|]. repeat (split; [done|]). split; [|done].
  split; [|done]. intros y Hy. apply Hr. by right.
Qed.

Lemma part_filter s b L (P : Z * Z -> Prop) `{forall x, Decision (P x)} : part s b L -> part s b (filter P L).
Proof.
  intros [Hr Ha]. split.
  - intros x [_ Hx]%list_elem_of_filter. by apply Hr.
  - induction Ha as [|x L HL IH HF]; [constructor|]. rewrite filter_cons. case_decide.
    + constructor; [apply IH; intros y Hy; apply Hr; by right|]. rewrite Forall_forall in HF |- *.
      intros y [_ Hy]%list_elem_of_filter. by apply HF.
    + apply IH. intros y Hy. apply Hr. by right.
Qed.

Lemma seek_enc s b L v :
  part s b L -> region s b v ->
  seek key_ltb fst (KNum (u64 v)) (enc <$> L) = enc <$> filter (fun x => (v <= x.1)%Z) L.
Proof.
  intros HL Hv. induction L as [|x L IH]; [done|]. destruct (part_cons _ _ _ _ HL) as (Hx & _ & HL' & Hle).
  cbn [fmap list_fmap seek fst enc key_ltb]. rewrite (u64_ltb s b) by done. rewrite filter_cons.
  destruct (Z.ltb_spec x.1 v) as [Hlt|Hge]; case_decide; try lia.
  - by apply IH.
  - cbn. f_equal. symmetry. f_equal. apply filter_keep_all. apply Forall_forall. intros y Hy. apply Hle in Hy. lia.
Qed.

Lemma passed_enc s b L v :
  part s b L -> region s b v ->
  passed key_ltb fst (KNum (u64 v)) (enc <$> L) = enc <$> filter (fun x => (x.1 < v)%Z) L.
Proof.
  intros HL Hv. induction L as [|x L IH]; [done|]. destruct (part_cons _ _ _ _ HL) as (Hx & _ & HL' & Hle).
  cbn [fmap list_fmap passed fst enc key_ltb]. rewrite (u64_ltb s b) by done. rewrite filter_cons.
  destruct (Z.ltb_spec x.1 v) as [Hlt|Hge]; case_decide; try lia.
  - cbn. f_equal. by apply IH.
  - symmetry. rewrite (filter_keep_none _ L); [done|]. apply Forall_forall. intros y Hy. apply Hle in Hy. lia.
Qed.

Lemma whileEqual_enc s b L v :
  part s b L -> (forall x, x ∈ L -> (v <= x.1)%Z) ->
  whileEqual (ival s v) (enc <$> L) = enc <$> filter (fun x => x.1 = v) L.
Proof.
  intros HL Hle. induction L as [|x L IH]; [done|]. destruct (part_cons _ _ _ _ HL) as (Hx & _ & HL' & Hx').
  cbn [fmap list_fmap whileEqual fst enc]. rewrite (keyEq_enc s b) by done. rewrite filter_cons.
  destruct (Z.eqb_spec x.1 v) as [E|E]; case_decide; try done.
  - cbn. f_equal. apply IH; [done|]. intros y Hy. apply Hle. by right.
  - symmetry. rewrite (filter_keep_none _ L); [done|]. apply Forall_forall. intros y Hy Hyv.
    apply Hx' in Hy. specialize (Hle x). assert (v <= x.1)%Z by (apply Hle; by left). lia.
Qed.

(** The values from a bound on, and up to one. *)
Definition from (incl : bool) (v z : Z) : bool := if incl then (v <=? z)%Z else (v <? z)%Z.
Definition upto (incl : bool) (v z : Z) : bool := if incl then (z <=? v)%Z else (z <? v)%Z.

Lemma from_spec incl v z : from incl v z = true <-> (v < z)%Z \/ (incl = true /\ z = v).
Proof. destruct incl; cbn; lia. Qed.
Lemma upto_spec incl v z : upto incl v z = true <-> (z < v)%Z \/ (incl = true /\ z = v).
Proof. destruct incl; cbn; lia. Qed.

Lemma skipEqual_enc s b L v incl :
  part s b L -> (forall x, x ∈ L -> (v <= x.1)%Z) ->
  skipEqual (ival s v) incl (enc <$> L) = enc <$> filter (fun x => from incl v x.1 = true) L.
Proof.
  intros HL Hle. induction L as [|x L IH]; [done|]. destruct (part_cons _ _ _ _ HL) as (Hx & _ & HL' & Hx').
  assert (v <= x.1)%Z as Hvx by (apply Hle; by left).
  cbn [fmap list_fmap skipEqual fst enc]. rewrite (keyEq_enc s b) by done. rewrite filter_cons.
  assert (forall y, y ∈ L -> (v <= y.1)%Z) as Hle' by (intros y Hy; apply Hle; by right).
  destruct (negb incl && (x.1 =? v)%Z) eqn:E; [|].
  - rewrite decide_False; [by apply IH|]. rewrite from_spec. destruct incl; lia.
  - rewrite decide_True by (apply from_spec; destruct incl; cbn in E; [destruct (decide (x.1 = v)); [by right|left; lia]|left; lia]).
    cbn. f_equal. symmetry. f_equal. apply filter_keep_all. apply Forall_forall.
    intros y Hy. apply Hx' in Hy as ?. apply Hle' in Hy as ?. apply from_spec. destruct incl; cbn in E; [|left; lia].
    destruct (decide (y.1 = v)); [by right|left; lia].
Qed.

Lemma upTo_enc s b L lo hi bounds :
  part s b L -> (forall x, x ∈ L -> (lo <= x.1)%Z) ->
  upTo (ival s lo) (ival s hi) bounds (enc <$> L) =
    enc <$> filter (fun x => from bounds.1 lo x.1 && upto bounds.2 hi x.1 = true) L.
Proof.
  intros HL Hle. induction L as [|x L IH]; [done|]. destruct (part_cons _ _ _ _ HL) as (Hx & _ & HL' & Hx').
  assert (lo <= x.1)%Z as Hvx by (apply Hle; by left).
  assert (forall y, y ∈ L -> (lo <= y.1)%Z) as Hle' by (intros y Hy; apply Hle; by right).
  cbn [fmap list_fmap upTo fst enc]. rewrite !(keyEq_enc s b), (keyGt_enc s b) by done. rewrite filter_cons.
  destruct (negb bounds.1 && (x.1 =? lo)%Z) eqn:E1; [|destruct (negb bounds.2 && (x.1 =? hi)%Z || (hi <? x.1)%Z) eqn:E2].
  - rewrite decide_False; [by apply IH|]. unfold from. destruct bounds.1; cbn in *; lia.
  - rewrite decide_False by (unfold upto; destruct bounds.2; cbn in *; lia).
    rewrite (filter_keep_none _ L); [done|]. apply Forall_forall. intros y Hy. apply Hx' in Hy.
    unfold upto. destruct bounds.2; cbn in *; lia.
  - rewrite decide_True; [cbn; f_equal; by apply IH|]. unfold from, upto. destruct bounds.1, bounds.2; cbn in *; lia.
Qed.

(** ** Searches in one database *)
Section searches.
Context (classId : ClassId).

Definition rd (x : Z * Z) : RecordDescriptor := rdescOf (classId, x.2).

Lemma positionsOf_enc s b L : part s b L -> positionsOf classId (enc <$> L) = Ok (rd <$> L).
Proof.
  induction L as [|x L IH]; [done|]. intros HL. destruct (part_cons _ _ _ _ HL) as (_ & Hp & HL' & _).
  cbn [fmap list_fmap positionsOf]. unfold positionOf. cbn [enc snd]. rewrite (numeric_le_bytes _ Hp). cbn [obind].
  by rewrite (IH HL').
Qed.

Lemma findRange_enc s b L v :
  part s b L -> region s b v ->
  findRange (indexKey (ival s v)) (enc <$> L) = Ok (enc <$> filter (fun x => (v <= x.1)%Z) L).
Proof. intros HL Hv. unfold findRange. rewrite indexKey_ival. cbn [keySizeOk]. by rewrite (seek_enc s b). Qed.

Lemma filter_ge_filter (P : Z * Z -> Prop) `{forall x, Decision (P x)} v (L : list (Z * Z)) :
  (forall x, P x -> (v <= x.1)%Z) -> filter P (filter (fun x => (v <= x.1)%Z) L) = filter P L.
Proof. intros HP. induction L as [|x L IH]; [done|]. rewrite !filter_cons. repeat case_decide; rewrite ?filter_cons, ?IH; try (case_decide; [done|done]); naive_solver. Qed.

Lemma elem_filter_ge v (L : list (Z * Z)) x : x ∈ filter (fun x => (v <= x.1)%Z) L -> (v <= x.1)%Z.
Proof. by intros [? _]%list_elem_of_filter. Qed.

Lemma exactMatch_enc s b L v :
  part s b L -> region s b v ->
  exactMatchIndex (enc <$> L) classId (ival s v) = Ok (rd <$> filter (fun x => x.1 = v) L).
Proof.
  intros HL Hv. unfold exactMatchIndex, findKey. rewrite (findRange_enc s b) by done. cbn [obind].
  set (F := filter (fun x => (v <= x.1)%Z) L).
  assert (part s b F) as HF by (by apply part_filter).
  assert (whileEqual (ival s v) (match enc <$> F with e :: _ => if bool_decide (e.1 = indexKey (ival s v)) then enc <$> F else [] | [] => [] end)
          = whileEqual (ival s v) (enc <$> F)) as ->.
  { destruct F as [|x F']; [done|]. destruct (part_cons _ _ _ _ HF) as (Hx & _).
    cbn [fmap list_fmap enc fst]. rewrite indexKey_ival. case_bool_decide as Hk; [done|].
    cbn [whileEqual]. unfold enc at 1. cbn [fst]. rewrite (keyEq_enc s b) by done.
    destruct (Z.eqb_spec x.1 v) as [E|]; [by rewrite E in Hk|done]. }
  rewrite (whileEqual_enc s b) by (try done; intros x; apply elem_filter_ge).
  unfold F. rewrite filter_ge_filter by lia. apply (positionsOf_enc s b). by apply part_filter.
Qed.

Lemma ascending_enc s b L v incl :
  part s b L -> region s b v ->
  ascending (enc <$> L) classId (ival s v) incl = Ok (rd <$> filter (fun x => from incl v x.1 = true) L).
Proof.
  intros HL Hv. unfold ascending. rewrite (findRange_enc s b) by done. cbn [obind].
  rewrite (skipEqual_enc s b) by (try (by apply part_filter); intros x; apply elem_filter_ge).
  rewrite filter_ge_filter by (intros x; rewrite from_spec; lia).
  apply (positionsOf_enc s b). by apply part_filter.
Qed.

Lemma part_reverse_region s b L :
  part s b L -> positionsOf classId (reverse (enc <$> L)) = Ok (rd <$> reverse L).
Proof.
  intros [Hr _]. rewrite <- fmap_reverse.
  assert (forall x, x ∈ reverse L -> (0 <= x.2 <= UINT32_MAX)%Z) as H by (intros x Hx; rewrite elem_of_reverse in Hx; apply (Hr x Hx)).
  clear Hr. induction (reverse L) as [|x l IH]; [done|]. cbn [fmap list_fmap positionsOf]. unfold positionOf. cbn [enc snd].
  rewrite numeric_le_bytes by (apply H; by left). cbn [obind].
  setoid_rewrite IH; [done|]. intros y Hy. apply H. by right.
Qed.

Lemma descending_enc s b L v incl :
  part s b L -> region s b v ->
  exists l, descending (enc <$> L) classId (ival s v) incl = Ok l /\
    l ≡ₚ rd <$> filter (fun x => upto incl v x.1 = true) L.
Proof.
  intros HL Hv. unfold descending.
  assert ((if incl then exactMatchIndex (enc <$> L) classId (ival s v) else Ok []) =
    Ok (rd <$> if incl then filter (fun x => x.1 = v) L else [])) as -> by (destruct incl; [by apply (exactMatch_enc s b)|done]).
  cbn [obind]. rewrite (findRange_enc s b) by done. cbn [obind]. unfold previousOf. rewrite indexKey_ival, (passed_enc s b) by done.
  rewrite (part_reverse_region s b) by (by apply part_filter). cbn [obind]. eexists. split; [done|].
  rewrite <- fmap_app. apply fmap_Permutation. rewrite reverse_Permutation.
  clear HL Hv. induction L as [|x L IH]; [by destruct incl|]. rewrite !filter_cons. revert IH. unfold upto.
  destruct incl; intros IH; repeat case_decide; cbn [app]; try lia; rewrite <- ?Permutation_middle; try (by rewrite <- IH); done.
Qed.

Lemma between_enc s b L lo hi pos bounds :
  part s b L -> region s b lo ->
  betweenSearchIndex (enc <$> L) classId (ival s lo) (ival s hi) pos bounds =
    Ok (rd <$> filter (fun x => from bounds.1 lo x.1 && upto bounds.2 hi x.1 = true) L).
Proof.
  intros HL Hlo. unfold betweenSearchIndex. rewrite isReal_ival. cbn [negb orb].
  rewrite (findRange_enc s b) by done. cbn [obind].
  rewrite (upTo_enc s b) by (try (by apply part_filter); intros x; apply elem_filter_ge).
  rewrite filter_ge_filter by (intros x [H _]%andb_true_iff; apply from_spec in H; lia).
  apply (positionsOf_enc s b). by apply part_filter.
Qed.

Lemma fullScan_enc s b L : part s b L -> fullScanIndex (enc <$> L) classId = Ok (rd <$> L).
Proof. apply positionsOf_enc. Qed.

Lemma backward_enc s b L v pos incl :
  part s b L -> region s b v ->
  exists l, backwardSearchIndex (enc <$> L) classId (ival s v) pos incl = Ok l /\
    l ≡ₚ rd <$> filter (fun x => upto incl v x.1 = true) L.
Proof. intros HL Hv. destruct (descending_enc s b L v incl HL Hv) as (l & Hl & HP). exists l. by destruct s. Qed.

Lemma forward_enc s b L v pos incl :
  part s b L -> region s b v ->
  forwardSearchIndex (enc <$> L) classId (ival s v) pos incl = Ok (rd <$> filter (fun x => from incl v x.1 = true) L).
Proof. intros HL Hv. unfold forwardSearchIndex. rewrite isReal_ival. by apply (ascending_enc s b). Qed.
End searches.

(** ** What an index holds *)

(** The database of a value, and the databases of an index. *)
Definition indexDb (indexId : IndexId) (s : bool) (z : Z) : DbName :=
  if s then getSignedIndexingName indexId (0 <=? z)%Z else getIndexingName indexId.
Definition sideDb (indexId : IndexId) (s b : bool) : DbName :=
  if s then getSignedIndexingName indexId b else getIndexingName indexId.

(** The entries of a database that keeps one value per key, or several. *)
Definition kept (unique : bool) (l : list Entry) : Prop :=
  if unique then ordered key_ltb fst l else ordered entry_ltb id l.

Section indexed.
Context {D : Type} `{!Lmdb D}.

(** The index of a property of [w.1] bytes, signed when [w.2] says so, has one
    entry per position of [I], under the value [I] gives. *)
Record indexed (d : D) (indexId : IndexId) (w : nat * bool) (unique : bool) (I : gmap PositionId Z) : Prop := {
  ix_kept b : kept unique (entries d (sideDb indexId w.2 b));
  ix_entries b e : e ∈ entries d (sideDb indexId w.2 b) <->
    exists p z, I !! p = Some z /\ indexDb indexId w.2 z = sideDb indexId w.2 b /\ e = enc (z, p);
  ix_range p z : I !! p = Some z -> (0 <= p <= UINT32_MAX)%Z /\ inRange w z;
}.
End indexed.

Lemma signed_names_ne i : getSignedIndexingName i true <> getSignedIndexingName i false.
Proof. unfold getSignedIndexingName. by intros [=]%app_inv_head. Qed.

Lemma indexDb_side i s b z : indexDb i s z = sideDb i s b <-> s = false \/ (0 <=? z)%Z = b.
Proof.
  unfold indexDb, sideDb. destruct s; [|naive_solver].
  pose proof (signed_names_ne i). destruct (0 <=? z)%Z, b; naive_solver.
Qed.

Lemma inRange_region w z :
  0 < w.1 <= 8 -> inRange w z -> region w.2 (0 <=? z)%Z z.
Proof.
  destruct w as [n s]. unfold inRange, region. cbn [fst snd]. intros Hn.
  assert (256 ^ Z.of_nat n <= 18446744073709551616)%Z as Hu.
  { transitivity (256 ^ 8)%Z; [apply Z.pow_le_mono_r; lia|done]. }
  assert (2 ^ (8 * Z.of_nat n - 1) <= 9223372036854775808)%Z as Hs.
  { transitivity (2 ^ 63)%Z; [apply Z.pow_le_mono_r; lia|done]. }
  destruct s; [|lia]. destruct (Z.leb_spec 0 z); lia.
Qed.

Lemma intType_width type w : intType type = Some w -> 0 < w.1 <= 8.
Proof. destruct type; intros [= <-]; cbn; lia. Qed.

(** The entries of one database as values with positions. *)
Lemma decode_entries (P : Z * Z -> Prop) (l : list Entry) :
  (forall e, e ∈ l -> exists x, P x /\ e = enc x) -> exists L : list (Z * Z), l = enc <$> L /\ forall x, x ∈ L -> P x.
Proof.
  induction l as [|e l IH]; intros H.
  - exists []. split; [done|]. intros x Hx. by apply elem_of_nil in Hx.
  - destruct (H e) as (x & Hx & ->); [by left|]. destruct IH as (L & -> & HL); [intros; apply H; by right|].
    exists (x :: L). split; [done|]. intros y [->|Hy]%elem_of_cons; auto.
Qed.

Lemma kept_entry unique l : kept unique l -> ordered entry_ltb id l.
Proof.
  destruct unique; [|done]. cbn. unfold ordered. intros Hl. induction Hl as [|e l Hl IH He]; constructor; [done|].
  eapply Forall_impl; [exact He|]. intros e' H. unfold entry_ltb, pair_ltb. cbn. by rewrite H.
Qed.

Lemma entry_ltb_key a b : entry_ltb a b = true -> key_ltb b.1 a.1 = false.
Proof.
  unfold entry_ltb, pair_ltb. rewrite orb_true_iff, andb_true_iff, bool_decide_eq_true. intros [H|[E _]].
  - destruct (key_ltb b.1 a.1) eqn:E; [|done]. pose proof (ltb_trans (ltb := key_ltb) _ _ _ H E) as Hc.
    by rewrite (ltb_irrefl (ltb := key_ltb)) in Hc.
  - rewrite E. apply (ltb_irrefl (ltb := key_ltb)).
Qed.

Lemma enc_ascending s b (L : list (Z * Z)) :
  (forall x, x ∈ L -> region s b x.1) -> ordered entry_ltb id (enc <$> L) -> ascending_values L.
Proof.
  intros Hr. induction L as [|x L IH]; [constructor|]. intros Ho. inversion Ho as [|? ? HL HF]; subst.
  constructor; [apply IH; [intros y Hy; apply Hr; by right|done]|].
  apply Forall_forall. intros y Hy. rewrite Forall_fmap, Forall_forall in HF.
  specialize (HF y Hy). apply entry_ltb_key in HF. cbn in HF.
  rewrite (u64_ltb s b) in HF; [lia|apply Hr; by right|apply Hr; by left].
Qed.

Section contents.
Context {D : Type} `{!Lmdb D} (d : D) (indexId : IndexId) (w : nat * bool) (unique : bool) (I : gmap PositionId Z).
Context (Hw : 0 < w.1 <= 8) (Hix : indexed d indexId w unique I).

Lemma side_part b :
  exists L, entries d (sideDb indexId w.2 b) = enc <$> L /\ part w.2 b L /\ NoDup L /\
    forall z p, (z, p) ∈ L <-> I !! p = Some z /\ (w.2 = false \/ (0 <=? z)%Z = b).
Proof.
  destruct (decode_entries (fun x => I !! x.2 = Some x.1 /\ (w.2 = false \/ (0 <=? x.1)%Z = b))
    (entries d (sideDb indexId w.2 b))) as (L & HL & HP).
  { intros e (p & z & Hp & Hb & ->)%(ix_entries _ _ _ _ _ Hix). exists (z, p). split; [|done].
    split; [done|]. by apply (indexDb_side indexId). }
  assert (forall x, x ∈ L -> region w.2 b x.1) as Hreg.
  { intros x Hx. destruct (HP x Hx) as [Hp Hb]. pose proof (proj2 (ix_range _ _ _ _ _ Hix _ _ Hp)) as Hr.
    apply inRange_region in Hr; [|done]. destruct Hb as [Hb|<-]; [|done]. rewrite Hb in Hr |- *. done. }
  pose proof (kept_entry _ _ (ix_kept _ _ _ _ _ Hix b)) as Hk. rewrite HL in Hk.
  assert (part w.2 b L) as Hpart.
  { split; [|by eapply enc_ascending]. intros x Hx. split; [by apply Hreg|].
    apply (ix_range _ _ _ _ _ Hix x.2 x.1). by apply HP. }
  exists L. split; [done|]. split; [done|]. split.
  - apply (NoDup_fmap_1 enc). by eapply (ordered_NoDup entry_ltb id).
  - intros z p. split; [apply (HP (z, p))|]. intros [Hp Hb].
    assert (enc (z, p) ∈ entries d (sideDb indexId w.2 b)) as Hin.
    { apply (ix_entries _ _ _ _ _ Hix). exists p, z. split_and!; [done| |done]. by apply indexDb_side. }
    rewrite HL in Hin. apply list_elem_of_fmap in Hin as (x & Hx & Hin).
    destruct (HP x Hin) as [Hp' _].
    destruct (ix_range _ _ _ _ _ Hix _ _ Hp) as [Hr1 _]. destruct (ix_range _ _ _ _ _ Hix _ _ Hp') as [Hr2 _].
    assert (p = x.2) as ->.
    { apply (f_equal snd) in Hx. cbn [enc snd] in Hx. pose proof (numeric_le_bytes p Hr1) as E1. pose proof (numeric_le_bytes x.2 Hr2) as E2.
      congruence. }
    rewrite Hp in Hp'. injection Hp' as ->. by destruct x.
Qed.
End contents.

(** ** What the searches return *)
Section search.
Context {D : Type} `{!Lmdb D} (d : D) (classId : ClassId) (indexId : IndexId).
Context (w : nat * bool) (unique : bool) (I : gmap PositionId Z).
Context (Hw : 0 < w.1 <= 8) (Hix : indexed d indexId w unique I).

(** The records whose value passes a test, and the ones of them that one
    database holds. *)
Definition hits (test : Z -> bool) (r : RecordDescriptor) : Prop :=
  exists p z, I !! p = Some z /\ test z = true /\ r = rdescOf (classId, p).
Definition side_hits (b : bool) (test : Z -> bool) (r : RecordDescriptor) : Prop :=
  exists p z, I !! p = Some z /\ (w.2 = false \/ (0 <=? z)%Z = b) /\ test z = true /\ r = rdescOf (classId, p).

Definition lists (P : RecordDescriptor -> Prop) (l : list RecordDescriptor) : Prop :=
  NoDup l /\ forall r, r ∈ l <-> P r.
Definition answers (res : Outcome (list RecordDescriptor)) (P : RecordDescriptor -> Prop) : Prop :=
  exists l, res = Ok l /\ lists P l.

Lemma lists_side b L test l :
  NoDup L -> (forall z p, (z, p) ∈ L <-> I !! p = Some z /\ (w.2 = false \/ (0 <=? z)%Z = b)) ->
  l ≡ₚ rd classId <$> filter (fun x => test x.1 = true) L -> lists (side_hits b test) l.
Proof.
  intros HN HL HP. split.
  - rewrite HP. apply NoDup_fmap_2_strong; [|by apply NoDup_filter].
    intros [z p] [z' p'] [_ H1]%list_elem_of_filter [_ H2]%list_elem_of_filter [= ->].
    apply HL in H1 as [H1 _]. apply HL in H2 as [H2 _]. congruence.
  - intros r. rewrite HP, list_elem_of_fmap. split.
    + intros ([z p] & -> & [Ht H]%list_elem_of_filter). apply HL in H as [? ?]. by exists p, z.
    + intros (p & z & Hp & Hb & Ht & ->). exists (z, p). split; [done|]. apply list_elem_of_filter. split; [done|].
      by apply HL.
Qed.

Lemma lists_app test l1 l2 :
  w.2 = true -> lists (side_hits true test) l1 -> lists (side_hits false test) l2 -> lists (hits test) (l1 ++ l2).
Proof.
  intros Hs [N1 H1] [N2 H2]. split.
  - apply NoDup_app. split_and!; [done| |done]. intros r Hr Hr'. apply H1 in Hr as (p & z & Hp & Hb & _ & ->).
    apply H2 in Hr' as (p' & z' & Hp' & Hb' & _ & Hpp). assert (p = p') as <- by (apply (f_equal rd_rid) in Hpp; cbn in Hpp; congruence). rewrite Hs in Hb, Hb'.
    assert (z = z') as <- by congruence. destruct Hb as [|Hb], Hb' as [|Hb']; congruence.
  - intros r. rewrite elem_of_app, H1, H2. unfold hits, side_hits. rewrite Hs. split; [naive_solver|].
    intros (p & z & Hp & Ht & ->). destruct (0 <=? z)%Z eqn:E; [left|right]; exists p, z; auto.
Qed.

Lemma lists_one b test l :
  (forall p z, I !! p = Some z -> test z = true -> w.2 = false \/ (0 <=? z)%Z = b) ->
  lists (side_hits b test) l -> lists (hits test) l.
Proof.
  intros Ht [HN Hl]. split; [done|]. intros r. rewrite Hl. unfold hits, side_hits. naive_solver.
Qed.

Lemma lists_iff (P Q : RecordDescriptor -> Prop) l : (forall r, P r <-> Q r) -> lists P l -> lists Q l.
Proof. intros H [HN Hl]. split; [done|]. intros r. by rewrite Hl. Qed.

Lemma side_answers b test res :
  (forall L, part w.2 b L -> entries d (sideDb indexId w.2 b) = enc <$> L ->
     exists l, res = Ok l /\ l ≡ₚ rd classId <$> filter (fun x => test x.1 = true) L) ->
  answers res (side_hits b test).
Proof.
  intros H. destruct (side_part d indexId w unique I Hw Hix b) as (L & HL & Hpart & HN & Hmem).
  destruct (H L Hpart HL) as (l & -> & HP). exists l. split; [done|]. by apply (lists_side b L).
Qed.

Lemma less_side b v pos incl :
  region w.2 b v -> answers (backwardSearchIndex (entries d (sideDb indexId w.2 b)) classId (ival w.2 v) pos incl)
    (side_hits b (upto incl v)).
Proof. intros Hv. apply side_answers. intros L HL ->. by apply (backward_enc classId w.2 b). Qed.

Lemma greater_side b v pos incl :
  region w.2 b v -> answers (forwardSearchIndex (entries d (sideDb indexId w.2 b)) classId (ival w.2 v) pos incl)
    (side_hits b (from incl v)).
Proof. intros Hv. apply side_answers. intros L HL ->. rewrite (forward_enc classId w.2 b) by done. by eexists. Qed.

Lemma equal_side b v :
  region w.2 b v -> answers (exactMatchIndex (entries d (sideDb indexId w.2 b)) classId (ival w.2 v))
    (side_hits b (fun z => z =? v)%Z).
Proof.
  intros Hv. apply side_answers. intros L HL ->. rewrite (exactMatch_enc classId w.2 b) by done. eexists. split; [done|].
  by rewrite (list_filter_iff _ (fun x => (x.1 =? v)%Z = true)) by (intros x; by rewrite Z.eqb_eq).
Qed.

Lemma between_side b lo hi pos bounds :
  region w.2 b lo ->
  answers (betweenSearchIndex (entries d (sideDb indexId w.2 b)) classId (ival w.2 lo) (ival w.2 hi) pos bounds)
    (side_hits b (fun z => from bounds.1 lo z && upto bounds.2 hi z)).
Proof. intros Hv. apply side_answers. intros L HL ->. rewrite (between_enc classId w.2 b) by done. by eexists. Qed.

Lemma full_side b test :
  (forall p z, I !! p = Some z -> w.2 = false \/ (0 <=? z)%Z = b -> test z = true) ->
  answers (fullScanIndex (entries d (sideDb indexId w.2 b)) classId) (side_hits b test).
Proof.
  intros Ht. destruct (side_part d indexId w unique I Hw Hix b) as (L & -> & Hpart & HN & Hmem).
  rewrite (fullScan_enc classId w.2 b) by done. exists (rd classId <$> L). split; [done|]. apply (lists_side b L); [done|done|].
  rewrite filter_keep_all; [done|]. apply Forall_forall. intros [z p] [Hp Hb]%Hmem. by eapply Ht.
Qed.

(** ** Searches over the databases of an index *)
Lemma answers_one b test res :
  (forall p z, I !! p = Some z -> test z = true -> w.2 = false \/ (0 <=? z)%Z = b) ->
  answers res (side_hits b test) -> answers res (hits test).
Proof. intros Ht (l & -> & Hl). exists l. split; [done|]. by apply (lists_one b). Qed.

Lemma answers_app test r1 r2 :
  w.2 = true -> answers r1 (side_hits true test) -> answers r2 (side_hits false test) ->
  answers (let* a := r1 in let* b := r2 in Ok (a ++ b)) (hits test).
Proof. intros Hs (l1 & -> & H1) (l2 & -> & H2). exists (l1 ++ l2). split; [done|]. by apply lists_app. Qed.

Lemma answers_side_iff b t1 t2 res :
  (forall p z, I !! p = Some z -> w.2 = false \/ (0 <=? z)%Z = b -> t1 z = t2 z) ->
  answers res (side_hits b t1) -> answers res (side_hits b t2).
Proof.
  intros Ht (l & -> & Hl). exists l. split; [done|]. eapply lists_iff; [|exact Hl]. intros r. unfold side_hits.
  split; intros (p & z & Hp & Hb & Hz & ->); exists p, z; (split_and!; [done|done| |done]); by rewrite <- Hz, (Ht p z Hp Hb).
Qed.

Lemma searchLess_hits incl v :
  inRange w v -> answers (searchLess d classId indexId incl (ival w.2 v)) (hits (upto incl v)).
Proof.
  intros Hv. pose proof (inRange_region w v Hw Hv) as Hr.
  pose proof (less_side (0 <=? v)%Z v) as Hless. pose proof (full_side false (upto incl v)) as Hfull.
  destruct (w.2) eqn:Es; rewrite ?Es in Hr, Hless, Hfull.
  - unfold ival, searchLess. cbn [sideDb] in Hless, Hfull. rewrite isLt0_ival.
    destruct (0 <=? v)%Z eqn:Ev; cbn [negb].
    + apply (answers_app (upto incl v)); [done|by apply Hless|]. apply Hfull.
      intros p z _ [|Hz]; [done|]. apply upto_spec. lia.
    + apply (answers_one false); [|by apply Hless]. intros p z _ Hz%upto_spec. right. lia.
  - cbn [ival searchLess]. apply (answers_one (0 <=? v)%Z); [by left|by apply Hless].
Qed.

Lemma searchGreater_hits incl v :
  inRange w v -> answers (searchGreater d classId indexId incl (ival w.2 v)) (hits (from incl v)).
Proof.
  intros Hv. pose proof (inRange_region w v Hw Hv) as Hr.
  pose proof (greater_side (0 <=? v)%Z v) as Hgreater. pose proof (full_side true (from incl v)) as Hfull.
  destruct (w.2) eqn:Es; rewrite ?Es in Hr, Hgreater, Hfull.
  - unfold ival, searchGreater. cbn [sideDb] in Hgreater, Hfull. rewrite isLt0_ival.
    destruct (0 <=? v)%Z eqn:Ev; cbn [negb].
    + apply (answers_one true); [|by apply Hgreater]. intros p z _ Hz%from_spec. right. lia.
    + apply (answers_app (from incl v)); [done| |by apply Hgreater]. apply Hfull.
      intros p z _ [|Hz]; [done|]. apply from_spec. lia.
  - cbn [ival searchGreater]. apply (answers_one (0 <=? v)%Z); [by left|by apply Hgreater].
Qed.

Lemma searchEqual_hits v :
  inRange w v -> answers (searchEqual d classId indexId (ival w.2 v)) (hits (fun z => z =? v)%Z).
Proof.
  intros Hv. pose proof (inRange_region w v Hw Hv) as Hr. pose proof (equal_side (0 <=? v)%Z v Hr) as Heq.
  destruct (w.2) eqn:Es; rewrite ?Es in Heq.
  - unfold ival, searchEqual. cbn [sideDb ival] in Heq. rewrite isLt0_ival, negb_involutive.
    apply (answers_one (0 <=? v)%Z); [|exact Heq]. intros p z _ ->%Z.eqb_eq. by right.
  - cbn [ival searchEqual]. apply (answers_one (0 <=? v)%Z); [by left|exact Heq].
Qed.

Lemma searchBetween_hits bounds lo hi :
  inRange w lo -> inRange w hi ->
  answers (searchBetween d classId indexId bounds (ival w.2 lo) (ival w.2 hi))
    (hits (fun z => from bounds.1 lo z && upto bounds.2 hi z)).
Proof.
  intros Hlo Hhi. pose proof (inRange_region w lo Hw Hlo) as Hr.
  pose proof (fun b l h pos => between_side b l h pos) as Hbet.
  destruct (w.2) eqn:Es; rewrite ?Es in Hr, Hbet.
  - unfold ival, searchBetween. cbn [sideDb ival] in Hbet. rewrite !isLt0_ival. cbn [isGe0 zeroLike].
    destruct (0 <=? lo)%Z eqn:El; cbn [negb andb].
    + apply (answers_one true); [|by apply Hbet]. intros p z _ [Hz _]%andb_true_iff. apply from_spec in Hz. right. lia.
    + destruct (0 <=? hi)%Z eqn:Eh; cbn [negb andb].
      * apply answers_app; [done| |].
        -- eapply (answers_side_iff true); [|apply Hbet; cbn; lia]. cbn [fst snd].
           intros p z _ [|Hz]; [congruence|]. apply eq_true_iff_eq. rewrite !andb_true_iff, !from_spec. lia.
        -- eapply (answers_side_iff false); [|by apply Hbet]. cbn [fst snd].
           intros p z _ [|Hz]; [congruence|]. apply eq_true_iff_eq. rewrite !andb_true_iff, !upto_spec. lia.
      * apply (answers_one false); [|by apply Hbet]. intros p z _ [_ Hz]%andb_true_iff. apply upto_spec in Hz. right. lia.
  - cbn [ival searchBetween]. apply (answers_one (0 <=? lo)%Z); [by left|by apply Hbet].
Qed.
End search.

(** ** Conditions *)
Lemma indexValue_int type w v :
  intType type = Some w -> inRange w v -> indexValue type (le_bytes w.1 v) = Ok (Some (ival w.2 v)).
Proof.
  intros Ht Hv. destruct type; try discriminate Ht; injection Ht as <-; unfold indexValue; cbn [fst snd ival] in *.
  all: unfold toTinyIntU, toTinyInt, toSmallIntU, toSmallInt, toIntU, toInt, toBigIntU, toBigInt.
  all: first [rewrite convertAll_uint by done | rewrite convertAll_sint by (done || lia)]; done.
Qed.

Lemma sortByRdesc_perm l : sortByRdesc l ≡ₚ l.
Proof. apply merge_sort_Permutation. Qed.
Lemma sortByRdesc_sorted l : StronglySorted Index.rid_le (sortByRdesc l).
Proof.
  apply StronglySorted_merge_sort.
  - intros a b c. unfold Index.rid_le. lia.
  - intros a b. unfold Index.rid_le. lia.
Qed.

(** What a comparator of [validComparators] tests. *)
Definition bounds_of (k : Comparator) : bool * bool :=
  match k with
  | BETWEEN => (true, true) | BETWEEN_NO_UPPER => (true, false) | BETWEEN_NO_LOWER => (false, true)
  | _ => (false, false)
  end.
Definition tests (k : Comparator) (lo hi z : Z) : bool :=
  match k with
  | EQUAL => (z =? lo)%Z
  | LESS => upto false lo z
  | LESS_EQUAL => upto true lo z
  | GREATER => from false lo z
  | GREATER_EQUAL => from true lo z
  | k => from (bounds_of k).1 lo z && upto (bounds_of k).2 hi z
  end.

(** The operands of a condition are integers of the type of the property. *)
Definition operands (w : nat * bool) (c : Condition) (lo hi : Z) : Prop :=
  inRange w lo /\ inRange w hi /\
  if isBetween (comp c) then valueSet c = [le_bytes w.1 lo; le_bytes w.1 hi] else valueBytes c = le_bytes w.1 lo.

Lemma valid_cases k : k ∈ validComparators ->
  k = EQUAL \/ k = LESS \/ k = LESS_EQUAL \/ k = GREATER \/ k = GREATER_EQUAL \/ isBetween k = true.
Proof. unfold validComparators. rewrite !elem_of_cons, elem_of_nil. naive_solver. Qed.

Lemma compare_tests regex type w c lo hi z :
  intType type = Some w -> comp c ∈ validComparators -> operands w c lo hi -> inRange w z ->
  compareBytesValue regex (le_bytes w.1 z) type c = Ok (xorb (tests (comp c) lo hi z) (isNegative c)).
Proof.
  intros Ht Hk (Hlo & Hhi & Hop) Hz.
  pose proof (integer_run regex type w z lo hi (comp c) (isIgnoreCase c) Ht Hz Hlo Hhi) as Hrun. cbv zeta in Hrun.
  assert (forall P, meansZ (comp c) z lo hi = Some P -> (tests (comp c) lo hi z = true <-> P)) as Htest.
  { intros P. destruct (comp c); intros [= <-]; cbn; rewrite ?andb_true_iff; lia. }
  unfold compareBytesValue. destruct (isBetween (comp c)) eqn:Eb.
  - rewrite Hop. destruct (comp c); try discriminate Eb; cbn [meansZ] in Hrun, Htest;
      destruct Hrun as (b & -> & Hb); cbn [obind]; do 2 f_equal; apply eq_true_iff_eq;
      rewrite Hb; symmetry; by apply Htest.
  - rewrite Hop.
    assert (genericCompareFunc regex (le_bytes w.1 z) type (le_bytes w.1 lo) [] (comp c) (isIgnoreCase c) =
            genericCompareFunc regex (le_bytes w.1 z) type (le_bytes w.1 lo) (le_bytes w.1 hi) (comp c) (isIgnoreCase c)) as E.
    { destruct type; try discriminate Ht; destruct (comp c); try discriminate Eb; done. }
    destruct (valid_cases _ Hk) as [Ek|[Ek|[Ek|[Ek|[Ek|Ek]]]]]; try (by rewrite Ek in Eb);
      rewrite Ek in *; rewrite E; cbn [meansZ] in Hrun, Htest; destruct Hrun as (b & -> & Hb); cbn [obind]; do 2 f_equal;
      apply eq_true_iff_eq; rewrite Hb; symmetry; by apply Htest.
Qed.

Section answers.
Context {D : Type} `{!Lmdb D} (d : D) (classId : ClassId) (indexId : IndexId) (unique : bool) (type : PropertyType).
Context (w : nat * bool) (I : gmap PositionId Z).
Context (Ht : intType type = Some w) (Hix : indexed d indexId w unique I).

Definition found (res : Outcome (list RecordDescriptor)) (test : Z -> bool) (distinct : Prop) : Prop :=
  exists l, res = Ok l /\ StronglySorted Index.rid_le l /\ (forall r, r ∈ l <-> hits classId I test r) /\ (distinct -> NoDup l).

Lemma found_sorted res t1 t2 Q :
  answers res (hits classId I t1) -> (forall z, t1 z = t2 z) -> found (sorted res) t2 Q.
Proof.
  intros (l & -> & HN & Hl) Ht12. exists (sortByRdesc l). cbn. split; [done|]. split; [apply sortByRdesc_sorted|]. split.
  - intros r. rewrite sortByRdesc_perm, Hl. unfold hits. by setoid_rewrite Ht12.
  - intros _. by rewrite sortByRdesc_perm.
Qed.

Lemma found_both r1 r2 t1 t2 t Q :
  answers r1 (hits classId I t1) -> answers r2 (hits classId I t2) -> (forall z, t z = t1 z || t2 z) ->
  (Q -> forall z, t1 z = true -> t2 z = true -> False) -> found (both r1 r2) t Q.
Proof.
  intros (l1 & -> & N1 & H1) (l2 & -> & N2 & H2) Hor Hdis. exists (sortByRdesc (l1 ++ l2)).
  cbn. split; [done|]. split; [apply sortByRdesc_sorted|]. split.
  - intros r. rewrite sortByRdesc_perm, elem_of_app, H1, H2. unfold hits. setoid_rewrite Hor.
    setoid_rewrite orb_true_iff. naive_solver.
  - intros HQ. rewrite sortByRdesc_perm. apply NoDup_app. split_and!; [done| |done]. intros r Hr Hr'.
    apply H1 in Hr as (p & z & Hp & Hz & ->). apply H2 in Hr' as (p' & z' & Hp' & Hz' & E).
    assert (p = p') as <- by (apply (f_equal rd_rid) in E; cbn in E; congruence).
    assert (z = z') as <- by congruence. by eapply Hdis.
Qed.

Let Hw : 0 < w.1 <= 8 := intType_width type w Ht.

Lemma get_hits (search : IndexId -> IndexValue -> Outcome (list RecordDescriptor)) v P :
  inRange w v -> answers (search indexId (ival w.2 v)) P ->
  answers (withIndexValue search (indexId, unique, type) (le_bytes w.1 v)) P.
Proof. intros Hv H. unfold withIndexValue. cbn [fst snd]. by rewrite (indexValue_int type w v Ht Hv). Qed.

Lemma getLess_hits (incl : bool) v : inRange w v ->
  answers ((if incl then getLessEqual d classId else getLess d classId) (indexId, unique, type) (le_bytes w.1 v))
    (hits classId I (upto incl v)).
Proof. intros Hv. pose proof (searchLess_hits d classId indexId w unique I Hw Hix incl v Hv). destruct incl; by apply get_hits. Qed.

Lemma getGreater_hits (incl : bool) v : inRange w v ->
  answers ((if incl then getGreaterEqual d classId else getGreater d classId) (indexId, unique, type) (le_bytes w.1 v))
    (hits classId I (from incl v)).
Proof. intros Hv. pose proof (searchGreater_hits d classId indexId w unique I Hw Hix incl v Hv). destruct incl; by apply get_hits. Qed.

Lemma betweenRecord_found c lo hi neg bounds :
  inRange w lo -> inRange w hi -> valueSet c = [le_bytes w.1 lo; le_bytes w.1 hi] ->
  found (betweenRecord d classId (indexId, unique, type) c neg bounds)
    (fun z => xorb (from bounds.1 lo z && upto bounds.2 hi z) neg) (lo < hi)%Z.
Proof.
  intros Hlo Hhi Hset. unfold betweenRecord, valueSetAt. rewrite Hset. cbn [list_lookup lookup obind].
  destruct neg.
  - apply (found_both _ _ (upto (negb bounds.1) lo) (from (negb bounds.2) hi)).
    + pose proof (getLess_hits (negb bounds.1) lo Hlo). by destruct bounds.1.
    + pose proof (getGreater_hits (negb bounds.2) hi Hhi). by destruct bounds.2.
    + intros z. unfold from, upto. destruct bounds.1, bounds.2; cbn [negb]; rewrite xorb_true_r; lia.
    + intros Hlt z. rewrite upto_spec, from_spec. lia.
  - apply (found_sorted _ (fun z => from bounds.1 lo z && upto bounds.2 hi z)); [|by intros z; rewrite xorb_false_r].
    unfold getBetween. cbn [fst snd]. rewrite (indexValue_int type w lo Ht Hlo), (indexValue_int type w hi Ht Hhi).
    cbn [obind]. by apply (searchBetween_hits d classId indexId w unique I).
Qed.

Lemma getIndexRecord_found c neg lo hi :
  comp c ∈ validComparators -> operands w c lo hi ->
  found (getIndexRecord d classId (indexId, unique, type) c neg)
    (fun z => xorb (tests (comp c) lo hi z) (xorb (isNegative c) neg)) (isBetween (comp c) = true -> (lo < hi)%Z).
Proof.
  intros Hk (Hlo & Hhi & Hop). unfold getIndexRecord. generalize (xorb (isNegative c) neg) as ia. intros ia.
  pose proof (getLess_hits true lo Hlo) as HLE. pose proof (getLess_hits false lo Hlo) as HL.
  pose proof (getGreater_hits true lo Hlo) as HGE. pose proof (getGreater_hits false lo Hlo) as HG.
  assert (answers (getEqual d classId (indexId, unique, type) (le_bytes w.1 lo)) (hits classId I (fun z => z =? lo)%Z)) as HE.
  { apply get_hits; [done|]. by apply (searchEqual_hits d classId indexId w unique I). }
  assert (isBetween (comp c) = true -> found (betweenRecord d classId (indexId, unique, type) c ia (bounds_of (comp c)))
    (fun z => xorb (from (bounds_of (comp c)).1 lo z && upto (bounds_of (comp c)).2 hi z) ia)
    (isBetween (comp c) = true -> (lo < hi)%Z)) as HB.
  { intros Hb. rewrite Hb in Hop. destruct (betweenRecord_found c lo hi ia (bounds_of (comp c)) Hlo Hhi Hop) as (l & H1 & H2 & H3 & H4).
    exists l. split_and!; auto. }
  destruct (comp c) eqn:Ek; cbn [isBetween bounds_of tests] in *; try rewrite Hop; try (by apply HB);
    try (exfalso; by apply valid_cases in Hk; naive_solver); destruct ia.
  all: try (eapply found_sorted; [eassumption|]; intros z; unfold from, upto; cbn; rewrite ?xorb_true_r, ?xorb_false_r; lia).
  eapply found_both; [exact HL|exact HG| |].
  - intros z. unfold from, upto. rewrite xorb_true_r. lia.
  - intros _ z. rewrite upto_spec, from_spec. lia.
Qed.
End answers.

(** C12. Answering a condition from an index on an integer property gives, sorted
    and once each (when a range is not empty), exactly the records that the
    scan of the class would select by the same condition. *)
Theorem index_equals_scan {D : Type} `{!Lmdb D} regex (d : D) classId indexId unique type w I c neg lo hi :
  intType type = Some w -> indexed d indexId w unique I -> comp c ∈ validComparators -> operands w c lo hi ->
  exists l, getIndexRecord d classId (indexId, unique, type) c neg = Ok l /\ StronglySorted Index.rid_le l /\
    (forall r, r ∈ l <-> exists p z b, I !! p = Some z /\ r = rdescOf (classId, p) /\
        compareBytesValue regex (le_bytes w.1 z) type c = Ok b /\ xorb b neg = true) /\
    ((isBetween (comp c) = true -> (lo < hi)%Z) -> NoDup l).
Proof.
  intros Ht Hix Hk Hop.
  destruct (getIndexRecord_found d classId indexId unique type w I Ht Hix c neg lo hi Hk Hop) as (l & Hl & Hs & Hm & HN).
  exists l. split; [done|]. split; [done|]. split; [|done]. intros r. rewrite (Hm r). unfold hits. split.
  - intros (p & z & Hp & Hz & ->). exists p, z, (xorb (tests (comp c) lo hi z) (isNegative c)).
    split_and!; [done|done| |by rewrite xorb_assoc].
    apply (compare_tests regex type w c lo hi z Ht Hk Hop). by apply (ix_range _ _ _ _ _ Hix p).
  - intros (p & z & b & Hp & -> & Hb & Hx). exists p, z. split_and!; [done| |done].
    rewrite (compare_tests regex type w c lo hi z Ht Hk Hop) in Hb by (by apply (ix_range _ _ _ _ _ Hix p)).
    injection Hb as <-. by rewrite xorb_assoc in Hx.
Qed.

(** ** Maintenance *)
Section maintenance.
Context {D : Type} `{!Lmdb D} `{!LmdbLaws D}.
Context (indexId : IndexId) (type : PropertyType) (w : nat * bool) (unique : bool).
Context (Ht : intType type = Some w).

Lemma indexDb_sign z : indexDb indexId w.2 z = sideDb indexId w.2 (0 <=? z)%Z.
Proof. apply indexDb_side. by right. Qed.

Lemma le_bytes_nonempty z : le_bytes w.1 z <> [].
Proof. pose proof (intType_width type w Ht). destruct w.1; [lia|done]. Qed.

Lemma addIndex_int (d : D) p z :
  inRange w z ->
  addIndex indexId p (le_bytes w.1 z) type unique d =
    catch MDB_KEYEXIST (dbPut unique (indexDb indexId w.2 z) (KNum (u64 z)) (le_bytes 4 p) false (negb unique) d)
      (Throw NOGDB_CTX_UNIQUE_CONSTRAINT).
Proof.
  intros Hz. unfold addIndex. pose proof (le_bytes_nonempty z) as Hne. destruct (le_bytes w.1 z) as [|x l] eqn:E; [done|].
  rewrite <- E, (indexValue_int type w z Ht Hz). unfold indexDb, ival. by destruct w.2.
Qed.

Lemma deleteIndex_int (d : D) p z :
  inRange w z ->
  deleteIndex indexId p (le_bytes w.1 z) type d = deleteIndexCursor (indexDb indexId w.2 z) p (ival w.2 z) d.
Proof.
  intros Hz. unfold deleteIndex. pose proof (le_bytes_nonempty z) as Hne. destruct (le_bytes w.1 z) as [|x l] eqn:E; [done|].
  rewrite <- E, (indexValue_int type w z Ht Hz). cbn [obind]. unfold indexDb, ival. destruct w.2; [|done].
  by rewrite isLt0_ival, negb_involutive.
Qed.

Lemma enc_inj z p z' p' :
  (0 <= p <= UINT32_MAX)%Z -> (0 <= p' <= UINT32_MAX)%Z -> enc (z, p) = enc (z', p') -> p = p'.
Proof.
  intros Hp Hp' E. apply (f_equal snd) in E. cbn [enc snd] in E.
  pose proof (numeric_le_bytes p Hp) as E1. pose proof (numeric_le_bytes p' Hp') as E2. congruence.
Qed.

(** The values of the keys of one database are told apart by their keys. *)
Lemma key_value (d : D) u I z z' p :
  indexed d indexId w u I -> inRange w z -> I !! p = Some z' ->
  indexDb indexId w.2 z' = indexDb indexId w.2 z -> u64 z' = u64 z -> z' = z.
Proof.
  intros Hix Hz Hp Hdb Hk. pose proof (proj2 (ix_range _ _ _ _ _ Hix _ _ Hp)) as Hz'.
  pose proof (intType_width type w Ht) as Hw.
  apply (inRange_region w z Hw) in Hz. apply (inRange_region w z' Hw) in Hz'.
  rewrite indexDb_sign in Hdb. apply (u64_inj w.2 (0 <=? z)%Z); [|done|done].
  rewrite <- indexDb_sign in Hdb. rewrite (indexDb_sign z) in Hdb. apply indexDb_side in Hdb as [Hs|<-]; [|done].
  rewrite Hs in Hz' |- *. exact Hz'.
Qed.

(** Replacing the entries of the database of [z]. *)
Lemma indexed_replace (d d' : D) I I' z :
  indexed d indexId w unique I -> inRange w z ->
  (forall q x, x <> z -> I' !! q = Some x <-> I !! q = Some x) ->
  (forall q x, I' !! q = Some x -> (0 <= q <= UINT32_MAX)%Z /\ inRange w x) ->
  kept unique (entries d' (indexDb indexId w.2 z)) ->
  (forall e, e ∈ entries d' (indexDb indexId w.2 z) <->
     exists q x, I' !! q = Some x /\ indexDb indexId w.2 x = indexDb indexId w.2 z /\ e = enc (x, q)) ->
  (forall n, n <> indexDb indexId w.2 z -> entries d' n = entries d n) ->
  indexed d' indexId w unique I'.
Proof.
  intros Hix Hz Hsame Hran Hkept Hent Hother. split; [| |done].
  - intros b. destruct (decide (sideDb indexId w.2 b = indexDb indexId w.2 z)) as [->|Hne]; [done|].
    rewrite Hother by done. apply (ix_kept _ _ _ _ _ Hix).
  - intros b e. destruct (decide (sideDb indexId w.2 b = indexDb indexId w.2 z)) as [->|Hne]; [done|].
    rewrite Hother, (ix_entries _ _ _ _ _ Hix) by done.
    split; intros (q & x & Hq & Hdb & ->); exists q, x; (split_and!; [|done|done]);
      (apply Hsame; [intros ->; congruence|done]).
Qed.

Lemma addIndex_indexed (d d' : D) I p z :
  indexed d indexId w unique I -> I !! p = None -> (0 <= p <= UINT32_MAX)%Z -> inRange w z ->
  putEntry unique false (negb unique) (KNum (u64 z)) (le_bytes 4 p) (entries d (indexDb indexId w.2 z)) =
    Ok (entries d' (indexDb indexId w.2 z)) ->
  (forall n, n <> indexDb indexId w.2 z -> entries d' n = entries d n) ->
  indexed d' indexId w unique (<[p := z]> I) /\ (unique = true -> forall q, I !! q <> Some z).
Proof.
  intros Hix Hp Hpr Hz Hput Hother. unfold putEntry in Hput. cbn [keySizeOk negb andb] in Hput. rewrite negb_involutive in Hput.
  destruct (unique && existsb _ _) eqn:Eu; [discriminate Hput|]. injection Hput as Hput.
  pose proof (ix_kept _ _ _ _ _ Hix (0 <=? z)%Z) as Hk. rewrite <- indexDb_sign in Hk.
  pose proof (ix_entries _ _ _ _ _ Hix (0 <=? z)%Z) as He. rewrite <- indexDb_sign in He.
  assert (unique = true -> forall q, I !! q <> Some z) as Hfresh.
  { intros -> q Hq. cbn [andb] in Eu. apply not_true_iff_false in Eu. apply Eu. apply existsb_exists.
    exists (enc (z, q)). split; [|by apply bool_decide_eq_true]. apply list_elem_of_In, He. by exists q, z. }
  split; [|done]. apply (indexed_replace d d' I _ z); [done|done| | | | |done].
  - intros q x Hx. rewrite lookup_insert_Some. split; [intros [[_ ?]|[_ ?]]; [congruence|done]|].
    intros Hq. right. split; [congruence|done].
  - intros q x [[<- <-]|[_ Hq]]%lookup_insert_Some; [done|]. by apply (ix_range _ _ _ _ _ Hix).
  - rewrite <- Hput. unfold kept in *. destruct unique; [by apply (ordered_place key_ltb fst)|by apply (ordered_place entry_ltb id)].
  - intros e. rewrite <- Hput. transitivity (e = enc (z, p) \/ e ∈ entries d (indexDb indexId w.2 z)).
    + destruct unique; [rewrite (elem_of_place key_ltb fst)|rewrite (elem_of_place entry_ltb id)]; cbn [fst id];
        (split; [naive_solver|]); (intros [->|Hin]; [by left|right; split; [done|]]).
      * apply He in Hin as (q & x & Hq & Hdb & ->). intros E. cbn [enc fst] in E.
        assert (u64 x = u64 z) as Eu64 by (by injection E).
        assert (x = z) as -> by exact (key_value d _ I z x q Hix Hz Hq Hdb Eu64). by apply (Hfresh eq_refl q).
      * apply He in Hin as (q & x & Hq & Hdb & ->). intros E.
        assert (q = p) as -> by (eapply enc_inj; [apply (ix_range _ _ _ _ _ Hix _ _ Hq)|exact Hpr|exact E]). congruence.
    + rewrite He. split.
      * intros [->|(q & x & Hq & ?)]; [exists p, z; by rewrite lookup_insert_eq|].
        exists q, x. rewrite lookup_insert_ne; [done|congruence].
      * intros (q & x & [[<- <-]|[_ Hq]]%lookup_insert_Some & ? & ->); [by left|right; eauto].
Qed.

Lemma findPosition_enc b L v p :
  part w.2 b L -> (forall x, x ∈ L -> (v <= x.1)%Z) ->
  findPosition (ival w.2 v) p (enc <$> L) = Ok (if decide ((v, p) ∈ L) then Some (enc (v, p)) else None).
Proof.
  induction L as [|x L IH]; intros HL Hle; [done|]. destruct (part_cons _ _ _ _ HL) as (Hx & Hp & HL' & Hx').
  cbn [fmap list_fmap findPosition]. unfold enc at 1. cbn [fst]. rewrite (keyEq_enc w.2 b) by done.
  assert (findPosition (ival w.2 v) p (enc <$> L) = Ok (if decide ((v, p) ∈ L) then Some (enc (v, p)) else None)) as IH'
    by (apply IH; [done|]; intros y Hy; apply Hle; by right).
  destruct (Z.eqb_spec x.1 v) as [E|E].
  - cbn [enc snd]. rewrite (numeric_le_bytes _ Hp). cbn [obind]. destruct (Z.eqb_spec p x.2) as [->|Hne].
    + rewrite decide_True; [by rewrite <- E; destruct x|]. rewrite <- E. destruct x. by left.
    + setoid_rewrite IH'. f_equal. apply decide_ext. rewrite elem_of_cons. split; [by right|].
      intros [Heq|?]; [|done]. destruct Hne. by rewrite <- Heq.
  - rewrite decide_False; [done|]. intros [Heq|Hin]%elem_of_cons; [by rewrite <- Heq in E|].
    apply Hx' in Hin. cbn in Hin. assert (v <= x.1)%Z by (apply Hle; by left). lia.
Qed.

(** The entry of a value and a position is deleted, if it is there. *)
Lemma deleteIndexCursor_int (d : D) I p z :
  indexed d indexId w unique I -> inRange w z ->
  deleteIndexCursor (indexDb indexId w.2 z) p (ival w.2 z) d =
    Ok (if decide (I !! p = Some z) then dbDelEntry (indexDb indexId w.2 z) (enc (z, p)) d else d).
Proof.
  intros Hix Hz. pose proof (intType_width type w Ht) as Hw. rewrite indexDb_sign.
  pose proof (inRange_region w z Hw Hz) as Hr. set (b := (0 <=? z)%Z) in *.
  destruct (side_part d indexId w unique I Hw Hix b) as (L & HL & Hpart & _ & Hmem).
  unfold deleteIndexCursor, findKey. rewrite HL, (findRange_enc w.2 b) by done. cbn [obind].
  set (F := filter (fun x => (z <= x.1)%Z) L).
  assert (part w.2 b F) as HF by (by apply part_filter).
  assert (findPosition (ival w.2 z) p (match enc <$> F with e :: _ => if bool_decide (e.1 = indexKey (ival w.2 z)) then enc <$> F else [] | [] => [] end)
          = findPosition (ival w.2 z) p (enc <$> F)) as ->.
  { destruct F as [|x F']; [done|]. destruct (part_cons _ _ _ _ HF) as (Hx & _).
    cbn [fmap list_fmap enc fst]. rewrite indexKey_ival. case_bool_decide as Hk; [done|].
    cbn [findPosition]. unfold enc at 1. cbn [fst]. rewrite (keyEq_enc w.2 b) by done.
    destruct (Z.eqb_spec x.1 z) as [E|]; [by rewrite E in Hk|done]. }
  rewrite (findPosition_enc b) by (try done; intros x; apply elem_filter_ge). cbn [obind]. f_equal.
  assert ((z, p) ∈ F <-> I !! p = Some z) as Hiff.
  { unfold F. rewrite list_elem_of_filter, Hmem. split; [naive_solver|]. intros Hp. split_and!; [cbn; lia|done|by right]. }
  destruct (decide (I !! p = Some z)) as [Hp|Hp]; [rewrite decide_True|rewrite decide_False]; try done; by rewrite Hiff.
Qed.
End maintenance.

Lemma addIndex_outcomes {D : Type} `{!Lmdb D} `{!LmdbLaws D} (d : D) indexId type w unique I p z :
  intType type = Some w -> indexed d indexId w unique I -> I !! p = None -> (0 <= p <= UINT32_MAX)%Z -> inRange w z ->
  match addIndex indexId p (le_bytes w.1 z) type unique d with
  | Ok d' => indexed d' indexId w unique (<[p := z]> I) /\ (unique = true -> forall q, I !! q <> Some z) /\
      (forall n, n <> indexDb indexId w.2 z -> entries d' n = entries d n)
  | Throw e => e = NOGDB_CTX_UNIQUE_CONSTRAINT /\ unique = true /\ exists q, I !! q = Some z
  | UB => False
  end.
Proof.
  intros Ht Hix Hp Hpr Hz. rewrite (addIndex_int indexId type w unique Ht d p z Hz). set (n := indexDb indexId w.2 z).
  destruct (putEntry unique false (negb unique) (KNum (u64 z)) (le_bytes 4 p) (entries d n)) as [l|e|] eqn:E.
  - destruct (put_ok _ _ _ _ _ _ _ _ E) as (d' & -> & Hl & Hother). cbn [catch].
    rewrite <- Hl in E. destruct (addIndex_indexed indexId type w unique Ht d d' I p z Hix Hp Hpr Hz E) as [? ?]; [|done].
    exact Hother.
  - rewrite (put_err _ _ _ _ _ _ _ _ E). unfold putEntry in E. cbn [keySizeOk negb andb] in E. rewrite negb_involutive in E.
    destruct (unique && existsb _ _) eqn:Eu; [|discriminate E]. injection E as <-. cbn.
    apply andb_true_iff in Eu as [-> (e & Hin & Hk)%existsb_exists]. split; [done|]. split; [done|].
    apply list_elem_of_In in Hin. apply bool_decide_eq_true in Hk. unfold n in Hin. rewrite (indexDb_sign indexId w) in Hin.
    apply (ix_entries _ _ _ _ _ Hix) in Hin as (q & x & Hq & Hdb & ->). rewrite <- indexDb_sign in Hdb. cbn [enc fst] in Hk.
    exists q. rewrite Hq. f_equal. apply (key_value indexId type w Ht d true I z x q); [done..|by injection Hk].
  - unfold putEntry in E. repeat case_match; done.
Qed.

Lemma indexed_empty {D : Type} `{!Lmdb D} (d : D) indexId w unique :
  (forall b, entries d (sideDb indexId w.2 b) = []) -> indexed d indexId w unique ∅.
Proof.
  intros He. split.
  - intros b. rewrite He. destruct unique; constructor.
  - intros b e. rewrite He, elem_of_nil. split; [done|]. intros (p & z & Hp & _). by rewrite lookup_empty in Hp.
  - intros p z Hp. by rewrite lookup_empty in Hp.
Qed.

(** C13. Adding a value for a new position: a unique index refuses exactly the
    values it has, otherwise the index gets the entry; no other database
    changes. *)
Theorem addIndex_maintains {D : Type} `{!Lmdb D} `{!LmdbLaws D} (d : D) indexId type w unique I p z :
  intType type = Some w -> indexed d indexId w unique I -> I !! p = None -> (0 <= p <= UINT32_MAX)%Z -> inRange w z ->
  match addIndex indexId p (le_bytes w.1 z) type unique d with
  | Ok d' => indexed d' indexId w unique (<[p := z]> I) /\ (unique = true -> forall q, I !! q <> Some z) /\
      (forall n, n <> indexDb indexId w.2 z -> entries d' n = entries d n)
  | Throw e => e = NOGDB_CTX_UNIQUE_CONSTRAINT /\ unique = true /\ exists q, I !! q = Some z
  | UB => False
  end.
Proof. apply addIndex_outcomes. Qed.

(** C33. Deleting the value of a position: its entry is removed, and nothing
    changes when the index does not have it. *)
Theorem deleteIndex_maintains {D : Type} `{!Lmdb D} `{!LmdbLaws D} (d : D) indexId type w unique I p z :
  intType type = Some w -> indexed d indexId w unique I -> inRange w z ->
  exists d', deleteIndex indexId p (le_bytes w.1 z) type d = Ok d' /\
    indexed d' indexId w unique (if decide (I !! p = Some z) then delete p I else I) /\
    (forall n, n <> indexDb indexId w.2 z -> entries d' n = entries d n).
Proof.
  intros Ht Hix Hz. rewrite (deleteIndex_int indexId type w Ht), (deleteIndexCursor_int indexId type w unique Ht d I p z Hix Hz) by done.
  eexists. split; [done|]. destruct (decide (I !! p = Some z)) as [Hp|Hp]; [|done].
  assert (forall n, n <> indexDb indexId w.2 z -> entries (dbDelEntry (indexDb indexId w.2 z) (enc (z, p)) d) n = entries d n) as Hother
    by (intros n Hn; by apply del_entry_other).
  split; [|done]. eapply indexed_replace; [exact Hix|exact Hz| | | | |exact Hother].
  - intros q x Hx. rewrite lookup_delete_Some. split; [naive_solver|]. intros Hq. split; [congruence|done].
  - intros q x [_ Hq]%lookup_delete_Some. by apply (ix_range _ _ _ _ _ Hix).
  - rewrite del_entry_same. pose proof (ix_kept _ _ _ _ _ Hix (0 <=? z)%Z) as Hk. rewrite <- indexDb_sign in Hk.
    unfold kept in *. destruct unique; by apply ordered_filter.
  - intros e. rewrite del_entry_same, list_elem_of_filter. pose proof (ix_entries _ _ _ _ _ Hix (0 <=? z)%Z e) as He.
    rewrite <- indexDb_sign in He. rewrite He. split.
    + intros [Hne (q & x & Hq & Hdb & ->)]. exists q, x. split_and!; [|done|done]. apply lookup_delete_Some. split; [|done].
      intros <-. apply Hne. congruence.
    + intros (q & x & [Hne Hq]%lookup_delete_Some & Hdb & ->). split; [|by exists q, x]. intros E. apply Hne.
      symmetry. eapply enc_inj; [..|exact E]; [apply (ix_range _ _ _ _ _ Hix _ _ Hq)|apply (ix_range _ _ _ _ _ Hix _ _ Hp)].
Qed.
