(* ===== verification/Commands.v ===== *)
(** * Record commands

    Model of [Vertex] and [Edge] (src/src/vertex.cpp, src/src/edge.cpp): the
    commands that create, update and destroy records keep three things in
    step, the tables of the classes and of the relations in the data store,
    the indexes, and the relations in memory.  A command is a state
    transformer that may throw; as in the code, what a command wrote before it
    throws stays written.  The data store is a parameter ([Store]). *)

From stdpp Require Import base gmap sets list strings sorting.
From Stdlib Require Import ZArith Lia.
From S2P Require Import Prelude Types Store Blob VersionControl TxnData RecordModel Parser.
From S2P Require Import Graph Schema Validate Generic Compare Index.

(** ** The state of a transaction, and commands *)
Record Db (D : Type) := mkDb {
  db_schema : Schema;
  db_relation : Graph;
  db_txn : BaseTxn;
  db_store : D;
}.
Arguments mkDb {D} _ _ _ _.
Arguments db_schema {D} _.
Arguments db_relation {D} _.
Arguments db_txn {D} _.
Arguments db_store {D} _.

Definition setStore {D} (d : D) (s : Db D) : Db D := mkDb (db_schema s) (db_relation s) (db_txn s) d.
Definition setGraph {D} (p : Graph * BaseTxn) (s : Db D) : Db D := mkDb (db_schema s) p.1 p.2 (db_store s).
Definition setSchema {D} (p : Schema * BaseTxn) (s : Db D) : Db D := mkDb p.1 (db_relation s) p.2 (db_store s).

Definition Cmd (D A : Type) : Type := Db D -> Db D * Outcome A.

Definition cret {D A} (a : A) : Cmd D A := fun s => (s, Ok a).
Definition cbind {D A B} (m : Cmd D A) (k : A -> Cmd D B) : Cmd D B :=
  fun s => let '(s1, r) := m s in
           match r with
           | Ok a => k a s1
           | Throw e => (s1, Throw e)
           | UB => (s1, UB)
           end.
Notation "'let?' x ':=' m 'in' k" := (cbind m (fun x => k))
  (at level 10, x pattern, m at level 100, k at level 200) : nog_scope.

(** A computation that reads the state. *)
Definition asks {D A} (f : Db D -> Outcome A) : Cmd D A := fun s => (s, f s).
(** Writes: a throwing write changes nothing. *)
Definition onStore {D} (f : D -> Outcome D) : Cmd D unit :=
  fun s => match f (db_store s) with
           | Ok d => (setStore d s, Ok tt)
           | Throw e => (s, Throw e)
           | UB => (s, UB)
           end.
Definition onGraph {D} (f : Graph -> BaseTxn -> Outcome (Graph * BaseTxn)) : Cmd D unit :=
  fun s => match f (db_relation s) (db_txn s) with
           | Ok p => (setGraph p s, Ok tt)
           | Throw e => (s, Throw e)
           | UB => (s, UB)
           end.

(** [try { m } catch (const Error &err) { }]: a standard exception is not an
    [Error]. *)
Definition ignoreErrors {D} (m : Cmd D unit) : Cmd D unit :=
  fun s => let '(s1, r) := m s in
           match r with
           | Throw STD_OUT_OF_RANGE => (s1, r)
           | Throw _ => (s1, Ok tt)
           | _ => (s1, r)
           end.

Fixpoint cfor {D A} (l : list A) (f : A -> Cmd D unit) : Cmd D unit :=
  match l with
  | [] => cret tt
  | x :: l' => let? _ := f x in cfor l' f
  end.

(** ** Tables *)
Definition TB_RELATIONS : DbName := bytes_of_string ".relations".
Definition TB_CLASSES : DbName := bytes_of_string ".classes".
Definition TB_PROPERTIES : DbName := bytes_of_string ".properties".
Definition TB_INDEXES : DbName := bytes_of_string ".indexes".
Definition STRING_EM_INIT : list byte := bytes_of_string ".init".

(** The two ends of an edge, as the relation table stores them. *)
Definition ridBytes (rid : RecordId) : list byte := le_bytes 2 rid.1 ++ le_bytes 4 rid.2.
Definition relationBlob (src dst : RecordId) : Outcome Blob :=
  let* b1 := append (le_bytes 2 src.1) 2 (newBlob 12) in
  let* b2 := append (le_bytes 4 src.2) 4 b1 in
  let* b3 := append (le_bytes 2 dst.1) 2 b2 in
  append (le_bytes 4 dst.2) 4 b3.

(** The end of an edge in the bytes of a relation, at an offset. *)
Definition retrieveRid (offset : nat) (b : Blob) : Outcome RecordId :=
  let* (c, o1) := retrieve offset 2 b in
  let* (p, _) := retrieve o1 4 b in
  Ok (le_value c, le_value p).

Section commands.
  Context {D : Type} `{!Lmdb D} (fill : byte).

(** The table of a class: its records by position. *)
Definition tableRecords (d : D) (c : ClassId) : list (PositionId * list byte) :=
  omap (fun e : Entry => match e.1 with KNum z => Some (z, e.2) | KStr _ => None end) (entries d (to_string c)).

Definition getData (d : D) (rid : RecordId) : option (list byte) := dbGet d (to_string rid.1) (KNum rid.2).

(** The class of a command, and the properties of the class. *)
Definition classOf (id : ClassId) (type : ClassType) : Cmd D ClassDescriptor :=
  asks (fun s => let* x := getClassDescriptor (db_schema s) (db_txn s) id type in Ok x.2).
Definition classNamed (name : string) (type : ClassType) : Cmd D ClassDescriptor :=
  asks (fun s => let* x := getClassDescriptorByName (db_schema s) (db_txn s) name type in Ok x.2).
Definition classInfo (c : ClassDescriptor) : Cmd D ClassPropertyInfo :=
  asks (fun s => getClassMapProperty (db_schema s) (db_txn s) c).
Definition validTransaction : Cmd D unit := asks (fun s => isTransactionValid (db_txn s)).

(** [Parser::parseRecord]: the bytes of the record, the indexes its properties
    take part in, and the properties of the class. *)
Definition parseFor (c : ClassDescriptor) (r : DbRecord) : Cmd D (list byte * IndexInfos * ClassPropertyInfo) :=
  let? info := classInfo c in
  asks (fun _ => let* (b, idx) := parseRecord fill (cd_id c) info r in Ok (written b, idx, info)).

(** ** Indexes *)
Definition addIndexes (idx : IndexInfos) (positionId : PositionId) (r : DbRecord) : Cmd D unit :=
  cfor (map_items idx) (fun p =>
    let? bytesValue := asks (fun _ => get p.1 r) in
    onStore (addIndex p.2.1.2 positionId bytesValue p.2.1.1 p.2.2)).

Definition deleteIndexes (idx : IndexInfos) (positionId : PositionId) (r : DbRecord) : Cmd D unit :=
  cfor (map_items idx) (fun p =>
    let? bytesValue := asks (fun _ => get p.1 r) in
    onStore (deleteIndex p.2.1.2 positionId bytesValue p.2.1.1)).

(** The indexes of a class that the properties of a stored record take part
    in. *)
Definition existingIndexInfos (classId : ClassId) (info : ClassPropertyInfo) (r : DbRecord) : IndexInfos :=
  fold_left (fun m (p : string * list byte) =>
               match nameToDesc info !! p.1 with
               | Some d => match findIndex classId d with
                           | Some (i, u) => emplace p.1 (pd_type d, i, u) m
                           | None => m
                           end
               | None => m
               end) (map_items (getAll r)) ∅.

(** ** Vertices *)

(** The stamp of a new record. *)
Definition stampNew (txnVersionId : TxnId) (r : DbRecord) : DbRecord :=
  setBasicInfo VERSION_PROPERTY (le_bytes 8 1) (setBasicInfo TXN_VERSION (le_bytes 8 txnVersionId) r).

(** The next position of the class table: the record is appended, and the
    number is advanced. *)
Definition insertRecord (classId : ClassId) (value : list byte) : Cmd D PositionId :=
  let n := to_string classId in
  let? maxRecordNum := asks (fun s => match dbGet (db_store s) n (KNum EM_MAXRECNUM) with
                                      | Some v => numeric 4 v
                                      | None => UB
                                      end) in
  let? _ := onStore (dbPut true n (KNum maxRecordNum) value true true) in
  let? _ := onStore (dbPut true n (KNum EM_MAXRECNUM) (le_bytes 4 (u32 (maxRecordNum + 1))) false true) in
  cret maxRecordNum.

(** [Vertex::create]; the caller's record is stamped. *)
Definition vertexCreate (className : string) (record : DbRecord) : Cmd D (RecordDescriptor * DbRecord) :=
  let? _ := validTransaction in
  let? v := asks (fun s => Ok (txnVersionId (db_txn s))) in
  let r := stampNew v record in
  let? c := classNamed className VERTEX in
  let? (value, indexInfos, _) := parseFor c r in
  let? p := insertRecord (cd_id c) value in
  let? _ := addIndexes indexInfos p r in
  cret (rdescOf (cd_id c, p), r).

(** [Vertex::update] and [Edge::update] differ in the type of the class and in
    the error for a missing record. *)
Definition updateRecord (type : ClassType) (missing : Error) (d : RecordDescriptor) (record : DbRecord) :
    Cmd D unit :=
  let? _ := validTransaction in
  let? r := asks (fun s => updateVersion (txnVersionId (db_txn s)) record) in
  let? c := classOf (rd_rid d).1 type in
  let? (value, indexInfos, info) := parseFor c r in
  let n := to_string (cd_id c) in
  let? existing := asks (fun s => Ok (dbGet (db_store s) n (KNum (rd_rid d).2))) in
  if dataEmpty existing then asks (fun _ => Throw missing)
  else
    let? existingRecord := asks (fun _ => parseRawData existing info) in
    let? _ := deleteIndexes (existingIndexInfos (cd_id c) info existingRecord) (rd_rid d).2 existingRecord in
    let? _ := addIndexes indexInfos (rd_rid d).2 r in
    onStore (dbPut true n (KNum (rd_rid d).2) value false true).

Definition vertexUpdate := updateRecord VERTEX NOGDB_GRAPH_NOEXST_VERTEX.
Definition edgeUpdate := updateRecord EDGE NOGDB_GRAPH_NOEXST_EDGE.

(** ** Reading records: [Db::getRecord] *)
Definition getRecord (d : RecordDescriptor) : Cmd D DbRecord :=
  let? c := classOf (rd_rid d).1 CT_UNDEFINED in
  let? info := classInfo c in
  let? name := asks (fun s => Ok (getCurrentVersion (db_txn s) (cd_name c)).1) in
  let? found := asks (fun s => Ok (dbGet (db_store s) (to_string (cd_id c)) (KNum (rd_rid d).2))) in
  if dataEmpty found then asks (fun _ => Throw NOGDB_CTX_NOEXST_RECORD)
  else asks (fun _ => parseRawDataWithBasicInfo (bytes_of_string name) (rd_rid d) found info).

(** [Edge::getSrc], [Edge::getDst] and [Edge::getSrcDst] *)
Definition edgeEnd (endOf : Graph -> BaseTxn -> RecordId -> Outcome RecordId) (d : RecordDescriptor) :
    Cmd D (RecordDescriptor * DbRecord) :=
  let? _ := classOf (rd_rid d).1 EDGE in
  let? v := asks (fun s => endOf (db_relation s) (db_txn s) (rd_rid d)) in
  let? r := getRecord (rdescOf v) in
  cret (rdescOf v, r).
Definition getSrc := edgeEnd getVertexSrc.
Definition getDst := edgeEnd getVertexDst.

Definition getSrcDst (d : RecordDescriptor) : Cmd D ((RecordDescriptor * DbRecord) * (RecordDescriptor * DbRecord)) :=
  let? _ := classOf (rd_rid d).1 EDGE in
  let? vs := asks (fun s => getVertexSrcDst (db_relation s) (db_txn s) (rd_rid d)) in
  let? r1 := getRecord (rdescOf vs.1) in
  let? r2 := getRecord (rdescOf vs.2) in
  cret ((rdescOf vs.1, r1), (rdescOf vs.2, r2)).

(** ** Edges *)

(** [Edge::create]: the bytes of the record are computed before the record is
    stamped. *)
Definition edgeCreate (className : string) (src dst : RecordDescriptor) (record : DbRecord) :
    Cmd D (RecordDescriptor * DbRecord) :=
  let? _ := validTransaction in
  let? c := classNamed className EDGE in
  let? _ := classOf (rd_rid src).1 VERTEX in
  let? _ := classOf (rd_rid dst).1 VERTEX in
  let? (value, indexInfos, _) := parseFor c record in
  let? srcData := asks (fun s => Ok (getData (db_store s) (rd_rid src))) in
  if dataEmpty srcData then asks (fun _ => Throw NOGDB_GRAPH_NOEXST_SRC)
  else
    let? dstData := asks (fun s => Ok (getData (db_store s) (rd_rid dst))) in
    if dataEmpty dstData then asks (fun _ => Throw NOGDB_GRAPH_NOEXST_DST)
    else
      let? r1 := getRecord src in
      let? _ := vertexUpdate src r1 in
      let? r2 := getRecord dst in
      let? _ := vertexUpdate dst r2 in
      let? v := asks (fun s => Ok (txnVersionId (db_txn s))) in
      let r := stampNew v record in
      let? p := insertRecord (cd_id c) value in
      let? _ := addIndexes indexInfos p r in
      let key := (cd_id c, p) in
      let? b := asks (fun _ => relationBlob (rd_rid src) (rd_rid dst)) in
      let? _ := onStore (dbPut true TB_RELATIONS (KStr (rid2str key)) (written b) false true) in
      let? _ := onGraph (fun g t => createEdge g t key (rd_rid src) (rd_rid dst)) in
      cret (rdescOf key, r).

(** The new version of the two ends of an edge; errors are ignored. *)
Definition touchEnds (d : RecordDescriptor) : Cmd D unit :=
  ignoreErrors (
    let? (src, dst) := getSrcDst d in
    let? _ := vertexUpdate src.1 src.2 in
    vertexUpdate dst.1 dst.2).

(** Removing a record from its indexes and its class table. *)
Definition removeRecord (c : ClassDescriptor) (info : ClassPropertyInfo) (positionId : PositionId) : Cmd D unit :=
  let n := to_string (cd_id c) in
  let? found := asks (fun s => Ok (dbGet (db_store s) n (KNum positionId))) in
  let? _ :=
    if dataEmpty found then cret tt
    else
      let? r := asks (fun _ => parseRawData found info) in
      deleteIndexes (existingIndexInfos (cd_id c) info r) positionId r in
  onStore (fun d => Ok (dbDel n (KNum positionId) d)).

Definition edgeDestroy (d : RecordDescriptor) : Cmd D unit :=
  let? _ := validTransaction in
  let? _ := touchEnds d in
  let? c := classOf (rd_rid d).1 EDGE in
  let? info := classInfo c in
  let? _ := onStore (fun x => Ok (dbDel TB_RELATIONS (KStr (rid2str (rd_rid d))) x)) in
  let? _ := removeRecord c info (rd_rid d).2 in
  onGraph (fun g t => Ok (deleteEdge g t (rd_rid d))).

(** The edges of a vertex; a vertex that is not in memory has none. *)
Definition incidentEdges (rid : RecordId) : Cmd D (list RecordId) :=
  asks (fun s => catch NOGDB_GRAPH_NOEXST_VERTEX (getEdgeInOut (db_relation s) (db_txn s) rid 0%Z) (Ok [])).

Definition vertexDestroy (d : RecordDescriptor) : Cmd D unit :=
  let? _ := validTransaction in
  let? c := classOf (rd_rid d).1 VERTEX in
  let? info := classInfo c in
  let? edges := incidentEdges (rd_rid d) in
  let? _ := cfor edges (fun e => edgeDestroy (rdescOf e)) in
  let? _ := removeRecord c info (rd_rid d).2 in
  onGraph (fun g t => Ok (deleteVertex g t (rd_rid d))).

(** [Edge::updateSrc]: the current and the new source get a new version, the
    stored relation and the relation in memory are changed. *)
Definition relationData (rid : RecordId) : Cmd D Blob :=
  asks (fun s => match dbGet (db_store s) TB_RELATIONS (KStr (rid2str rid)) with
                 | Some v => Ok (blobOf v)
                 | None => Ok (newBlob 0)
                 end).

Definition updateSrc (d newSrc : RecordDescriptor) : Cmd D unit :=
  let? _ := validTransaction in
  let? _ := ignoreErrors (let? cur := getSrc d in vertexUpdate cur.1 cur.2) in
  let? _ := ignoreErrors (let? r := getRecord newSrc in vertexUpdate newSrc r) in
  let? c := classOf (rd_rid d).1 EDGE in
  let? _ := classOf (rd_rid newSrc).1 VERTEX in
  let? found := asks (fun s => Ok (dbGet (db_store s) (to_string (cd_id c)) (KNum (rd_rid d).2))) in
  if dataEmpty found then asks (fun _ => Throw NOGDB_GRAPH_NOEXST_EDGE)
  else
    let? srcData := asks (fun s => Ok (getData (db_store s) (rd_rid newSrc))) in
    if dataEmpty srcData then asks (fun _ => Throw NOGDB_GRAPH_NOEXST_SRC)
    else
      let? data := relationData (rd_rid d) in
      let? dst := asks (fun _ => retrieveRid 6 data) in
      let? b := asks (fun _ => relationBlob (rd_rid newSrc) dst) in
      let? _ := onStore (dbPut true TB_RELATIONS (KStr (rid2str (rd_rid d))) (written b) false true) in
      onGraph (fun g t => alterVertexSrc g t (rd_rid d) (rd_rid newSrc)).

(** [Edge::updateDst] gives no vertex a new version. *)
Definition updateDst (d newDst : RecordDescriptor) : Cmd D unit :=
  let? _ := validTransaction in
  let? c := classOf (rd_rid d).1 EDGE in
  let? _ := classOf (rd_rid newDst).1 VERTEX in
  let? found := asks (fun s => Ok (dbGet (db_store s) (to_string (cd_id c)) (KNum (rd_rid d).2))) in
  if dataEmpty found then asks (fun _ => Throw NOGDB_GRAPH_NOEXST_EDGE)
  else
    let? dstData := asks (fun s => Ok (getData (db_store s) (rd_rid newDst))) in
    if dataEmpty dstData then asks (fun _ => Throw NOGDB_GRAPH_NOEXST_DST)
    else
      let? data := relationData (rd_rid d) in
      let? src := asks (fun _ => retrieveRid 0 data) in
      let? b := asks (fun _ => relationBlob src (rd_rid newDst)) in
      let? _ := onStore (dbPut true TB_RELATIONS (KStr (rid2str (rd_rid d))) (written b) false true) in
      onGraph (fun g t => alterVertexDst g t (rd_rid d) (rd_rid newDst)).

(** ** Destroying every record of a class *)

(** The loop over the indexes of a property leaves after the first one. *)
Definition firstIndexOf (classId : ClassId) (d : PropertyDescriptor) : option (IndexId * bool) :=
  match z_sort (map_to_list (pd_indexInfo d)).*1 with
  | i :: _ =>
      match pd_indexInfo d !! i with
      | Some (c, u) => if (c =? classId)%Z then Some (i, u) else None
      | None => None
      end
  | [] => None
  end.

Definition indexesToDrop (classId : ClassId) (info : ClassPropertyInfo) : list (PropertyType * IndexId) :=
  omap (fun p : string * PropertyDescriptor =>
          match firstIndexOf classId p.2 with Some (i, _) => Some (pd_type p.2, i) | None => None end)
    (map_items (nameToDesc info)).

Definition indexDbs (type : PropertyType) (indexId : IndexId) : list DbName :=
  match type with
  | UNSIGNED_TINYINT | UNSIGNED_SMALLINT | UNSIGNED_INTEGER | UNSIGNED_BIGINT | TEXT => [getIndexingName indexId]
  | TINYINT | SMALLINT | INTEGER | BIGINT | REAL =>
      [getSignedIndexingName indexId true; getSignedIndexingName indexId false]
  | BLOB | PT_UNDEFINED => []
  end.

Definition dropDbs (ns : list DbName) (d : D) : D := fold_left (fun d n => dbDrop n d) ns d.

(** The positions a cursor meets, without the entry of the record number. *)
Definition tablePositions (d : D) (c : ClassId) : list PositionId :=
  filter (fun p => p <> EM_MAXRECNUM) (tableRecords d c).*1.

Definition deleteStoredEdge (e : RecordId) : Cmd D unit :=
  onStore (fun d => Ok (dbDel (to_string e.1) (KNum e.2) (dbDel TB_RELATIONS (KStr (rid2str e)) d))).

(** [Vertex::destroy(txn, className)] *)
Definition vertexDestroyClass (className : string) : Cmd D unit :=
  let? _ := validTransaction in
  let? c := classNamed className VERTEX in
  let? info := classInfo c in
  let? _ := onStore (fun d => Ok (dropDbs (indexesToDrop (cd_id c) info ≫= fun p => indexDbs p.1 p.2) d)) in
  let? positions := asks (fun s => Ok (tablePositions (db_store s) (cd_id c))) in
  let? _ := cfor positions (fun p =>
    let? edges := incidentEdges (cd_id c, p) in cfor edges deleteStoredEdge) in
  let? _ := onStore (fun d => Ok (dbDrop (to_string (cd_id c)) d)) in
  cfor positions (fun p => onGraph (fun g t => Ok (deleteVertex g t (cd_id c, p)))).

(** [Edge::destroy(txn, className)]: the record of the source is written over
    the destination. *)
Definition edgeDestroyClass (className : string) : Cmd D unit :=
  let? _ := validTransaction in
  let? c := classNamed className EDGE in
  let? info := classInfo c in
  let? _ := onStore (fun d => Ok (dropDbs (indexesToDrop (cd_id c) info ≫= fun p => indexDbs p.1 p.2) d)) in
  let? positions := asks (fun s => Ok (tablePositions (db_store s) (cd_id c))) in
  let? _ := cfor positions (fun p =>
    let? _ := onStore (fun d => Ok (dbDel TB_RELATIONS (KStr (rid2str (cd_id c, p))) d)) in
    ignoreErrors (
      let? (src, dst) := getSrcDst (rdescOf (cd_id c, p)) in
      let? _ := vertexUpdate src.1 src.2 in
      vertexUpdate dst.1 src.2)) in
  let? _ := onStore (fun d => Ok (dbDrop (to_string (cd_id c)) d)) in
  cfor positions (fun p => onGraph (fun g t => Ok (deleteEdge g t (cd_id c, p)))).
End commands.
