(* ===== verification/CommandSpec.v ===== *)
(** * What the record commands keep

    The relations in memory and the relation table of the data store describe
    the same edges ([synced]), the record number of a class is above every
    position ever used ([class_table]), and the commands of [Commands] keep
    both; a created record is read back. *)

From stdpp Require Import base gmap sets list strings sorting.
From Stdlib Require Import ZArith Lia ZifyBool.
From S2P Require Import Prelude Types Store Blob VersionControl TxnData RecordModel Parser.
From S2P Require Import Graph GraphSpec GraphQuery Schema Validate Generic Compare Index Commands.

#[local] Arguments le_bytes : simpl never.

(** ** Names of tables and keys *)
Lemma to_string_inj a b :
  (0 <= a <= UINT64_MAX)%Z -> (0 <= b <= UINT64_MAX)%Z -> to_string a = to_string b -> a = b.
Proof. intros Ha Hb H. by rewrite <- (stoul_to_string a Ha), <- (stoul_to_string b Hb), H. Qed.

Lemma to_string_head a : (0 <= a)%Z -> exists b l, to_string a = b :: l /\ (48 <= b <= 57)%Z.
Proof.
  intros Ha. pose proof (to_string_nonempty a) as Hne. unfold to_string in *.
  pose proof (digits_aux_range 20 a Ha) as Hr. destruct (digits_aux 20 a) as [|d ds]; [done|].
  apply Forall_cons in Hr as [Hd _]. exists (48 + d)%Z, ((fun d => 48 + d)%Z <$> ds). split; [done|lia].
Qed.

(** Databases other than the tables of classes start with a dot. *)
Definition dotted (n : DbName) : Prop := exists l, n = 46%Z :: l.

Lemma class_not_dotted c n : (0 <= c)%Z -> dotted n -> to_string c <> n.
Proof. intros Hc [l ->] E. destruct (to_string_head c Hc) as (b & l' & Hb & ?). rewrite Hb in E. simplify_eq. lia. Qed.

Lemma relations_dotted : dotted TB_RELATIONS.
Proof. by eexists. Qed.

Definition is_index (n : DbName) : Prop := take 7 n = TB_INDEXING_PREFIX.

Lemma index_name i : is_index (getIndexingName i).
Proof. done. Qed.
Lemma signed_index_name i b : is_index (getSignedIndexingName i b).
Proof. done. Qed.
Lemma index_dotted n : is_index n -> dotted n.
Proof. unfold is_index. destruct n as [|b n]; [done|]. intros [= -> _]. by eexists. Qed.
Lemma relations_not_index n : is_index n -> TB_RELATIONS <> n.
Proof. by intros H <-. Qed.

(** The ids of records: position zero holds the record number. *)
Definition rid_ok (r : RecordId) : Prop := (0 <= r.1 <= UINT16_MAX)%Z /\ (1 <= r.2 <= UINT32_MAX)%Z.

Lemma rid2str_inj a b : rid_ok a -> rid_ok b -> rid2str a = rid2str b -> a = b.
Proof.
  intros [Ha1 Ha2] [Hb1 Hb2] H. pose proof (parseRid_rid2str a Ha1 ltac:(lia)) as Pa.
  pose proof (parseRid_rid2str b Hb1 ltac:(lia)) as Pb. rewrite H, Pb in Pa. by injection Pa.
Qed.

Lemma rid2str_not_init k : rid_ok k -> rid2str k <> STRING_EM_INIT.
Proof.
  intros [H1 _] E. unfold rid2str in E. destruct (to_string_head k.1) as (b & l & Hb & ?); [lia|].
  rewrite Hb in E. change STRING_EM_INIT with [46; 105; 110; 105; 116]%Z in E. injection E as E _. lia.
Qed.

Lemma digits_aux_length f z : length (digits_aux f z) <= f.
Proof.
  revert z; induction f as [|f IH]; intros z; simpl; [lia|]. case_match; simpl; [lia|].
  rewrite length_app. simpl. specialize (IH (z / 10)%Z). lia.
Qed.

Lemma rid2str_size k : keySizeOk (KStr (rid2str k)) = true.
Proof.
  simpl. apply bool_decide_eq_true. unfold rid2str. rewrite !length_app. simpl. unfold to_string.
  rewrite !length_fmap. pose proof (digits_aux_length 20 k.1). pose proof (digits_aux_length 20 k.2). lia.
Qed.

(** ** The bytes of a relation *)
Definition relationBytes (sd : RecordId * RecordId) : list byte := ridBytes sd.1 ++ ridBytes sd.2.

Lemma relationBlob_ok src dst : exists b, relationBlob src dst = Ok b /\ written b = relationBytes (src, dst).
Proof. by eexists. Qed.

Lemma retrieveRid_at l1 r l2 v :
  rid_ok r -> v = l1 ++ ridBytes r ++ l2 -> retrieveRid (length l1) (blobOf v) = Ok r.
Proof.
  intros [H1 H2] ->. unfold retrieveRid, ridBytes.
  rewrite <- (app_assoc (le_bytes 2 r.1)).
  pose proof (retrieve_at l1 (le_bytes 2 r.1) (le_bytes 4 r.2 ++ l2)
    (blobOf (l1 ++ le_bytes 2 r.1 ++ le_bytes 4 r.2 ++ l2)) eq_refl eq_refl) as Hr.
  rewrite length_le_bytes in Hr. rewrite Hr. cbn [obind].
  pose proof (retrieve_at (l1 ++ le_bytes 2 r.1) (le_bytes 4 r.2) l2
    (blobOf (l1 ++ le_bytes 2 r.1 ++ le_bytes 4 r.2 ++ l2))) as Hr2.
  rewrite length_app, !length_le_bytes in Hr2. rewrite Hr2; [|by rewrite <- !app_assoc|done].
  cbn [obind]. rewrite !le_value_le_bytes. unfold UINT16_MAX, UINT32_MAX in *.
  rewrite !Z.mod_small by lia. by destruct r.
Qed.

Lemma retrieve_src sd : rid_ok sd.1 -> retrieveRid 0 (blobOf (relationBytes sd)) = Ok sd.1.
Proof. intros H. by apply (retrieveRid_at [] sd.1 (ridBytes sd.2)). Qed.
Lemma retrieve_dst sd : rid_ok sd.2 -> retrieveRid 6 (blobOf (relationBytes sd)) = Ok sd.2.
Proof.
  intros H. apply (retrieveRid_at (ridBytes sd.1) sd.2 []); [done|]. unfold relationBytes. by rewrite app_nil_r.
Qed.

(** ** What a command keeps *)
Section keeps.
  Context {D : Type} (P : Db D -> Prop).

Definition keeps {A} (m : Cmd D A) : Prop := forall s, P s -> P (m s).1.
Definition returns {A} (m : Cmd D A) (Q : A -> Prop) : Prop := forall s s' a, P s -> m s = (s', Ok a) -> Q a.

Lemma keeps_ret {A} (a : A) : keeps (cret a).
Proof. by intros s. Qed.
Lemma keeps_asks {A} (f : Db D -> Outcome A) : keeps (asks f).
Proof. by intros s. Qed.

Lemma keeps_bind_with {A B} (Q : A -> Prop) (m : Cmd D A) (k : A -> Cmd D B) :
  keeps m -> returns m Q -> (forall a, Q a -> keeps (k a)) -> keeps (cbind m k).
Proof.
  intros Hm Hq Hk s Hs. unfold cbind. specialize (Hm s Hs). destruct (m s) as [s1 [a|e|]] eqn:E; [|done..].
  apply (Hk a); [|done]. by eapply Hq.
Qed.
Lemma keeps_bind {A B} (m : Cmd D A) (k : A -> Cmd D B) :
  keeps m -> (forall a, keeps (k a)) -> keeps (cbind m k).
Proof. intros Hm Hk. eapply (keeps_bind_with (fun _ => True)); [done|by intros ?|by intros]. Qed.

(** What a read found holds when the rest runs. *)
Lemma keeps_asks_bind {A B} (f : Db D -> Outcome A) (k : A -> Cmd D B) :
  (forall s a, P s -> f s = Ok a -> P (k a s).1) -> keeps (cbind (asks f) k).
Proof. intros Hk s Hs. unfold cbind, asks. destruct (f s) as [a|e|] eqn:E; [by eapply Hk|done..]. Qed.

Lemma keeps_for {A} (l : list A) (f : A -> Cmd D unit) : (forall x, x ∈ l -> keeps (f x)) -> keeps (cfor l f).
Proof.
  induction l as [|x l IH]; intros Hf; [apply keeps_ret|]. apply keeps_bind; [apply Hf; by left|].
  intros _. apply IH. intros y Hy. apply Hf. by right.
Qed.

Lemma keeps_ignore (m : Cmd D unit) : keeps m -> keeps (ignoreErrors m).
Proof.
  intros Hm s Hs. specialize (Hm s Hs). unfold ignoreErrors. destruct (m s) as [s1 [a|e|]]; [done| |done].
  by destruct e.
Qed.

Lemma keeps_onStore (f : D -> Outcome D) :
  (forall s d, P s -> f (db_store s) = Ok d -> P (setStore d s)) -> keeps (onStore f).
Proof. intros Hf s Hs. unfold onStore. destruct (f (db_store s)) as [d|e|] eqn:E; [by apply Hf|done..]. Qed.
End keeps.

(** Hoare triples for commands: [Q] of a result, [R] of an exception.  They say
    nothing of undefined behaviour. *)
Section hoare.
  Context {D : Type}.

Definition hoare {A} (P : Db D -> Prop) (m : Cmd D A) (Q : A -> Db D -> Prop) (R : Db D -> Prop) : Prop :=
  forall s, P s -> match m s with
                   | (s', Ok a) => Q a s'
                   | (s', Throw _) => R s'
                   | (_, UB) => True
                   end.

Lemma hoare_bind {A B} P (m : Cmd D A) Q (k : A -> Cmd D B) Q' R :
  hoare P m Q R -> (forall a, hoare (Q a) (k a) Q' R) -> hoare P (cbind m k) Q' R.
Proof.
  intros Hm Hk s Hs. specialize (Hm s Hs). unfold cbind. destruct (m s) as [s1 [a|e|]]; [by apply Hk|done..].
Qed.

Lemma hoare_keeps {A} P (m : Cmd D A) (R : Db D -> Prop) :
  keeps P m -> (forall s, P s -> R s) -> hoare P m (fun _ => P) R.
Proof. intros Hm HR s Hs. specialize (Hm s Hs). destruct (m s) as [s1 [a|e|]]; simpl in Hm; [done|by apply HR|done]. Qed.

Lemma hoare_asks {A} P (f : Db D -> Outcome A) (R : Db D -> Prop) :
  (forall s, P s -> R s) -> hoare P (asks f) (fun a s => P s /\ f s = Ok a) R.
Proof. intros HR s Hs. unfold asks. destruct (f s) eqn:E; auto. Qed.

Lemma hoare_ret {A} P (a : A) R : hoare P (cret a) (fun b s => b = a /\ P s) R.
Proof. by intros s Hs. Qed.

Lemma hoare_onStore (P : Db D -> Prop) f (Q R : Db D -> Prop) :
  (forall s d, P s -> f (db_store s) = Ok d -> Q (setStore d s)) -> (forall s, P s -> R s) ->
  hoare P (onStore f) (fun _ => Q) R.
Proof. intros HQ HR s Hs. unfold onStore. destruct (f (db_store s)) eqn:E; auto. Qed.

Lemma hoare_throw {A} (P : Db D -> Prop) e Q (R : Db D -> Prop) :
  (forall s, P s -> R s) -> hoare P (asks (fun _ => Throw e) : Cmd D A) Q R.
Proof. intros HR s Hs. simpl. by apply HR. Qed.

Lemma hoare_weaken {A} (P P' : Db D -> Prop) (m : Cmd D A) (Q Q' : A -> Db D -> Prop) (R R' : Db D -> Prop) :
  hoare P' m Q' R' -> (forall s, P s -> P' s) -> (forall a s, Q' a s -> Q a s) -> (forall s, R' s -> R s) ->
  hoare P m Q R.
Proof.
  intros Hm HP HQ HR s Hs. specialize (Hm s (HP s Hs)). destruct (m s) as [s1 [a|e|]]; auto.
Qed.
End hoare.

Create HintDb keeps.
#[export] Hint Resolve keeps_ret keeps_asks keeps_ignore : keeps.
#[export] Hint Extern 2 (keeps _ (cbind _ _)) => apply keeps_bind; [|intros] : keeps.
#[export] Hint Extern 2 (keeps _ (if ?b then _ else _)) => destruct b : keeps.
#[export] Hint Extern 1 (keeps _ (match ?x with _ => _ end)) => destruct x : keeps.

Section tables.
  Context {D : Type} `{!Lmdb D, !LmdbLaws D}.

(** ** The table of a class *)

(** The record number is above every position in use. *)
Record class_table (d : D) (c : ClassId) (m : Z) : Prop := {
  ct_table : table d (to_string c);
  ct_num : dbGet d (to_string c) (KNum EM_MAXRECNUM) = Some (le_bytes 4 m);
  ct_keys : forall x, x ∈ entries d (to_string c) -> exists p, x.1 = KNum p /\ (0 <= p < m)%Z;
  ct_range : (1 <= m <= UINT32_MAX)%Z;
}.

Lemma class_table_ext d d' c m :
  entries d' (to_string c) = entries d (to_string c) -> class_table d c m -> class_table d' c m.
Proof.
  intros He [Ht Hn Hk Hr]. split; unfold table in *; rewrite ?He; try done.
  rewrite (dbGet_ext d d' _ _ He). done.
Qed.

(** Overwriting a record. *)
Lemma class_table_put d c m n p v a o d' x :
  class_table d c m -> p <> EM_MAXRECNUM -> (KNum p, x) ∈ entries d n ->
  dbPut true n (KNum p) v a o d = Ok d' -> class_table d' c m.
Proof.
  intros Hct Hp Hx Hput. destruct (decide (to_string c = n)) as [<-|Hne].
  - destruct Hct as [Ht Hn Hk Hr]. destruct (put_unique _ _ _ _ _ _ _ Hput Ht) as (Ht' & He & _). split; [done| | |done].
    + rewrite (put_get _ _ _ _ _ _ _ (KNum EM_MAXRECNUM) Hput Ht). rewrite decide_False; [done|]. by intros [= <-].
    + intros y [->|[Hy _]]%He; [|by apply Hk]. apply Hk in Hx. done.
  - eapply class_table_ext; [|done]. by apply (proj2 (put_inv _ _ _ _ _ _ _ _ Hput)).
Qed.

Lemma class_table_del d c m n p : class_table d c m -> p <> EM_MAXRECNUM -> class_table (dbDel n (KNum p) d) c m.
Proof.
  intros Hct Hp. destruct (decide (to_string c = n)) as [<-|Hne].
  - destruct Hct as [Ht Hn Hk Hr]. split; [by apply del_table| | |done].
    + rewrite del_get by done. rewrite decide_False; [done|]. by intros [= <-].
    + intros y. rewrite del_same, list_elem_of_filter. intros [_ Hy]. by apply Hk.
  - eapply class_table_ext; [|done]. by apply del_other.
Qed.

Lemma class_table_fresh d c m : class_table d c m -> dbGet d (to_string c) (KNum m) = None.
Proof. intros [Ht _ Hk _]. apply dbGet_None; [done|]. intros v (p & [= <-] & Hp)%Hk. lia. Qed.

(** ** Index maintenance touches the databases of indexes only *)
Definition only_indexes (d d' : D) : Prop := forall n, ~ is_index n -> entries d' n = entries d n.

Lemma addIndex_only i p b ty u d d' : addIndex i p b ty u d = Ok d' -> only_indexes d d'.
Proof.
  intros H n Hn. unfold addIndex in H. destruct b as [|x b]; [by simplify_eq|].
  destruct (indexValue ty (x :: b)) as [v| |]; [|discriminate H..]. cbn [obind] in H.
  assert (forall m k, is_index m ->
    catch MDB_KEYEXIST (dbPut u m k (le_bytes 4 p) false (negb u) d) (Throw NOGDB_CTX_UNIQUE_CONSTRAINT) = Ok d' ->
    entries d' n = entries d n) as Hput.
  { intros m k Hm Hr. destruct (dbPut u m k (le_bytes 4 p) false (negb u) d) as [d1|e|] eqn:Hput; simpl in Hr.
    - injection Hr as ->. apply (proj2 (put_inv _ _ _ _ _ _ _ _ Hput)). by intros ->.
    - by case_bool_decide.
    - done. }
  destruct v as [[z|z|bits|[|y t]]|]; simplify_eq; try done; eapply Hput; try exact H; done.
Qed.

Lemma deleteIndexCursor_only n p v d d' : is_index n -> deleteIndexCursor n p v d = Ok d' -> only_indexes d d'.
Proof.
  intros Hi H m Hm. unfold deleteIndexCursor in H. outcome_simpl. case_match; [|done].
  apply del_entry_other. by intros ->.
Qed.

Lemma deleteIndex_only i p b ty d d' : deleteIndex i p b ty d = Ok d' -> only_indexes d d'.
Proof.
  intros H. unfold deleteIndex in H. destruct b as [|x b]; [by simplify_eq|].
  destruct (indexValue ty (x :: b)) as [v| |]; [|discriminate H..]. cbn [obind] in H.
  destruct v as [[z|z|bits|[|y t]]|]; simplify_eq; try done; eapply deleteIndexCursor_only; try exact H; done.
Qed.
End tables.

Section commands.
  Context {D : Type} `{!Lmdb D, !LmdbLaws D} (fill : byte).

(** The ids of the classes fit their machine type. *)
Definition schema_ids (s : Schema) : Prop := forall l c, sheap s !! l = Some c -> (0 <= cd_id c <= UINT16_MAX)%Z.

(** ** Updating records leaves the relations and the record numbers *)
Record quiet (s0 s : Db D) : Prop := {
  q_schema : db_schema s = db_schema s0;
  q_graph : db_relation s = db_relation s0;
  q_txn : db_txn s = db_txn s0;
  q_relations : entries (db_store s) TB_RELATIONS = entries (db_store s0) TB_RELATIONS;
  q_tables : forall c m, (0 <= c)%Z -> class_table (db_store s0) c m -> class_table (db_store s) c m;
}.

Lemma quiet_refl s : quiet s s.
Proof. done. Qed.
Lemma quiet_trans s1 s2 s3 : quiet s1 s2 -> quiet s2 s3 -> quiet s1 s3.
Proof. intros [? ? ? ? H1] [? ? ? ? H2]. split; try congruence. intros. by apply H2, H1. Qed.

Lemma quiet_store s0 s d :
  quiet s0 s -> entries d TB_RELATIONS = entries (db_store s) TB_RELATIONS ->
  (forall c m, (0 <= c)%Z -> class_table (db_store s) c m -> class_table d c m) -> quiet s0 (setStore d s).
Proof. intros [? ? ? ? Ht] He Hc. split; simpl; try done; [congruence|]. intros. by apply Hc, Ht. Qed.

(** Properties that index maintenance cannot change. *)
Definition stable (P : Db D -> Prop) : Prop :=
  forall s d, P s -> only_indexes (db_store s) d -> P (setStore d s).

Lemma keeps_addIndexes P idx p r : stable P -> keeps P (addIndexes idx p r).
Proof.
  intros HP. apply keeps_for. intros x _. apply keeps_bind; [apply keeps_asks|]. intros b. apply keeps_onStore.
  intros s d Hs H%addIndex_only. by apply HP.
Qed.
Lemma keeps_deleteIndexes P idx p r : stable P -> keeps P (deleteIndexes idx p r).
Proof.
  intros HP. apply keeps_for. intros x _. apply keeps_bind; [apply keeps_asks|]. intros b. apply keeps_onStore.
  intros s d Hs H%deleteIndex_only. by apply HP.
Qed.

Lemma only_indexes_class d d' c : only_indexes d d' -> (0 <= c)%Z -> entries d' (to_string c) = entries d (to_string c).
Proof. intros H Hc. apply H. intros Hi. by apply (class_not_dotted c (to_string c) Hc (index_dotted _ Hi)). Qed.

Lemma quiet_stable s0 : stable (quiet s0).
Proof.
  intros s d Hs Hd. apply quiet_store; [done| |].
  - apply Hd. by intros ?%relations_not_index.
  - intros c m Hc. apply class_table_ext. by apply only_indexes_class.
Qed.

(** The class a command finds is one of the schema. *)
Lemma getClass_heap s t id ty l c : getClassDescriptor s t id ty = Ok (l, c) -> sheap s !! l = Some c.
Proof.
  unfold getClassDescriptor, isExistingClass. destruct (findClass s t id) as [[l' c']|] eqn:E; [|done].
  apply findClass_heap in E. cbn [obind]. unfold checkType. case_match; [|done]. by intros [= <- <-].
Qed.

Lemma classOf_in s0 id ty :
  returns (quiet s0) (classOf (D := D) id ty) (fun c => exists l, sheap (db_schema s0) !! l = Some c).
Proof.
  intros s s' c Hs H. unfold classOf, asks in H. injection H as _ H. outcome_simpl. destruct a as [l c'].
  simpl. exists l. rewrite <- (q_schema _ _ Hs). by eapply getClass_heap.
Qed.

Lemma quiet_update s0 ty e d r :
  schema_ids (db_schema s0) -> (rd_rid d).2 <> EM_MAXRECNUM -> keeps (quiet s0) (updateRecord fill ty e d r).
Proof.
  intros Hids Hp. unfold updateRecord. apply keeps_bind; [apply keeps_asks|]. intros _.
  apply keeps_bind; [apply keeps_asks|]. intros r'.
  eapply keeps_bind_with; [apply keeps_asks|apply classOf_in|]. intros c [lc Hc]. apply Hids in Hc.
  apply keeps_bind. { unfold parseFor, classInfo. auto with keeps. }
  intros [[value idx] info]. apply keeps_asks_bind. intros s existing Hs Hget. injection Hget as <-.
  destruct (dbGet _ _ _) as [v|] eqn:Hv; [|done]. destruct v as [|b v]; [done|]. cbn [dataEmpty].
  set (P := fun s => quiet s0 s /\ exists x, (KNum (rd_rid d).2, x) ∈ entries (db_store s) (to_string (cd_id c))).
  assert (stable P) as HP.
  { intros s1 d1 [Hs1 Hx] Hd1. split; [by apply quiet_stable|]. simpl.
    by rewrite (only_indexes_class _ _ _ Hd1) by lia. }
  match goal with |- quiet s0 (?m s).1 => assert (keeps P m) as Hk end.
  { apply keeps_bind; [apply keeps_asks|]. intros old.
    apply keeps_bind; [by apply keeps_deleteIndexes|]. intros _.
    apply keeps_bind; [by apply keeps_addIndexes|]. intros _. apply keeps_onStore.
    intros s1 d1 [Hs1 [x Hx]] Hput. split.
    - apply quiet_store; [done| |].
      + apply (put_inv _ _ _ _ _ _ _ _ Hput). apply not_eq_sym, class_not_dotted; [lia|]. apply relations_dotted.
      + intros c' m' Hc' Hct. by eapply class_table_put.
    - destruct (put_inv _ _ _ _ _ _ _ _ Hput) as [Hpe _]. unfold putEntry in Hpe. simpl in Hpe.
      injection Hpe as Hpe. exists value. simpl. rewrite <- Hpe. apply (elem_of_place key_ltb fst). by left. }
  apply Hk. split; [done|]. exists (b :: v). by apply dbGet_entry.
Qed.

(** ** The relation table of the store *)

(** The table holds the edges of the map and the entry of its creation. *)
Definition stored_edges (d : D) (E : gmap RecordId (RecordId * RecordId)) : Prop :=
  table d TB_RELATIONS /\
  forall x, x.1 <> KStr STRING_EM_INIT -> x ∈ entries d TB_RELATIONS <->
    exists k sd, E !! k = Some sd /\ x = (KStr (rid2str k), relationBytes sd).

Definition edges_ok (E : gmap RecordId (RecordId * RecordId)) : Prop :=
  forall k sd, E !! k = Some sd -> rid_ok k /\ rid_ok sd.1 /\ rid_ok sd.2.

Lemma stored_edges_ext d d' E :
  entries d' TB_RELATIONS = entries d TB_RELATIONS -> stored_edges d E -> stored_edges d' E.
Proof. intros He [Ht Hx]. split; unfold table in *; by rewrite He. Qed.

Lemma stored_edges_get d E k :
  stored_edges d E -> edges_ok E -> rid_ok k ->
  dbGet d TB_RELATIONS (KStr (rid2str k)) = relationBytes <$> E !! k.
Proof.
  intros [Ht Hx] HE Hk. destruct (E !! k) as [sd|] eqn:Ek; simpl.
  - apply dbGet_Some; [done|]. apply Hx; [|by exists k, sd]. intros [= H]. by apply (rid2str_not_init k).
  - apply dbGet_None; [done|]. intros v Hv. apply Hx in Hv as (k' & sd & Ek' & [= H _]).
    + apply rid2str_inj in H; [congruence|done|by apply (HE k' sd)].
    + cbn [fst]. intros [= Hi]. by apply (rid2str_not_init k).
Qed.

Lemma stored_edges_put d d' E k sd :
  stored_edges d E -> edges_ok E -> rid_ok k ->
  dbPut true TB_RELATIONS (KStr (rid2str k)) (relationBytes sd) false true d = Ok d' ->
  stored_edges d' (<[k := sd]> E).
Proof.
  intros [Ht Hx] HE Hk Hput. destruct (put_unique _ _ _ _ _ _ _ Hput Ht) as (Ht' & He & _). split; [done|].
  intros x Hne. rewrite He, (Hx x Hne). split.
  - intros [->|((k' & sd' & Ek' & ->) & Hkey)]; [exists k, sd; by rewrite lookup_insert_eq|].
    exists k', sd'. rewrite lookup_insert_ne by (intros ->; done). done.
  - intros (k' & sd' & Ek' & ->). destruct (decide (k = k')) as [<-|Hkk].
    + rewrite lookup_insert_eq in Ek'. simplify_eq. by left.
    + rewrite lookup_insert_ne in Ek' by done. right. split; [by exists k', sd'|].
      cbn [fst]. intros [= H]. apply rid2str_inj in H; [done|by apply (HE k' sd')|done].
Qed.

Lemma stored_edges_del d E k :
  stored_edges d E -> edges_ok E -> rid_ok k ->
  stored_edges (dbDel TB_RELATIONS (KStr (rid2str k)) d) (delete k E).
Proof.
  intros [Ht Hx] HE Hk. split; [by apply del_table|]. intros x Hne.
  rewrite del_same, list_elem_of_filter, (Hx x Hne). split.
  - intros (Hkey & k' & sd' & Ek' & ->). exists k', sd'. split; [|done]. rewrite lookup_delete_ne; [done|].
    intros ->. done.
  - intros (k' & sd' & [Hkk Ek']%lookup_delete_Some & ->). split; [|by exists k', sd'].
    cbn [fst]. intros [= H]. apply rid2str_inj in H; [done|by apply (HE k' sd')|done].
Qed.

(** ** Memory and store agree *)
Record synced (s : Db D) (E : gmap RecordId (RecordId * RecordId)) : Prop := {
  sy_repr : repr (db_relation s) (db_txn s) E;
  sy_ids : edges_ok E;
  sy_stored : stored_edges (db_store s) E;
}.

(** Writes that leave the relations alone. *)
Record same_relations (s0 s : Db D) : Prop := {
  sr_schema : db_schema s = db_schema s0;
  sr_graph : db_relation s = db_relation s0;
  sr_txn : db_txn s = db_txn s0;
  sr_entries : entries (db_store s) TB_RELATIONS = entries (db_store s0) TB_RELATIONS;
}.

Lemma quiet_same s0 s : quiet s0 s -> same_relations s0 s.
Proof. by intros []. Qed.

Lemma synced_same s0 s E : same_relations s0 s -> synced s0 E -> synced s E.
Proof.
  intros [Hs Hg Ht He] [Hr Hi Hst]. split; [by rewrite Hg, Ht|done|]. by eapply stored_edges_ext.
Qed.

Lemma same_stable s0 : stable (same_relations s0).
Proof. intros s d [? ? ? He] Hd. split; simpl; try done. rewrite Hd; [done|]. by intros ?%relations_not_index. Qed.

(** ** The next record number *)

(** A new record gets the next position of its class. *)
Lemma insertRecord_spec s c m v :
  class_table (db_store s) c m ->
  exists d, insertRecord c v s = (setStore d s, Ok m) /\
    (forall n, n <> to_string c -> entries d n = entries (db_store s) n) /\
    table d (to_string c) /\
    (forall p, dbGet d (to_string c) (KNum p) =
       if decide (p = EM_MAXRECNUM) then Some (le_bytes 4 (u32 (m + 1)))
       else if decide (p = m) then Some v else dbGet (db_store s) (to_string c) (KNum p)) /\
    ((m < UINT32_MAX)%Z -> class_table d c (m + 1)).
Proof.
  intros Hct. pose proof Hct as [Ht Hn Hk Hr]. unfold insertRecord, cbind, asks. rewrite Hn.
  rewrite numeric_le_bytes by lia.
  destruct (put_append (db_store s) true (to_string c) (KNum m) v) as [d1 Hd1]; [done| |].
  { intros x Hx. destruct (Hk x Hx) as (p & -> & Hp). simpl. lia. }
  unfold onStore at 1. rewrite Hd1.
  destruct (put_total d1 true (to_string c) (KNum EM_MAXRECNUM) (le_bytes 4 (u32 (m + 1)))) as [d2 Hd2]; [done|].
  unfold onStore. cbn [setStore db_store]. rewrite Hd2. exists d2.
  destruct (put_unique _ _ _ _ _ _ _ Hd1 Ht) as (Ht1 & He1 & Ho1).
  destruct (put_unique _ _ _ _ _ _ _ Hd2 Ht1) as (Ht2 & He2 & Ho2).
  assert (forall p, dbGet d2 (to_string c) (KNum p) =
       if decide (p = EM_MAXRECNUM) then Some (le_bytes 4 (u32 (m + 1)))
       else if decide (p = m) then Some v else dbGet (db_store s) (to_string c) (KNum p)) as Hget.
  { intros p. rewrite (put_get _ _ _ _ _ _ _ (KNum p) Hd2 Ht1), (put_get _ _ _ _ _ _ _ (KNum p) Hd1 Ht).
    repeat case_decide; try done; congruence. }
  split_and!; [done|intros n Hne; by rewrite Ho2, Ho1|done|done|].
  intros Hm. unfold u32, UINT32_MAX in *. split; [done| | |unfold UINT32_MAX; lia].
  - rewrite Hget. rewrite decide_True by done. by rewrite Z.mod_small by lia.
  - intros x [->|[[->|[Hx Hne]]%He1 _]]%He2; simpl.
    + exists EM_MAXRECNUM. split; [done|]. unfold EM_MAXRECNUM. lia.
    + exists m. split; [done|lia].
    + destruct (Hk x Hx) as (p & -> & Hp). exists p. split; [done|lia].
Qed.
End commands.
