(* ===== verification/EdgeSpec.v ===== *)
(** * Creating, moving and destroying edges

    The commands of [Commands] on edges, and the destruction of a vertex, keep
    the relation table of the data store and the relations in memory in step:
    whatever a command does, including throwing, both still describe one map
    of edges. *)

From stdpp Require Import base gmap sets list strings sorting.
From Stdlib Require Import ZArith Lia ZifyBool.
From S2P Require Import Prelude Types Store Blob VersionControl TxnData RecordModel Parser.
From S2P Require Import Graph GraphSpec GraphQuery Schema Validate Generic Compare Index Commands CommandSpec.

#[local] Arguments le_bytes : simpl never.

Section edges.
  Context {D : Type} `{!Lmdb D, !LmdbLaws D} (fill : byte).

Lemma keeps_getRecord (P : Db D -> Prop) d : keeps P (getRecord d).
Proof. unfold getRecord, classInfo, classOf. auto 10 with keeps. Qed.

(** The rest of a command after its checks: [hoare_bind] with a command that
    keeps the precondition. *)
Lemma hoare_skip {A B} (P : Db D -> Prop) (m : Cmd D A) (k : A -> Cmd D B) Q (R : Db D -> Prop) :
  keeps P m -> (forall s, P s -> R s) -> (forall a, hoare P (k a) Q R) -> hoare P (cbind m k) Q R.
Proof. intros Hm HR Hk. eapply hoare_bind; [by apply hoare_keeps|]. done. Qed.

(** A read whose result the precondition fixes, and one that fixes a fact. *)
Lemma hoare_known {A B} (P : Db D -> Prop) (f : Db D -> Outcome A) (k : A -> Cmd D B) Q (R : Db D -> Prop) v :
  (forall s, P s -> f s = Ok v) -> hoare P (k v) Q R -> hoare P (cbind (asks f) k) Q R.
Proof. intros Hf Hk s Hs. unfold cbind, asks. rewrite (Hf s Hs). by apply Hk. Qed.

Lemma hoare_fact {A B} (P : Db D -> Prop) (f : Db D -> Outcome A) (k : A -> Cmd D B) Q (R : Db D -> Prop) (F : A -> Prop) :
  (forall s, P s -> R s) -> (forall s a, P s -> f s = Ok a -> F a) -> (forall a, F a -> hoare P (k a) Q R) ->
  hoare P (cbind (asks f) k) Q R.
Proof.
  intros HR Hf Hk s Hs. unfold cbind, asks. destruct (f s) as [a|e|] eqn:Ef; [|by apply HR|done].
  apply Hk; [|done]. by eapply Hf.
Qed.

(** ** Creating an edge *)

(** After the record of the edge is stored. *)
Definition inserted (s0 : Db D) (k : RecordId) (value : list byte) (s : Db D) : Prop :=
  same_relations s0 s /\ getData (db_store s) k = Some value /\
  ((k.2 < UINT32_MAX)%Z -> class_table (db_store s) k.1 (k.2 + 1)).

Lemma inserted_stable s0 k value : (0 <= k.1)%Z -> stable (inserted s0 k value).
Proof.
  intros Hk s d (Hs & Hv & Ht) Hd. pose proof (only_indexes_class _ _ _ Hd Hk) as He.
  split_and!; [by apply same_stable| |].
  - unfold getData. simpl. by rewrite (dbGet_ext _ _ _ _ He).
  - intros Hm. apply (class_table_ext (db_store s)); [done|by apply Ht].
Qed.

Lemma hoare_insert s0 c m value :
  class_table (db_store s0) c m -> (0 <= c)%Z ->
  hoare (quiet s0) (insertRecord c value) (fun p s => p = m /\ inserted s0 (c, m) value s) (same_relations s0).
Proof.
  intros Hct Hc s Hs. pose proof (q_tables _ _ Hs c m Hc Hct) as Hct1.
  destruct (insertRecord_spec s c m value Hct1) as (d & -> & Ho & Ht & Hg & Hn). split; [done|].
  pose proof (ct_range _ _ _ Hct) as Hr. split_and!; [| |done].
  - destruct (quiet_same _ _ Hs) as [? ? ? He]. split; simpl; try done. rewrite Ho; [done|].
    apply not_eq_sym, class_not_dotted; [done|]. apply relations_dotted.
  - unfold getData. simpl. rewrite Hg. rewrite decide_False by (unfold EM_MAXRECNUM; lia). by rewrite decide_True.
Qed.
End edges.

Section create.
  Context {D : Type} `{!Lmdb D, !LmdbLaws D} (fill : byte).
  Context (s : Db D) (E : gmap RecordId (RecordId * RecordId)) (Hsync : synced s E).
  Context (Hschema : schema_ids (db_schema s)).

Lemma quiet_synced s' : quiet s s' -> synced s' E.
Proof. intros H. eapply synced_same; [by apply quiet_same|done]. Qed.

(** The edge [k] from [sd.1] to [sd.2] was added in state [s']: the table has it;
    memory has it too, unless it is a loop at a vertex that memory did not have,
    whose target then cannot be read. *)
Definition edge_added (k : RecordId) (sd : RecordId * RecordId) (s' : Db D) : Prop :=
  stored_edges (db_store s') (<[k := sd]> E) /\
  (sd.1 <> sd.2 \/ (exists l, vvis (db_relation s) (db_txn s) sd.1 l) -> synced s' (<[k := sd]> E)) /\
  (sd.1 = sd.2 -> allV (db_relation s) (db_txn s) !! sd.1 = None ->
   heldVertices (db_relation s) ⊆ dom (vheap (db_relation s)) ->
   getVertexSrc (db_relation s') (db_txn s') k = Ok sd.1 /\
   getVertexDst (db_relation s') (db_txn s') k = Throw NOGDB_GRAPH_UNKNOWN_ERR).

(** The part in memory. *)
Lemma createEdge_cases g t k (sd : RecordId * RecordId) :
  repr g t E -> allE g t !! k = None -> usable g t sd.1 -> usable g t sd.2 ->
  exists g' t', createEdge g t k sd.1 sd.2 = Ok (g', t') /\
    (sd.1 <> sd.2 \/ (exists l, vvis g t sd.1 l) -> repr g' t' (<[k := sd]> E)) /\
    (sd.1 = sd.2 -> allV g t !! sd.1 = None -> heldVertices g ⊆ dom (vheap g) ->
     getVertexSrc g' t' k = Ok sd.1 /\ getVertexDst g' t' k = Throw NOGDB_GRAPH_UNKNOWN_ERR).
Proof.
  destruct sd as [src dst]. cbn [fst snd]. intros Hr Hk H1 H2.
  assert (exists g' t', createEdge g t k src dst = Ok (g', t')) as (g' & t' & Hc).
  { unfold createEdge. destruct (lookupEdge g t k) as [[le e]|] eqn:Hl.
    - apply lookupEdge_spec in Hl as [[Hl _] _]; [congruence|by eapply r_base].
    - destruct (ensureVertex _ src g t) as [[ls g1] t1]. destruct (ensureVertex _ dst g1 t1) as [[lt g2] t2].
      by eexists _, _. }
  exists g', t'. split_and!; [done| |].
  - intros Hne. destruct (createEdge_repr g t E k src dst Hr Hk H1 H2 Hne) as (g1 & t1 & Hc1 & Hr1).
    rewrite Hc in Hc1. by injection Hc1 as <- <-.
  - intros <- Hv Hheld. destruct (createEdge_loop_dangles g t E k src Hr Hk Hv Hheld) as (g1 & t1 & Hc1 & Hends).
    rewrite Hc in Hc1. by injection Hc1 as <- <-.
Qed.

(** Storing the relation and adding it in memory. *)
Lemma hoare_relate k sd value (r : DbRecord) :
  (0 <= k.1)%Z -> rid_ok k -> rid_ok sd.1 -> rid_ok sd.2 ->
  allE (db_relation s) (db_txn s) !! k = None ->
  usable (db_relation s) (db_txn s) sd.1 -> usable (db_relation s) (db_txn s) sd.2 ->
  hoare (inserted s k value)
    (let? b := asks (fun _ => relationBlob sd.1 sd.2) in
     let? _ := onStore (dbPut true TB_RELATIONS (KStr (rid2str k)) (written b) false true) in
     let? _ := onGraph (fun g t => createEdge g t k sd.1 sd.2) in
     cret (rdescOf k, r))
    (fun res s' => res = (rdescOf k, r) /\ edge_added k sd s' /\ getData (db_store s') k = Some value /\
       ((k.2 < UINT32_MAX)%Z -> class_table (db_store s') k.1 (k.2 + 1)))
    (fun s' => synced s' E).
Proof.
  intros Hk0 Hk H1 H2 Hfresh Hu1 Hu2 s1 (Hsame & Hval & Hct).
  destruct (relationBlob_ok sd.1 sd.2) as (b & Hb & Hwb). unfold cbind, asks. rewrite Hb, Hwb.
  destruct sd as [src dst]. cbn [fst snd] in *.
  destruct (put_total (db_store s1) true TB_RELATIONS (KStr (rid2str k)) (relationBytes (src, dst)) (rid2str_size k))
    as [d Hput].
  unfold onStore. rewrite Hput. unfold onGraph. cbn [db_relation db_txn setStore].
  destruct (synced_same _ _ _ Hsame Hsync) as [Hr Hi Hst].
  pose proof Hsame as [_ Hg Ht _]. rewrite <- Hg, <- Ht in Hfresh, Hu1, Hu2.
  destruct (createEdge_cases _ _ k (src, dst) Hr Hfresh Hu1 Hu2) as (g' & t' & Hc & Hr' & Hloop).
  cbn [fst snd] in Hc. rewrite Hc. rewrite Hg, Ht in Hr', Hloop.
  destruct (put_inv _ _ _ _ _ _ _ _ Hput) as [_ Ho].
  assert (entries d (to_string k.1) = entries (db_store s1) (to_string k.1)) as He
    by (apply Ho, class_not_dotted; [done|apply relations_dotted]).
  assert (stored_edges d (<[k := (src, dst)]> E)) as Hst' by by eapply stored_edges_put.
  unfold cret. split_and!; [done| | |].
  - split_and!; [exact Hst'| |exact Hloop]. intros Hne. split; [by apply Hr'| |exact Hst'].
    intros k' sd' [[<- <-]|[_ ?]]%lookup_insert_Some; [done|by apply Hi].
  - unfold getData. simpl. by rewrite (dbGet_ext _ _ _ _ He).
  - intros Hm. apply (class_table_ext (db_store s1)); [done|by apply Hct].
Qed.

Lemma edgeCreate_ends className src dst record l c m :
  getClassDescriptorByName (db_schema s) (db_txn s) className EDGE = Ok (l, c) ->
  sheap (db_schema s) !! l = Some c -> class_table (db_store s) (cd_id c) m ->
  rid_ok (rd_rid src) -> rid_ok (rd_rid dst) ->
  allE (db_relation s) (db_txn s) !! (cd_id c, m) = None ->
  usable (db_relation s) (db_txn s) (rd_rid src) -> usable (db_relation s) (db_txn s) (rd_rid dst) ->
  match edgeCreate fill className src dst record s with
  | (s', Ok (d, r)) =>
      d = rdescOf (cd_id c, m) /\ r = stampNew (txnVersionId (db_txn s)) record /\
      edge_added (cd_id c, m) (rd_rid src, rd_rid dst) s' /\
      is_Some (getData (db_store s') (cd_id c, m)) /\
      ((m < UINT32_MAX)%Z -> class_table (db_store s') (cd_id c) (m + 1))
  | (s', Throw _) => synced s' E
  | (_, UB) => True
  end.
Proof.
  intros Hclass Hheap Hct Hsrc Hdst Hfresh Husrc Hudst.
  pose proof (Hschema _ _ Hheap) as Hid. pose proof (ct_range _ _ _ Hct) as Hm.
  assert (rid_ok (cd_id c, m)) as Hk by (split; simpl; lia).
  assert (forall s', quiet s s' -> synced s' E) as HR by apply quiet_synced.
  assert (forall d r, rid_ok (rd_rid d) -> keeps (quiet s) (vertexUpdate fill d r)) as Hupd
    by (intros d r [_ ?]; apply quiet_update; [done|unfold EM_MAXRECNUM; lia]).
  set (k := (cd_id c, m)) in *.
  set (Q := fun res s' => exists value, res = (rdescOf k, stampNew (txnVersionId (db_txn s)) record) /\
       edge_added k (rd_rid src, rd_rid dst) s' /\ getData (db_store s') k = Some value /\
       ((k.2 < UINT32_MAX)%Z -> class_table (db_store s') k.1 (k.2 + 1))).
  assert (hoare (quiet s) (edgeCreate fill className src dst record) Q (fun s' => synced s' E)) as Hh.
  { unfold edgeCreate. apply hoare_skip; [apply keeps_asks|done|]. intros _.
    apply (hoare_known _ _ _ _ _ c). { intros s1 [-> _ -> _ _]. by rewrite Hclass. }
    apply hoare_skip; [apply keeps_asks|done|]. intros _. apply hoare_skip; [apply keeps_asks|done|]. intros _.
    apply hoare_skip; [unfold parseFor, classInfo; auto with keeps|done|]. intros [[value idx] info].
    apply hoare_skip; [apply keeps_asks|done|]. intros srcData. destruct (dataEmpty srcData); [by apply hoare_throw|].
    apply hoare_skip; [apply keeps_asks|done|]. intros dstData. destruct (dataEmpty dstData); [by apply hoare_throw|].
    apply hoare_skip; [apply keeps_getRecord|done|]. intros r1. apply hoare_skip; [by apply Hupd|done|]. intros _.
    apply hoare_skip; [apply keeps_getRecord|done|]. intros r2. apply hoare_skip; [by apply Hupd|done|]. intros _.
    apply (hoare_known _ _ _ _ _ (txnVersionId (db_txn s))). { by intros s1 [_ _ -> _ _]. }
    eapply hoare_bind.
    { eapply hoare_weaken; [apply (hoare_insert s (cd_id c) m value Hct); lia|done|done|].
      intros s1 Hs1. by eapply synced_same. }
    intros p s1 [-> Hs1]. revert s1 Hs1. apply hoare_skip.
    { apply keeps_addIndexes, inserted_stable. simpl. lia. }
    { intros s1 [? _]. by eapply synced_same. }
    intros _. assert (0 <= k.1)%Z as Hk1 by (simpl; lia).
    eapply hoare_weaken; [by apply (hoare_relate k (rd_rid src, rd_rid dst) value)|done| |done].
    intros res s1 (-> & ? & ? & ?). by exists value. }
  specialize (Hh s (quiet_refl s)). destruct (edgeCreate _ _ _ _ _ s) as [s' [[d r]|e|]]; [|done..].
  destruct Hh as (value & [= -> ->] & ? & ? & ?). by split_and!.
Qed.

(** C4. [Edge::create] gives the edge the next position of its class and adds it
    to the table and to memory; a loop at a vertex that memory does not have is
    in the table, but in memory its target throws ([edge_added]).  When the
    command throws, nothing of the relations has changed. *)
Theorem edgeCreate_synced className src dst record l c m :
  getClassDescriptorByName (db_schema s) (db_txn s) className EDGE = Ok (l, c) ->
  sheap (db_schema s) !! l = Some c -> class_table (db_store s) (cd_id c) m ->
  rid_ok (rd_rid src) -> rid_ok (rd_rid dst) ->
  allE (db_relation s) (db_txn s) !! (cd_id c, m) = None ->
  usable (db_relation s) (db_txn s) (rd_rid src) -> usable (db_relation s) (db_txn s) (rd_rid dst) ->
  match edgeCreate fill className src dst record s with
  | (s', Ok (d, r)) =>
      d = rdescOf (cd_id c, m) /\ r = stampNew (txnVersionId (db_txn s)) record /\
      edge_added (cd_id c, m) (rd_rid src, rd_rid dst) s' /\
      is_Some (getData (db_store s') (cd_id c, m)) /\
      ((m < UINT32_MAX)%Z -> class_table (db_store s') (cd_id c) (m + 1))
  | (s', Throw _) => synced s' E
  | (_, UB) => True
  end.
Proof. apply edgeCreate_ends. Qed.
End create.

Section destroy.
  Context {D : Type} `{!Lmdb D, !LmdbLaws D} (fill : byte).

(** Memory still has the edges of [E], the store those of [E']. *)
Record between (s0 s : Db D) (E E' : gmap RecordId (RecordId * RecordId)) : Prop := {
  bt_schema : db_schema s = db_schema s0;
  bt_repr : repr (db_relation s) (db_txn s) E;
  bt_ids : edges_ok E;
  bt_stored : stored_edges (db_store s) E';
}.

Lemma between_synced s0 s E : between s0 s E E -> synced s E.
Proof. by intros [? ? ? ?]. Qed.

Lemma between_quiet s0 s E : synced s0 E -> quiet s0 s -> between s0 s E E.
Proof. intros Hsync Hs. destruct (synced_same _ _ _ (quiet_same _ _ Hs) Hsync). split; try done. by destruct Hs. Qed.

Lemma between_store s0 s d E E' :
  between s0 s E E' -> entries d TB_RELATIONS = entries (db_store s) TB_RELATIONS -> between s0 (setStore d s) E E'.
Proof. intros [? ? ? Hst] He. split; try done. simpl. by eapply stored_edges_ext. Qed.

Lemma between_stable s0 E E' : stable (fun s => between s0 s E E').
Proof. intros s d Hs Hd. apply between_store; [done|]. apply Hd. by intros ?%relations_not_index. Qed.

Lemma keeps_removeRecord s0 E E' c info p :
  (0 <= cd_id c)%Z -> keeps (fun s => between s0 s E E') (removeRecord c info p).
Proof.
  intros Hc. unfold removeRecord. apply keeps_bind; [apply keeps_asks|]. intros found.
  apply keeps_bind.
  - destruct (dataEmpty found); [apply keeps_ret|]. apply keeps_bind; [apply keeps_asks|]. intros r.
    apply keeps_deleteIndexes, between_stable.
  - intros _. apply keeps_onStore. intros s d Hs [= <-]. apply between_store; [done|].
    apply del_other, not_eq_sym, class_not_dotted; [done|apply relations_dotted].
Qed.

(** The ends of an edge that memory knows. *)
Lemma getSrcDst_ends s0 E d :
  synced s0 E -> returns (quiet s0) (getSrcDst d) (fun p => rid_ok (rd_rid p.1.1) /\ rid_ok (rd_rid p.2.1)).
Proof.
  intros [Hr Hi _] s s' [[d1 r1] [d2 r2]] [_ Hg Ht _ _] H. unfold getSrcDst, cbind, asks in H.
  destruct (classOf _ _ s) as [s1 [c| |]] eqn:E1; [|done..]. unfold classOf, asks in E1. injection E1 as <- _.
  rewrite Hg, Ht in H. rewrite (proj1 (endpoints_spec _ _ _ (rd_rid d) Hr)) in H.
  destruct (E !! rd_rid d) as [sd|] eqn:HE; [|done].
  destruct (getRecord (rdescOf sd.1) s) as [s2 [r1'| |]]; [|done..].
  destruct (getRecord (rdescOf sd.2) s2) as [s3 [r2'| |]]; [|done..]. injection H as _ <- <- <- <-.
  simpl. by destruct (Hi _ _ HE) as (_ & ? & ?).
Qed.

Lemma edgeEnd_ok s0 E d :
  synced s0 E -> returns (quiet s0) (getSrc d) (fun p => rid_ok (rd_rid p.1)).
Proof.
  intros [Hr Hi _] s s' [d1 r1] [_ Hg Ht _ _] H. unfold getSrc, edgeEnd, cbind, asks in H.
  destruct (classOf _ _ s) as [s1 [c| |]] eqn:E1; [|done..]. unfold classOf, asks in E1. injection E1 as <- _.
  rewrite Hg, Ht in H. rewrite (proj1 (proj2 (endpoints_spec _ _ _ (rd_rid d) Hr))) in H.
  destruct (E !! rd_rid d) as [sd|] eqn:HE; [|done].
  destruct (getRecord (rdescOf sd.1) s) as [s2 [r1'| |]]; [|done..]. injection H as _ <- <-.
  simpl. by destruct (Hi _ _ HE) as (_ & ? & ?).
Qed.

Lemma keeps_getSrcDst (P : Db D -> Prop) d : keeps P (getSrcDst d).
Proof. unfold getSrcDst, classOf. auto 10 using keeps_getRecord with keeps. Qed.

Lemma rid_ok_position r : rid_ok r -> r.2 <> EM_MAXRECNUM.
Proof. intros [_ ?]. unfold EM_MAXRECNUM. lia. Qed.
Hint Resolve rid_ok_position : core.

Lemma quiet_touchEnds s0 E d :
  synced s0 E -> schema_ids (db_schema s0) -> keeps (quiet s0) (touchEnds fill d).
Proof.
  intros Hsync Hids. unfold touchEnds. apply keeps_ignore. eapply keeps_bind_with.
  { apply keeps_getSrcDst. }
  { by apply (getSrcDst_ends s0 E). }
  intros [src dst] [H1 H2]. apply keeps_bind; [by apply quiet_update; auto|]. intros _. by apply quiet_update; auto.
Qed.

Lemma hoare_edgeDestroy s0 E d :
  schema_ids (db_schema s0) -> rid_ok (rd_rid d) ->
  hoare (fun s => between s0 s E E) (edgeDestroy fill d)
    (fun _ s => between s0 s (delete (rd_rid d) E) (delete (rd_rid d) E))
    (fun s => exists E', (E' = E \/ E' = delete (rd_rid d) E) /\ between s0 s E E').
Proof.
  intros Hids Hk s Hs. set (k := rd_rid d) in *. pose proof (between_synced _ _ _ Hs) as Hsync.
  assert (schema_ids (db_schema s)) as Hids' by (by rewrite (bt_schema _ _ _ _ Hs)).
  assert (forall s', quiet s s' -> between s0 s' E E) as Hquiet.
  { intros s' Hs'. pose proof (between_quiet _ _ _ Hsync Hs') as [? ? ? ?]. split; try done.
    rewrite (q_schema _ _ Hs'). by destruct Hs. }
  cut (hoare (quiet s) (edgeDestroy fill d) (fun _ s' => between s0 s' (delete k E) (delete k E))
    (fun s' => exists E', (E' = E \/ E' = delete k E) /\ between s0 s' E E')).
  { intros Hh. by apply Hh. }
  assert (forall s', quiet s s' -> exists E', (E' = E \/ E' = delete k E) /\ between s0 s' E E') as HR
    by (intros s' Hs'; exists E; auto).
  unfold edgeDestroy. apply hoare_skip; [apply keeps_asks|done|]. intros _.
  apply hoare_skip; [by eapply quiet_touchEnds|done|]. intros _.
  eapply (hoare_fact _ _ _ _ _ (fun c => 0 <= cd_id c)%Z); [done| |].
  { intros s1 c Hs1 Hc. assert (classOf (rd_rid d).1 EDGE s1 = (s1, Ok c)) as Hcl
      by (unfold classOf, asks; by rewrite Hc).
    destruct (classOf_in s (rd_rid d).1 EDGE s1 s1 c Hs1 Hcl) as [l Hl]. by apply Hids' in Hl as [? _]. }
  intros c Hc. apply hoare_skip; [unfold classInfo; apply keeps_asks|done|]. intros info.
  eapply hoare_bind.
  { apply (hoare_onStore _ _ (fun s' => between s0 s' E (delete k E))); [|done].
    intros s1 x Hs1 [= <-]. destruct (Hquiet _ Hs1) as [? ? ? ?]. split; try done. by apply stored_edges_del. }
  intros []. apply hoare_skip; [by apply keeps_removeRecord|by eauto|]. intros [] s1 [H1 H2 H3 H4]. unfold onGraph.
  destruct (deleteEdge_repr _ _ _ k H2) as [H2' _]. split; try done.
  intros k' sd' [_ HE]%lookup_delete_Some. by apply H3.
Qed.

(** ** Moving an end of an edge *)

Lemma relationData_spec s E k :
  synced s E -> rid_ok k ->
  relationData k s = (s, Ok (match E !! k with Some sd => blobOf (relationBytes sd) | None => newBlob 0 end)).
Proof.
  intros [_ Hi Hst] Hk. unfold relationData, asks. rewrite (stored_edges_get _ _ _ Hst Hi Hk). by destruct (E !! k).
Qed.

(** The part of [updateSrc] and [updateDst] after the checks. *)
Definition moveEnd (side : Side) (k r : RecordId) : Cmd D unit :=
  let? data := relationData k in
  let? other := asks (fun _ => retrieveRid (match side with SRC => 6 | DST => 0 end) data) in
  let? b := asks (fun _ => match side with SRC => relationBlob r other | DST => relationBlob other r end) in
  let? _ := onStore (dbPut true TB_RELATIONS (KStr (rid2str k)) (written b) false true) in
  onGraph (fun g t => alterEnd (end_of side) (setEnd_of side) (upd_of side) g t k r).

Lemma moveEnd_spec side s0 s E k r :
  between s0 s E E -> rid_ok k -> rid_ok r -> usable (db_relation s) (db_txn s) r ->
  match moveEnd side k r s with
  | (s', Ok _) => exists sd, E !! k = Some sd /\ synced s' (<[k := withEnd side r sd]> E)
  | (s', Throw _) => E !! k = None /\ s' = s
  | (_, UB) => False
  end.
Proof.
  intros Hs Hk Hr Hu. pose proof (between_synced _ _ _ Hs) as Hsync. pose proof Hsync as [Hrep Hi Hst].
  unfold moveEnd. unfold cbind at 1. rewrite (relationData_spec s E k Hsync Hk).
  destruct (E !! k) as [sd|] eqn:HE; [|by destruct side].
  destruct (Hi _ _ HE) as (_ & H1 & H2).
  assert (exists b, (match side with SRC => relationBlob r sd.2 | DST => relationBlob sd.1 r end) = Ok b /\
    written b = relationBytes (withEnd side r sd)) as (b & Hb & Hwb)
    by (destruct side; apply relationBlob_ok).
  assert (retrieveRid (match side with SRC => 6 | DST => 0 end) (blobOf (relationBytes sd)) =
    Ok (match side with SRC => sd.2 | DST => sd.1 end)) as Hret
    by (destruct side; [by apply retrieve_dst|by apply retrieve_src]).
  unfold cbind, asks. rewrite Hret.
  assert (match side with SRC => relationBlob r (match side with SRC => sd.2 | DST => sd.1 end)
                        | DST => relationBlob (match side with SRC => sd.2 | DST => sd.1 end) r end = Ok b) as ->
    by by destruct side.
  rewrite Hwb. destruct (put_total (db_store s) true TB_RELATIONS (KStr (rid2str k)) (relationBytes (withEnd side r sd))
    (rid2str_size k)) as [d Hput].
  unfold onStore. rewrite Hput. unfold onGraph. cbn [setStore db_relation db_txn].
  destruct (proj2 (alterEnd_refines side _ _ E k r Hrep Hu) sd HE) as (g' & t' & -> & Hrep').
  exists sd. split; [done|]. split; [done| |by eapply stored_edges_put].
  intros k' sd' [[<- <-]|[_ ?]]%lookup_insert_Some; [|by apply Hi]. by destruct side.
Qed.

Lemma edgeDestroy_ends s E d :
  synced s E -> schema_ids (db_schema s) -> rid_ok (rd_rid d) ->
  match edgeDestroy fill d s with
  | (s', Ok _) => synced s' (delete (rd_rid d) E)
  | (s', Throw _) =>
      repr (db_relation s') (db_txn s') E /\
      (stored_edges (db_store s') E \/ stored_edges (db_store s') (delete (rd_rid d) E))
  | (_, UB) => True
  end.
Proof.
  intros Hsync Hids Hk.
  pose proof (hoare_edgeDestroy s E d Hids Hk s (between_quiet _ _ _ Hsync (quiet_refl s))) as Hh.
  destruct (edgeDestroy fill d s) as [s' [[]|e|]]; [by eapply between_synced| |done].
  destruct Hh as (E' & HE' & [_ Hr _ Hst]). split; [done|]. destruct HE' as [-> | ->]; auto.
Qed.

(** C8. [Edge::destroy] removes the edge from the table and from memory; when it
    throws after the relation was deleted, memory still has the edge. *)
Theorem edgeDestroy_synced s E d :
  synced s E -> schema_ids (db_schema s) -> rid_ok (rd_rid d) ->
  match edgeDestroy fill d s with
  | (s', Ok _) => synced s' (delete (rd_rid d) E)
  | (s', Throw _) =>
      repr (db_relation s') (db_txn s') E /\
      (stored_edges (db_store s') E \/ stored_edges (db_store s') (delete (rd_rid d) E))
  | (_, UB) => True
  end.
Proof. apply edgeDestroy_ends. Qed.

Lemma updateEnds_ends s E d r :
  synced s E -> schema_ids (db_schema s) -> rid_ok (rd_rid d) -> rid_ok (rd_rid r) ->
  usable (db_relation s) (db_txn s) (rd_rid r) ->
  match updateSrc fill d r s with
  | (s', Ok _) => exists a b, E !! rd_rid d = Some (a, b) /\ synced s' (<[rd_rid d := (rd_rid r, b)]> E)
  | (s', Throw _) => synced s' E
  | (_, UB) => True
  end /\
  match updateDst d r s with
  | (s', Ok _) => exists a b, E !! rd_rid d = Some (a, b) /\ synced s' (<[rd_rid d := (a, rd_rid r)]> E)
  | (s', Throw _) => synced s' E
  | (_, UB) => True
  end.
Proof.
  intros Hsync Hids Hk Hr Hu.
  assert (forall s', quiet s s' -> synced s' E) as HR by (intros s' Hs'; eapply synced_same; [by apply quiet_same|done]).
  assert (forall side, hoare (quiet s) (moveEnd side (rd_rid d) (rd_rid r))
    (fun _ s' => exists sd, E !! rd_rid d = Some sd /\ synced s' (<[rd_rid d := withEnd side (rd_rid r) sd]> E))
    (fun s' => synced s' E)) as Hmove.
  { intros side s1 Hs1. pose proof (between_quiet _ _ _ Hsync Hs1) as Hb.
    pose proof (moveEnd_spec side s s1 E (rd_rid d) (rd_rid r) Hb Hk Hr) as Hm.
    rewrite (q_graph _ _ Hs1), (q_txn _ _ Hs1) in Hm. specialize (Hm Hu).
    destruct (moveEnd _ _ _ s1) as [s2 [[]|e|]]; [done| |done]. destruct Hm as [_ ->]. by apply HR. }
  split.
  - cut (hoare (quiet s) (updateSrc fill d r)
      (fun _ s' => exists sd, E !! rd_rid d = Some sd /\ synced s' (<[rd_rid d := withEnd SRC (rd_rid r) sd]> E))
      (fun s' => synced s' E)).
    { intros Hh. specialize (Hh s (quiet_refl s)). destruct (updateSrc _ _ _ _) as [s' [[]|e|]]; [|done..].
      destruct Hh as ([a b] & ? & ?). by exists a, b. }
    unfold updateSrc. apply hoare_skip; [apply keeps_asks|done|]. intros _.
    apply hoare_skip; [|done|].
    { apply keeps_ignore. eapply keeps_bind_with; [unfold getSrc, edgeEnd, classOf; auto 10 using keeps_getRecord with keeps| |].
      - by apply (edgeEnd_ok s E).
      - intros cur Hcur. by apply quiet_update; auto. }
    intros _. apply hoare_skip; [|done|].
    { apply keeps_ignore, keeps_bind; [apply keeps_getRecord|]. intros r'. by apply quiet_update; auto. }
    intros _. apply hoare_skip; [apply keeps_asks|done|]. intros c. apply hoare_skip; [apply keeps_asks|done|]. intros _.
    apply hoare_skip; [apply keeps_asks|done|]. intros found. destruct (dataEmpty found); [by apply hoare_throw|].
    apply hoare_skip; [apply keeps_asks|done|]. intros data. destruct (dataEmpty data); [by apply hoare_throw|].
    apply (Hmove SRC).
  - cut (hoare (quiet s) (updateDst d r)
      (fun _ s' => exists sd, E !! rd_rid d = Some sd /\ synced s' (<[rd_rid d := withEnd DST (rd_rid r) sd]> E))
      (fun s' => synced s' E)).
    { intros Hh. specialize (Hh s (quiet_refl s)). destruct (updateDst _ _ _) as [s' [[]|e|]]; [|done..].
      destruct Hh as ([a b] & ? & ?). by exists a, b. }
    unfold updateDst. apply hoare_skip; [apply keeps_asks|done|]. intros _.
    apply hoare_skip; [apply keeps_asks|done|]. intros c. apply hoare_skip; [apply keeps_asks|done|]. intros _.
    apply hoare_skip; [apply keeps_asks|done|]. intros found. destruct (dataEmpty found); [by apply hoare_throw|].
    apply hoare_skip; [apply keeps_asks|done|]. intros data. destruct (dataEmpty data); [by apply hoare_throw|].
    apply (Hmove DST).
Qed.


(** ** Destroying a vertex *)
Definition incident (v : RecordId) (sd : RecordId * RecordId) : Prop := sd.1 = v \/ sd.2 = v.
Definition without (v : RecordId) (E : gmap RecordId (RecordId * RecordId)) : gmap RecordId (RecordId * RecordId) :=
  filter (fun p => p.2.1 <> v /\ p.2.2 <> v) E.
Definition deleteAll (es : list RecordId) (E : gmap RecordId (RecordId * RecordId)) : gmap RecordId (RecordId * RecordId) :=
  fold_left (fun E e => delete e E) es E.

Lemma lookup_deleteAll es : forall E k, deleteAll es E !! k = if decide (k ∈ es) then None else E !! k.
Proof.
  induction es as [|e es IH]; intros E k; [done|]. unfold deleteAll in *. simpl. rewrite IH.
  destruct (decide (k ∈ es)) as [Hin|Hin].
  - rewrite decide_True by (by right). done.
  - destruct (decide (k = e)) as [->|Hne].
    + rewrite decide_True by (by left). by rewrite lookup_delete_eq.
    + rewrite lookup_delete_ne by done. rewrite decide_False by (by intros [?|?]%elem_of_cons). done.
Qed.

Lemma deleteAll_incident es E v :
  (forall k, k ∈ es <-> exists sd, E !! k = Some sd /\ incident v sd) -> deleteAll es E = without v E.
Proof.
  intros Hes. apply map_eq. intros k. rewrite lookup_deleteAll. unfold without. rewrite map_lookup_filter.
  destruct (E !! k) as [sd|] eqn:HE; simpl; [|by case_decide].
  case_decide as Hin.
  - apply Hes in Hin as (sd' & HE' & Hinc). simplify_eq. rewrite option_guard_False; [done|].
    intros [? ?]. by destruct Hinc.
  - rewrite option_guard_True; [done|]. split; intros He; destruct Hin; apply Hes; exists sd; split; try done;
      [by left|by right].
Qed.

Lemma without_without v E : without v (without v E) = without v E.
Proof.
  apply map_filter_filter_l. by intros k sd _ ?.
Qed.

(** What a throwing command may leave: memory knows some of the edges, and the
    store all of those but one. *)
Definition torn (s0 s : Db D) (E : gmap RecordId (RecordId * RecordId)) : Prop :=
  exists E1 E2, E1 ⊆ E /\ (E2 = E1 \/ exists k, E2 = delete k E1) /\ between s0 s E1 E2.

Lemma hoare_destroyAll s0 es : forall E,
  schema_ids (db_schema s0) -> (forall e, e ∈ es -> rid_ok e) ->
  hoare (fun s => between s0 s E E) (cfor es (fun e => edgeDestroy fill (rdescOf e)))
    (fun _ s => between s0 s (deleteAll es E) (deleteAll es E)) (fun s => torn s0 s E).
Proof.
  induction es as [|e es IH]; intros E Hids Hes; [by intros s Hs|]. cbn [cfor]. eapply hoare_bind.
  - eapply hoare_weaken; [apply (hoare_edgeDestroy s0 E (rdescOf e) Hids); apply Hes; by left|done|done|].
    intros s (E' & HE' & Hs). exists E, E'. split_and!; [done| |done]. destruct HE' as [-> | ->]; eauto.
  - intros []. eapply hoare_weaken; [apply (IH (delete e E) Hids)| | |]; [intros e' He'; apply Hes; by right|done|done|].
    intros s (E1 & E2 & Hsub & HE2 & Hs). exists E1, E2. split_and!; [|done..]. etrans; [done|]. apply delete_subseteq.
Qed.

Lemma incidentEdges_spec s E v es :
  synced s E -> catch NOGDB_GRAPH_NOEXST_VERTEX (getEdgeInOut (db_relation s) (db_txn s) v 0%Z) (Ok []) = Ok es ->
  forall k, k ∈ es <-> exists sd, E !! k = Some sd /\ incident v sd.
Proof.
  intros [Hr _ _] H k. pose proof (r_base _ _ _ _ _ Hr) as Hb.
  destruct (lookupVertex (db_relation s) (db_txn s) v) as [[l vx]|] eqn:Hl.
  - apply lookupVertex_spec in Hl as [Hv _]; [|done].
    destruct (edgeInOut_spec _ _ _ v 0%Z l Hr Hv) as (res & Hres & _ & Hin). rewrite Hres in H. injection H as <-.
    rewrite (Hin k). unfold incident_in, incident. cbn [proj_of]. split.
    + intros [((sd & HE & Hp) & _)|((sd & HE & Hp) & _)]; exists sd; auto.
    + intros (sd & HE & [Hp|Hp]); [left|right]; (split; [by exists sd|by left]).
  - unfold getEdgeInOut, withVertex in H. rewrite Hl in H. injection H as <-. split; [by intros ?%elem_of_nil|].
    intros (sd & HE & Hinc). exfalso.
    assert (exists l, vvis (db_relation s) (db_txn s) v l) as [l Hv].
    { destruct Hinc as [<-|<-].
      - destruct (proj1 (r_src _ _ _ _ _ Hr) k sd HE) as (le & l & _ & Hv & _). by exists l.
      - destruct (proj1 (r_dst _ _ _ _ _ Hr) k sd HE) as (le & l & _ & Hv & _). by exists l. }
    destruct (lock_vvis _ _ Hb v l Hv) as (vx & _ & Hvx & _).
    assert (lookupVertex (db_relation s) (db_txn s) v = Some (l, vx)) by (by apply lookupVertex_spec). congruence.
Qed.

Lemma vertexDestroy_ends s E d :
  synced s E -> schema_ids (db_schema s) ->
  match vertexDestroy fill d s with
  | (s', Ok _) => synced s' (without (rd_rid d) E) /\
      forall l, ~ vvis (db_relation s') (db_txn s') (rd_rid d) l
  | (s', Throw _) => torn s s' E
  | (_, UB) => True
  end.
Proof.
  intros Hsync Hids. set (v := rd_rid d).
  assert (forall s', between s s' E E -> torn s s' E) as Htorn by (intros s' Hs'; exists E, E; auto).
  cut (hoare (fun s' => between s s' E E) (vertexDestroy fill d)
    (fun _ s' => synced s' (without v E) /\ forall l, ~ vvis (db_relation s') (db_txn s') v l) (fun s' => torn s s' E)).
  { intros Hh. apply Hh. by apply between_quiet. }
  unfold vertexDestroy. apply hoare_skip; [apply keeps_asks|done|]. intros _.
  eapply (hoare_fact _ _ _ _ _ (fun c => 0 <= cd_id c)%Z); [done| |].
  { intros s1 c Hs1 Hc. outcome_simpl. destruct a as [l c]. apply getClass_heap in E0. simpl.
    rewrite (bt_schema _ _ _ _ Hs1) in E0. by apply Hids in E0 as [? _]. }
  intros c Hc. apply hoare_skip; [unfold classInfo; apply keeps_asks|done|]. intros info.
  eapply (hoare_fact _ _ _ _ _ (fun es => forall k, k ∈ es <-> exists sd, E !! k = Some sd /\ incident v sd)); [done| |].
  { intros s1 es Hs1 Hes. by apply (incidentEdges_spec s1); [eapply between_synced|]. }
  intros es Hes. eapply hoare_bind.
  { apply (hoare_destroyAll s es E Hids). intros k (sd & HE & _)%Hes. by apply (sy_ids _ _ Hsync k sd). }
  intros []. rewrite (deleteAll_incident es E v Hes). apply hoare_skip; [by apply keeps_removeRecord| |].
  { intros s1 Hs1. exists (without v E), (without v E). split_and!; [apply map_filter_subseteq|by left|done]. }
  intros [] s1 [H1 H2 H3 H4]. unfold onGraph.
  destruct (deleteVertex_repr _ _ _ v H2) as [H2' Hgone].
  change (filter _ (without v E)) with (without v (without v E)) in H2'. rewrite (without_without v E) in H2'.
  split; [|done]. by split.
Qed.

(** C7. [Vertex::destroy] removes the vertex with every edge at it, from the table
    and from memory. *)
Theorem vertexDestroy_synced s E d :
  synced s E -> schema_ids (db_schema s) ->
  match vertexDestroy fill d s with
  | (s', Ok _) => synced s' (without (rd_rid d) E) /\
      forall l, ~ vvis (db_relation s') (db_txn s') (rd_rid d) l
  | (s', Throw _) => torn s s' E
  | (_, UB) => True
  end.
Proof. apply vertexDestroy_ends. Qed.
End destroy.
