(* ===== verification/RecordSpec.v ===== *)
(** * Creating, updating and reading records

    A record created or updated by the commands of [Commands] is read back
    with its properties and its stamps, and no other record changes; the last
    sections state what the commands do at the end of the range of positions,
    after the records of a class were destroyed, and to the ends of the edges
    of a class. *)

From stdpp Require Import base gmap sets list strings sorting.
From Stdlib Require Import ZArith Lia ZifyBool.
From S2P Require Import Prelude Types Store Blob VersionControl TxnData RecordModel Parser.
From S2P Require Import Graph GraphSpec Schema Validate Generic Compare Index Commands CommandSpec.

#[local] Arguments le_bytes : simpl never.

(** ** The basic properties of a record *)
Lemma properties_setBasicIfNot n v r : properties (setBasicInfoIfNotExists n v r) = properties r.
Proof. unfold setBasicInfoIfNotExists, setBasicInfo. by repeat case_match. Qed.

Lemma basic_setBasicIfNot n v r k :
  isBasicName n = true ->
  basicProperties (setBasicInfoIfNotExists n v r) !! k =
    match basicProperties r !! k with Some x => Some x | None => if decide (k = n) then Some v else None end.
Proof.
  intros Hn. unfold setBasicInfoIfNotExists, setBasicInfo. destruct (basicProperties r !! n) as [x|] eqn:E.
  - destruct (basicProperties r !! k) eqn:Ek; [done|]. case_decide; [by subst; congruence|done].
  - destruct n as [|ch n]; [done|]. rewrite Hn. simpl. rewrite lookup_insert.
    case_decide as Hd; [subst; rewrite E; by rewrite decide_True|].
    destruct (basicProperties r !! k); [done|]. by rewrite decide_False.
Qed.

(** Reading adds the basic information the bytes do not have. *)
Lemma withBasicInfo name rid raw info r :
  parseRawData raw info = Ok r ->
  exists rec, parseRawDataWithBasicInfo name rid raw info = Ok rec /\ properties rec = properties r /\
    (forall k x, basicProperties r !! k = Some x -> basicProperties rec !! k = Some x) /\
    (basicProperties r !! RECORD_ID_PROPERTY = None -> basicProperties rec !! RECORD_ID_PROPERTY = Some (cstr (rid2str rid))).
Proof.
  intros H. unfold parseRawDataWithBasicInfo. rewrite H. cbn [obind]. eexists. split; [done|].
  rewrite !properties_setBasicIfNot. split_and!; [done| |].
  - intros k x Hk. by rewrite !basic_setBasicIfNot, Hk.
  - intros Hr. rewrite !basic_setBasicIfNot, Hr by done. reflexivity.
Qed.

Lemma rid2str_cstr rid : rid_ok rid -> cstr (rid2str rid) = rid2str rid.
Proof.
  intros [H1 H2]. apply cstr_id. unfold rid2str. rewrite !Forall_app.
  assert (forall z, (0 <= z)%Z -> Forall (fun b => b <> 0%Z) (to_string z)) as Hd.
  { intros z Hz. unfold to_string. apply Forall_fmap. eapply Forall_impl; [by apply digits_aux_range|]. simpl. lia. }
  split_and!; [apply Hd; lia|by repeat constructor|apply Hd; lia].
Qed.

(** ** Stamps *)
Lemma properties_stampNew v r : properties (stampNew v r) = properties r.
Proof. done. Qed.
Lemma basic_stampNew v r k :
  basicProperties (stampNew v r) !! k =
    if decide (k = VERSION_PROPERTY) then Some (le_bytes 8 1)
    else if decide (k = TXN_VERSION) then Some (le_bytes 8 v) else basicProperties r !! k.
Proof.
  unfold stampNew, setBasicInfo. simpl. rewrite !lookup_insert. repeat case_decide; congruence.
Qed.

Lemma wf_stampNew v r : wf_record r -> wf_record (stampNew v r).
Proof.
  intros [H1 H2]. split; [done|]. intros k x. rewrite basic_stampNew. repeat case_decide; subst; [done..|].
  by intros ?%H2.
Qed.

(** A stamped record is never too short to be read back. *)
Lemma stored_size r v : basicProperties r !! VERSION_PROPERTY = Some v -> length v = 8 -> 4 <= sizesOf (storedItems r).
Proof.
  intros Hv Hlen. assert ((VERSION_PROPERTY, v) ∈ storedItems r) as Hin.
  { unfold storedItems. rewrite elem_of_app, list_elem_of_filter, !elem_of_map_items. right. by split. }
  apply list_elem_of_split in Hin as (l1 & l2 & ->). unfold sizesOf. rewrite sum_list_with_app.
  cbn [sum_list_with]. unfold getRawDataSize at 2. simpl. rewrite Hlen. lia.
Qed.

Section record.
  Context {D : Type} `{!Lmdb D, !LmdbLaws D} (fill : byte).
  Context (s : Db D) (l : Loc) (c : ClassDescriptor) (info : ClassPropertyInfo).
  Context (Hvalid : isTransactionValid (db_txn s) = Ok tt).
  Context (Hany : getClassDescriptor (db_schema s) (db_txn s) (cd_id c) CT_UNDEFINED = Ok (l, c)).
  Context (Hinfo : getClassMapProperty (db_schema s) (db_txn s) c = Ok info).
  Context (Hnoidx : no_index (cd_id c) info) (Hid : (0 <= cd_id c)%Z).

Lemma parseFor_stored r v :
  wf_record r -> describes info (properties r) -> describes info (basicProperties r) ->
  basicProperties r !! VERSION_PROPERTY = Some v -> length v = 8 ->
  exists value, parseFor fill c r s = (s, Ok (value, ∅, info)) /\ dataEmpty (Some value) = false /\
    parseRawData (Some value) info = Ok (mkDbRecord (properties r) (storedBasics r)).
Proof.
  intros Hwf Hu Hb Hv Hlen. pose proof (stored_size r v Hv Hlen) as Hsize.
  destruct (parseRecord_stored fill (cd_id c) info r Hwf Hu Hb Hsize) as (b & idx & Hp & Hl & Hr & Hw & Hi).
  exists (written b). unfold parseFor, classInfo, cbind, asks. rewrite Hinfo. cbn [obind]. rewrite Hp. cbn [obind].
  rewrite (Hi Hnoidx), Hw. split_and!; [done| |done]. destruct (value_ b); [simpl in Hl; lia|done].
Qed.

(** Reading a record of the class from a store that differs only in data. *)
Lemma getRecord_value d rid value r :
  rid.1 = cd_id c -> dbGet d (to_string (cd_id c)) (KNum rid.2) = Some value -> dataEmpty (Some value) = false ->
  parseRawData (Some value) info = Ok r ->
  exists rec, getRecord (rdescOf rid) (setStore d s) = (setStore d s, Ok rec) /\ properties rec = properties r /\
    (forall k x, basicProperties r !! k = Some x -> basicProperties rec !! k = Some x) /\
    (basicProperties r !! RECORD_ID_PROPERTY = None -> basicProperties rec !! RECORD_ID_PROPERTY = Some (cstr (rid2str rid))).
Proof.
  intros Hc Hg Hne Hp. unfold getRecord, classOf, classInfo, cbind, asks. cbn [rd_rid rdescOf setStore db_schema db_txn db_store].
  rewrite Hc, Hany. cbn [obind snd]. rewrite Hinfo, Hg, Hne.
  destruct (withBasicInfo (bytes_of_string (getCurrentVersion (db_txn s) (cd_name c)).1) rid (Some value) info r Hp)
    as (rec & Hrec & H). exists rec. by rewrite Hrec.
Qed.

Lemma storedBasics_lookup r k x :
  basicProperties r !! k = Some x -> isStoredBasic k = true -> storedBasics r !! k = Some x.
Proof. intros Hk Hs. unfold storedBasics. by apply map_lookup_filter_Some. Qed.

Lemma storedBasics_rid r : storedBasics r !! RECORD_ID_PROPERTY = None.
Proof. unfold storedBasics. apply map_lookup_filter_None. right. by intros ? _. Qed.

(** C11. [Vertex::create] in a class without indexes gives the record the next
    position, stamped with version one and the transaction; [Db::getRecord]
    reads it back, and every other record is unchanged. *)
Theorem vertexCreate_get className record m :
  getClassDescriptorByName (db_schema s) (db_txn s) className VERTEX = Ok (l, c) ->
  wf_record record -> describes info (properties record) ->
  describes info (basicProperties (stampNew (txnVersionId (db_txn s)) record)) ->
  class_table (db_store s) (cd_id c) m -> (cd_id c <= UINT16_MAX)%Z ->
  let rid := (cd_id c, m) in
  exists d rec, vertexCreate fill className record s =
      (setStore d s, Ok (rdescOf rid, stampNew (txnVersionId (db_txn s)) record)) /\
    getRecord (rdescOf rid) (setStore d s) = (setStore d s, Ok rec) /\
    properties rec = properties record /\
    basicProperties rec !! VERSION_PROPERTY = Some (le_bytes 8 1) /\
    basicProperties rec !! TXN_VERSION = Some (le_bytes 8 (txnVersionId (db_txn s))) /\
    basicProperties rec !! RECORD_ID_PROPERTY = Some (rid2str rid) /\
    (forall k, rid_ok k -> k <> rid -> getData d k = getData (db_store s) k) /\
    ((m < UINT32_MAX)%Z -> class_table d (cd_id c) (m + 1)).
Proof.
  intros Hname Hwf Hu Hb Hct Hid2 rid. set (v := txnVersionId (db_txn s)) in *. set (r := stampNew v record) in *.
  assert (basicProperties r !! VERSION_PROPERTY = Some (le_bytes 8 1)) as Hver by (unfold r; by rewrite basic_stampNew).
  assert (basicProperties r !! TXN_VERSION = Some (le_bytes 8 v)) as Htxn by (unfold r; by rewrite basic_stampNew).
  destruct (parseFor_stored r (le_bytes 8 1)) as (value & Hpf & Hne & Hparse);
    [by apply wf_stampNew|done|done|done|apply length_le_bytes|].
  destruct (insertRecord_spec s (cd_id c) m value Hct) as (d & Hins & Ho & Ht & Hg & Hn).
  pose proof (ct_range _ _ _ Hct) as Hm.
  assert (dbGet d (to_string (cd_id c)) (KNum m) = Some value) as Hv.
  { rewrite Hg, decide_False, decide_True by (unfold EM_MAXRECNUM; lia). done. }
  destruct (getRecord_value d rid value _ eq_refl Hv Hne Hparse) as (rec & Hrec & Hp & Hbasic & Hrid).
  exists d, rec. split_and!; [|done|done| | | | |done].
  - unfold vertexCreate, validTransaction, classNamed. unfold cbind, asks. rewrite Hvalid, Hname. cbn [obind snd].
    fold v r. rewrite Hpf, Hins. done.
  - apply Hbasic. by apply storedBasics_lookup.
  - apply Hbasic. by apply storedBasics_lookup.
  - rewrite Hrid by apply storedBasics_rid. f_equal. apply rid2str_cstr. split; simpl; lia.
  - intros k [Hk1 Hk2] Hne'. unfold getData. destruct (decide (k.1 = cd_id c)) as [Heq|Hdiff].
    + rewrite Heq, Hg, decide_False, decide_False; [done| |unfold EM_MAXRECNUM; lia].
      intros Hk. apply Hne'. unfold rid. destruct k; simpl in *; congruence.
    + apply dbGet_ext, Ho. intros Hs. apply Hdiff, to_string_inj; [unfold UINT16_MAX, UINT64_MAX in *; lia..|done].
Qed.

Lemma existingIndexInfos_none r : existingIndexInfos (cd_id c) info r = ∅.
Proof.
  unfold existingIndexInfos. apply (fold_left_inv _ (fun m => m = ∅)); [|done]. intros m p ->.
  destruct (nameToDesc info !! p.1) as [d|] eqn:E; [|done]. by rewrite (Hnoidx _ _ E).
Qed.

(** C31. [Vertex::update] and [Edge::update] of a record of a class without
    indexes: a missing record is reported and nothing changes; otherwise the
    new properties and the stamps of [updateVersion] are read back, and every
    other record is unchanged. *)
Theorem updateRecord_get type missing d record r x :
  getClassDescriptor (db_schema s) (db_txn s) (cd_id c) type = Ok (l, c) ->
  (rd_rid d).1 = cd_id c -> rid_ok (rd_rid d) -> table (db_store s) (to_string (cd_id c)) ->
  updateVersion (txnVersionId (db_txn s)) record = Ok r -> wf_record r ->
  describes info (properties r) -> describes info (basicProperties r) ->
  basicProperties r !! VERSION_PROPERTY = Some x -> length x = 8 ->
  (dataEmpty (getData (db_store s) (rd_rid d)) = true ->
     updateRecord fill type missing d record s = (s, Throw missing)) /\
  (forall old, dataEmpty (getData (db_store s) (rd_rid d)) = false ->
     parseRawData (getData (db_store s) (rd_rid d)) info = Ok old ->
     exists d' rec, updateRecord fill type missing d record s = (setStore d' s, Ok tt) /\
       getRecord (rdescOf (rd_rid d)) (setStore d' s) = (setStore d' s, Ok rec) /\
       properties rec = properties r /\
       (forall k y, basicProperties r !! k = Some y -> isStoredBasic k = true -> basicProperties rec !! k = Some y) /\
       (forall k, rid_ok k -> k <> rd_rid d -> getData d' k = getData (db_store s) k)).
Proof.
  intros Hcls Heq Hrid Htab Hup Hwf Hu Hb Hx Hlen. unfold getData.
  destruct (parseFor_stored r x Hwf Hu Hb Hx Hlen) as (value & Hpf & Hne & Hparse).
  assert (forall A (k : unit -> Cmd D A), cbind validTransaction k s = k tt s) as Hv
    by (intros; unfold cbind, validTransaction, asks; by rewrite Hvalid).
  unfold updateRecord. rewrite Hv. unfold classOf, cbind, asks. rewrite Hup, Heq, Hcls. cbn [obind snd].
  rewrite Hpf. split; [by intros ->|]. intros old -> Hold. rewrite Hold, existingIndexInfos_none.
  change (deleteIndexes ∅ (rd_rid d).2 old s) with (s, Ok tt : Outcome unit).
  destruct (put_total (db_store s) true (to_string (cd_id c)) (KNum (rd_rid d).2) value) as [d' Hput]; [done|].
  destruct (put_inv _ _ _ _ _ _ _ _ Hput) as [_ Hother].
  assert (dbGet d' (to_string (cd_id c)) (KNum (rd_rid d).2) = Some value) as Hval
    by (rewrite (put_get _ _ _ _ _ _ _ _ Hput Htab); by rewrite decide_True).
  destruct (getRecord_value d' (rd_rid d) value _ Heq Hval Hne Hparse) as (rec & Hrec & Hp & Hbasic & _).
  exists d', rec. unfold onStore. change (addIndexes ∅ (rd_rid d).2 r s) with (s, Ok tt : Outcome unit).
  cbv beta iota. rewrite Hput. split_and!; [done|done|done| |].
  - intros k y Hk Hs. apply Hbasic. by apply storedBasics_lookup.
  - intros k [Hk1 Hk2] Hne'. destruct (decide (k.1 = cd_id c)) as [Hsame|Hdiff].
    + rewrite Hsame, (put_get _ _ _ _ _ _ _ _ Hput Htab), decide_False; [done|].
      intros [= Hk]. apply Hne'. destruct k, (rd_rid d); simpl in *; congruence.
    + apply dbGet_ext, Hother. destruct Hrid as [Hrid1 _]. intros Hs. apply Hdiff, to_string_inj;
        [unfold UINT16_MAX, UINT64_MAX in *; lia..|done].
Qed.
End record.
