(* ===== verification/ClassCommands.v ===== *)
(** * Class and property commands

    Model of [Class] (src/src/class.cpp) and [Property] (src/src/property.cpp):
    the commands that define classes, their properties and their indexes keep
    the catalog tables of the data store and the schema in memory in step.
    Numbers of classes, properties and indexes are taken from the counters of
    the transaction before the schema is consulted, as in the code. *)

From stdpp Require Import base gmap sets list strings sorting.
From Stdlib Require Import ZArith Lia.
From S2P Require Import Prelude Types Store Blob VersionControl TxnObject TxnData RecordModel Parser.
From S2P Require Import Graph Schema Validate Generic Compare Index Commands.

(** [CLASS_ID_UPPER_LIMIT] *)
Definition CLASS_ID_UPPER_LIMIT : Z := (UINT16_MAX - 1)%Z.

(** ** The rows of the catalog *)
Definition catalogRow (type : Z) (id : ClassId) (name : string) : Outcome Blob :=
  let n := bytes_of_string name in
  let* b1 := append (le_bytes 4 type) 4 (newBlob (4 + 2 + length n)) in
  let* b2 := append (le_bytes 2 id) 2 b1 in
  append n (length n) b2.
Definition classRow (type : ClassType) (superClassId : ClassId) (name : string) : Outcome Blob :=
  catalogRow (ClassType_code type) superClassId name.
Definition propertyRow (type : PropertyType) (classId : ClassId) (name : string) : Outcome Blob :=
  catalogRow (PropertyType_code type) classId name.

Definition indexRow (isUnique : bool) (indexId : IndexId) (classId : ClassId) : Outcome Blob :=
  let* b1 := append [0%Z] 1 (newBlob (1 + 1 + 4 + 2)) in
  let* b2 := append [if isUnique then 1%Z else 0%Z] 1 b1 in
  let* b3 := append (le_bytes 4 indexId) 4 b2 in
  append (le_bytes 2 classId) 2 b3.

(** ** The counters of a transaction *)
Definition setTxnDbInfo (f : DBInfo -> DBInfo) (t : BaseTxn) : BaseTxn :=
  mkBaseTxn (txnType t) (txnId t) (txnVersionId t) (f (txnDbInfo t)) (ucSchema t) (ucVertices t) (ucEdges t)
    (isWithDataStore t) (isCompleted t) (isCommitDatastore t).

Definition addClassId (i : DBInfo) : DBInfo :=
  mkDBInfo (maxPropertyId i) (numProperty i) (u16 (maxClassId i + 1)) (numClass i) (maxIndexId i) (numIndex i).
Definition addPropertyId (i : DBInfo) : DBInfo :=
  mkDBInfo (u16 (maxPropertyId i + 1)) (numProperty i) (maxClassId i) (numClass i) (maxIndexId i) (numIndex i).
Definition addIndexId (i : DBInfo) : DBInfo :=
  mkDBInfo (maxPropertyId i) (numProperty i) (maxClassId i) (numClass i) (u32 (maxIndexId i + 1)) (numIndex i).
Definition countClasses (n : Z) (i : DBInfo) : DBInfo :=
  mkDBInfo (maxPropertyId i) (numProperty i) (maxClassId i) (u16 (numClass i + n)) (maxIndexId i) (numIndex i).
Definition countProperties (n : Z) (i : DBInfo) : DBInfo :=
  mkDBInfo (maxPropertyId i) (u16 (numProperty i + n)) (maxClassId i) (numClass i) (maxIndexId i) (numIndex i).
Definition countIndexes (n : Z) (i : DBInfo) : DBInfo :=
  mkDBInfo (maxPropertyId i) (numProperty i) (maxClassId i) (numClass i) (maxIndexId i) (u32 (numIndex i + n)).

(** ** Class objects *)

(** [make_shared<ClassDescriptor>(id, name, type)] *)
Definition allocClass (c : ClassDescriptor) (s : Schema) : Loc * Schema :=
  let l := fresh (dom (sheap s)) in
  (l, mkSchema (<[l := c]> (sheap s)) (schemaInfo s) (deletedClassId s) (heldClasses s)).

(** [v.erase(remove_if(v.begin(), v.end(), pred))]: the kept elements come
    first; of the rest, where moved-from pointers are empty, one element is
    erased, and erasing the end is undefined. *)
Definition eraseRemoved (pred : WeakPtr -> bool) (v : list WeakPtr) : Outcome (list WeakPtr) :=
  let kept := filter (fun w => pred w = false) v in
  if bool_decide (length kept = length v) then UB
  else Ok (kept ++ drop (S (length kept)) ((fun w => if pred w then w else None) <$> v)).

(** ** Index information of a property: a multimap in the order of class ids *)
Fixpoint indexInfo_insert (x : ClassId * (IndexId * bool)) (l : SIndexInfo) : SIndexInfo :=
  match l with
  | y :: l' => if (y.1 <=? x.1)%Z then y :: indexInfo_insert x l' else x :: l
  | [] => [x]
  end.
Definition indexInfo_find (id : ClassId) (l : SIndexInfo) : option (IndexId * bool) :=
  snd <$> List.find (fun x => (x.1 =? id)%Z) l.
Definition indexInfo_erase (id : ClassId) (l : SIndexInfo) : SIndexInfo := filter (fun x => x.1 <> id) l.
Definition setIndexInfo (f : SIndexInfo -> SIndexInfo) (d : SPropertyDescriptor) : SPropertyDescriptor :=
  mkSPropertyDescriptor (spd_id d) (spd_type d) (f (spd_indexInfo d)).

Section commands.
  Context {D : Type} `{!Lmdb D} (fill : byte).

Definition onSchema (f : Schema -> BaseTxn -> Outcome (Schema * BaseTxn)) : Cmd D unit :=
  fun s => match f (db_schema s) (db_txn s) with
           | Ok p => (setSchema p s, Ok tt)
           | Throw e => (s, Throw e)
           | UB => (s, UB)
           end.
Definition onInfo (f : DBInfo -> DBInfo) : Cmd D unit := onSchema (fun s t => Ok (s, setTxnDbInfo f t)).
Definition check (f : Schema -> BaseTxn -> Outcome unit) : Cmd D unit := asks (fun s => f (db_schema s) (db_txn s)).
Definition throws {A} (e : Error) : Cmd D A := asks (fun _ => Throw e).

(** Taking the next number of a counter, below its limit. *)
Definition nextId (counter : DBInfo -> Z) (limit : Z) (advance : DBInfo -> DBInfo) : Cmd D Z :=
  let? n := asks (fun s => Ok (counter (txnDbInfo (db_txn s)))) in
  if (limit <=? n)%Z then throws NOGDB_CTX_LIMIT_DBSCHEMA
  else
    let? _ := onInfo advance in
    asks (fun s => Ok (counter (txnDbInfo (db_txn s)))).
Definition nextClassId : Cmd D ClassId := nextId maxClassId CLASS_ID_UPPER_LIMIT addClassId.

Definition existingClass (name : string) : Cmd D (Loc * ClassDescriptor) :=
  asks (fun s => isExistingClassByName (db_schema s) (db_txn s) name).
Definition classAt (l : Loc) : Cmd D ClassDescriptor :=
  asks (fun s => match sheap (db_schema s) !! l with Some c => Ok c | None => UB end).
Definition publicClass (l : Loc) : Cmd D PClassDescriptor :=
  let? c := classAt l in asks (fun s => transform (db_schema s) (db_txn s) c).

Definition newClass (c : ClassDescriptor) : Cmd D Loc :=
  fun s => let '(l, s') := allocClass c (db_schema s) in (setSchema (s', db_txn s) s, Ok l).

(** The rows of a new class: its catalog entry and its table with the number
    of the next record. *)
Definition putClassTables (id : ClassId) (row : list byte) : Cmd D unit :=
  let? _ := onStore (dbPut true TB_CLASSES (KNum id) row true true) in
  onStore (dbPut true (to_string id) (KNum EM_MAXRECNUM) (le_bytes 4 1) true true).

(** ** [Class::create] *)
Definition classCreate (className : string) (type : ClassType) : Cmd D PClassDescriptor :=
  let? _ := validTransaction in
  let? _ := check (fun _ _ => isClassNameValid className) in
  let? _ := check (fun _ _ => isClassTypeValid type) in
  let? id := nextClassId in
  let? _ := check (fun s t => isNotDuplicatedClass s t className) in
  let? l := newClass (newClassDescriptor id className type) in
  let? row := asks (fun _ => classRow type 0 className) in
  let? _ := putClassTables id (written row) in
  let? _ := onSchema (fun s t => Ok (s, insertClass l id t)) in
  let? _ := onInfo (countClasses 1) in
  publicClass l.

(** ** [Class::createExtend] *)
Definition addToSubs (lsup lsub : Loc) (id : ClassId) : Cmd D unit :=
  onSchema (fun s t =>
    match sheap s !! lsup with
    | None => UB
    | Some sup =>
        let subClasses := (getLatestVersion (cd_sub sup)).1 ++ [Some lsub] in
        Ok (updClass (setSub (addLatestVersion subClasses)) lsup s,
            addUncommittedSchema (cd_id sup) lsup (insertClass lsub id t))
    end).

Definition classCreateExtend (className superClass : string) : Cmd D PClassDescriptor :=
  let? _ := validTransaction in
  let? _ := check (fun _ _ => isClassNameValid className) in
  let? _ := check (fun _ _ => isClassNameValid superClass) in
  let? id := nextClassId in
  let? _ := check (fun s t => isNotDuplicatedClass s t className) in
  let? super := asks (fun s => getClassDescriptorByName (db_schema s) (db_txn s) superClass CT_UNDEFINED) in
  let type := cd_type super.2 in
  let? l := newClass (newClassDescriptor id className type) in
  let? row := asks (fun _ => classRow type (cd_id super.2) className) in
  let? _ := putClassTables id (written row) in
  let? found := asks (fun s => match findClass (db_schema s) (db_txn s) (cd_id super.2) with
                               | Some x => Ok x
                               | None => Throw NOGDB_CTX_INTERNAL_ERR
                               end) in
  let? _ := onSchema (fun s t => Ok (updClass (setSuper (addLatestVersion (Some found.1))) l s, t)) in
  let? _ := addToSubs found.1 l id in
  let? _ := onInfo (countClasses 1) in
  publicClass l.

(** ** [Class::alter] *)
Definition superIdOf (s : Schema) (t : BaseTxn) (c : ClassDescriptor) : ClassId :=
  match lockClass s t (getLatestVersion (cd_super c)).1 with Some (_, p) => cd_id p | None => 0%Z end.

Definition classAlter (oldClassName newClassName : string) : Cmd D unit :=
  let? _ := validTransaction in
  let? _ := check (fun _ _ => isClassNameValid newClassName) in
  let? found := existingClass oldClassName in
  let? _ := check (fun s t => isNotDuplicatedClass s t newClassName) in
  let? superClassId := asks (fun s => Ok (superIdOf (db_schema s) (db_txn s) found.2)) in
  let? row := asks (fun _ => classRow (cd_type found.2) superClassId newClassName) in
  let? _ := onStore (dbPut true TB_CLASSES (KNum (cd_id found.2)) (written row) false true) in
  onSchema (fun s t => Ok (replaceName s t found.1 found.2 newClassName)).

(** ** [Class::drop] *)

(** The stored records of the class and the relations they take part in. *)
Definition dropStoredEdge (e : RecordId) : Cmd D unit :=
  onStore (fun d => Ok (dbDel TB_RELATIONS (KStr (rid2str e)) (dbDel (to_string e.1) (KNum e.2) d))).
Definition dropRecord (c : ClassDescriptor) (p : PositionId) : Cmd D unit :=
  match cd_type c with
  | EDGE => onStore (fun d => Ok (dbDel TB_RELATIONS (KStr (rid2str (cd_id c, p))) d))
  | _ => let? edges := incidentEdges (cd_id c, p) in cfor edges dropStoredEdge
  end.

(** A subclass moves below the superclass of the dropped class. *)
Definition lockedSub (w : WeakPtr) : Cmd D (Loc * ClassDescriptor) :=
  asks (fun s => match lockClass (db_schema s) (db_txn s) w with
                 | Some x => Ok x
                 | None => Throw NOGDB_CTX_INTERNAL_ERR
                 end).
Definition storeSuper (superClassId : ClassId) (w : WeakPtr) : Cmd D unit :=
  let? sub := lockedSub w in
  let name := (getLatestVersion (cd_name sub.2)).1 in
  let? _ := check (fun _ _ => require (negb (bool_decide (name = EmptyString)))) in
  let? row := asks (fun _ => classRow (cd_type sub.2) superClassId name) in
  onStore (dbPut true TB_CLASSES (KNum (cd_id sub.2)) (written row) false true).
Definition moveSub (super : WeakPtr) (w : WeakPtr) : Cmd D unit :=
  let? sub := lockedSub w in
  onSchema (fun s t => Ok (updClass (setSuper (addLatestVersion super)) sub.1 s,
                           addUncommittedSchema (cd_id sub.2) sub.1 t)).

Definition namedClass (s : Schema) (t : BaseTxn) (className : string) (w : WeakPtr) : bool :=
  match lockClass s t w with
  | Some (_, c) => bool_decide ((getLatestVersion (cd_name c)).1 = className)
  | None => false
  end.

Definition classDrop (className : string) : Cmd D unit :=
  let? _ := validTransaction in
  let? found := existingClass className in
  let c := found.2 in
  if negb (bool_decide (cd_type c = VERTEX) || bool_decide (cd_type c = EDGE)) then throws NOGDB_CTX_UNKNOWN_ERR
  else
    let properties := map_items (getLatestVersion (cd_properties c)).1 in
    if existsb (fun p => negb (bool_decide (spd_indexInfo p.2 = []))) properties
    then throws NOGDB_CTX_IN_USED_PROPERTY
    else
      let? _ := onStore (fun d => Ok (dbDel TB_CLASSES (KNum (cd_id c)) d)) in
      let? _ := cfor properties (fun p => onStore (fun d => Ok (dbDel TB_PROPERTIES (KNum (spd_id p.2)) d))) in
      let? positions := asks (fun s => Ok (tablePositions (db_store s) (cd_id c))) in
      let? _ := cfor positions (dropRecord c) in
      let? _ := onStore (fun d => Ok (dbDrop (to_string (cd_id c)) d)) in
      let? super := asks (fun s => Ok (lockClass (db_schema s) (db_txn s) (getLatestVersion (cd_super c)).1)) in
      let superClassId := match super with Some (_, p) => cd_id p | None => 0%Z end in
      let subs := (getLatestVersion (cd_sub c)).1 in
      let? _ := cfor subs (storeSuper superClassId) in
      let? _ := cfor positions (fun p =>
        onGraph (fun g t => Ok (match cd_type c with
                                | VERTEX => deleteVertex g t (cd_id c, p)
                                | _ => deleteEdge g t (cd_id c, p)
                                end))) in
      let? _ :=
        match super with
        | Some (lsup, sup) =>
            let? others := asks (fun s =>
              eraseRemoved (namedClass (db_schema s) (db_txn s) className) (getLatestVersion (cd_sub sup)).1) in
            let? _ := cfor subs (moveSub (Some lsup)) in
            onSchema (fun s t => Ok (updClass (setSub (addLatestVersion (others ++ subs))) lsup s,
                                     addUncommittedSchema (cd_id sup) lsup t))
        | None => cfor subs (moveSub None)
        end in
      let? _ := onSchema (fun s t => Ok (eraseClass s t (cd_id c))) in
      let? _ := onInfo (countProperties (- Z.of_nat (length properties))) in
      onInfo (countClasses (-1)).

(** ** [Property::add], [Property::alter] and [Property::remove] *)
Definition propertyAdd (className propertyName : string) (type : PropertyType) : Cmd D PropertyDescriptor :=
  let? _ := validTransaction in
  let? _ := check (fun _ _ => isPropertyNameValid propertyName) in
  let? _ := check (fun _ _ => isPropertyTypeValid type) in
  let? id := nextId maxPropertyId UINT16_MAX addPropertyId in
  let? found := existingClass className in
  let? _ := check (fun s t => isNotDuplicatedProperty s t found.2 propertyName) in
  let? _ := check (fun s t => isNotOverridenProperty s t found.2 propertyName) in
  let d := mkSPropertyDescriptor id type [] in
  let? row := asks (fun _ => propertyRow type (cd_id found.2) propertyName) in
  let? _ := onStore (dbPut true TB_PROPERTIES (KNum id) (written row) false true) in
  let? _ := onSchema (fun s t => addProperty s t (cd_id found.2) propertyName d) in
  let? _ := onInfo (countProperties 1) in
  cret (transformProperty d).

Definition propertyAlter (className oldPropertyName newPropertyName : string) : Cmd D unit :=
  let? _ := validTransaction in
  let? _ := check (fun _ _ => isPropertyNameValid newPropertyName) in
  let? found := existingClass className in
  let? old := asks (fun s => isExistingProperty (db_txn s) found.2 oldPropertyName) in
  let? _ := check (fun s t => isNotDuplicatedProperty s t found.2 newPropertyName) in
  let? _ := check (fun s t => isNotOverridenProperty s t found.2 newPropertyName) in
  let? row := asks (fun _ => propertyRow (spd_type old) (cd_id found.2) newPropertyName) in
  let? _ := onStore (dbPut true TB_PROPERTIES (KNum (spd_id old)) (written row) false true) in
  onSchema (fun s t => renameProperty s t (cd_id found.2) oldPropertyName newPropertyName).

Definition propertyRemove (className propertyName : string) : Cmd D unit :=
  let? _ := validTransaction in
  let? found := existingClass className in
  let? d := asks (fun s => isExistingProperty (db_txn s) found.2 propertyName) in
  if negb (bool_decide (spd_indexInfo d = [])) then throws NOGDB_CTX_IN_USED_PROPERTY
  else
    let? _ := onStore (fun x => Ok (dbDel TB_PROPERTIES (KNum (spd_id d)) x)) in
    let? _ := onSchema (fun s t => deleteProperty s t (cd_id found.2) propertyName) in
    onInfo (countProperties (-1)).

(** ** [Property::createIndex] and [Property::dropIndex] *)

(** The entry of a stored record in a new index. *)
Definition indexRecord (indexId : IndexId) (positionId : PositionId) (bytesValue : list byte) (type : PropertyType)
    (isUnique : bool) (d : D) : Outcome D :=
  let put (n : DbName) (k : Key) := dbPut isUnique n k (le_bytes 4 positionId) false (negb isUnique) d in
  match type, bytesValue with
  | TEXT, _ =>
      let* v := toText bytesValue in
      match v with [] => Ok d | _ => put (getIndexingName indexId) (KStr v) end
  | _, [] => Ok d
  | _, _ =>
      let* v := indexValue type bytesValue in
      match v with
      | Some (IUnsigned z) => put (getIndexingName indexId) (indexKey (IUnsigned z))
      | Some x => put (getSignedIndexingName indexId (isGe0 x)) (indexKey x)
      | None => Ok d
      end
  end.

Definition indexStored (indexId : IndexId) (d : SPropertyDescriptor) (propertyName : string)
    (info : ClassPropertyInfo) (isUnique : bool) (x : PositionId * list byte) : Cmd D unit :=
  if (x.1 =? EM_MAXRECNUM)%Z then cret tt
  else
    let? r := asks (fun _ => parseRawData (Some x.2) info) in
    let? bytesValue := asks (fun _ => get propertyName r) in
    onStore (indexRecord indexId x.1 bytesValue (spd_type d) isUnique).

(** An error of a command, renamed. *)
Definition renameError {A} (e e' : Error) (m : Cmd D A) : Cmd D A :=
  fun s => let '(s1, r) := m s in
           match r with
           | Throw x => (s1, Throw (if bool_decide (x = e) then e' else x))
           | _ => (s1, r)
           end.

Definition createIndex (className propertyName : string) (isUnique : bool) : Cmd D unit :=
  let? _ := validTransaction in
  let? indexId := nextId maxIndexId UINT32_MAX addIndexId in
  let? found := existingClass className in
  let c := found.2 in
  let? based := asks (fun s => isExistingPropertyExtend (db_schema s) (db_txn s) c propertyName) in
  let d := based.2 in
  if bool_decide (spd_type d = BLOB) || bool_decide (spd_type d = PT_UNDEFINED)
  then throws NOGDB_CTX_INVALID_PROPTYPE_INDEX
  else
    match indexInfo_find (cd_id c) (spd_indexInfo d) with
    | Some _ => throws NOGDB_CTX_DUPLICATE_INDEX
    | None =>
        renameError MDB_KEYEXIST NOGDB_CTX_INVALID_INDEX_CONSTRAINT (
          let? row := asks (fun _ => indexRow isUnique indexId (cd_id c)) in
          let? _ := onStore (dbPut false TB_INDEXES (KNum (spd_id d)) (written row) false true) in
          let? info := classInfo c in
          let? records := asks (fun s => Ok (tableRecords (db_store s) (cd_id c))) in
          let? _ := cfor records (indexStored indexId d propertyName info isUnique) in
          let d' := setIndexInfo (indexInfo_insert (cd_id c, (indexId, isUnique))) d in
          let? _ := onSchema (fun s t => updateProperty s t based.1 propertyName d') in
          onInfo (countIndexes 1))
    end.

Definition dropIndex (className propertyName : string) : Cmd D unit :=
  let? _ := validTransaction in
  let? found := existingClass className in
  let c := found.2 in
  let? based := asks (fun s => isExistingPropertyExtend (db_schema s) (db_txn s) c propertyName) in
  let d := based.2 in
  match indexInfo_find (cd_id c) (spd_indexInfo d) with
  | None => throws NOGDB_CTX_NOEXST_INDEX
  | Some (indexId, isUnique) =>
      let? row := asks (fun _ => indexRow isUnique indexId (cd_id c)) in
      let? _ := onStore (fun x => Ok (dbDelEntry TB_INDEXES (KNum (spd_id d), written row) x)) in
      let? _ := onStore (fun x => Ok (dropDbs (indexDbs (spd_type d) indexId) x)) in
      let d' := setIndexInfo (indexInfo_erase (cd_id c)) d in
      let? _ := onSchema (fun s t => updateProperty s t based.1 propertyName d') in
      onInfo (countIndexes (-1))
  end.
End commands.
