(* ===== verification/Recovery.v ===== *)
(** * Opening a database

    Model of [Context::initDatabase] (src/src/context.cpp): the catalog tables
    are created when they are missing, then one transaction in memory rebuilds
    the schema and the relations from the tables of classes, properties,
    indexes and relations. *)

From stdpp Require Import base gmap sets list strings sorting.
From Stdlib Require Import ZArith Lia.
From S2P Require Import Prelude Types Store Blob VersionControl TxnObject TxnData.
From S2P Require Import Graph Schema BaseTxn Commands ClassCommands.

Definition UINT16_EM_INIT : Z := 0.

(** The enumerator of a stored code; no other code is ever written. *)
Definition classTypeOf (code : Z) : ClassType :=
  if (code =? ClassType_code VERTEX)%Z then VERTEX
  else if (code =? ClassType_code EDGE)%Z then EDGE else CT_UNDEFINED.

Definition propertyTypes : list PropertyType :=
  [TINYINT; UNSIGNED_TINYINT; SMALLINT; UNSIGNED_SMALLINT; INTEGER; UNSIGNED_INTEGER;
   BIGINT; UNSIGNED_BIGINT; TEXT; REAL; BLOB].
Definition propertyTypeOf (code : Z) : PropertyType :=
  default PT_UNDEFINED (List.find (fun t => (code =? PropertyType_code t)%Z) propertyTypes).

(** The counters of a context that was just created. *)
Definition newDbInfo : DBInfo := mkDBInfo INIT_NUM_PROPERTIES 0 INIT_NUM_CLASSES 0 0 0.
Definition newContext : Context :=
  mkContext (mkSchema ∅ ∅ [] ∅) (mkGraph ∅ ∅ ∅ ∅ [] [] ∅ ∅) initTxnStat newDbInfo [].

Definition setMaxClassId (id : ClassId) (i : DBInfo) : DBInfo :=
  mkDBInfo (maxPropertyId i) (numProperty i) id (numClass i) (maxIndexId i) (numIndex i).
Definition setMaxPropertyId (id : PropertyId) (i : DBInfo) : DBInfo :=
  mkDBInfo id (numProperty i) (maxClassId i) (numClass i) (maxIndexId i) (numIndex i).
Definition setMaxIndexId (id : IndexId) (i : DBInfo) : DBInfo :=
  mkDBInfo (maxPropertyId i) (numProperty i) (maxClassId i) (numClass i) id (numIndex i).

(** A row of the class or property table: a type code, a class id, a name. *)
Definition parseRow (v : list byte) : Outcome (Z * ClassId * string) :=
  let b := blobOf v in
  let* (type, o1) := retrieve 0 4 b in
  let* (id, o2) := retrieve o1 2 b in
  let n := size_ b - o2 in
  require (bool_decide (0 < n)) ;;;
  let* (name, _) := retrieve o2 n b in
  Ok (le_value type, le_value id, string_of_bytes name).

Definition parseIndexRow (v : list byte) : Outcome (bool * IndexId * ClassId) :=
  let b := blobOf v in
  let* (_, o1) := retrieve 0 1 b in
  let* (u, o2) := retrieve o1 1 b in
  let* (indexId, o3) := retrieve o2 4 b in
  let* (classId, _) := retrieve o3 2 b in
  Ok (negb (le_value u =? 0)%Z, le_value indexId, le_value classId).

(** The entries of a database opened with integer keys. *)
Definition numberedRows (l : list Entry) : list (Z * list byte) :=
  omap (fun e : Entry => match e.1 with KNum z => Some (z, e.2) | KStr _ => None end) l.
Definition namedRows (l : list Entry) : list (list byte * list byte) :=
  omap (fun e : Entry => match e.1 with KStr s => Some (s, e.2) | KNum _ => None end) l.

(** ** Classes *)
Abbreviation SchemaState := (Schema * BaseTxn)%type.

(** [maxClassId] is compared with the counter of the context. *)
Definition recoverClass (maxId : ClassId) (st : SchemaState * list (ClassId * ClassId)) (row : Z * list byte) :
    Outcome (SchemaState * list (ClassId * ClassId)) :=
  let '((s, t), inheritance) := st in
  let '(id, v) := row in
  if (id =? UINT16_EM_INIT)%Z then Ok st
  else
    let* (type, superClassId, className) := parseRow v in
    let '(l, s1) := allocClass (newClassDescriptor id className (classTypeOf type)) s in
    let t1 := insertClass l id t in
    let t2 := if (maxId <? id)%Z then setTxnDbInfo (setMaxClassId id) t1 else t1 in
    Ok ((s1, setTxnDbInfo (countClasses 1) t2), inheritance ++ [(id, superClassId)]).

(** ** Properties and their indexes *)
Definition indexesOf (id : PropertyId) (l : list Entry) : Outcome (list (list byte)) :=
  let* found := findKey (KNum id) l in
  Ok ((filter (fun e : Entry => e.1 = KNum id) found).*2).

Definition recoverIndex (st : SPropertyDescriptor * BaseTxn) (v : list byte) : Outcome (SPropertyDescriptor * BaseTxn) :=
  let '(d, t) := st in
  let* (isUnique, indexId, classId) := parseIndexRow v in
  let t1 := if (maxIndexId (txnDbInfo t) <? indexId)%Z then setTxnDbInfo (setMaxIndexId indexId) t else t in
  Ok (setIndexInfo (indexInfo_insert (classId, (indexId, isUnique))) d, setTxnDbInfo (countIndexes 1) t1).

Definition recoverProperty (indexes : list Entry) (st : SchemaState) (row : Z * list byte) : Outcome SchemaState :=
  let '(s, t) := st in
  let '(id, v) := row in
  if (id =? UINT16_EM_INIT)%Z then Ok st
  else
    let* (type, propClassId, propertyName) := parseRow v in
    let d := mkSPropertyDescriptor id (propertyTypeOf type) [] in
    match findClass s t propClassId with
    | None => Throw NOGDB_CTX_INTERNAL_ERR
    | Some (l, c) =>
        let* rows := indexesOf id indexes in
        let* (d', t1) := ofold recoverIndex rows (d, t) in
        let properties := emplace propertyName d' (getLatestVersion (cd_properties c)).1 in
        let s1 := updClass (setProperties (addLatestVersion properties)) l s in
        let t2 := if (maxPropertyId (txnDbInfo t1) <? id)%Z then setTxnDbInfo (setMaxPropertyId id) t1 else t1 in
        Ok (s1, setTxnDbInfo (countProperties 1) t2)
    end.

(** ** Relations *)
Definition requireClass (s : Schema) (t : BaseTxn) (id : ClassId) : Outcome unit :=
  match findClass s t id with Some _ => Ok tt | None => Throw NOGDB_CTX_INTERNAL_ERR end.

Definition recoverRelation (s : Schema) (st : Graph * BaseTxn) (row : list byte * list byte) :
    Outcome (Graph * BaseTxn) :=
  let '(g, t) := st in
  let '(key, v) := row in
  if bool_decide (key = STRING_EM_INIT) then Ok st
  else
    let* edgeId := parseRid key in
    let* srcRid := retrieveRid 0 (blobOf v) in
    let* dstRid := retrieveRid 6 (blobOf v) in
    requireClass s t edgeId.1 ;;; requireClass s t srcRid.1 ;;; requireClass s t dstRid.1 ;;;
    createEdge g t edgeId srcRid dstRid.

(** ** [initDatabase] *)
Section init.
  Context {D : Type} `{!Lmdb D}.

(** [currentTime] is the text of a timestamp. *)
Definition initTables (currentTime : list byte) (d : D) : Outcome D :=
  let* d1 := dbPut true TB_CLASSES (KNum UINT16_EM_INIT) currentTime false true d in
  let* d2 := dbPut true TB_PROPERTIES (KNum UINT16_EM_INIT) currentTime false true d1 in
  dbPut true TB_RELATIONS (KStr STRING_EM_INIT) currentTime false true d2.

Definition recoverSchema (d : D) (c : Context) (t : BaseTxn) : Outcome SchemaState :=
  let* (st, inheritance) := ofold (recoverClass (maxClassId (dbInfo c))) (numberedRows (entries d TB_CLASSES))
                              ((dbSchema c, t), []) in
  let* st1 := apply_ st.1 st.2 inheritance in
  ofold (recoverProperty (entries d TB_INDEXES)) (numberedRows (entries d TB_PROPERTIES)) st1.

Definition recoverRelations (d : D) (s : Schema) (g : Graph) (t : BaseTxn) : Outcome (Graph * BaseTxn) :=
  ofold (recoverRelation s) (namedRows (entries d TB_RELATIONS)) (g, t).

(** [dsCommit] is the outcome of the commit of the data store. *)
Definition initDatabase (currentTime : list byte) (dsCommit : Outcome unit) (d : D) (c : Context) :
    Outcome (Context * D) :=
  let* d1 := initTables currentTime d in
  dsCommit ;;;
  let* (t0, c0) := beginTxn c true true in
  let* (s, t1) := recoverSchema d1 c0 t0 in
  let* (g, t2) := recoverRelations d1 s (dbRelation c0) t1 in
  let* (_, c1, _) := commit (Ok tt) (BaseTxn.setSchema (fun _ => s) (setRelation (fun _ => g) c0)) t2 in
  Ok (c1, d1).
End init.
