(* ===== verification/SchemaRecovery.v ===== *)
(** * What opening a database recovers of the schema

    The catalog tables describe classes and properties by rows; reading them
    back gives each class its name, type, superclass, subclasses and
    properties with their indexes. *)

From stdpp Require Import base gmap sets list strings sorting.
From Stdlib Require Import ZArith Lia ZifyBool.
From S2P Require Import Prelude Types Store Blob VersionControl TxnObject TxnData.
From S2P Require Import Graph Schema BaseTxn Commands ClassCommands Recovery.

#[local] Arguments le_bytes : simpl never.

(** ** Rows *)
Definition rowBytes (type : Z) (id : ClassId) (name : string) : list byte :=
  le_bytes 4 type ++ le_bytes 2 id ++ bytes_of_string name.

Lemma append_all data b :
  wf_blob b -> size_ b + length data <= capacity_ b ->
  exists b', append data (length data) b = Ok b' /\ wf_blob b' /\ capacity_ b' = capacity_ b /\
    written b' = written b ++ data /\ size_ b' = size_ b + length data.
Proof.
  intros Hwf Hfit. destruct (append_fits (length data) data b Hwf (le_n _) Hfit) as (b' & H1 & H2 & H3 & H4).
  rewrite firstn_all in H4. exists b'. split_and!; try done.
  by rewrite <- (length_written b'), H4, length_app, length_written.
Qed.

Lemma catalogRow_ok type id name : exists b, catalogRow type id name = Ok b /\ written b = rowBytes type id name.
Proof.
  unfold catalogRow. set (n := length (bytes_of_string name)).
  pose proof (wf_newBlob (4 + 2 + n)) as Hw.
  destruct (append_all (le_bytes 4 type) _ Hw) as (b1 & E1 & Hw1 & C1 & W1 & S1);
    [rewrite length_le_bytes; simpl; lia|].
  rewrite length_le_bytes in E1, S1. rewrite E1. cbn [obind].
  destruct (append_all (le_bytes 2 id) b1 Hw1) as (b2 & E2 & Hw2 & C2 & W2 & S2).
  { rewrite S1, C1, length_le_bytes. simpl. lia. }
  rewrite length_le_bytes in E2, S2. rewrite E2. cbn [obind].
  destruct (append_all (bytes_of_string name) b2 Hw2) as (b3 & E3 & _ & _ & W3 & _).
  { rewrite S2, C2, S1, C1. fold n. simpl. lia. }
  fold n in E3. exists b3. split; [done|]. rewrite W3, W2, W1. unfold rowBytes. by rewrite <- app_assoc.
Qed.

(** A row is read back as it was written. *)
Lemma parseRow_row type id name :
  (0 <= type < 2 ^ 32)%Z -> (0 <= id <= UINT16_MAX)%Z -> name <> EmptyString ->
  parseRow (rowBytes type id name) = Ok (type, id, name).
Proof.
  intros Ht Hid Hn. unfold parseRow, UINT16_MAX in *. set (v := rowBytes type id name). set (nb := bytes_of_string name).
  assert (0 < length nb) as Hlen by (unfold nb; destruct name; [done|simpl; lia]).
  pose proof (retrieve_at [] (le_bytes 4 type) (le_bytes 2 id ++ nb) (blobOf v) eq_refl eq_refl) as H1.
  rewrite length_le_bytes in H1. cbn [length Nat.add] in H1. rewrite H1. cbn [obind].
  pose proof (retrieve_at (le_bytes 4 type) (le_bytes 2 id) nb (blobOf v) eq_refl eq_refl) as H2.
  rewrite !length_le_bytes in H2. rewrite H2. cbn [obind Nat.add].
  assert (size_ (blobOf v) - 6 = length nb) as ->.
  { change (length v - 6 = length nb). unfold v, rowBytes. fold nb. rewrite !length_app, !length_le_bytes. lia. }
  unfold require. rewrite bool_decide_true by done. cbn [obind].
  pose proof (retrieve_at (le_bytes 4 type ++ le_bytes 2 id) nb [] (blobOf v)) as H3.
  rewrite length_app, !length_le_bytes in H3. cbn [Nat.add] in H3. rewrite H3; [|change (v = (le_bytes 4 type ++ le_bytes 2 id) ++ nb ++ []); by rewrite app_nil_r, <- app_assoc|done].
  cbn [obind]. rewrite !le_value_le_bytes. rewrite !Z.mod_small by lia. unfold nb.
  by rewrite string_of_bytes_of_string.
Qed.

Lemma classTypeOf_code ty : classTypeOf (ClassType_code ty) = ty.
Proof. by destruct ty. Qed.
Lemma propertyTypeOf_code ty : propertyTypeOf (PropertyType_code ty) = ty.
Proof. by destruct ty. Qed.
Lemma class_code_range ty : (0 <= ClassType_code ty < 2 ^ 32)%Z.
Proof. by destruct ty. Qed.
Lemma property_code_range ty : (0 <= PropertyType_code ty < 2 ^ 32)%Z.
Proof. by destruct ty. Qed.

(** ** The classes a transaction has created *)
Record image (s : Schema) (t : BaseTxn) (M : gmap ClassId ClassDescriptor) : Prop := {
  im_info : schemaInfo s = ∅;
  im_deleted : deletedClassId s = [];
  im_rw : txnType t = READ_WRITE;
  im_dom id : is_Some (ucSchema t !! id) <-> is_Some (M !! id);
  im_heap id l : ucSchema t !! id = Some l -> sheap s !! l = M !! id;
  im_new id c : M !! id = Some c -> cd_id c = id /\ st_status (cd_state c) = UNCOMMITTED_CREATE;
}.

Lemma image_find s t M id c :
  image s t M -> M !! id = Some c ->
  exists l, ucSchema t !! id = Some l /\ sheap s !! l = Some c /\ findClass s t id = Some (l, c).
Proof.
  intros Hi Hc. destruct (proj2 (im_dom _ _ _ Hi id)) as [l Hl]; [by exists c|].
  exists l. pose proof (im_heap _ _ _ Hi id l Hl) as Hh. rewrite Hc in Hh. split_and!; try done.
  unfold findClass, isReadOnly, findUncommittedSchema. rewrite (im_info _ _ _ Hi), lookup_empty, (im_rw _ _ _ Hi).
  rewrite bool_decide_false by done. rewrite Hl. simpl. rewrite Hh. simpl. unfold checkReadWrite.
  by rewrite (proj2 (im_new _ _ _ Hi _ _ Hc)).
Qed.

Lemma image_none s t M id : image s t M -> M !! id = None -> findClass s t id = None.
Proof.
  intros Hi Hc. unfold findClass, isReadOnly, findUncommittedSchema.
  rewrite (im_info _ _ _ Hi), lookup_empty, (im_rw _ _ _ Hi), bool_decide_false by done.
  destruct (ucSchema t !! id) eqn:E; [|done]. destruct (proj1 (im_dom _ _ _ Hi id)); [by eexists|congruence].
Qed.

Lemma image_txn s t t' M :
  image s t M -> txnType t' = txnType t -> ucSchema t' = ucSchema t -> image s t' M.
Proof. intros [I1 I0 I2 I3 I4 I5] Ht Hu. split; rewrite ?Ht, ?Hu; done. Qed.

Lemma image_alloc s t M id c l s1 :
  image s t M -> M !! id = None -> cd_id c = id -> st_status (cd_state c) = UNCOMMITTED_CREATE ->
  allocClass c s = (l, s1) -> image s1 (insertClass l id t) (<[id := c]> M).
Proof.
  intros [I1 I0 I2 I3 I4 I5] Hid Hc Hst [= <- <-]. set (l := fresh _).
  assert (sheap s !! l = None) as Hl by (apply not_elem_of_dom, is_fresh).
  assert (ucSchema t !! id = None) as Hu.
  { destruct (ucSchema t !! id) eqn:E; [|done]. destruct (proj1 (I3 id)); [by eexists|congruence]. }
  assert (forall id', ucSchema (insertClass l id t) !! id' = if decide (id = id') then Some l else ucSchema t !! id') as Huc.
  { intros id'. unfold insertClass. simpl. rewrite lookup_emplace. case_decide; [subst; by rewrite Hu|].
    by destruct (ucSchema t !! id'). }
  split; [done|done|done|..].
  - intros id'. rewrite Huc. case_decide; [subst; rewrite lookup_insert_eq|rewrite lookup_insert_ne by done; apply I3].
    split; by eexists.
  - intros id' l'. rewrite Huc. simpl. case_decide; [subst; intros [= <-]; by rewrite !lookup_insert_eq|].
    intros Hl'. rewrite (lookup_insert_ne M) by done. pose proof (I4 _ _ Hl') as Hh.
    assert (l <> l'). { intros ->. destruct (proj1 (I3 id')) as [? Hm]; [by eexists|]. congruence. }
    by rewrite lookup_insert_ne.
  - intros id' c'. destruct (decide (id = id')) as [<-|Hne].
    + rewrite lookup_insert_eq. by intros [= <-].
    + rewrite lookup_insert_ne by done. apply I5.
Qed.

Lemma image_upd s t M id l f :
  image s t M -> ucSchema t !! id = Some l -> (forall c, cd_id (f c) = cd_id c /\ cd_state (f c) = cd_state c) ->
  image (updClass f l s) t (alter f id M).
Proof.
  intros [I1 I0 I2 I3 I4 I5] Hl Hf. split; [done|done|done|..].
  - intros id'. rewrite lookup_alter_is_Some. apply I3.
  - intros id' l' Hl'. rewrite lookup_updClass, !lookup_alter.
    pose proof (I4 _ _ Hl) as H1. pose proof (I4 _ _ Hl') as H2.
    repeat case_decide; subst; [by rewrite H2|exfalso|congruence|done].
    destruct (proj1 (I3 id)) as [c Hc]; [by eexists|]. destruct (proj1 (I3 id')) as [c' Hc']; [by eexists|].
    destruct (I5 _ _ Hc), (I5 _ _ Hc'). congruence.
  - intros id' c'. rewrite lookup_alter. case_decide; [subst|by apply I5].
    destruct (M !! id') as [c|] eqn:E; [|done]. simpl. intros [= <-]. destruct (Hf c) as [-> ->]. by apply I5.
Qed.

(** ** The catalog *)
Record CatalogClass := mkCatalogClass { cc_type : ClassType; cc_super : ClassId; cc_name : string }.
Record CatalogProperty := mkCatalogProperty { cp_type : PropertyType; cp_class : ClassId; cp_name : string }.

Definition classBytes (c : CatalogClass) : list byte := rowBytes (ClassType_code (cc_type c)) (cc_super c) (cc_name c).
Definition propertyBytes (p : CatalogProperty) : list byte :=
  rowBytes (PropertyType_code (cp_type p)) (cp_class p) (cp_name p).

Section catalog.
  Context (C : gmap ClassId CatalogClass) (P : gmap PropertyId CatalogProperty).

(** The superclass of a class is a class or 0, and a property belongs to a
    class; the properties of a class have different names. *)
Record catalog_ok : Prop := {
  ok_class id c : C !! id = Some c -> (0 < id <= UINT16_MAX)%Z /\ cc_name c <> EmptyString /\
    (cc_super c = 0%Z \/ is_Some (C !! cc_super c));
  ok_property id p : P !! id = Some p -> (0 < id <= UINT16_MAX)%Z /\ cp_name p <> EmptyString /\ is_Some (C !! cp_class p);
  ok_names id id' p p' : P !! id = Some p -> P !! id' = Some p' -> cp_class p = cp_class p' -> cp_name p = cp_name p' -> id = id';
}.
Context (Hok : catalog_ok).

Definition class_row (row : Z * list byte) : Prop :=
  row.1 = UINT16_EM_INIT \/ exists c, C !! row.1 = Some c /\ row.2 = classBytes c.
Definition property_row (row : Z * list byte) : Prop :=
  row.1 = UINT16_EM_INIT \/ exists p, P !! row.1 = Some p /\ row.2 = propertyBytes p.

Lemma parse_class id c : C !! id = Some c -> parseRow (classBytes c) = Ok (ClassType_code (cc_type c), cc_super c, cc_name c).
Proof.
  intros Hc. destruct (ok_class Hok _ _ Hc) as (Hid & Hn & Hs).
  apply parseRow_row; [apply class_code_range| |done].
  destruct Hs as [->|[c' Hs]]; [unfold UINT16_MAX; lia|]. destruct (ok_class Hok _ _ Hs). lia.
Qed.
Lemma parse_property id p :
  P !! id = Some p -> parseRow (propertyBytes p) = Ok (PropertyType_code (cp_type p), cp_class p, cp_name p).
Proof.
  intros Hp. destruct (ok_property Hok _ _ Hp) as (_ & Hn & [c Hc]). destruct (ok_class Hok _ _ Hc).
  apply parseRow_row; [apply property_code_range|lia|done].
Qed.

(** *** The classes *)
Definition inheritanceOf (rows : list (Z * list byte)) : list (ClassId * ClassId) :=
  omap (fun row => c ← C !! row.1; Some (row.1, cc_super c)) rows.
Definition newClassOf (id : ClassId) (c : CatalogClass) : ClassDescriptor :=
  newClassDescriptor id (cc_name c) (cc_type c).
Definition classes_read (rows : list (Z * list byte)) (M : gmap ClassId ClassDescriptor) : Prop :=
  forall id, M !! id = if decide (id ∈ rows.*1) then newClassOf id <$> C !! id else None.

Lemma not_a_class : C !! UINT16_EM_INIT = None.
Proof. destruct (C !! UINT16_EM_INIT) eqn:E; [|done]. destruct (ok_class Hok _ _ E). unfold UINT16_EM_INIT in *. lia. Qed.

Lemma recoverClass_spec m s t rows row M :
  image s t M -> classes_read rows M -> class_row row -> row.1 ∉ rows.*1 ->
  exists s' t' M', recoverClass m (s, t, inheritanceOf rows) row = Ok (s', t', inheritanceOf (rows ++ [row])) /\
    image s' t' M' /\ classes_read (rows ++ [row]) M'.
Proof.
  intros Hi Hread Hrow Hnew. destruct row as [id v]. unfold recoverClass, class_row in *. cbn [fst snd] in *.
  assert (inheritanceOf (rows ++ [(id, v)]) = inheritanceOf rows ++ inheritanceOf [(id, v)]) as Hinh by apply omap_app.
  destruct (Z.eqb_spec id UINT16_EM_INIT) as [->|Hne].
  { exists s, t, M. unfold inheritanceOf at 3 in Hinh. cbn [omap list_omap fst] in Hinh. rewrite not_a_class in Hinh.
    simpl in Hinh. rewrite app_nil_r in Hinh. rewrite Hinh. split_and!; [done|done|].
    intros i. rewrite Hread, fmap_app. destruct (decide (i = UINT16_EM_INIT)) as [->|Hi0].
    - rewrite not_a_class. by repeat case_decide.
    - repeat case_decide; set_solver. }
  destruct Hrow as [?|(c & Hc & ->)]; [done|]. rewrite (parse_class _ _ Hc). cbn [obind].
  rewrite classTypeOf_code. destruct (allocClass _ s) as [l s1] eqn:Ha.
  assert (M !! id = None) as Hid by (by rewrite Hread, decide_False).
  pose proof (image_alloc s t M id (newClassOf id c) l s1 Hi Hid eq_refl eq_refl Ha) as Hi1.
  eexists _, _, _. split; [|split].
  - rewrite Hinh. unfold inheritanceOf at 3. cbn [omap list_omap fst]. rewrite Hc. reflexivity.
  - eapply image_txn; [exact Hi1|by case_match|by case_match].
  - intros i. rewrite fmap_app. cbn [fmap list_fmap fst]. destruct (decide (id = i)) as [<-|Hii].
    + rewrite lookup_insert_eq, Hc, decide_True by set_solver. done.
    + rewrite lookup_insert_ne, Hread by done. repeat case_decide; set_solver.
Qed.

(** *** Inheritance *)
Section inheritance.
  Context (L : gmap ClassId Loc).

(** The class [id] after the inheritances [done] were recorded. *)
Record inherits (done : list (ClassId * ClassId)) (id : ClassId) (c : CatalogClass) (d : ClassDescriptor) : Prop := {
  in_type : cd_type d = cc_type c;
  in_name : getLatestVersion (cd_name d) = (cc_name c, true);
  in_properties : cd_properties d = emptyVersionControl;
  in_super : (getLatestVersion (cd_super d)).1 =
    if bool_decide (id ∈ done.*1 /\ cc_super c <> 0%Z) then L !! cc_super c else None;
  in_sub : (getLatestVersion (cd_sub d)).1 = (fun p => L !! p.1) <$> filter (fun p => p.2 = id) done;
}.

Definition inheritances (done : list (ClassId * ClassId)) (M : gmap ClassId ClassDescriptor) : Prop :=
  forall id, match C !! id with
             | Some c => exists d, M !! id = Some d /\ inherits done id c d
             | None => M !! id = None
             end.

(** Recording one inheritance in the image. *)
Definition adopt (id sup : ClassId) (M : gmap ClassId ClassDescriptor) : gmap ClassId ClassDescriptor :=
  let M1 := alter (setSuper (addLatestVersion (L !! sup))) id M in
  let subs := match M1 !! sup with Some c => (getLatestVersion (cd_sub c)).1 | None => [] end in
  alter (setSub (addLatestVersion (subs ++ [L !! id]))) sup M1.

Lemma applyOne_image s t M id sup d dsup :
  image s t M -> ucSchema t = L -> M !! id = Some d -> M !! sup = Some dsup -> (0 < sup)%Z ->
  exists s' t', applyOne (s, t) (id, sup) = Ok (s', t') /\ image s' t' (adopt id sup M) /\ ucSchema t' = L /\
    txnDbInfo t' = txnDbInfo t.
Proof.
  intros Hi HL Hd Hds Hsup. destruct (image_find s t M id d Hi Hd) as (lsub & Hlsub & _ & Hf1).
  destruct (image_find s t M sup dsup Hi Hds) as (lsup & Hlsup & _ & Hf2).
  unfold applyOne. cbn [fst snd]. destruct (Z.ltb_spec 0 sup); [|lia]. rewrite Hf1, Hf2.
  destruct (im_new _ _ _ Hi _ _ Hd) as [-> _]. destruct (im_new _ _ _ Hi _ _ Hds) as [-> _].
  set (s1 := updClass (setSuper (addLatestVersion (Some lsup))) lsub s).
  assert (image s1 t (alter (setSuper (addLatestVersion (Some lsup))) id M)) as Hi1 by (by apply image_upd).
  rewrite (im_heap _ _ _ Hi1 sup lsup Hlsup).
  assert (ucSchema (addUncommittedSchema sup lsup (addUncommittedSchema id lsub t)) = L) as HL'.
  { simpl. unfold emplace. rewrite Hlsub, Hlsup. done. }
  eexists _, _. split; [reflexivity|]. split; [|done].
  eapply (image_txn _ t); [|done|by rewrite HL'].
  unfold adopt. rewrite <- HL, Hlsub, Hlsup.
  match goal with |- image (updClass (setSub (addLatestVersion ?x)) _ _) _ (alter (setSub (addLatestVersion ?y)) _ _) =>
    assert (x = y) as -> end.
  { rewrite lookup_alter. by repeat case_match. }
  by apply image_upd.
Qed.

Lemma inheritances_adopt done M id c :
  inheritances done M -> C !! id = Some c -> is_Some (C !! cc_super c) -> id ∉ done.*1 -> cc_super c <> 0%Z ->
  inheritances (done ++ [(id, cc_super c)]) (adopt id (cc_super c) M).
Proof.
  intros Hinh Hc [csup Hcs] Hnew H0 i. specialize (Hinh i) as Hinh_i.
  pose proof (Hinh (cc_super c)) as Hsup. rewrite Hcs in Hsup. destruct Hsup as (dsup & Hds & Isup).
  set (subs := (getLatestVersion (cd_sub dsup)).1).
  assert (adopt id (cc_super c) M !! i =
    (if decide (cc_super c = i) then setSub (addLatestVersion (subs ++ [L !! id])) else fun x => x) <$>
    ((if decide (id = i) then setSuper (addLatestVersion (L !! cc_super c)) else fun x => x) <$> M !! i)) as ->.
  { unfold adopt. assert (forall f, match alter (setSuper f) id M !! cc_super c with
      | Some c => (getLatestVersion (cd_sub c)).1 | None => [] end = subs) as ->.
    { intros f. rewrite lookup_alter. case_decide as Hx; [rewrite Hx|]; by rewrite Hds. }
    rewrite !lookup_alter. clear. repeat case_decide; subst; try congruence; by destruct (M !! _). }
  destruct (C !! i) as [ci|] eqn:Hci; [|by rewrite Hinh_i]. destruct Hinh_i as (d & Hd & [I1 I2 I3 I4 I5]).
  rewrite Hd. cbn [fmap option_fmap option_map]. eexists. split; [reflexivity|].
  assert (cc_super c = i -> subs = (getLatestVersion (cd_sub d)).1) as Hsubs by (intros <-; unfold subs; congruence).
  split.
  - by repeat case_decide.
  - by repeat case_decide.
  - by repeat case_decide.
  - rewrite fmap_app. cbn [fmap list_fmap fst]. destruct (decide (id = i)) as [<-|Hne].
    + assert (ci = c) as -> by congruence. rewrite bool_decide_true by (split; [set_solver|done]). by repeat case_decide.
    + transitivity (getLatestVersion (cd_super d)).1; [by repeat case_decide|]. rewrite I4.
      apply (f_equal (fun b : bool => if b then L !! cc_super ci else None)), bool_decide_ext. set_solver.
  - rewrite filter_app, fmap_app, <- I5. rewrite filter_cons, filter_nil. cbn [snd].
    destruct (decide (cc_super c = i)) as [Hs|Hs].
    + simpl. by rewrite (Hsubs Hs).
    + simpl. rewrite app_nil_r. by repeat case_decide.
Qed.

Lemma inheritances_skip done M id c :
  inheritances done M -> C !! id = Some c -> cc_super c = 0%Z -> inheritances (done ++ [(id, 0%Z)]) M.
Proof.
  intros Hinh Hc H0 i. specialize (Hinh i). destruct (C !! i) as [ci|] eqn:Hci; [|done].
  destruct Hinh as (d & Hd & [I1 I2 I3 I4 I5]). exists d. split; [done|]. split; try done.
  - rewrite I4, fmap_app. cbn [fmap list_fmap fst].
    apply (f_equal (fun b : bool => if b then L !! cc_super ci else None)), bool_decide_ext.
    destruct (decide (id = i)) as [<-|?]; [|set_solver]. assert (ci = c) as -> by congruence. naive_solver.
  - destruct (ok_class Hok _ _ Hci). rewrite filter_app, fmap_app, <- I5, filter_cons_False by (simpl; lia).
    by rewrite filter_nil, app_nil_r.
Qed.

Lemma applyOne_spec s t done M p :
  image s t M -> ucSchema t = L -> inheritances done M -> (exists c, C !! p.1 = Some c /\ p.2 = cc_super c) ->
  p.1 ∉ done.*1 ->
  exists s' t' M', applyOne (s, t) p = Ok (s', t') /\ image s' t' M' /\ ucSchema t' = L /\
    txnDbInfo t' = txnDbInfo t /\ inheritances (done ++ [p]) M'.
Proof.
  intros Hi HL Hinh (c & Hc & Hs) Hnew. destruct p as [id sup]. cbn [fst snd] in *. subst sup.
  destruct (ok_class Hok _ _ Hc) as (_ & _ & [H0|Hsup]).
  - exists s, t, M. rewrite H0. split_and!; try done. by eapply inheritances_skip.
  - destruct Hsup as [csup Hcs]. pose proof (Hinh id) as Hd. rewrite Hc in Hd. destruct Hd as (d & Hd & _).
    pose proof (Hinh (cc_super c)) as Hds. rewrite Hcs in Hds. destruct Hds as (ds & Hds & _).
    destruct (ok_class Hok _ _ Hcs).
    destruct (applyOne_image s t M id (cc_super c) d ds) as (s' & t' & ? & ? & ? & ?); try done; [lia|].
    exists s', t', (adopt id (cc_super c) M). split_and!; try done. apply inheritances_adopt; try done; lia.
Qed.
End inheritance.

(** *** Properties and their indexes *)
Section properties.
  Context (I : list Entry) (HI : ordered entry_ltb id I).
  Context (Hparse : forall k v, (k, v) ∈ I -> exists r, parseIndexRow v = Ok r).

Definition indexRows (pid : PropertyId) : list (list byte) := (filter (fun e : Entry => e.1 = KNum pid) I).*2.
Definition addIndexRow (l : SIndexInfo) (v : list byte) : SIndexInfo :=
  match parseIndexRow v with
  | Ok (isUnique, indexId, classId) => indexInfo_insert (classId, (indexId, isUnique)) l
  | _ => l
  end.
Definition indexInfoOf (pid : PropertyId) : SIndexInfo := fold_left addIndexRow (indexRows pid) [].

(** The cursor meets the rows of a property, and only them. *)
Lemma indexesOf_spec pid : indexesOf pid I = Ok (indexRows pid).
Proof.
  unfold indexesOf, findKey, findRange, indexRows. cbn [keySizeOk obind].
  assert (filter (fun e : Entry => e.1 = KNum pid) I = filter (fun e => e.1 = KNum pid) (seek key_ltb fst (KNum pid) I)) as ->.
  { rewrite <- (passed_seek key_ltb fst (KNum pid) I) at 1. rewrite filter_app.
    rewrite filter_keep_none; [done|]. clear. induction I as [|e l IH]; [constructor|]. simpl.
    destruct (key_ltb e.1 (KNum pid)) eqn:E; constructor; [|done]. intros H. rewrite H in E. simpl in E. lia. }
  destruct (seek key_ltb fst (KNum pid) I) as [|e l] eqn:Hs; [done|]. case_bool_decide as He; [done|]. f_equal.
  rewrite (filter_keep_none _ (e :: l)); [done|]. clear Hparse.
  induction I as [|e0 l0 IH]; [done|]. simpl in Hs. apply StronglySorted_inv in HI as [HI0 Hall].
  destruct (key_ltb e0.1 (KNum pid)) eqn:E0; [by apply IH|]. injection Hs as -> ->.
  constructor; [done|]. eapply Forall_impl; [exact Hall|]. intros [k' v'] Hlt Heq. simpl in Heq. subst k'.
  destruct e as [k v]. cbn [fst] in *. unfold entry_ltb, pair_ltb in Hlt. cbn [fst snd id] in Hlt.
  apply orb_true_iff in Hlt as [Hlt|Hlt]; [congruence|]. apply andb_true_iff in Hlt as [Hk _].
  by rewrite bool_decide_eq_true in Hk.
Qed.

Lemma recoverIndexes_spec rows : forall d t,
  (forall v, v ∈ rows -> exists r, parseIndexRow v = Ok r) ->
  exists t', ofold recoverIndex rows (d, t) =
      Ok (mkSPropertyDescriptor (spd_id d) (spd_type d) (fold_left addIndexRow rows (spd_indexInfo d)), t') /\
    txnType t' = txnType t /\ ucSchema t' = ucSchema t.
Proof.
  induction rows as [|v rows IH]; intros d t Hrows; [exists t; by destruct d|].
  cbn [ofold fold_left]. unfold recoverIndex at 1, addIndexRow at 2.
  destruct (Hrows v) as ([[u i] c] & ->); [by left|]. cbn [obind].
  match goal with |- context [ofold recoverIndex rows (?d1, ?t1)] =>
    destruct (IH d1 t1) as (t' & -> & Ht & Hu); [intros; apply Hrows; by right|] end.
  exists t'. rewrite Ht, Hu. by case_match.
Qed.

Context (M0 : gmap ClassId ClassDescriptor) (Hdom : forall id, is_Some (M0 !! id) <-> is_Some (C !! id)).

Definition propertyOf (pid : PropertyId) (p : CatalogProperty) : SPropertyDescriptor :=
  mkSPropertyDescriptor pid (cp_type p) (indexInfoOf pid).
(** The properties of a class whose ids were read. *)
Definition holds_properties (ids : list PropertyId) (id : ClassId) (props : SClassProperty) : Prop :=
  forall name x, props !! name = Some x <->
    exists pid p, pid ∈ ids /\ P !! pid = Some p /\ cp_class p = id /\ cp_name p = name /\ x = propertyOf pid p.
Definition properties_read (rows : list (Z * list byte)) (M : gmap ClassId ClassDescriptor) : Prop :=
  forall id, match M0 !! id with
             | None => M !! id = None
             | Some d0 => exists vc, M !! id = Some (setProperties (fun _ => vc) d0) /\
                 holds_properties rows.*1 id (getLatestVersion vc).1
             end.

Lemma not_a_property : P !! UINT16_EM_INIT = None.
Proof. destruct (P !! UINT16_EM_INIT) eqn:E; [|done]. destruct (ok_property Hok _ _ E). unfold UINT16_EM_INIT in *. lia. Qed.

Lemma holds_skip ids id props pid :
  holds_properties ids id props -> (forall p, P !! pid = Some p -> cp_class p <> id) ->
  holds_properties (ids ++ [pid]) id props.
Proof.
  intros H Hpid name x. rewrite (H name x). split; intros (i & p & Hi & Hp & Hc & Hn & Hx); exists i, p;
    (split_and!; [|done..]); [set_solver|].
  apply elem_of_app in Hi as [?| ->%list_elem_of_singleton]; [done|]. by destruct (Hpid p).
Qed.

Lemma holds_add ids props pid p :
  holds_properties ids (cp_class p) props -> P !! pid = Some p -> pid ∉ ids ->
  holds_properties (ids ++ [pid]) (cp_class p) (emplace (cp_name p) (propertyOf pid p) props).
Proof.
  intros H Hp Hnew name x. rewrite lookup_emplace.
  assert (props !! cp_name p = None) as Hfresh.
  { destruct (props !! cp_name p) as [y|] eqn:E; [|done].
    apply H in E as (i & p' & Hi & Hp' & Hc & Hn & _). destruct Hnew. by rewrite (ok_names Hok pid i p p'). }
  destruct (props !! name) as [y|] eqn:E.
  - assert (cp_name p <> name) by congruence. rewrite <- E, (H name x).
    split; intros (i & p' & Hi & Hp' & Hc & Hn & Hx); exists i, p'; (split_and!; [|done..]); [set_solver|].
    apply elem_of_app in Hi as [?| ->%list_elem_of_singleton]; [done|]. congruence.
  - split.
    + case_decide; [|done]. intros [= <-]. exists pid, p. set_solver.
    + intros (i & p' & Hi & Hp' & Hc & Hn & Hx). apply elem_of_app in Hi as [Hi| ->%list_elem_of_singleton].
      * assert (props !! name = Some x) by (apply H; by exists i, p'). congruence.
      * assert (p' = p) as -> by congruence. rewrite decide_True by done. by rewrite Hx.
Qed.

Lemma recoverProperty_spec s t rows row M :
  image s t M -> properties_read rows M -> property_row row -> row.1 ∉ rows.*1 ->
  exists s' t' M', recoverProperty I (s, t) row = Ok (s', t') /\ image s' t' M' /\
    ucSchema t' = ucSchema t /\ properties_read (rows ++ [row]) M'.
Proof.
  intros Hi Hread Hrow Hnew. destruct row as [pid v]. unfold recoverProperty, property_row in *. cbn [fst snd] in *.
  destruct (Z.eqb_spec pid UINT16_EM_INIT) as [->|Hne].
  { exists s, t, M. split_and!; try done. intros id. specialize (Hread id). destruct (M0 !! id) as [d0|]; [|done].
    destruct Hread as (vc & Hd & Hp). exists vc. split; [done|]. rewrite fmap_app. apply holds_skip; [done|].
    intros p'. simpl. by rewrite not_a_property. }
  destruct Hrow as [?|(p & Hp & ->)]; [done|]. rewrite (parse_property _ _ Hp). cbn [obind].
  rewrite propertyTypeOf_code. destruct (ok_property Hok _ _ Hp) as (_ & _ & Hcls).
  pose proof (Hread (cp_class p)) as Hr. destruct (proj2 (Hdom (cp_class p)) Hcls) as [d0 Hd0]. rewrite Hd0 in Hr.
  destruct Hr as (vc & Hd & Hprops). destruct (image_find s t M _ _ Hi Hd) as (l & Hl & _ & ->).
  rewrite indexesOf_spec. cbn [obind].
  destruct (recoverIndexes_spec (indexRows pid) (mkSPropertyDescriptor pid (cp_type p) []) t) as (t1 & -> & Ht1 & Hu1).
  { intros v (e & -> & [_ He]%list_elem_of_filter)%list_elem_of_fmap. destruct e as [k v]. by eapply Hparse. }
  cbn [obind spd_id spd_type spd_indexInfo]. change (mkSPropertyDescriptor _ _ _) with (propertyOf pid p).
  set (props := emplace (cp_name p) (propertyOf pid p) (getLatestVersion vc).1).
  pose proof (image_upd s t M (cp_class p) l (setProperties (addLatestVersion props)) Hi Hl ltac:(done)) as Hi1.
  eexists _, _, _. split; [reflexivity|]. split_and!.
  - eapply image_txn; [exact Hi1|by case_match|by case_match].
  - by case_match.
  - intros id. specialize (Hread id). rewrite lookup_alter. rewrite fmap_app. cbn [fmap list_fmap fst].
    case_decide as Hid; [subst id; rewrite Hd0, Hd|].
    + exists (addLatestVersion props vc). split; [done|]. by apply holds_add.
    + destruct (M0 !! id) as [d1|]; [|done]. destruct Hread as (vc' & Hd' & Hp'). exists vc'. split; [done|].
      apply holds_skip; [done|]. intros p'. rewrite Hp. by intros [= <-].
Qed.

End properties.

(** *** The counters *)
Definition class_bound (m : ClassId) (rows : list (Z * list byte)) (i : DBInfo) : Prop :=
  (m <= maxClassId i)%Z /\ forall id, id ∈ rows.*1 -> (id <= maxClassId i)%Z.

Lemma recoverClass_bound m st rows row st' :
  (0 <= m)%Z -> recoverClass m st row = Ok st' -> class_bound m rows (txnDbInfo st.1.2) ->
  (forall r, r ∈ rows -> (r.1 < row.1)%Z) -> class_bound m (rows ++ [row]) (txnDbInfo st'.1.2).
Proof.
  intros Hm. destruct st as [[s t] inh], row as [id v]. unfold recoverClass, class_bound. rewrite fmap_app.
  cbn [fst snd fmap list_fmap]. intros Hrec [Hb1 Hb2] Hsorted.
  assert (forall b, (m <= b)%Z -> (id <= b)%Z -> (maxClassId (txnDbInfo t) <= b)%Z ->
    (m <= b)%Z /\ forall id', id' ∈ rows.*1 ++ [id] -> (id' <= b)%Z) as Hgoal.
  { intros b B1 B2 B3. split; [done|]. intros id' [Hin| ->%list_elem_of_singleton]%elem_of_app; [|done].
    apply Hb2 in Hin. lia. }
  destruct (Z.eqb_spec id UINT16_EM_INIT) as [->|Hne].
  { injection Hrec as <-. apply Hgoal; cbn [fst snd]; unfold UINT16_EM_INIT in *; lia. }
  destruct (parseRow v) as [[[ty sup] name]|e|]; [|done|done]. cbn [obind] in Hrec.
  destruct (allocClass _ s) as [l s1]. injection Hrec as <-. cbn [fst snd].
  destruct (Z.ltb_spec m id); simpl.
  - split; [lia|]. intros id' [Hin| ->%list_elem_of_singleton]%elem_of_app; [|lia].
    apply list_elem_of_fmap in Hin as (r & -> & Hr). apply Hsorted in Hr. lia.
  - apply Hgoal; lia.
Qed.

Definition property_bound (I : list Entry) (rows : list (Z * list byte)) (i : DBInfo) : Prop :=
  forall id, id ∈ rows.*1 -> (id <= maxPropertyId i)%Z /\
    forall v u x c, v ∈ indexRows I id -> parseIndexRow v = Ok (u, x, c) -> (x <= maxIndexId i)%Z.

Lemma recoverIndexes_bound rows : forall st st',
  ofold recoverIndex rows st = Ok st' ->
  (maxIndexId (txnDbInfo st.2) <= maxIndexId (txnDbInfo st'.2))%Z /\
  maxPropertyId (txnDbInfo st'.2) = maxPropertyId (txnDbInfo st.2) /\
  maxClassId (txnDbInfo st'.2) = maxClassId (txnDbInfo st.2) /\
  forall v u x c, v ∈ rows -> parseIndexRow v = Ok (u, x, c) -> (x <= maxIndexId (txnDbInfo st'.2))%Z.
Proof.
  induction rows as [|v rows IH]; intros st st'; cbn [ofold].
  { intros [= ->]. split_and!; [lia|done|done|]. by intros v u x c ?%elem_of_nil. }
  destruct (recoverIndex st v) as [st1|e|] eqn:E; [|done|done]. cbn [obind]. intros Hrows.
  destruct (IH _ _ Hrows) as (H1 & H2 & H3 & H4).
  assert ((maxIndexId (txnDbInfo st.2) <= maxIndexId (txnDbInfo st1.2))%Z /\
    maxPropertyId (txnDbInfo st1.2) = maxPropertyId (txnDbInfo st.2) /\
    maxClassId (txnDbInfo st1.2) = maxClassId (txnDbInfo st.2) /\
    forall u x c, parseIndexRow v = Ok (u, x, c) -> (x <= maxIndexId (txnDbInfo st1.2))%Z) as (E1 & E2 & E3 & E4).
  { destruct st as [d t]. unfold recoverIndex in E. destruct (parseIndexRow v) as [[[u x] c]|e|]; [|done|done].
    cbn [obind] in E. injection E as <-. cbn [snd].
    destruct (Z.ltb_spec (maxIndexId (txnDbInfo t)) x); simpl; split_and!; try done; try lia; intros ??? [= _ <- _]; lia. }
  split_and!; [lia|congruence|congruence|].
  intros w u x c [->|Hin]%elem_of_cons Hw; [apply E4 in Hw; lia|by eapply H4].
Qed.

Lemma recoverProperty_bound I st rows row st' :
  ordered entry_ltb id I -> recoverProperty I st row = Ok st' ->
  property_bound I rows (txnDbInfo st.2) -> row.1 <> UINT16_EM_INIT ->
  property_bound I (rows ++ [row]) (txnDbInfo st'.2) /\ maxClassId (txnDbInfo st'.2) = maxClassId (txnDbInfo st.2).
Proof.
  intros HI. destruct st as [s t], row as [pid v]. unfold recoverProperty, property_bound. rewrite fmap_app.
  cbn [fst snd fmap list_fmap]. intros Hrec Hb Hne. destruct (Z.eqb_spec pid UINT16_EM_INIT); [done|].
  destruct (parseRow v) as [[[ty cls] name]|e|]; [|done|done]. cbn [obind] in Hrec.
  destruct (findClass s t cls) as [[l c]|]; [|done]. rewrite indexesOf_spec in Hrec by done. cbn [obind] in Hrec.
  destruct (ofold recoverIndex (indexRows I pid) _) as [[d' t1]|e|] eqn:Hrows; [|done|done].
  cbn [obind] in Hrec. injection Hrec as <-. destruct (recoverIndexes_bound _ _ _ Hrows) as (H1 & H2 & H3 & H4).
  cbn [fst snd] in *. destruct (Z.ltb_spec (maxPropertyId (txnDbInfo t1)) pid); simpl; (split; [|done]);
    intros id' [Hin| ->%list_elem_of_singleton]%elem_of_app; try (apply Hb in Hin as [Hp Hx]); (split; [lia|]);
    intros w u x k Hw Hpw; first [by eapply H4|pose proof (Hx w u x k Hw Hpw); lia].
Qed.
End catalog.

(** ** The tables of the catalog *)
Section tables.
  Context {D : Type} `{!Lmdb D, !LmdbLaws D}.
  Context (C : gmap ClassId CatalogClass) (P : gmap PropertyId CatalogProperty).

(** The tables hold the catalog and the entry of their creation. *)
Record stored_catalog (d : D) : Prop := {
  sc_classes : table d TB_CLASSES;
  sc_class x : x.1 <> KNum UINT16_EM_INIT -> x ∈ entries d TB_CLASSES <->
    exists id c, C !! id = Some c /\ x = (KNum id, classBytes c);
  sc_properties : table d TB_PROPERTIES;
  sc_property x : x.1 <> KNum UINT16_EM_INIT -> x ∈ entries d TB_PROPERTIES <->
    exists id p, P !! id = Some p /\ x = (KNum id, propertyBytes p);
  sc_indexes : ordered entry_ltb id (entries d TB_INDEXES);
  sc_index k v : (k, v) ∈ entries d TB_INDEXES -> exists r, parseIndexRow v = Ok r;
}.

Lemma elem_of_numberedRows z v (l : list Entry) : (z, v) ∈ numberedRows l <-> (KNum z, v) ∈ l.
Proof.
  unfold numberedRows. rewrite list_elem_of_omap. split.
  - intros ([[z'|k] v'] & Hin & [= <- <-]). done.
  - intros Hin. by exists (KNum z, v).
Qed.

Definition by_id {A} (a b : Z * A) : Prop := (a.1 < b.1)%Z.
Lemma sorted_numberedRows (l : list Entry) : ordered key_ltb fst l -> StronglySorted by_id (numberedRows l).
Proof.
  apply StronglySorted_omap. intros [[z|k] v] [[z'|k'] v'] x y Hlt; try done.
  intros [= <-] [= <-]. unfold by_id. simpl in *. lia.
Qed.

Lemma sorted_inheritance rows :
  StronglySorted by_id rows -> StronglySorted by_id (inheritanceOf C rows).
Proof.
  apply StronglySorted_omap. intros a b x y Hlt. destruct (C !! a.1); [|done]. destruct (C !! b.1); [|done].
  by intros [= <-] [= <-].
Qed.

Lemma sorted_new {A} (rows : list (Z * A)) (row : Z * A) : (forall r, r ∈ rows -> by_id r row) -> row.1 ∉ rows.*1.
Proof. unfold by_id. intros H (r & Heq & Hin)%list_elem_of_fmap. apply H in Hin. lia. Qed.

(** A class of the catalog, as a transaction finds it. *)
Record recovered (I : list Entry) (L : gmap ClassId Loc) (id : ClassId) (c : CatalogClass) (d : ClassDescriptor) : Prop := {
  re_id : cd_id d = id;
  re_type : cd_type d = cc_type c;
  re_name : getLatestVersion (cd_name d) = (cc_name c, true);
  re_super : (getLatestVersion (cd_super d)).1 = if (cc_super c =? 0)%Z then None else L !! cc_super c;
  re_sub w : w ∈ (getLatestVersion (cd_sub d)).1 <-> exists i ci, C !! i = Some ci /\ cc_super ci = id /\ w = L !! i;
  re_properties name x : (getLatestVersion (cd_properties d)).1 !! name = Some x <->
    exists pid p, P !! pid = Some p /\ cp_class p = id /\ cp_name p = name /\ x = propertyOf I pid p;
}.

Context (d : D) (Hok : catalog_ok C P) (Hstored : stored_catalog d).
Let I := entries d TB_INDEXES.
Let rowsC := numberedRows (entries d TB_CLASSES).
Let rowsP := numberedRows (entries d TB_PROPERTIES).

Lemma class_rows row : row ∈ rowsC -> class_row C row.
Proof.
  destruct row as [z v]. intros Hin%elem_of_numberedRows. unfold class_row. simpl.
  destruct (decide (z = UINT16_EM_INIT)); [by left|right].
  apply (sc_class _ Hstored) in Hin as (id & c & Hc & [= -> ->]); [by exists c|]. cbn [fst]. congruence.
Qed.
Lemma property_rows row : row ∈ rowsP -> property_row P row.
Proof.
  destruct row as [z v]. intros Hin%elem_of_numberedRows. unfold property_row. simpl.
  destruct (decide (z = UINT16_EM_INIT)); [by left|right].
  apply (sc_property _ Hstored) in Hin as (id & p & Hp & [= -> ->]); [by exists p|]. cbn [fst]. congruence.
Qed.
Lemma class_read id c : C !! id = Some c -> id ∈ rowsC.*1.
Proof.
  intros Hc. destruct (ok_class _ _ Hok _ _ Hc). apply list_elem_of_fmap. exists (id, classBytes c). split; [done|].
  apply elem_of_numberedRows, (sc_class _ Hstored); [|by exists id, c]. cbn [fst]. intros [= ->].
  unfold UINT16_EM_INIT in *. lia.
Qed.
Lemma property_read id p : P !! id = Some p -> id ∈ rowsP.*1.
Proof.
  intros Hp. destruct (ok_property _ _ Hok _ _ Hp). apply list_elem_of_fmap. exists (id, propertyBytes p). split; [done|].
  apply elem_of_numberedRows, (sc_property _ Hstored); [|by exists id, p]. cbn [fst]. intros [= ->].
  unfold UINT16_EM_INIT in *. lia.
Qed.
Lemma inheritance_rows p : p ∈ inheritanceOf C rowsC <-> exists c, C !! p.1 = Some c /\ p.2 = cc_super c.
Proof.
  unfold inheritanceOf. rewrite list_elem_of_omap. split.
  - intros ([z v] & Hin & Hp). cbn [fst] in Hp. destruct (C !! z) as [c|] eqn:Hc; [|done]. injection Hp as <-. by exists c.
  - intros (c & Hc & Hs). pose proof (class_read _ _ Hc) as (row & Heq & Hin)%list_elem_of_fmap.
    exists row. split; [done|]. rewrite <- Heq, Hc. simpl. rewrite <- Hs. by destruct p.
Qed.

Lemma recovered_class L id c d1 d2 vc :
  C !! id = Some c -> inherits L (inheritanceOf C rowsC) id c d1 ->
  cd_id d1 = id -> holds_properties P I rowsP.*1 id (getLatestVersion vc).1 -> d2 = setProperties (fun _ => vc) d1 ->
  recovered I L id c d2.
Proof.
  intros Hc [I1 I2 I3 I4 I5] Hid Hprops ->. split; try done.
  - simpl. rewrite I4. destruct (Z.eqb_spec (cc_super c) 0); [rewrite bool_decide_false by naive_solver|]; [done|].
    rewrite bool_decide_true; [done|]. split; [|done]. apply list_elem_of_fmap. exists (id, cc_super c).
    split; [done|]. apply inheritance_rows. by exists c.
  - intros w. simpl. rewrite I5, list_elem_of_fmap. split.
    + intros ([i j] & -> & [Hj Hin]%list_elem_of_filter). apply inheritance_rows in Hin as (ci & Hci & Hs).
      cbn [fst snd] in *. exists i, ci. split_and!; [done|congruence|done].
    + intros (i & ci & Hci & Hs & ->). exists (i, cc_super ci). split; [done|]. apply list_elem_of_filter.
      split; [done|]. apply inheritance_rows. by exists ci.
  - intros name x. simpl. rewrite (Hprops name x). split.
    + intros (pid & p & _ & H). by exists pid, p.
    + intros (pid & p & Hp & H). exists pid, p. split; [by eapply property_read|done].
Qed.

(** The counters are past every id of the catalog. *)
Definition counters_past (i : DBInfo) : Prop :=
  (forall id, is_Some (C !! id) -> (id <= maxClassId i)%Z) /\
  (forall id, is_Some (P !! id) -> (id <= maxPropertyId i)%Z) /\
  (forall id v u x c, is_Some (P !! id) -> v ∈ indexRows I id -> parseIndexRow v = Ok (u, x, c) -> (x <= maxIndexId i)%Z).

Lemma classes_recovered c t :
  image (dbSchema c) t ∅ -> (0 <= maxClassId (dbInfo c))%Z -> txnDbInfo t = dbInfo c ->
  exists s1 t1 M1, ofold (recoverClass (maxClassId (dbInfo c))) rowsC ((dbSchema c, t), []) =
      Ok ((s1, t1), inheritanceOf C rowsC) /\ image s1 t1 M1 /\ classes_read C rowsC M1 /\
    class_bound (maxClassId (dbInfo c)) rowsC (txnDbInfo t1).
Proof.
  intros Hi H0 Hinfo. set (m := maxClassId (dbInfo c)).
  destruct (ofold_rows by_id (class_row C) (fun rows st => exists M, image st.1.1 st.1.2 M /\ classes_read C rows M /\
      st.2 = inheritanceOf C rows /\ class_bound m rows (txnDbInfo st.1.2)) (recoverClass m) rowsC [] ((dbSchema c, t), []))
    as ([[s1 t1] inh] & E1 & M1 & Hi1 & Hread1 & Hinh & Hb1).
  - intros rows row [[s1 t1] inh] (M & Hi1 & Hr1 & Hinh & Hb) Hrow Hnew. cbn [fst snd] in *. subst inh.
    destruct (recoverClass_spec C P Hok m s1 t1 rows row M Hi1 Hr1 Hrow (sorted_new _ _ Hnew))
      as (s' & t' & M' & E & Hi' & Hr'). eexists. split; [exact E|]. exists M'. split_and!; try done.
    by apply (recoverClass_bound m _ rows row _ H0 E).
  - exists ∅. split_and!; try done. split; [cbn [fst snd]; by rewrite Hinfo|]. by intros id ?%elem_of_nil.
  - apply class_rows.
  - apply sorted_numberedRows, Hstored.
  - cbn [fst snd] in *. subst inh. by exists s1, t1, M1.
Qed.

Lemma inheritance_recovered s1 t1 M1 :
  image s1 t1 M1 -> classes_read C rowsC M1 ->
  exists s2 t2 M2, apply_ s1 t1 (inheritanceOf C rowsC) = Ok (s2, t2) /\ image s2 t2 M2 /\
    ucSchema t2 = ucSchema t1 /\ txnDbInfo t2 = txnDbInfo t1 /\
    inheritances C (ucSchema t1) (inheritanceOf C rowsC) M2.
Proof.
  intros Hi1 Hread1. set (L := ucSchema t1).
  destruct (ofold_rows by_id (fun p => exists c, C !! p.1 = Some c /\ p.2 = cc_super c)
      (fun rows st => exists M, image st.1 st.2 M /\ ucSchema st.2 = L /\ txnDbInfo st.2 = txnDbInfo t1 /\
        inheritances C L rows M) applyOne (inheritanceOf C rowsC) [] (s1, t1))
    as ([s2 t2] & E2 & M2 & Hi2 & HL2 & Hc2 & Hinh2).
  - intros rows row [s t] (M & Hi & HL & Hc & Hinh) Hrow Hnew. cbn [fst snd] in *.
    destruct (applyOne_spec C P Hok L s t rows M row Hi HL Hinh Hrow (sorted_new _ _ Hnew))
      as (s' & t' & M' & E & ? & ? & Hc' & ?). exists (s', t'). split; [done|]. exists M'.
    split_and!; try done. by rewrite <- Hc.
  - exists M1. split_and!; try done. intros id. rewrite (Hread1 id). destruct (C !! id) as [c|] eqn:Hc; [|by case_decide].
    rewrite decide_True by (by eapply class_read). exists (newClassOf id c). split; [done|]. split; try done.
  - apply inheritance_rows.
  - apply sorted_inheritance, sorted_numberedRows, Hstored.
  - by exists s2, t2, M2.
Qed.

Lemma properties_recovered s2 t2 M2 :
  image s2 t2 M2 -> (forall id, is_Some (M2 !! id) <-> is_Some (C !! id)) ->
  (forall id dsc, M2 !! id = Some dsc -> cd_properties dsc = emptyVersionControl) ->
  exists s3 t3 M3, ofold (recoverProperty I) rowsP (s2, t2) = Ok (s3, t3) /\ image s3 t3 M3 /\
    ucSchema t3 = ucSchema t2 /\ maxClassId (txnDbInfo t3) = maxClassId (txnDbInfo t2) /\
    properties_read P I M2 rowsP M3 /\ (forall id, id <> UINT16_EM_INIT -> id ∈ rowsP.*1 -> (id <= maxPropertyId (txnDbInfo t3))%Z /\
      forall v u x c, v ∈ indexRows I id -> parseIndexRow v = Ok (u, x, c) -> (x <= maxIndexId (txnDbInfo t3))%Z).
Proof.
  intros Hi2 Hdom Hempty.
  destruct (ofold_rows by_id (property_row P)
      (fun rows st => exists M, image st.1 st.2 M /\ ucSchema st.2 = ucSchema t2 /\
         maxClassId (txnDbInfo st.2) = maxClassId (txnDbInfo t2) /\ properties_read P I M2 rows M /\
         property_bound I (filter (fun r => r.1 <> UINT16_EM_INIT) rows) (txnDbInfo st.2))
      (recoverProperty I) rowsP [] (s2, t2)) as ([s3 t3] & E3 & M3 & Hi3 & HL3 & Hc3 & Hr3 & Hb3).
  - intros rows row [s t] (M & Hi & HL & Hc & Hr & Hb) Hrow Hnew. cbn [fst snd] in *.
    destruct (recoverProperty_spec C P Hok I (sc_indexes _ Hstored) (sc_index _ Hstored) M2 Hdom s t rows row M Hi Hr Hrow
      (sorted_new _ _ Hnew)) as (s' & t' & M' & E & ? & HL' & ?).
    exists (s', t'). split; [done|]. exists M'. rewrite filter_app. cbn [snd].
    destruct (decide (row.1 = UINT16_EM_INIT)) as [Hz|Hz].
    + destruct row as [z v]. cbn [fst] in Hz. subst z. injection E as <- <-. rewrite filter_cons_False by (simpl; naive_solver).
      by rewrite filter_nil, app_nil_r.
    + rewrite filter_cons_True, filter_nil by done.
      destruct (recoverProperty_bound I _ _ row _ (sc_indexes _ Hstored) E Hb Hz) as [Hb' Hc'].
      split_and!; try done; [by rewrite HL'|]. cbn [snd] in *. by rewrite Hc'.
  - exists M2. split_and!; try done.
    + intros id. destruct (M2 !! id) as [dsc|] eqn:Ed; [|done]. exists emptyVersionControl.
      split; [rewrite <- (Hempty _ _ Ed); by destruct dsc|]. intros name x. split; [done|].
      by intros (pid & p & ?%elem_of_nil & _).
    + by intros id ?%elem_of_nil.
  - apply property_rows.
  - apply sorted_numberedRows, Hstored.
  - exists s3, t3, M3. split_and!; try done. intros id Hne Hin. apply Hb3.
    apply list_elem_of_fmap in Hin as (row & -> & Hin). apply list_elem_of_fmap. exists row. split; [done|].
    by apply list_elem_of_filter.
Qed.

Lemma recoverSchema_spec c t :
  image (dbSchema c) t ∅ -> (0 <= maxClassId (dbInfo c))%Z -> txnDbInfo t = dbInfo c ->
  exists s t' M, recoverSchema d c t = Ok (s, t') /\ image s t' M /\ counters_past (txnDbInfo t') /\
    forall id, match C !! id with
               | None => M !! id = None
               | Some cc => exists dsc, M !! id = Some dsc /\ recovered I (ucSchema t') id cc dsc
               end.
Proof.
  intros Hi H0 Hinfo.
  destruct (classes_recovered c t Hi H0 Hinfo) as (s1 & t1 & M1 & E1 & Hi1 & Hread1 & Hb1).
  destruct (inheritance_recovered s1 t1 M1 Hi1 Hread1) as (s2 & t2 & M2 & E2 & Hi2 & HL2 & Hc2 & Hinh2).
  destruct (properties_recovered s2 t2 M2 Hi2) as (s3 & t3 & M3 & E3 & Hi3 & HL3 & Hc3 & Hr3 & Hb3).
  { intros id. specialize (Hinh2 id). destruct (C !! id) as [cc|].
    - destruct Hinh2 as (dsc & -> & _). split; by eexists.
    - rewrite Hinh2. split; by intros [? ?]. }
  { intros id dsc Hd. specialize (Hinh2 id). destruct (C !! id) as [cc|]; [|congruence].
    destruct Hinh2 as (dsc' & Hd' & []). congruence. }
  exists s3, t3, M3. split_and!; try done.
  - unfold recoverSchema. fold rowsC. rewrite E1. cbn [obind fst snd]. rewrite E2. cbn [obind]. exact E3.
  - split_and!.
    + intros id [cc Hcc]. rewrite Hc3, Hc2. apply Hb1. by eapply class_read.
    + intros id [p Hp]. destruct (ok_property _ _ Hok _ _ Hp). apply Hb3; [unfold UINT16_EM_INIT; lia|by eapply property_read].
    + intros id v u x k [p Hp] Hv Hpv. destruct (ok_property _ _ Hok _ _ Hp).
      eapply Hb3; [|by eapply property_read|done|done]. unfold UINT16_EM_INIT; lia.
  - intros id. specialize (Hr3 id). specialize (Hinh2 id). destruct (C !! id) as [cc|] eqn:Hcc; [|by rewrite Hinh2 in Hr3].
    destruct Hinh2 as (dsc & Hd & Hinh). rewrite Hd in Hr3. destruct Hr3 as (vc & HM3 & Hprops).
    exists (setProperties (fun _ => vc) dsc). split; [done|]. rewrite HL3, HL2.
    eapply recovered_class; [done|exact Hinh| |exact Hprops|done]. by apply (im_new _ _ _ Hi2 _ _ Hd).
Qed.
End tables.
