(* ===== verification/ClassSpec.v ===== *)
(** * Creating classes

    [Class::create] numbers a class after every class of the catalog, refuses
    to when the numbers run out, and keeps the class table, the counters and
    the schema in memory in step; a created class is found again when the
    database is opened ([SchemaRecovery]). *)

From stdpp Require Import base gmap sets list strings sorting.
From Stdlib Require Import ZArith Lia ZifyBool.
From S2P Require Import Prelude Types Store Blob VersionControl TxnObject TxnData.
From S2P Require Import Graph Schema Validate BaseTxn Commands CommandSpec ClassCommands Recovery SchemaRecovery.

#[local] Arguments le_bytes : simpl never.

Section create.
  Context {D : Type} `{!Lmdb D, !LmdbLaws D}.

(** The numbers above the counter are unused. *)
Record unused_ids (s : Db D) : Prop := {
  ui_counter : (0 <= maxClassId (txnDbInfo (db_txn s)) <= CLASS_ID_UPPER_LIMIT)%Z;
  ui_class id : (maxClassId (txnDbInfo (db_txn s)) < id)%Z ->
    schemaInfo (db_schema s) !! id = None /\ ucSchema (db_txn s) !! id = None;
  ui_table id : (maxClassId (txnDbInfo (db_txn s)) < id <= UINT16_MAX)%Z -> entries (db_store s) (to_string id) = [];
}.

(** [Class::create] can begin. *)
Definition may_create (className : string) (type : ClassType) (s : Db D) : Prop :=
  isTransactionValid (db_txn s) = Ok tt /\ isClassNameValid className = Ok tt /\ isClassTypeValid type = Ok tt.

Definition nextClass (s : Db D) : ClassId := (maxClassId (txnDbInfo (db_txn s)) + 1)%Z.
(** The state after the number is taken. *)
Definition numbered (s : Db D) : Db D := setSchema (db_schema s, setTxnDbInfo addClassId (db_txn s)) s.

Lemma nextClassId_spec s :
  unused_ids s ->
  nextClassId s = if (CLASS_ID_UPPER_LIMIT <=? maxClassId (txnDbInfo (db_txn s)))%Z
                  then (s, Throw NOGDB_CTX_LIMIT_DBSCHEMA) else (numbered s, Ok (nextClass s)).
Proof.
  intros [Hc _ _]. unfold nextClassId, nextId, cbind, asks, throws, onInfo, onSchema, numbered, nextClass.
  cbn [fst snd]. destruct (Z.leb_spec CLASS_ID_UPPER_LIMIT (maxClassId (txnDbInfo (db_txn s)))); [done|].
  do 2 f_equal. simpl. unfold u16, CLASS_ID_UPPER_LIMIT, UINT16_MAX in *. apply Z.mod_small. lia.
Qed.

Lemma classTables_spec s id row :
  table (db_store s) TB_CLASSES -> (forall x, x ∈ entries (db_store s) TB_CLASSES -> key_ltb x.1 (KNum id) = true) ->
  entries (db_store s) (to_string id) = [] -> (0 <= id)%Z ->
  exists d1 d2, dbPut true TB_CLASSES (KNum id) row true true (db_store s) = Ok d1 /\
    putClassTables id row s = (setStore d2 s, Ok tt) /\
    (forall n, n <> to_string id -> entries d2 n = entries d1 n) /\ class_table d2 id 1.
Proof.
  intros Ht Hlast Hempty Hid. unfold putClassTables, cbind, onStore.
  destruct (put_append (db_store s) true TB_CLASSES (KNum id) row) as [d1 H1]; [done|done|]. rewrite H1.
  destruct (put_inv _ _ _ _ _ _ _ _ H1) as [_ O1].
  assert (to_string id <> TB_CLASSES) as Hn by (apply class_not_dotted; [done|by eexists]).
  assert (entries d1 (to_string id) = []) as He1 by (by rewrite O1).
  destruct (put_append d1 true (to_string id) (KNum EM_MAXRECNUM) (le_bytes 4 1)) as [d2 H2]; [done|by rewrite He1; intros x ?%elem_of_nil|].
  simpl. rewrite H2. exists d1, d2. split_and!; [done|done| |].
  - intros n Hne. by destruct (put_inv _ _ _ _ _ _ _ _ H2) as [_ ->].
  - destruct (put_unique _ _ _ _ _ _ _ H2) as (Ht2 & He2 & _); [unfold table; rewrite He1; constructor|].
    split; [done| | |unfold UINT32_MAX; lia].
    + rewrite (put_get _ _ _ _ _ _ _ _ H2); [by rewrite decide_True|unfold table; rewrite He1; constructor].
    + intros x [->|[Hx _]]%He2; [exists EM_MAXRECNUM; split; [done|unfold EM_MAXRECNUM; lia]|].
      rewrite He1 in Hx. by apply elem_of_nil in Hx.
Qed.

(** The catalog with one more class. *)
Lemma stored_catalog_put C P d d1 id c :
  stored_catalog C P d -> catalog_ok C P -> C !! id = None -> id <> UINT16_EM_INIT ->
  dbPut true TB_CLASSES (KNum id) (classBytes c) true true d = Ok d1 -> stored_catalog (<[id := c]> C) P d1.
Proof.
  intros [S1 S2 S3 S4 S5 S6] Hok Hid Hne Hput. destruct (put_unique _ _ _ _ _ _ _ Hput S1) as (Ht & He & Ho).
  assert (entries d1 TB_PROPERTIES = entries d TB_PROPERTIES) as Hp by (by apply Ho).
  assert (entries d1 TB_INDEXES = entries d TB_INDEXES) as Hx by (by apply Ho).
  split; unfold table; rewrite ?Hp, ?Hx; try done.
  intros x Hx0. rewrite He, (S2 x Hx0). split.
  - intros [->|((i & ci & Hi & ->) & Hk)]; [exists id, c; by rewrite lookup_insert_eq|].
    exists i, ci. rewrite lookup_insert_ne by congruence. done.
  - intros (i & ci & Hi & ->). destruct (decide (id = i)) as [<-|Hni].
    + rewrite lookup_insert_eq in Hi. simplify_eq. by left.
    + rewrite lookup_insert_ne in Hi by done. right. split; [by exists i, ci|]. cbn [fst]. congruence.
Qed.

Lemma catalog_ok_insert C P id c :
  catalog_ok C P -> C !! id = None -> (0 < id <= UINT16_MAX)%Z -> cc_name c <> EmptyString ->
  (cc_super c = 0%Z \/ is_Some (C !! cc_super c)) -> catalog_ok (<[id := c]> C) P.
Proof.
  intros [K1 K2 K3] Hid Hr Hn Hs. assert (forall i, is_Some (C !! i) -> is_Some (<[id := c]> C !! i)) as Hmono.
  { intros i [x Hx]. rewrite lookup_insert_ne by congruence. by eexists. }
  split; [|intros i p Hp; destruct (K2 i p Hp) as (? & ? & ?); eauto|done].
  intros i ci. destruct (decide (id = i)) as [<-|Hne].
  - rewrite lookup_insert_eq. intros [= <-]. split_and!; [lia|lia|done|]. destruct Hs; eauto.
  - rewrite lookup_insert_ne by done. intros Hi. destruct (K1 _ _ Hi) as (? & ? & [?|?]); eauto.
Qed.

Lemma valid_name_nonempty name : isClassNameValid name = Ok tt -> name <> EmptyString.
Proof. by intros H ->. Qed.

(** A new class is found under its number, and has no properties yet. *)
Lemma find_new (sch : Schema) (t : BaseTxn) c l sch1 id :
  isReadWrite t = true -> schemaInfo sch !! id = None -> ucSchema t !! id = None -> st_status (cd_state c) = UNCOMMITTED_CREATE ->
  allocClass c sch = (l, sch1) -> findClass sch1 (insertClass l id t) id = Some (l, c).
Proof.
  intros Hrw Hs Hu Hst [= <- <-]. unfold findClass. cbn [schemaInfo sheap]. rewrite Hs.
  unfold isReadOnly, isReadWrite, findUncommittedSchema, insertClass in *. apply bool_decide_eq_true in Hrw. simpl.
  rewrite Hrw. simpl. rewrite lookup_emplace, Hu, decide_True by done. simpl. rewrite lookup_insert_eq. simpl.
  unfold checkReadWrite. by rewrite Hst.
Qed.

Lemma transform_new sch t id name type :
  isReadWrite t = true ->
  transform sch t (newClassDescriptor id name type) = Ok (mkPClassDescriptor id name type ∅ EmptyString []).
Proof.
  unfold isReadWrite. intros Hrw%bool_decide_eq_true. unfold transform. cbn [inheritedProperties].
  assert (forall T `{Default T}, getCurrentVersion t (emptyVersionControl : VersionControl T) = (dflt, false)) as Hempty
    by (intros; unfold getCurrentVersion; by rewrite Hrw).
  unfold superOf, publicProperties, propertiesOf. cbn [newClassDescriptor cd_super cd_properties cd_sub cd_name cd_id cd_type].
  rewrite !Hempty. cbn [fst lockClass dflt Default_option Default_list omap list_omap].
  unfold getCurrentVersion. by rewrite Hrw.
Qed.

(** [Class::create] of a new name on a valid name and type. *)
Lemma classCreate_ok s C P className type :
  may_create className type s -> unused_ids s -> (nextClass s <= CLASS_ID_UPPER_LIMIT)%Z ->
  isNotDuplicatedClass (db_schema s) (db_txn s) className = Ok tt ->
  stored_catalog C P (db_store s) -> catalog_ok C P -> counters_past C P (db_store s) (txnDbInfo (db_txn s)) ->
  exists s' l, classCreate className type s =
      (s', Ok (mkPClassDescriptor (nextClass s) className type ∅ EmptyString [])) /\
    stored_catalog (<[nextClass s := mkCatalogClass type 0 className]> C) P (db_store s') /\
    catalog_ok (<[nextClass s := mkCatalogClass type 0 className]> C) P /\
    counters_past (<[nextClass s := mkCatalogClass type 0 className]> C) P (db_store s') (txnDbInfo (db_txn s')) /\
    findClass (db_schema s') (db_txn s') (nextClass s) = Some (l, newClassDescriptor (nextClass s) className type) /\
    class_table (db_store s') (nextClass s) 1 /\ unused_ids s' /\
    entries (db_store s') TB_RELATIONS = entries (db_store s) TB_RELATIONS.
Proof.
  intros (Hv & Hn & Ht) Hui Hlim Hdup Hcat Hok Hcnt. set (id := nextClass s) in *. set (cc := mkCatalogClass type 0 className).
  pose proof Hui as [Hu1 Hu2 Hu3]. assert (maxClassId (txnDbInfo (db_txn s)) < id)%Z as Hlt by (unfold id, nextClass; lia).
  assert (isReadWrite (db_txn s) = true) as Hrw.
  { unfold isTransactionValid in Hv. unfold isReadWrite. by destruct (txnType (db_txn s)). }
  assert (C !! id = None) as Hid.
  { destruct (C !! id) as [x|] eqn:E; [|done]. destruct Hcnt as [Hc _]. specialize (Hc id ltac:(by eexists)). lia. }
  assert (forall x, x ∈ entries (db_store s) TB_CLASSES -> key_ltb x.1 (KNum id) = true) as Hlast.
  { intros [k v] Hin. destruct (decide (k = KNum UINT16_EM_INIT)) as [->|Hne].
    - simpl. unfold UINT16_EM_INIT. lia.
    - apply (sc_class _ _ _ Hcat) in Hin as (i & ci & Hi & [= -> ->]); [|done]. simpl.
      destruct Hcnt as [Hc _]. specialize (Hc i ltac:(by eexists)). lia. }
  destruct (catalogRow_ok (ClassType_code type) 0 className) as (row & Hrow & Hwr).
  destruct (Hu2 id Hlt) as [Hs1 Hs2].
  destruct (allocClass (newClassDescriptor id className type) (db_schema s)) as [l sch1] eqn:Ha.
  set (s1 := setSchema (sch1, db_txn (numbered s)) (numbered s)).
  destruct (classTables_spec s1 id (written row)) as (d1 & d2 & H1 & H2 & Ho & Hct);
    [apply Hcat|done|apply Hu3; unfold CLASS_ID_UPPER_LIMIT in *; lia|lia|].
  pose proof (proj2 (put_inv _ _ _ _ _ _ _ _ H1)) as O1. change (db_store s1) with (db_store s) in O1.
  exists (mkDb sch1 (db_relation s) (setTxnDbInfo (countClasses 1) (insertClass l id (db_txn (numbered s)))) d2), l.
  assert (maxClassId (txnDbInfo (setTxnDbInfo (countClasses 1) (insertClass l id (db_txn (numbered s))))) = id) as Hmax.
  { simpl. unfold id, nextClass, u16, CLASS_ID_UPPER_LIMIT, UINT16_MAX in *. apply Z.mod_small. lia. }
  cbn [db_schema db_txn db_store]. split_and!.
  - unfold classCreate, validTransaction, check, cbind, asks. rewrite Hv, Hn, Ht, nextClassId_spec by done.
    destruct (Z.leb_spec CLASS_ID_UPPER_LIMIT (maxClassId (txnDbInfo (db_txn s)))); [unfold nextClass, id in *; lia|].
    change (isNotDuplicatedClass (db_schema (numbered s)) (db_txn (numbered s)) className)
      with (isNotDuplicatedClass (db_schema s) (db_txn s) className).
    rewrite Hdup. fold id. unfold newClass. change (db_schema (numbered s)) with (db_schema s). rewrite Ha. fold s1.
    unfold classRow. rewrite Hrow, H2. unfold onInfo, onSchema. cbn [setSchema setStore db_schema db_txn fst snd].
    unfold publicClass, classAt, cbind, asks. cbn [db_schema db_txn].
    replace (sheap sch1 !! l) with (Some (newClassDescriptor id className type))
      by (injection Ha as <- <-; simpl; by rewrite lookup_insert_eq).
    rewrite transform_new by done. reflexivity.
  - change (db_store s1) with (db_store s) in H1. rewrite Hwr in H1.
    pose proof (stored_catalog_put C P _ _ id cc Hcat Hok Hid ltac:(unfold UINT16_EM_INIT; lia) H1) as Hc1.
    assert (forall n, dotted n -> entries d2 n = entries d1 n) as Hd.
    { intros n Hdn. apply Ho. intros ->. by apply (class_not_dotted id _ ltac:(lia) Hdn). }
    destruct Hc1 as [S1 S2 S3 S4 S5 S6].
    split; unfold table in *; rewrite !Hd by (by eexists); done.
  - apply catalog_ok_insert; try done; [unfold CLASS_ID_UPPER_LIMIT in *; lia| |by left]. by apply valid_name_nonempty.
  - destruct Hcnt as (Hc1 & Hc2 & Hc3). unfold counters_past. rewrite Hmax.
    split_and!; [|done|].
    + intros i. destruct (decide (id = i)) as [<-|Hne]; [done|]. rewrite lookup_insert_ne by done. intros Hi.
      specialize (Hc1 i Hi). lia.
    + rewrite Ho by (apply not_eq_sym, class_not_dotted; [lia|by eexists]). by rewrite O1.
  - change (findClass sch1 (insertClass l id (db_txn (numbered s))) id = Some (l, newClassDescriptor id className type)).
    by eapply find_new.
  - done.
  - split; cbn [db_schema db_txn db_store].
    + rewrite Hmax. lia.
    + intros i. rewrite Hmax. intros Hi. destruct (Hu2 i) as [Hi1 Hi2]; [lia|]. split; [by injection Ha as <- <-|].
      simpl. rewrite lookup_emplace, Hi2. by rewrite decide_False by lia.
    + intros i. rewrite Hmax. intros Hi. rewrite Ho by (intros Heq; apply to_string_inj in Heq; unfold CLASS_ID_UPPER_LIMIT, UINT16_MAX, UINT64_MAX in *; lia).
      rewrite O1 by (apply class_not_dotted; [lia|by eexists]). apply Hu3. lia.
  - rewrite Ho by (apply not_eq_sym, class_not_dotted; [lia|apply relations_dotted]). by rewrite O1.
Qed.

(** C10. [Class::create] on a valid name and type: a new name gets the next number,
    its row and its table, and is found; a name in use throws and only takes
    the number; when the numbers are used up nothing changes. *)
Theorem classCreate_outcomes s C P className type :
  may_create className type s -> unused_ids s -> stored_catalog C P (db_store s) -> catalog_ok C P ->
  counters_past C P (db_store s) (txnDbInfo (db_txn s)) ->
  (maxClassId (txnDbInfo (db_txn s)) = CLASS_ID_UPPER_LIMIT ->
   classCreate className type s = (s, Throw NOGDB_CTX_LIMIT_DBSCHEMA)) /\
  ((maxClassId (txnDbInfo (db_txn s)) < CLASS_ID_UPPER_LIMIT)%Z ->
   match isNotDuplicatedClass (db_schema s) (db_txn s) className with
   | Ok _ => exists s' l, classCreate className type s =
         (s', Ok (mkPClassDescriptor (nextClass s) className type ∅ EmptyString [])) /\
       stored_catalog (<[nextClass s := mkCatalogClass type 0 className]> C) P (db_store s') /\
       catalog_ok (<[nextClass s := mkCatalogClass type 0 className]> C) P /\
       counters_past (<[nextClass s := mkCatalogClass type 0 className]> C) P (db_store s') (txnDbInfo (db_txn s')) /\
       findClass (db_schema s') (db_txn s') (nextClass s) = Some (l, newClassDescriptor (nextClass s) className type) /\
       class_table (db_store s') (nextClass s) 1 /\ unused_ids s'
   | Throw e => classCreate className type s = (numbered s, Throw e)
   | UB => False
   end).
Proof.
  intros Hmay Hui Hcat Hok Hcnt. pose proof Hmay as (Hv & Hn & Ht). split.
  - intros Hlim. unfold classCreate, validTransaction, check, cbind, asks. rewrite Hv, Hn, Ht, nextClassId_spec by done.
    by rewrite Hlim.
  - intros Hlim. destruct (isNotDuplicatedClass (db_schema s) (db_txn s) className) as [[]|e|] eqn:Hdup.
    + destruct (classCreate_ok s C P className type) as (s' & l & H1 & H2 & H3 & H4 & H5 & H6 & H7 & _); try done.
      { unfold nextClass. lia. } by exists s', l.
    + unfold classCreate, validTransaction, check, cbind, asks. rewrite Hv, Hn, Ht, nextClassId_spec by done.
      destruct (Z.leb_spec CLASS_ID_UPPER_LIMIT (maxClassId (txnDbInfo (db_txn s)))); [lia|].
      change (isNotDuplicatedClass (db_schema (numbered s)) (db_txn (numbered s)) className)
        with (isNotDuplicatedClass (db_schema s) (db_txn s) className).
      by rewrite Hdup.
    + unfold isNotDuplicatedClass in Hdup. by destruct (findClassByName _ _ _).
Qed.
End create.
