(* ===== verification/RecoverySpec.v ===== *)
(** * What opening a database recovers

    The relations that [initDatabase] rebuilds in memory are the ones the
    relation table stores, and the context it leaves is the start of the cycle
    of transactions ([Cycle]): the map of edges survives closing and opening
    the database. *)

From stdpp Require Import base gmap sets list strings sorting.
From Stdlib Require Import ZArith Lia ZifyBool.
From S2P Require Import Prelude Types Store Blob VersionControl MultiVersionMap TxnObject TxnData.
From S2P Require Import Graph GraphSpec GraphQuery GraphSteps Schema Validate BaseTxn CommitSpec Lifecycle Cycle.
From S2P Require Import Commands CommandSpec ClassCommands Recovery SchemaRecovery ClassSpec.

(** ** A transaction that only created objects *)
Record pristine (g : Graph) (t : BaseTxn) : Prop := {
  pr_vertices : vertices g = ∅;
  pr_edges : edges g = ∅;
  pr_new_vertex r l : ucVertices t !! r = Some l ->
    exists v, vheap g !! l = Some v /\ st_status (v_state v) = UNCOMMITTED_CREATE;
  pr_new_edge k l : ucEdges t !! k = Some l ->
    exists e, eheap g !! l = Some e /\ st_status (e_state e) = UNCOMMITTED_CREATE;
}.

Lemma pristine_all g t : pristine g t -> allV g t = ucVertices t /\ allE g t = ucEdges t.
Proof. intros [Hv He _ _]. unfold allV, allE. by rewrite Hv, He, !(left_id_L ∅ _). Qed.

(** Heaps whose objects keep their status. *)
Lemma pristine_heap g g' t :
  pristine g t -> vertices g' = vertices g -> edges g' = edges g ->
  (forall l v, vheap g !! l = Some v -> exists v', vheap g' !! l = Some v' /\ v_state v' = v_state v) ->
  (forall l e, eheap g !! l = Some e -> exists e', eheap g' !! l = Some e' /\ e_state e' = e_state e) ->
  pristine g' t.
Proof.
  intros [P1 P2 P3 P4] Hv He HV HE. split; [congruence|congruence| |].
  - intros r l (v & Hl & Hs)%P3. destruct (HV l v Hl) as (v' & ? & Heq). exists v'. by rewrite Heq.
  - intros k l (e & Hl & Hs)%P4. destruct (HE l e Hl) as (e' & ? & Heq). exists e'. by rewrite Heq.
Qed.

Lemma pristine_delete_vertex g t r : pristine g t -> pristine g (deleteUncommittedVertex r t).
Proof. intros [P1 P2 P3 P4]. split; try done. intros r' l. simpl. rewrite lookup_delete_Some. intros [_ ?]. eauto. Qed.
Lemma pristine_delete_edge g t k : pristine g t -> pristine g (deleteUncommittedEdge k t).
Proof. intros [P1 P2 P3 P4]. split; try done. intros k' l. simpl. rewrite lookup_delete_Some. intros [_ ?]. eauto. Qed.

Lemma pristine_add_vertex g t r l v :
  pristine g t -> vheap g !! l = Some v -> st_status (v_state v) = UNCOMMITTED_CREATE ->
  pristine g (addUncommittedVertex r l t).
Proof.
  intros [P1 P2 P3 P4] Hv Hs. split; try done. intros r' l'. simpl. rewrite lookup_emplace.
  destruct (ucVertices t !! r') eqn:E; [intros [= <-]; by eapply P3|]. case_decide; intros; simplify_eq. by exists v.
Qed.
Lemma pristine_add_edge g t k l e :
  pristine g t -> eheap g !! l = Some e -> st_status (e_state e) = UNCOMMITTED_CREATE ->
  pristine g (addUncommittedEdge k l t).
Proof.
  intros [P1 P2 P3 P4] He Hs. split; try done. intros k' l'. simpl. rewrite lookup_emplace.
  destruct (ucEdges t !! k') eqn:E; [intros [= <-]; by eapply P4|]. case_decide; intros; simplify_eq. by exists e.
Qed.

Lemma step_pristine a b : txn_step a b -> pristine a.1 a.2 -> pristine b.1 b.2.
Proof.
  destruct 1 as [g t r l Hl|g t k src dst l Hl|g t s k x l|g t s k l|g t s x k le e Hk He Hr|g t k le e Hk He Hs
    |g t k le e Hk He Hr Hs|g t r l v Hr Hv Hs|g t r l v Hr Hv Hrid Hs]; cbn [fst snd]; intros Hp.
  - eapply pristine_add_vertex; [|simpl; apply lookup_insert_eq|done].
    eapply pristine_heap; try done; [|by eauto].
    intros l' v Hv. simpl. exists v. by rewrite lookup_insert_ne by congruence.
  - eapply pristine_add_edge; [|simpl; apply lookup_insert_eq|done].
    eapply pristine_heap; try done; [by eauto|].
    intros l' e He. simpl. exists e. by rewrite lookup_insert_ne by congruence.
  - eapply pristine_heap; try done; [|by eauto]. intros l' v Hv. rewrite lookup_updVertex, Hv.
    case_decide; [|by exists v]. eexists. split; [done|]. by destruct s.
  - eapply pristine_heap; try done; [|by eauto]. intros l' v Hv. rewrite lookup_updVertex, Hv.
    case_decide; [|by exists v]. eexists. split; [done|]. by destruct s.
  - destruct (pristine_all g t Hp) as [_ Ha]. rewrite Ha in Hk. pose proof (pr_new_edge _ _ Hp _ _ Hk) as (e' & He' & Hs).
    simplify_eq. eapply (pristine_add_edge _ _ _ _ (setEnd_of s (addLatestVersion x) e)).
    + eapply pristine_heap; try done; [by eauto|]. intros l' e' He2. rewrite (lookup_updEdge g le e) by done.
      case_decide; [|by exists e']. simplify_eq. eexists. split; [done|]. by destruct s.
    + rewrite (lookup_updEdge g le e) by done. by rewrite decide_True.
    + by destruct s.
  - by apply pristine_delete_edge.
  - destruct (pristine_all g t Hp) as [_ Ha]. rewrite Ha in Hk. pose proof (pr_new_edge _ _ Hp _ _ Hk) as (e' & He' & Hs').
    simplify_eq. congruence.
  - by apply pristine_delete_vertex.
  - destruct (pristine_all g t Hp) as [Ha _]. rewrite Ha in Hr. pose proof (pr_new_vertex _ _ Hp _ _ Hr) as (v' & Hv' & Hs').
    simplify_eq. congruence.
Qed.

Lemma steps_pristine a b : txn_steps a b -> pristine a.1 a.2 -> pristine b.1 b.2.
Proof. apply (steps_inv (fun p => pristine p.1 p.2)), step_pristine. Qed.

(** Such a transaction may use every vertex id, and it sees all its edges. *)
Lemma pristine_usable g t r : pristine g t -> usable g t r.
Proof.
  intros Hp. destruct (pristine_all g t Hp) as [Ha _]. unfold usable, vvis. rewrite Ha.
  destruct (ucVertices t !! r) as [l|] eqn:E; [left|by right]. exists l. split; [done|].
  destruct (pr_new_vertex _ _ Hp _ _ E) as (v & Hv & Hs). exists v. split; [done|]. unfold checkReadWrite. by rewrite Hs.
Qed.

Lemma pristine_edge g t E k : pristine g t -> repr g t E -> E !! k = None -> allE g t !! k = None.
Proof.
  intros Hp Hr Hk. destruct (allE g t !! k) as [le|] eqn:Ha; [|done]. exfalso.
  destruct (r_only _ _ _ _ _ Hr k le) as [sd ?]; [|congruence]. split; [done|].
  destruct (pristine_all g t Hp) as [_ HaE]. rewrite HaE in Ha.
  destruct (pr_new_edge _ _ Hp _ _ Ha) as (e & He & Hs). exists e. split; [done|]. unfold checkReadWrite. by rewrite Hs.
Qed.

(** ** The relations *)

(** Steps of the relations leave the classes alone. *)
Lemma steps_classes a b s id : txn_steps a b -> findClass s b.2 id = findClass s a.2 id.
Proof. induction 1 as [|a b c Hab _ ->]; [done|]. by destruct Hab. Qed.

Lemma requireClass_steps a b s id : txn_steps a b -> requireClass s b.2 id = requireClass s a.2 id.
Proof. intros H. unfold requireClass. by rewrite (steps_classes a b). Qed.

(** A loop is read back only after another edge of its vertex: [Graph::createEdge]
    makes two objects for the ends of a loop when memory does not have the
    vertex yet ([createEdge_loop_dangles]).  The rows are read in the order of
    their keys, which are the printed record ids. *)
Definition reopenable (E : gmap RecordId (RecordId * RecordId)) : Prop :=
  forall k r, E !! k = Some (r, r) ->
    exists k' sd, E !! k' = Some sd /\ text_ltb (rid2str k') (rid2str k) = true /\ (sd.1 = r \/ sd.2 = r).

Lemma loopless_reopenable E : (forall k sd, E !! k = Some sd -> sd.1 <> sd.2) -> reopenable E.
Proof. intros HE k r Hk. by apply HE in Hk. Qed.

(** The ends of an edge are visible vertices. *)
Lemma repr_ends_visible g t E k sd r :
  repr g t E -> E !! k = Some sd -> sd.1 = r \/ sd.2 = r -> exists l, vvis g t r l.
Proof.
  intros Hr Hk [<-|<-].
  - destruct (proj1 (r_src _ _ _ _ _ Hr) k sd Hk) as (le & l & _ & Hv & _). by exists l.
  - destruct (proj1 (r_dst _ _ _ _ _ Hr) k sd Hk) as (le & l & _ & Hv & _). by exists l.
Qed.

(** A loop over a list whose invariant speaks about the part already read. *)
Lemma ofold_prefix {A S} (Inv : list A -> S -> Prop) (f : S -> A -> Outcome S) l0 :
  (forall rows row rest s, l0 = rows ++ row :: rest -> Inv rows s ->
     exists s', f s row = Ok s' /\ Inv (rows ++ [row]) s') ->
  forall l rows s, l0 = rows ++ l -> Inv rows s -> exists s', ofold f l s = Ok s' /\ Inv l0 s'.
Proof.
  intros Hf. induction l as [|row l IH]; intros rows s Hl Hs; [exists s; by rewrite Hl, app_nil_r|].
  destruct (Hf rows row l s Hl Hs) as (s1 & E & Hs1). cbn [ofold]. rewrite E. cbn [obind].
  apply (IH (rows ++ [row])); [by rewrite <- app_assoc|done].
Qed.

(** In a sorted list the smaller elements come first. *)
Lemma sorted_before {A} (R : A -> A -> Prop) rows row rest x :
  StronglySorted R (rows ++ row :: rest) -> (forall y, ~ R y y) -> (forall y z, R y z -> ~ R z y) ->
  x ∈ rows ++ row :: rest -> R x row -> x ∈ rows.
Proof.
  intros Hs Hirr Hasym Hin Hx. apply elem_of_app in Hin as [?|[->|Hin]%elem_of_cons]; [done|by apply Hirr in Hx|].
  apply StronglySorted_app in Hs as (_ & _ & [Hall _]%StronglySorted_cons). rewrite Forall_forall in Hall.
  by apply Hall, Hasym in Hin.
Qed.

Section relations.
  Context (s : Schema) (t0 : BaseTxn) (E : gmap RecordId (RecordId * RecordId)).
  Context (Hids : edges_ok E).

Definition classes_known : Prop :=
  forall k sd, E !! k = Some sd ->
    is_Some (findClass s t0 k.1) /\ is_Some (findClass s t0 sd.1.1) /\ is_Some (findClass s t0 sd.2.1).
Context (Hclasses : classes_known).

(** The rows of a relation table with these edges. *)
Definition edge_row (row : list byte * list byte) : Prop :=
  row.1 = STRING_EM_INIT \/ exists k sd, E !! k = Some sd /\ row = (rid2str k, relationBytes sd).

(** The edges whose rows were read. *)
Definition read_so_far (rows : list (list byte * list byte)) (E1 : gmap RecordId (RecordId * RecordId)) : Prop :=
  forall k, E1 !! k = if decide (rid2str k ∈ rows.*1) then E !! k else None.

Lemma requireClass_known id : is_Some (findClass s t0 id) -> requireClass s t0 id = Ok tt.
Proof. unfold requireClass. by intros [? ->]. Qed.

Lemma recoverRelation_spec g0 g t row rows E1 :
  txn_steps (g0, t0) (g, t) -> repr g t E1 -> pristine g t -> read_so_far rows E1 ->
  edge_row row -> row.1 ∉ rows.*1 ->
  (forall k r, E !! k = Some (r, r) -> row = (rid2str k, relationBytes (r, r)) ->
     exists k' sd, E !! k' = Some sd /\ rid2str k' ∈ rows.*1 /\ (sd.1 = r \/ sd.2 = r)) ->
  exists g' t' E2, recoverRelation s (g, t) row = Ok (g', t') /\ txn_steps (g0, t0) (g', t') /\
    repr g' t' E2 /\ pristine g' t' /\ read_so_far (rows ++ [row]) E2.
Proof.
  intros Hsteps Hr Hp Hread Hrow Hnew Hloop. destruct row as [key v]. unfold recoverRelation. cbn [fst] in *.
  case_bool_decide as Hinit.
  { subst. exists g, t, E1. split_and!; try done. intros k. rewrite fmap_app. cbn [fmap list_fmap fst]. rewrite (Hread k).
    destruct (E !! k) as [sd|] eqn:Ek; [|by repeat case_decide].
    pose proof (rid2str_not_init k (proj1 (Hids _ _ Ek))) as Hn. repeat case_decide; set_solver. }
  destruct Hrow as [?|(k & [src dst] & Ek & [= -> ->])]; [done|].
  destruct (Hids _ _ Ek) as (Hk & H1 & H2). destruct (Hclasses _ _ Ek) as (C1 & C2 & C3). cbn [fst snd] in *.
  rewrite parseRid_rid2str by (destruct Hk; lia). cbn [obind].
  rewrite (retrieve_src (src, dst)) by done. cbn [obind fst]. rewrite (retrieve_dst (src, dst)) by done. cbn [obind snd].
  rewrite !(requireClass_steps (g0, t0) (g, t)), !requireClass_known by done. cbn [obind].
  assert (E1 !! k = None) as HE1 by (by rewrite Hread, decide_False).
  destruct (createEdge_repr g t E1 k src dst Hr) as (g' & t' & Hc & Hr').
  { by eapply pristine_edge. } { by apply pristine_usable. } { by apply pristine_usable. } { destruct (decide (src = dst)) as [<-|Hne]; [right|by left].
    destruct (Hloop k src Ek eq_refl) as (k' & sd & Ek' & Hin & Hsd). eapply repr_ends_visible; [done| |exact Hsd].
    by rewrite Hread, decide_True. }
  pose proof (createEdge_steps _ _ _ _ _ _ Hc) as Hst.
  exists g', t', (<[k := (src, dst)]> E1). split_and!; [done|by etransitivity|done|by apply (steps_pristine _ _ Hst)|].
  intros k'. rewrite fmap_app. cbn [fmap list_fmap fst]. destruct (decide (k = k')) as [<-|Hne].
  - rewrite lookup_insert_eq, decide_True by set_solver. done.
  - rewrite lookup_insert_ne, Hread by done. destruct (E !! k') as [sd'|] eqn:Ek'; [|by repeat case_decide].
    assert (rid2str k' <> rid2str k).
    { intros H. apply rid2str_inj in H; [done|by apply (Hids _ _ Ek')|done]. }
    repeat case_decide; set_solver.
Qed.

End relations.

(** ** The database *)
Section database.
  Context {D : Type} `{!Lmdb D, !LmdbLaws D}.

Lemma elem_of_namedRows k v (l : list Entry) : (k, v) ∈ namedRows l <-> (KStr k, v) ∈ l.
Proof.
  unfold namedRows. rewrite list_elem_of_omap. split.
  - intros ([[z|k'] v'] & Hin & [= <- <-]). done.
  - intros Hin. by exists (KStr k, v).
Qed.

Lemma sorted_namedRows (l : list Entry) :
  ordered key_ltb fst l -> StronglySorted (fun a b => text_ltb a.1 b.1 = true) (namedRows l).
Proof.
  apply StronglySorted_omap. intros [[z|k] v] [[z'|k'] v'] x y Hlt; try done. by intros [= <-] [= <-].
Qed.

Lemma initTables_spec time d E :
  stored_edges d E ->
  exists d', initTables time d = Ok d' /\ stored_edges d' E /\
    forall n, n <> TB_CLASSES -> n <> TB_PROPERTIES -> n <> TB_RELATIONS -> entries d' n = entries d n.
Proof.
  intros Hst. unfold initTables.
  destruct (put_total d true TB_CLASSES (KNum UINT16_EM_INIT) time) as [d1 H1]; [done|].
  destruct (put_total d1 true TB_PROPERTIES (KNum UINT16_EM_INIT) time) as [d2 H2]; [done|].
  destruct (put_total d2 true TB_RELATIONS (KStr STRING_EM_INIT) time) as [d3 H3]; [done|].
  rewrite H1. cbn [obind]. rewrite H2. cbn [obind]. rewrite H3. exists d3. split; [done|].
  destruct (put_inv _ _ _ _ _ _ _ _ H1) as [_ O1]. destruct (put_inv _ _ _ _ _ _ _ _ H2) as [_ O2].
  destruct (put_inv _ _ _ _ _ _ _ _ H3) as [_ O3]. split; [|intros; by rewrite O3, O2, O1].
  assert (stored_edges d2 E) as [Ht Hx].
  { apply (stored_edges_ext d); [|done]. by rewrite O2, O1. }
  destruct (put_unique _ _ _ _ _ _ _ H3 Ht) as (Ht3 & He3 & _). split; [done|].
  intros x Hne. rewrite He3, <- (Hx x Hne). split; [by intros [->|[? _]]|by right].
Qed.

Lemma recoverRelations_spec d s g t E :
  stored_edges d E -> edges_ok E -> reopenable E -> classes_known s t E ->
  repr g t ∅ -> pristine g t ->
  exists g' t', recoverRelations d s g t = Ok (g', t') /\ txn_steps (g, t) (g', t') /\ repr g' t' E.
Proof.
  intros [Ht Hx] Hids Hloop Hcl Hr Hp. unfold recoverRelations.
  set (l0 := namedRows (entries d TB_RELATIONS)).
  assert (forall row, row ∈ l0 -> edge_row E row) as Hrows.
  { intros [k v] Hin%elem_of_namedRows. unfold edge_row. destruct (decide (k = STRING_EM_INIT)); [by left|right].
    apply Hx in Hin as (k' & sd & Ek & [= -> ->]); [|cbn [fst]; congruence]. by exists k', sd. }
  assert (forall k sd, E !! k = Some sd -> (rid2str k, relationBytes sd) ∈ l0) as Hstored.
  { intros k sd Ek. apply elem_of_namedRows. apply (Hx (KStr (rid2str k), relationBytes sd)); [|by exists k, sd].
    cbn [fst]. intros [= H]. by apply (rid2str_not_init k); [apply (Hids _ _ Ek)|]. }
  pose proof (sorted_namedRows _ Ht) as Hso. fold l0 in Hso.
  destruct (ofold_prefix (fun rows st => exists E1, txn_steps (g, t) st /\ repr st.1 st.2 E1 /\
         pristine st.1 st.2 /\ read_so_far E rows E1)
      (recoverRelation s) l0) with (l := l0) (rows := @nil (list byte * list byte)) (s := (g, t))
    as ([g' t'] & H1 & E2 & H2 & H3 & _ & H4).
  { intros rows row rest [g1 t1] Hl (E1 & H1 & H2 & H3 & H4). rewrite Hl in Hso.
    destruct (recoverRelation_spec s t E Hids Hcl g g1 t1 row rows E1) as (g' & t' & E2 & ? & ?); try done.
    { apply Hrows. rewrite Hl. set_solver. }
    { intros (r & Heq & Hin)%list_elem_of_fmap.
      assert (text_ltb r.1 row.1 = true) as Hlt
        by (eapply (StronglySorted_app_1_elem_of (fun a b => text_ltb a.1 b.1 = true)); [exact Hso|exact Hin|by left]).
      by rewrite Heq, text_ltb_irrefl in Hlt. }
    { intros k r Ek ->. destruct (Hloop k r Ek) as (k' & sd & Ek' & Hlt & Hsd). exists k', sd. split_and!; [done| |done].
      apply list_elem_of_fmap. exists (rid2str k', relationBytes sd). split; [done|].
      eapply sorted_before; [exact Hso|..]; cbn [fst].
      - intros y. by rewrite text_ltb_irrefl.
      - intros y z Hyz Hzy. pose proof (text_ltb_trans _ _ _ Hyz Hzy) as H. by rewrite text_ltb_irrefl in H.
      - rewrite <- Hl. by apply Hstored.
      - done. }
    exists (g', t'). split; [done|]. by exists E2. }
  { done. }
  { by exists ∅. }
  exists g', t'. split_and!; [done|done|]. assert (E2 = E) as ->; [|done].
  apply map_eq. intros k. rewrite H4. simpl. case_decide as Hin; [done|].
  destruct (E !! k) as [sd|] eqn:Ek; [|done]. destruct Hin. apply list_elem_of_fmap.
  exists (rid2str k, relationBytes sd). split; [done|]. by apply Hstored.
Qed.

(** Recovering the schema leaves the relations of the transaction alone. *)
Definition same_work (a b : BaseTxn) : Prop :=
  txnType b = txnType a /\ txnVersionId b = txnVersionId a /\ ucVertices b = ucVertices a /\ ucEdges b = ucEdges a /\
  isCompleted b = isCompleted a /\ isWithDataStore b = isWithDataStore a.

#[export] Instance same_work_preorder : PreOrder same_work.
Proof. split; [by intros t|]. unfold same_work. intros a b c. intuition congruence. Qed.

Lemma ofold_work {A S} (p : S -> BaseTxn) (f : S -> A -> Outcome S) l s s' :
  (forall s a s', f s a = Ok s' -> same_work (p s) (p s')) -> ofold f l s = Ok s' -> same_work (p s) (p s').
Proof.
  intros Hf. revert s. induction l as [|a l IH]; intros s; cbn [ofold]; [by intros [= ->]|].
  destruct (f s a) as [s1|e|] eqn:E; [|done|done]. cbn [obind]. intros H. etransitivity; eauto.
Qed.

Lemma recoverClass_work m st row st' : recoverClass m st row = Ok st' -> same_work st.1.2 st'.1.2.
Proof.
  destruct st as [[s t] inh], row as [id v]. unfold recoverClass. case_match; [by intros [= <-]|].
  destruct (parseRow v) as [[[ty sup] name]|e|]; [|done|done]. cbn [obind]. destruct (allocClass _ s) as [l s1].
  intros [= <-]. cbn [fst snd]. by case_match.
Qed.

Lemma applyOne_work st info st' : applyOne st info = Ok st' -> same_work st.2 st'.2.
Proof.
  destruct st as [s t]. unfold applyOne. case_match; [|by intros [= <-]].
  destruct (findClass s t info.1) as [[]|]; [|done]. destruct (findClass s t info.2) as [[]|]; [|done].
  by intros [= <-].
Qed.

Lemma recoverIndex_work st v st' : recoverIndex st v = Ok st' -> same_work st.2 st'.2.
Proof.
  destruct st as [d t]. unfold recoverIndex. destruct (parseIndexRow v) as [[[u i] c]|e|]; [|done|done].
  cbn [obind]. intros [= <-]. cbn [snd]. by case_match.
Qed.

Lemma recoverProperty_work idx st row st' : recoverProperty idx st row = Ok st' -> same_work st.2 st'.2.
Proof.
  destruct st as [s t], row as [id v]. unfold recoverProperty. case_match; [by intros [= <-]|].
  destruct (parseRow v) as [[[ty cls] name]|e|]; [|done|done]. cbn [obind].
  destruct (findClass s t cls) as [[l c]|]; [|done]. destruct (indexesOf id idx) as [rows|e|]; [|done|done].
  cbn [obind]. destruct (ofold recoverIndex rows _) as [[d' t1]|e|] eqn:Hrows; [|done|done]. cbn [obind].
  intros [= <-]. cbn [snd]. etransitivity.
  - exact (ofold_work snd _ _ _ _ recoverIndex_work Hrows).
  - by case_match.
Qed.

Lemma recoverSchema_work d c t s t1 : recoverSchema d c t = Ok (s, t1) -> same_work t t1.
Proof.
  unfold recoverSchema. destruct (ofold (recoverClass _) _ _) as [[st inh]|e|] eqn:H1; [|done|done]. cbn [obind].
  unfold apply_. destruct (ofold applyOne inh _) as [st1|e|] eqn:H2; [|done|done]. cbn [obind]. intros H3.
  apply (ofold_work (fun st => st.1.2) _ _ _ _ (recoverClass_work _)) in H1.
  apply (ofold_work snd _ _ _ _ applyOne_work) in H2.
  apply (ofold_work snd _ _ _ _ (recoverProperty_work _)) in H3.
  cbn [fst snd] in *. etransitivity; [exact H1|]. by etransitivity.
Qed.
End database.

(** ** Publishing the schema *)
Section publish.
  Context (s : Schema) (t : BaseTxn) (M : gmap ClassId ClassDescriptor) (Hi : image s t M) (base : TxnId).
Let obj := commitClassObj UNCOMMITTED_CREATE base (txnVersionId t).

Lemma image_injective id id' l : ucSchema t !! id = Some l -> ucSchema t !! id' = Some l -> id = id'.
Proof.
  intros H1 H2. destruct (proj1 (im_dom _ _ _ Hi id)) as [c Hc]; [by eexists|].
  destruct (proj1 (im_dom _ _ _ Hi id')) as [c' Hc']; [by eexists|].
  pose proof (im_heap _ _ _ Hi _ _ H1). pose proof (im_heap _ _ _ Hi _ _ H2).
  destruct (im_new _ _ _ Hi _ _ Hc), (im_new _ _ _ Hi _ _ Hc'). congruence.
Qed.

Lemma commitClasses_image ids : NoDup ids ->
  let st := fold_left (commitClass base (txnVersionId t)) (omap (fun id => ucSchema t !! id) ids) (s, []) in
  st.2 = [] /\ deletedClassId st.1 = [] /\
  (forall id, schemaInfo st.1 !! id = if decide (id ∈ ids) then ucSchema t !! id else None) /\
  (forall id l c, ucSchema t !! id = Some l -> M !! id = Some c ->
     sheap st.1 !! l = Some (if decide (id ∈ ids) then obj c else c)).
Proof.
  induction ids as [|id ids IH] using rev_ind; intros Hnd.
  { cbn [omap list_omap fold_left fst snd]. split_and!; [done|apply Hi| |].
    - intros id. by rewrite (im_info _ _ _ Hi), lookup_empty, decide_False by apply not_elem_of_nil.
    - intros id l c Hl Hc. rewrite decide_False by apply not_elem_of_nil. by rewrite (im_heap _ _ _ Hi _ _ Hl). }
  apply NoDup_app in Hnd as (Hnd & Hdisj & _). destruct (IH Hnd) as (Hq & Hdel & Hinfo & Hheap). clear IH.
  rewrite omap_app, fold_left_app. destruct (fold_left _ (omap _ ids) (s, [])) as [s1 q1]. cbn [fst snd] in *. subst q1.
  assert (id ∉ ids) as Hnew by set_solver.
  cbn [omap list_omap]. destruct (ucSchema t !! id) as [l|] eqn:Hl; simpl.
  2:{ split_and!; try done.
      - intros i. rewrite Hinfo. destruct (decide (i = id)) as [->|Hne]; [by repeat case_decide|].
        repeat case_decide; set_solver.
      - intros i l c Hi1 Hc. rewrite (Hheap _ _ _ Hi1 Hc). assert (i <> id) by congruence.
        repeat case_decide; set_solver. }
  destruct (proj1 (im_dom _ _ _ Hi id)) as [c Hc]; [by eexists|]. pose proof (Hheap _ _ _ Hl Hc) as Hh.
  rewrite decide_False in Hh by done. rewrite Hh. destruct (im_new _ _ _ Hi _ _ Hc) as [Hid Hst].
  unfold getState. cbn [snd]. rewrite Hst. cbn [fst snd sheap schemaInfo deletedClassId]. rewrite Hid.
  split_and!; [done|done| |].
  - intros i. unfold lockAndEmplace. rewrite lookup_emplace, Hinfo. destruct (decide (i = id)) as [->|Hne].
    + rewrite !(decide_False (P := id ∈ ids)) by done. rewrite !decide_True by set_solver. done.
    + rewrite (decide_False (P := id = i)) by done. repeat case_decide; try set_solver; by destruct (ucSchema t !! i).
  - intros i l' c' Hl' Hc'. destruct (decide (i = id)) as [->|Hne].
    + assert (l' = l) as -> by congruence. rewrite lookup_insert_eq, decide_True by set_solver. unfold obj. congruence.
    + rewrite lookup_insert_ne by (intros ->; by destruct Hne; eapply image_injective). rewrite (Hheap _ _ _ Hl' Hc').
      repeat case_decide; set_solver.
Qed.

Lemma commitSchema_image :
  let s' := commitSchema base t s in
  schemaInfo s' = ucSchema t /\ deletedClassId s' = [] /\
  forall id l c, ucSchema t !! id = Some l -> M !! id = Some c -> sheap s' !! l = Some (obj c).
Proof.
  unfold commitSchema. case_bool_decide as He.
  { split_and!; [by rewrite (im_info _ _ _ Hi)|apply Hi|]. intros id l c. by rewrite He, lookup_empty. }
  set (ids := z_sort (map_to_list (ucSchema t)).*1).
  assert (forall id, id ∈ ids <-> is_Some (ucSchema t !! id)) as Hids.
  { intros id. unfold ids. rewrite elem_of_z_sort, list_elem_of_fmap. split.
    - intros ([i l] & -> & Hin%elem_of_map_to_list). by eexists.
    - intros [l Hl]. exists (id, l). split; [done|]. by apply elem_of_map_to_list. }
  assert (NoDup ids) as Hnd by (unfold ids; rewrite z_sort_perm; apply NoDup_fst_map_to_list).
  destruct (commitClasses_image ids Hnd) as (Hq & Hdel & Hinfo & Hheap).
  destruct (fold_left _ _ (s, [])) as [s1 q1]. cbn [fst snd] in *. subst q1. cbn [schemaInfo deletedClassId sheap].
  split_and!.
  - apply map_eq. intros id. rewrite Hinfo. case_decide as Hin; [done|].
    destruct (ucSchema t !! id) eqn:E; [|done]. destruct Hin. apply Hids. by eexists.
  - unfold push_back. by rewrite Hdel.
  - intros id l c Hl Hc. rewrite (Hheap _ _ _ Hl Hc), decide_True; [done|]. apply Hids. by eexists.
Qed.
End publish.

(** What a commit does to the schema and to the counters. *)
Lemma commit_schema d c t c' t' :
  txnType t = READ_WRITE -> isCompleted t = false -> commit d c t = Ok (true, c', t') ->
  exists base s', s' = commitSchema base t (dbSchema c) /\
    (dbSchema c' = s' \/ dbSchema c' = clearDeletedClasses (txnVersionId t) s') /\
    (dbInfo c' = txnDbInfo t \/ (ucSchema t = ∅ /\ dbInfo c' = dbInfo c)).
Proof.
  intros Ht Hc. unfold commit. rewrite Ht, Hc. destruct (if isWithDataStore t then d else Ok tt); cbn [obind]; [|done|done].
  set (c1 := dsCall _ DS_COMMIT c). set (base := currentMinVersion t (dbTxnStat c1)). intros [= <- <-].
  assert (dbSchema c1 = dbSchema c /\ dbInfo c1 = dbInfo c) as [Hs1 Hi1] by (unfold c1; by destruct (isWithDataStore t)).
  set (c3 := setRelation _ (BaseTxn.setSchema _ c1)).
  assert (dbSchema c3 = commitSchema base t (dbSchema c) /\ dbInfo c3 = dbInfo c) as [Hs3 Hi3].
  { unfold c3. cbn [setRelation BaseTxn.setSchema dbSchema dbInfo]. by rewrite Hs1. }
  clearbody c3. exists base, (commitSchema base t (dbSchema c)). split; [done|].
  set (c4 := if bool_decide _ then c3 else _).
  assert (dbSchema c4 = dbSchema c3 /\ (dbInfo c4 = txnDbInfo t \/ (ucSchema t = ∅ /\ dbInfo c4 = dbInfo c))) as [Hs4 Hi4].
  { unfold c4. case_bool_decide as Hsz; [|by split; [|left]]. split; [done|right]. split; [|done].
    apply map_size_empty_iff. lia. }
  clearbody c4. destruct (_ && _).
  - split; [right|done]. unfold collect. cbn [setRelation BaseTxn.setSchema setTxnStat dbSchema]. by rewrite Hs4, Hs3.
  - split; [left|done]. cbn [setTxnStat dbSchema]. by rewrite Hs4, Hs3.
Qed.

Lemma recovered_commit C P I L id cc base w dsc :
  recovered C P I L id cc dsc -> recovered C P I L id cc (commitClassObj UNCOMMITTED_CREATE base w dsc).
Proof.
  intros [R1 R2 R3 R4 R5 R6]. unfold commitClassObj.
  split; cbn [cd_id cd_type cd_name cd_properties cd_super cd_sub]; try done;
    intros *; rewrite getLatest_upgrade; done.
Qed.

(** The classes that a transaction finds. *)
Definition finds_catalog (C : gmap ClassId CatalogClass) (P : gmap PropertyId CatalogProperty) (I : list Entry)
    (s : Schema) (t : BaseTxn) : Prop :=
  forall id, match C !! id with
             | None => findClass s t id = None
             | Some cc => exists l dsc, findClass s t id = Some (l, dsc) /\ recovered C P I (schemaInfo s) id cc dsc
             end.

Lemma published_catalog C P I s t M base s' t' :
  image s t M -> (forall id, match C !! id with
                             | None => M !! id = None
                             | Some cc => exists dsc, M !! id = Some dsc /\ recovered C P I (ucSchema t) id cc dsc
                             end) ->
  s' = commitSchema base t s \/ s' = clearDeletedClasses (txnVersionId t) (commitSchema base t s) ->
  txnType t' = READ_WRITE -> ucSchema t' = ∅ -> finds_catalog C P I s' t'.
Proof.
  intros Hi HM Hs' Hrw Huc. destruct (commitSchema_image s t M Hi base) as (Hinfo & Hdel & Hheap).
  assert (schemaInfo s' = ucSchema t /\ sheap s' = sheap (commitSchema base t s)) as [Hinfo' Hheap'].
  { destruct Hs' as [-> | ->]; [done|]. unfold clearDeletedClasses. by rewrite Hdel. }
  intros id. specialize (HM id). unfold findClass. rewrite Hinfo', Hheap'. unfold isReadOnly, findUncommittedSchema.
  rewrite Hrw, Huc, lookup_empty, bool_decide_false by done. destruct (C !! id) as [cc|].
  - destruct HM as (dsc & Hd & Hrec). destruct (image_find _ _ _ _ _ Hi Hd) as (l & Hl & _ & _). rewrite Hl.
    rewrite (Hheap _ _ _ Hl Hd). simpl. unfold classHidden, isReadOnly, isReadWrite. rewrite Hrw. simpl.
    unfold updateState, checkReadWrite. rewrite (proj2 (im_new _ _ _ Hi _ _ Hd)). simpl.
    eexists _, _. split; [done|]. by apply recovered_commit.
  - destruct (ucSchema t !! id) eqn:E; [|done]. destruct (proj1 (im_dom _ _ _ Hi id)); [by eexists|congruence].
Qed.

Lemma steps_schema a b :
  txn_steps a b -> ucSchema b.2 = ucSchema a.2 /\ txnDbInfo b.2 = txnDbInfo a.2.
Proof. induction 1 as [|a b c Hab _ (-> & ->)]; [done|]. by destruct Hab. Qed.

(** ** Opening a database *)
Section opening.
  Context {D : Type} `{!Lmdb D, !LmdbLaws D}.

(** The end points and the class of every edge belong to classes. *)
Definition edge_classes (C : gmap ClassId CatalogClass) (E : gmap RecordId (RecordId * RecordId)) : Prop :=
  forall k sd, E !! k = Some sd -> is_Some (C !! k.1) /\ is_Some (C !! sd.1.1) /\ is_Some (C !! sd.2.1).

Lemma initTables_catalog time (d d' : D) C P :
  initTables time d = Ok d' -> stored_catalog C P d -> stored_catalog C P d'.
Proof.
  unfold initTables. intros H [S1 S2 S3 S4 S5 S6].
  destruct (dbPut true TB_CLASSES _ time false true d) as [d1|e|] eqn:H1; [|done|done]. cbn [obind] in H.
  destruct (dbPut true TB_PROPERTIES _ time false true d1) as [d2|e|] eqn:H2; [|done|done]. cbn [obind] in H.
  destruct (put_inv _ _ _ _ _ _ _ _ H1) as [_ O1]. destruct (put_inv _ _ _ _ _ _ _ _ H2) as [_ O2].
  destruct (put_inv _ _ _ _ _ _ _ _ H) as [_ O3].
  destruct (put_unique _ _ _ _ _ _ _ H1 S1) as (T1 & M1 & _).
  assert (table d1 TB_PROPERTIES) as S3' by (unfold table; by rewrite O1).
  destruct (put_unique _ _ _ _ _ _ _ H2 S3') as (T2 & M2 & _).
  assert (entries d' TB_CLASSES = entries d1 TB_CLASSES) as Hc by (by rewrite O3, O2).
  assert (entries d' TB_PROPERTIES = entries d2 TB_PROPERTIES) as Hp by (by rewrite O3).
  assert (entries d' TB_INDEXES = entries d TB_INDEXES) as Hx by (by rewrite O3, O2, O1).
  split; unfold table; rewrite ?Hc, ?Hp, ?Hx; try done.
  - intros x Hne. rewrite M1, <- (S2 x Hne). split; [by intros [->|[? _]]|by right].
  - intros x Hne. rewrite M2, O1, <- (S4 x Hne) by done. split; [by intros [->|[? _]]|by right].
Qed.

(** What opening a database with these tables gives. *)
Definition recovers (time : list byte) (d : D) C P E : Prop :=
  exists c d', initDatabase time (Ok tt) d newContext = Ok (c, d') /\ quiescent c E /\
    (forall t, fresh_writer t -> ucSchema t = ∅ -> finds_catalog C P (entries d TB_INDEXES) (dbSchema c) t) /\
    counters_past C P d (dbInfo c) /\ stored_catalog C P d' /\ stored_edges d' E.

Lemma opening_spec time (d : D) C P E :
  stored_catalog C P d -> catalog_ok C P -> stored_edges d E -> edges_ok E ->
  edge_classes C E -> reopenable E -> recovers time d C P E.
Proof.
  intros Hcat Hok Hst Hids Hcl Hloop. unfold recovers, initDatabase.
  destruct (initTables_spec time d E Hst) as (d1 & Hd1 & Hst1 & Hother). rewrite Hd1. cbn [obind].
  pose proof (initTables_catalog _ _ _ _ _ Hd1 Hcat) as Hcat1.
  assert (entries d1 TB_INDEXES = entries d TB_INDEXES) as Hx by (by apply Hother).
  assert (quiescent newContext ∅) as Hq by (by apply quiescent_empty).
  destruct (begin_writer newContext ∅ true Hq eq_refl)
    as (t0 & c0 & Hb & Hf & Hver & Hcomp & Hds & Hg & Hstat & Hs & Hinf & Htinf & Huc). rewrite Hb. cbn [obind].
  destruct (recoverSchema_spec C P d1 Hok Hcat1 c0 t0) as (s & t1 & M & Hsch & Hi & Hcnt & HM).
  { rewrite Hs. split; try done; [apply Hf|]. intros id. rewrite Huc, !lookup_empty. split; by intros [? ?]. }
  { by rewrite Hinf. } { by rewrite Hinf. }
  rewrite Hsch. cbn [obind]. destruct (recoverSchema_work _ _ _ _ _ Hsch) as (W1 & W2 & W3 & W4 & W5 & W6).
  assert (fresh_writer t1) as Hf1 by (destruct Hf; split; congruence).
  destruct (recoverRelations_spec d1 s (dbRelation c0) t1 E) as (g & t2 & Hrel & Hsteps & Hr); try done.
  { intros k sd Ek. destruct (Hcl k sd Ek) as (C1 & C2 & C3).
    assert (forall id, is_Some (C !! id) -> is_Some (findClass s t1 id)) as Hfind; [|auto].
    intros id [cc Hcc]. specialize (HM id). rewrite Hcc in HM. destruct HM as (dsc & Hd & _).
    destruct (image_find _ _ _ _ _ Hi Hd) as (l & _ & _ & ->). by eexists. }
  { rewrite Hg. apply (qs_writer _ _ Hq); [done|]. by rewrite W2, Hver. }
  { rewrite Hg. destruct Hf1 as [_ F2 F3]. split; try done; intros ? ?; by rewrite ?F2, ?F3, lookup_empty. }
  rewrite Hrel. cbn [obind]. set (c2 := BaseTxn.setSchema _ _).
  destruct (cycle_commit newContext ∅ t1 g t2 E (Ok tt) c2) as (c' & t' & Hcm & Hv & Hq');
    try done; [by rewrite W2, Hver|by rewrite W5|by rewrite <- Hg|].
  rewrite Hcm. cbn [obind]. exists c', d1. split; [done|]. split; [done|].
  destruct (steps_schema _ _ Hsteps) as [Hs2 Hi2]. destruct (steps_flags _ _ Hsteps) as (F1 & F2 & F3 & F4). cbn [snd] in *.
  assert (txnType t2 = READ_WRITE) as Hrw by (rewrite F3, W1; apply Hf).
  destruct (commit_schema _ _ _ _ _ Hrw (eq_trans F1 (eq_trans W5 Hcomp)) Hcm) as (base & s' & -> & Hs' & Hinfo).
  assert (image s t2 M) as Hi' by (by eapply image_txn).
  split_and!; [| |done|done].
  - intros t Hft Huct. rewrite Hx in HM. eapply published_catalog; [exact Hi'| |exact Hs'|apply Hft|done].
    intros id. rewrite Hs2. apply HM.
  - unfold counters_past in *. rewrite Hx in Hcnt. destruct Hinfo as [-> | [Hu _]]; [by rewrite Hi2|].
    assert (forall id, C !! id = None) as HC.
    { intros id. specialize (HM id). destruct (C !! id) as [cc|]; [|done]. destruct HM as (dsc & Hd & _).
      destruct (proj2 (im_dom _ _ _ Hi id)) as [l Hl]; [by eexists|]. rewrite <- Hs2, Hu in Hl. done. }
    assert (forall id, P !! id = None) as HP.
    { intros id. destruct (P !! id) as [p|] eqn:Ep; [|done]. destruct (ok_property _ _ Hok _ _ Ep) as (_ & _ & [cc Hcc]).
      by rewrite HC in Hcc. }
    split_and!; intros *; rewrite ?HC, ?HP; by intros [? ?].
Qed.

(** C3. Opening a database whose tables store a catalog and a map of edges, in
    which a loop comes after another row of its vertex, succeeds, and leaves a
    context in which every write transaction finds the catalog and works on the
    map, every reader reads the map, and new ids are past the stored ones.  The
    tables still store the same. *)
Theorem initDatabase_recovers time (d : D) C P E :
  stored_catalog C P d -> catalog_ok C P -> stored_edges d E -> edges_ok E ->
  edge_classes C E -> reopenable E ->
  exists c d', initDatabase time (Ok tt) d newContext = Ok (c, d') /\ quiescent c E /\
    (forall t, fresh_writer t -> ucSchema t = ∅ -> finds_catalog C P (entries d TB_INDEXES) (dbSchema c) t) /\
    counters_past C P d (dbInfo c) /\ stored_catalog C P d' /\ stored_edges d' E.
Proof. apply opening_spec. Qed.
(** C6. A class that [Class::create] created is there, with its name and type,
    when the database is opened again. *)
Theorem created_class_reopens time (s : Db D) C P E className type :
  may_create className type s -> unused_ids s -> (nextClass s <= CLASS_ID_UPPER_LIMIT)%Z ->
  isNotDuplicatedClass (db_schema s) (db_txn s) className = Ok tt ->
  stored_catalog C P (db_store s) -> catalog_ok C P -> counters_past C P (db_store s) (txnDbInfo (db_txn s)) ->
  stored_edges (db_store s) E -> edges_ok E -> edge_classes C E -> reopenable E ->
  exists s' pc c d', classCreate className type s = (s', Ok pc) /\
    initDatabase time (Ok tt) (db_store s') newContext = Ok (c, d') /\ quiescent c E /\
    (pcd_id pc <= maxClassId (dbInfo c))%Z /\
    forall t, fresh_writer t -> ucSchema t = ∅ ->
      exists l dsc, findClass (dbSchema c) t (pcd_id pc) = Some (l, dsc) /\ cd_type dsc = type /\
        getLatestVersion (cd_name dsc) = (className, true).
Proof.
  intros Hmay Hui Hlim Hdup Hcat Hok Hcnt Hst Hids Hcl Hloop.
  destruct (classCreate_ok s C P className type) as (s' & l & Hc & Hcat' & Hok' & Hcnt' & _ & _ & _ & Hrel); try done.
  destruct (opening_spec time (db_store s') _ _ E Hcat' Hok') as (c & d' & Hi & Hq & Hf & Hcn & _); try done.
  { by eapply stored_edges_ext. }
  { intros k sd Ek. destruct (Hcl k sd Ek) as (C1 & C2 & C3).
    assert (forall i, is_Some (C !! i) -> is_Some (<[nextClass s := mkCatalogClass type 0 className]> C !! i)) as Hm.
    { intros i Hi'. destruct (decide (nextClass s = i)) as [<-|?]; [rewrite lookup_insert_eq; by eexists|by rewrite lookup_insert_ne]. }
    auto. }
  eexists s', _, c, d'. split_and!; [done|done|done| |].
  - apply Hcn. simpl. rewrite lookup_insert_eq. by eexists.
  - intros t Hft Huc. specialize (Hf t Hft Huc (nextClass s)). rewrite lookup_insert_eq in Hf.
    destruct Hf as (lc & dsc & Hfind & [R1 R2 R3 _ _ _]). by exists lc, dsc.
Qed.
End opening.
