(* ===== verification/Session.v ===== *)
(** * Sessions of record commands

    A transaction that runs record commands one after the other ([Commands])
    keeps the tables of the catalog, takes only the steps of a writer on the
    relations in memory, and keeps the relation table in step with them.  So
    the context after its commit ([Cycle]) and the context of a database opened
    again from the tables ([RecoverySpec]) hold the same edges. *)

From stdpp Require Import base gmap sets list strings sorting.
From Stdlib Require Import ZArith Lia ZifyBool.
From S2P Require Import Prelude.
From S2P Require Import Types.
From S2P Require Import Store.
From S2P Require Import Blob.
From S2P Require Import VersionControl.
From S2P Require Import TxnObject.
From S2P Require Import TxnData.
From S2P Require Import RecordModel.
From S2P Require Import Parser.
From S2P Require Import Graph.
From S2P Require Import GraphSpec.
From S2P Require Import GraphSteps.
From S2P Require Import Schema.
From S2P Require Import Validate.
From S2P Require Import BaseTxn.
From S2P Require Import Lifecycle.
From S2P Require Import Cycle.
From S2P Require Import Generic.
From S2P Require Import Commands.
From S2P Require Import CommandSpec.
From S2P Require Import EdgeSpec.
From S2P Require Import Recovery.
From S2P Require Import SchemaRecovery.
From S2P Require Import RecoverySpec.

#[local] Arguments le_bytes : simpl never.

(** ** The tables of the catalog *)
Definition catalog_table (n : DbName) : Prop := n = TB_CLASSES \/ n = TB_PROPERTIES \/ n = TB_INDEXES.

(** Tables that hold neither the records of a class nor an index. *)
Definition system_tables (T : DbName -> Prop) : Prop := forall n, T n -> dotted n /\ ~ is_index n.

Lemma catalog_system : system_tables catalog_table.
Proof. intros n [->|[->| ->]]; (split; [by eexists|discriminate]). Qed.
Lemma relations_system : system_tables (eq TB_RELATIONS).
Proof. intros n <-. split; [by eexists|discriminate]. Qed.
Lemma catalog_not_relations n : catalog_table n -> TB_RELATIONS <> n.
Proof. intros [->|[->| ->]]; discriminate. Qed.

(** A class found by its name is one of the schema. *)
Lemma classesOf_heap s m l c : (l, c) ∈ classesOf s m -> sheap s !! l = Some c.
Proof.
  unfold classesOf. rewrite list_elem_of_omap. intros (id & _ & H). destruct (m !! id) as [l'|]; [|done]. cbn in H.
  destruct (sheap s !! l') as [c'|] eqn:E; [|done]. cbn in H. by simplify_eq.
Qed.
Lemma findClassByName_heap s t name l c : findClassByName s t name = Some (l, c) -> sheap s !! l = Some c.
Proof.
  unfold findClassByName.
  assert (forall f m x, List.find f (classesOf s m) = Some x -> sheap s !! x.1 = Some x.2) as Hfind.
  { intros f m [l' c'] [Hin _]%List.find_some. apply list_elem_of_In in Hin. by eapply classesOf_heap. }
  intros H. destruct (if isReadWrite t then _ else None) as [x|] eqn:E.
  - destruct (isReadWrite t); [|done]. apply Hfind in E. case_match; by simplify_eq.
  - destruct (List.find _ (classesOf s (schemaInfo s))) as [x|] eqn:E'; [|done]. apply Hfind in E'. case_match; by simplify_eq.
Qed.
Lemma namedClass_heap s t name ty l c : getClassDescriptorByName s t name ty = Ok (l, c) -> sheap s !! l = Some c.
Proof.
  unfold getClassDescriptorByName, isExistingClassByName. destruct (findClassByName s t name) as [[l1 c1]|] eqn:Ef; [|done].
  cbn [obind]. unfold checkType. case_match; [|done]. intros [= <- <-]. by eapply findClassByName_heap.
Qed.

Section frames.
  Context {D : Type} `{!Lmdb D, !LmdbLaws D} (fill : byte).

(** A property of states that only the tables [T], the schema and the relations
    in memory matter to. *)
Definition tablewise (T : DbName -> Prop) (P : Db D -> Prop) : Prop :=
  forall s d, P s -> (forall n, T n -> entries d n = entries (db_store s) n) -> P (setStore d s).

Section kept.
  Context (T : DbName -> Prop) (HT : system_tables T).
  Context (P : Db D -> Prop) (HP : tablewise T P) (Hids : forall s, P s -> schema_ids (db_schema s)).

Lemma class_not_system n c : T n -> (0 <= c)%Z -> to_string c <> n.
Proof using HT. intros [Hn _]%HT Hc. by apply class_not_dotted. Qed.

Lemma tablewise_stable : stable P.
Proof using HP HT. intros s d Hs Hd. apply HP; [done|]. intros n Hn. by apply Hd, HT. Qed.

Lemma keeps_put n k v a o u : (forall m, T m -> n <> m) -> keeps P (onStore (dbPut u n k v a o)).
Proof using HP LmdbLaws0.
  intros Hn. apply keeps_onStore. intros s d Hs Hput. apply HP; [done|]. intros m Hm.
  apply (proj2 (put_inv _ _ _ _ _ _ _ _ Hput)). by apply not_eq_sym, Hn.
Qed.
Lemma keeps_del n k : (forall m, T m -> n <> m) -> keeps P (onStore (fun d => Ok (dbDel n k d))).
Proof using HP LmdbLaws0.
  intros Hn. apply keeps_onStore. intros s d Hs [= <-]. apply HP; [done|]. intros m Hm.
  by apply del_other, not_eq_sym, Hn.
Qed.

Lemma class_id_ok id ty : returns P (classOf (D := D) id ty) (fun c => (0 <= cd_id c)%Z).
Proof using Hids.
  intros s s' c Hs H. unfold classOf, asks in H. injection H as _ H. outcome_simpl. destruct a as [l c'].
  apply getClass_heap in E. by apply (Hids s Hs) in E as [? _].
Qed.
Lemma named_id_ok name ty : returns P (classNamed (D := D) name ty) (fun c => (0 <= cd_id c)%Z).
Proof using Hids.
  intros s s' c Hs H. unfold classNamed, asks in H. injection H as _ H. outcome_simpl. destruct a as [l c'].
  apply namedClass_heap in E. by apply (Hids s Hs) in E as [? _].
Qed.

Lemma keeps_updateRecord ty e d r : keeps P (updateRecord fill ty e d r).
Proof using HP HT Hids LmdbLaws0.
  unfold updateRecord. apply keeps_bind; [apply keeps_asks|]. intros _. apply keeps_bind; [apply keeps_asks|]. intros r'.
  eapply keeps_bind_with; [apply keeps_asks|apply class_id_ok|]. intros c Hc.
  apply keeps_bind; [unfold parseFor, classInfo; auto with keeps|]. intros [[value idx] info].
  apply keeps_bind; [apply keeps_asks|]. intros existing. destruct (dataEmpty existing); [apply keeps_asks|].
  apply keeps_bind; [apply keeps_asks|]. intros old.
  apply keeps_bind; [apply keeps_deleteIndexes, tablewise_stable|]. intros _.
  apply keeps_bind; [apply keeps_addIndexes, tablewise_stable|]. intros _.
  apply keeps_put. intros m Hm. by apply class_not_system.
Qed.

Lemma keeps_insertRecord c v : (0 <= c)%Z -> keeps P (insertRecord c v).
Proof using HP HT LmdbLaws0.
  intros Hc. unfold insertRecord. apply keeps_bind; [apply keeps_asks|]. intros n.
  apply keeps_bind; [apply keeps_put; intros m Hm; by apply class_not_system|]. intros _.
  apply keeps_bind; [apply keeps_put; intros m Hm; by apply class_not_system|]. intros _. apply keeps_ret.
Qed.

Lemma keeps_removed c info p : (0 <= cd_id c)%Z -> keeps P (removeRecord c info p).
Proof using HP HT LmdbLaws0.
  intros Hc. unfold removeRecord. apply keeps_bind; [apply keeps_asks|]. intros found. apply keeps_bind.
  - destruct (dataEmpty found); [apply keeps_ret|]. apply keeps_bind; [apply keeps_asks|]. intros r.
    apply keeps_deleteIndexes, tablewise_stable.
  - intros _. apply keeps_del. intros m Hm. by apply class_not_system.
Qed.

Lemma keeps_vertexCreate className r : keeps P (vertexCreate fill className r).
Proof using HP HT Hids LmdbLaws0.
  unfold vertexCreate. apply keeps_bind; [apply keeps_asks|]. intros _. apply keeps_bind; [apply keeps_asks|]. intros v.
  eapply keeps_bind_with; [apply keeps_asks|apply named_id_ok|]. intros c Hc.
  apply keeps_bind; [unfold parseFor, classInfo; auto with keeps|]. intros [[value idx] info].
  apply keeps_bind; [by apply keeps_insertRecord|]. intros p.
  apply keeps_bind; [apply keeps_addIndexes, tablewise_stable|]. intros _. apply keeps_ret.
Qed.

Lemma keeps_touchEnds d : keeps P (touchEnds fill d).
Proof using HP HT Hids LmdbLaws0.
  unfold touchEnds. apply keeps_ignore, keeps_bind; [apply keeps_getSrcDst|]. intros [src dst].
  apply keeps_bind; [apply keeps_updateRecord|]. intros _. apply keeps_updateRecord.
Qed.
End kept.

(** ** What a record command leaves alone *)

(** The schema and the tables of the catalog are those of [s0], and the
    relations in memory have taken steps of the writer. *)
Record framed (s0 s : Db D) : Prop := {
  fr_schema : db_schema s = db_schema s0;
  fr_catalog : forall n, catalog_table n -> entries (db_store s) n = entries (db_store s0) n;
  fr_steps : txn_steps (db_relation s0, db_txn s0) (db_relation s, db_txn s);
}.

(** Not even the relations in memory have changed. *)
Record still (s0 s : Db D) : Prop := {
  sl_frame : framed s0 s;
  sl_graph : db_relation s = db_relation s0;
  sl_txn : db_txn s = db_txn s0;
}.

(** The relations in memory still represent a map of edges. *)
Record live (s0 s : Db D) : Prop := {
  lv_frame : framed s0 s;
  lv_repr : exists E, repr (db_relation s) (db_txn s) E;
}.

Lemma framed_refl s : framed s s.
Proof. by split. Qed.
Lemma framed_trans a b c : framed a b -> framed b c -> framed a c.
Proof.
  intros [A1 A2 A3] [B1 B2 B3]. split; [congruence| |by etrans]. intros n Hn. by rewrite B2, A2.
Qed.
Lemma still_refl s : still s s.
Proof. split; [apply framed_refl|done..]. Qed.

Lemma framed_tablewise s0 : tablewise catalog_table (framed s0).
Proof. intros s d [H1 H2 H3] Hd. split; simpl; try done. intros n Hn. by rewrite Hd, H2. Qed.
Lemma still_tablewise s0 : tablewise catalog_table (still s0).
Proof. intros s d [H1 H2 H3] Hd. split; [by apply framed_tablewise|done..]. Qed.
Lemma live_tablewise s0 : tablewise catalog_table (live s0).
Proof. intros s d [H1 H2] Hd. split; [by apply framed_tablewise|done]. Qed.

(** A change of the relations that is a sequence of steps. *)
Lemma framed_graph s0 s g t :
  framed s0 s -> txn_steps (db_relation s, db_txn s) (g, t) -> framed s0 (mkDb (db_schema s) g t (db_store s)).
Proof. intros [H1 H2 H3] Hs. split; [done|done|]. by etrans. Qed.

(** A command that keeps the precondition and returns what has a property. *)
Lemma hoare_returns {A} (P : Db D -> Prop) (m : Cmd D A) (Q : A -> Prop) (R : Db D -> Prop) :
  keeps P m -> (forall s, P s -> R s) -> returns P m Q -> hoare P m (fun a s => Q a /\ P s) R.
Proof.
  intros Hm HR HQ s Hs. specialize (Hm s Hs). destruct (m s) as [s' [a|e|]] eqn:E; [|by apply HR|done].
  split; [|done]. by eapply HQ.
Qed.

Section commands.
  Context (s0 : Db D) (Hids : schema_ids (db_schema s0)).

Lemma still_ids s : still s0 s -> schema_ids (db_schema s).
Proof using Hids. intros [[-> _ _] _ _]. done. Qed.
Lemma live_ids s : live s0 s -> schema_ids (db_schema s).
Proof using Hids. intros [[-> _ _] _]. done. Qed.

Lemma still_framed s : still s0 s -> framed s0 s.
Proof. by intros []. Qed.

Lemma still_update ty e d r : keeps (still s0) (updateRecord fill ty e d r).
Proof using Hids LmdbLaws0. eapply keeps_updateRecord; [apply catalog_system|apply still_tablewise|apply still_ids]. Qed.

Lemma still_relation k b : keeps (still s0) (onStore (dbPut true TB_RELATIONS k b false true)).
Proof using LmdbLaws0. eapply keeps_put; [apply still_tablewise|]. intros m. apply catalog_not_relations. Qed.

(** The last step of a command on an edge. *)
Lemma hoare_graph f :
  (forall g t, f (db_relation s0) (db_txn s0) = Ok (g, t) -> txn_steps (db_relation s0, db_txn s0) (g, t)) ->
  hoare (still s0) (onGraph f) (fun _ => framed s0) (framed s0).
Proof using.
  intros Hf s Hs. unfold onGraph. pose proof Hs as [Hfr Hg Ht]. rewrite Hg, Ht.
  destruct (f (db_relation s0) (db_txn s0)) as [[g t]|e|] eqn:Ef; [|done..].
  apply framed_graph; [done|]. rewrite Hg, Ht. by apply Hf.
Qed.

Lemma frame_edgeCreate className src dst record :
  hoare (still s0) (edgeCreate fill className src dst record) (fun _ => framed s0) (framed s0).
Proof using Hids LmdbLaws0.
  pose proof (still_tablewise s0) as Hst. pose proof catalog_system as Hsys. pose proof still_framed as HR. unfold edgeCreate.
  apply hoare_skip; [apply keeps_asks|done|]. intros _.
  eapply hoare_bind.
  { apply (hoare_returns _ _ (fun c => 0 <= cd_id c)%Z); [apply keeps_asks|done|by apply named_id_ok, still_ids]. }
  intros c s [Hc Hs]. revert s Hs.
  apply hoare_skip; [apply keeps_asks|done|]. intros _. apply hoare_skip; [apply keeps_asks|done|]. intros _.
  apply hoare_skip; [unfold parseFor, classInfo; auto with keeps|done|]. intros [[value idx] info].
  apply hoare_skip; [apply keeps_asks|done|]. intros srcData. destruct (dataEmpty srcData); [by apply hoare_throw|].
  apply hoare_skip; [apply keeps_asks|done|]. intros dstData. destruct (dataEmpty dstData); [by apply hoare_throw|].
  apply hoare_skip; [apply keeps_getRecord|done|]. intros r1. apply hoare_skip; [by apply still_update|done|]. intros _.
  apply hoare_skip; [apply keeps_getRecord|done|]. intros r2. apply hoare_skip; [by apply still_update|done|]. intros _.
  apply hoare_skip; [apply keeps_asks|done|]. intros v.
  apply hoare_skip; [by eapply keeps_insertRecord|done|]. intros p.
  apply hoare_skip; [by eapply keeps_addIndexes, tablewise_stable|done|]. intros _.
  apply hoare_skip; [apply keeps_asks|done|]. intros b. apply hoare_skip; [apply still_relation|done|]. intros _.
  eapply hoare_bind; [apply hoare_graph; intros g t; apply createEdge_steps|]. intros _ s Hs. exact Hs.
Qed.

Lemma frame_moveEnd side k r :
  base_ok (db_relation s0) (db_txn s0) -> hoare (still s0) (moveEnd side k r) (fun _ => framed s0) (framed s0).
Proof using LmdbLaws0.
  intros Hb. pose proof still_framed as HR. unfold moveEnd.
  apply hoare_skip; [apply keeps_asks|done|]. intros data. apply hoare_skip; [apply keeps_asks|done|]. intros other.
  apply hoare_skip; [apply keeps_asks|done|]. intros b. apply hoare_skip; [apply still_relation|done|]. intros _.
  apply hoare_graph. intros g t. by apply alterEnd_steps.
Qed.

Lemma frame_updateSrc d r :
  base_ok (db_relation s0) (db_txn s0) -> hoare (still s0) (updateSrc fill d r) (fun _ => framed s0) (framed s0).
Proof using Hids LmdbLaws0.
  intros Hb. pose proof still_framed as HR. unfold updateSrc. apply hoare_skip; [apply keeps_asks|done|]. intros _.
  apply hoare_skip; [|done|].
  { apply keeps_ignore, keeps_bind; [unfold getSrc, edgeEnd, classOf; auto 10 using keeps_getRecord with keeps|].
    intros cur. by apply still_update. }
  intros _. apply hoare_skip; [|done|].
  { apply keeps_ignore, keeps_bind; [apply keeps_getRecord|]. intros r'. by apply still_update. }
  intros _. apply hoare_skip; [apply keeps_asks|done|]. intros c. apply hoare_skip; [apply keeps_asks|done|]. intros _.
  apply hoare_skip; [apply keeps_asks|done|]. intros found. destruct (dataEmpty found); [by apply hoare_throw|].
  apply hoare_skip; [apply keeps_asks|done|]. intros data. destruct (dataEmpty data); [by apply hoare_throw|].
  by apply (frame_moveEnd SRC).
Qed.

Lemma frame_updateDst d r :
  base_ok (db_relation s0) (db_txn s0) -> hoare (still s0) (updateDst d r) (fun _ => framed s0) (framed s0).
Proof using LmdbLaws0.
  intros Hb. pose proof still_framed as HR. unfold updateDst. apply hoare_skip; [apply keeps_asks|done|]. intros _.
  apply hoare_skip; [apply keeps_asks|done|]. intros c. apply hoare_skip; [apply keeps_asks|done|]. intros _.
  apply hoare_skip; [apply keeps_asks|done|]. intros found. destruct (dataEmpty found); [by apply hoare_throw|].
  apply hoare_skip; [apply keeps_asks|done|]. intros data. destruct (dataEmpty data); [by apply hoare_throw|].
  by apply (frame_moveEnd DST).
Qed.

(** Deleting changes the graph by steps as well, and stays on a map of edges. *)
Lemma live_graph f :
  (forall g t E, repr g t E -> txn_steps (g, t) (f g t) /\ exists E', repr (f g t).1 (f g t).2 E') ->
  keeps (live s0) (onGraph (fun g t => Ok (f g t))).
Proof using.
  intros Hf s [Hfr [E HE]]. destruct (Hf _ _ _ HE) as [Hs [E' HE']]. unfold onGraph, setGraph. simpl.
  destruct (f (db_relation s) (db_txn s)) as [g t]. split; [by apply framed_graph|by exists E'].
Qed.

Lemma live_edgeDestroy d : keeps (live s0) (edgeDestroy fill d).
Proof using Hids LmdbLaws0.
  pose proof (live_tablewise s0) as Hlt. pose proof catalog_system as Hsys. pose proof live_ids as Hli. unfold edgeDestroy.
  apply keeps_bind; [apply keeps_asks|]. intros _. apply keeps_bind; [by eapply keeps_touchEnds|]. intros _.
  eapply keeps_bind_with; [apply keeps_asks|by apply class_id_ok|]. intros c Hc.
  apply keeps_bind; [unfold classInfo; apply keeps_asks|]. intros info.
  apply keeps_bind; [eapply keeps_del; [done|]; intros m; apply catalog_not_relations|]. intros _.
  apply keeps_bind; [by eapply keeps_removed|]. intros _. apply live_graph. intros g t E HE. split.
  - apply deleteEdge_steps. by eapply r_base.
  - eexists. apply (deleteEdge_repr g t E (rd_rid d) HE).
Qed.

Lemma live_vertexDestroy d : keeps (live s0) (vertexDestroy fill d).
Proof using Hids LmdbLaws0.
  pose proof (live_tablewise s0) as Hlt. pose proof catalog_system as Hsys. pose proof live_ids as Hli. unfold vertexDestroy.
  apply keeps_bind; [apply keeps_asks|]. intros _.
  eapply keeps_bind_with; [apply keeps_asks|by apply class_id_ok|]. intros c Hc.
  apply keeps_bind; [unfold classInfo; apply keeps_asks|]. intros info.
  apply keeps_bind; [unfold incidentEdges; apply keeps_asks|]. intros es.
  apply keeps_bind; [apply keeps_for; intros e _; apply live_edgeDestroy|]. intros _.
  apply keeps_bind; [by eapply keeps_removed|]. intros _. apply live_graph. intros g t E HE. split.
  - by eapply deleteVertex_steps.
  - eexists. apply (deleteVertex_repr g t E (rd_rid d) HE).
Qed.
End commands.

(** ** A record command of a session *)

(** The relation table is the one of [s0], so the two descriptions of the edges
    stay in step over writes to the tables of classes. *)
Lemma same_tablewise s0 : tablewise (eq TB_RELATIONS) (same_relations s0).
Proof. intros s d [? ? ? He] Hd. split; simpl; try done. by rewrite Hd. Qed.

Lemma same_ids s0 s : schema_ids (db_schema s0) -> same_relations s0 s -> schema_ids (db_schema s).
Proof. by intros ? [-> _ _ _]. Qed.

(** A vertex that an edge of the session may end at. *)
Record open_end (C : gmap ClassId CatalogClass) (s : Db D) (r : RecordId) : Prop := {
  ep_rid : rid_ok r;
  ep_usable : usable (db_relation s) (db_txn s) r;
  ep_class : is_Some (C !! r.1);
}.

(** The class and the id that [Edge::create] gives a new edge. *)
Record edge_id (C : gmap ClassId CatalogClass) (s : Db D) (className : string) (k : RecordId) : Prop := {
  ei_class : exists l c, getClassDescriptorByName (db_schema s) (db_txn s) className EDGE = Ok (l, c) /\
    sheap (db_schema s) !! l = Some c /\ cd_id c = k.1;
  ei_table : class_table (db_store s) k.1 k.2;
  ei_new : allE (db_relation s) (db_txn s) !! k = None;
  ei_catalog : is_Some (C !! k.1);
}.

Context (C : gmap ClassId CatalogClass).
Abbreviation EdgeMap := (gmap RecordId (RecordId * RecordId)).

(** The ends of a new edge: a loop is at a vertex that memory has already. *)
Definition end_pair (s : Db D) (src dst : RecordId) : Prop :=
  src <> dst \/ exists l, vvis (db_relation s) (db_txn s) src l.

(** One command, with the edges before and after it.  Two are not steps,
    because the table and memory differ after them: a command that destroys and
    throws ([edgeDestroy_synced], [vertexDestroy_synced]), and the creation of a
    loop at a vertex that memory does not have ([edgeCreate_synced]). *)
Inductive record_step (s : Db D) (E : EdgeMap) (s' : Db D) : EdgeMap -> Prop :=
| rs_vertexCreate className r o : vertexCreate fill className r s = (s', o) -> o <> UB -> record_step s E s' E
| rs_vertexUpdate d r o : vertexUpdate fill d r s = (s', o) -> o <> UB -> record_step s E s' E
| rs_edgeUpdate d r o : edgeUpdate fill d r s = (s', o) -> o <> UB -> record_step s E s' E
| rs_edgeCreate className src dst r k a :
    edge_id C s className k -> open_end C s (rd_rid src) -> open_end C s (rd_rid dst) -> end_pair s (rd_rid src) (rd_rid dst) ->
    edgeCreate fill className src dst r s = (s', Ok a) -> record_step s E s' (<[k := (rd_rid src, rd_rid dst)]> E)
| rs_edgeCreate_throw className src dst r k e :
    edge_id C s className k -> open_end C s (rd_rid src) -> open_end C s (rd_rid dst) -> end_pair s (rd_rid src) (rd_rid dst) ->
    edgeCreate fill className src dst r s = (s', Throw e) -> record_step s E s' E
| rs_edgeDestroy d : rid_ok (rd_rid d) -> edgeDestroy fill d s = (s', Ok tt) -> record_step s E s' (delete (rd_rid d) E)
| rs_vertexDestroy d : vertexDestroy fill d s = (s', Ok tt) -> record_step s E s' (without (rd_rid d) E)
| rs_updateSrc d r a b : rid_ok (rd_rid d) -> open_end C s (rd_rid r) ->
    E !! rd_rid d = Some (a, b) ->
    updateSrc fill d r s = (s', Ok tt) -> record_step s E s' (<[rd_rid d := (rd_rid r, b)]> E)
| rs_updateSrc_throw d r e : rid_ok (rd_rid d) -> open_end C s (rd_rid r) ->
    updateSrc fill d r s = (s', Throw e) -> record_step s E s' E
| rs_updateDst d r a b : rid_ok (rd_rid d) -> open_end C s (rd_rid r) ->
    E !! rd_rid d = Some (a, b) ->
    updateDst d r s = (s', Ok tt) -> record_step s E s' (<[rd_rid d := (a, rd_rid r)]> E)
| rs_updateDst_throw d r e : rid_ok (rd_rid d) -> open_end C s (rd_rid r) ->
    updateDst d r s = (s', Throw e) -> record_step s E s' E.

(** Any number of commands. *)
Inductive session (s : Db D) (E : EdgeMap) : Db D -> EdgeMap -> Prop :=
| session_start : session s E s E
| session_step s1 E1 s2 E2 : session s E s1 E1 -> record_step s1 E1 s2 E2 -> session s E s2 E2.

(** What holds between the commands. *)
Record working (s : Db D) (E : EdgeMap) : Prop := {
  wk_synced : synced s E;
  wk_ids : schema_ids (db_schema s);
  wk_classes : edge_classes C E;
}.

Lemma edge_classes_insert E k sd :
  edge_classes C E -> is_Some (C !! k.1) -> is_Some (C !! sd.1.1) -> is_Some (C !! sd.2.1) ->
  edge_classes C (<[k := sd]> E).
Proof. intros HE ? ? ? k' sd' [[<- <-]|[_ ?]]%lookup_insert_Some; [done|by apply HE]. Qed.

Lemma edge_classes_subseteq E E' : E' ⊆ E -> edge_classes C E -> edge_classes C E'.
Proof. intros Hsub HE k sd Hk. apply HE. by eapply lookup_weaken. Qed.

(** The parts of [working] that a step has to establish anew. *)
Lemma working_step s E s' E' :
  working s E -> framed s s' -> synced s' E' -> edge_classes C E' -> framed s s' /\ working s' E'.
Proof. intros [_ Hi _] Hf ? ?. split; [done|]. split; try done. by rewrite (fr_schema _ _ Hf). Qed.

Lemma working_less s E s' E' :
  working s E -> framed s s' -> synced s' E' -> E' ⊆ E -> framed s s' /\ working s' E'.
Proof.
  intros Hw Hf Hs Hsub. eapply working_step; [done..|]. by eapply edge_classes_subseteq, Hw.
Qed.

(** A command on records only leaves the relations and the catalog alone. *)
Lemma quiet_step {A} s E s' (m : Cmd D A) o :
  working s E -> keeps (still s) m -> keeps (same_relations s) m -> m s = (s', o) -> framed s s' /\ working s' E.
Proof.
  intros Hw Hk Hs Hm. specialize (Hk s (still_refl s)). specialize (Hs s ltac:(by split)). rewrite Hm in Hk, Hs.
  eapply working_less; [done|by apply still_framed|by eapply synced_same; [|apply Hw]|done].
Qed.

Lemma quiet_update_step s E s' ty e d r o :
  working s E -> updateRecord fill ty e d r s = (s', o) -> framed s s' /\ working s' E.
Proof.
  intros Hw. apply quiet_step; [done|by apply still_update, Hw|]. eapply keeps_updateRecord;
    [apply relations_system|apply same_tablewise|]. intros s1. by apply same_ids, Hw.
Qed.

Lemma quiet_create_step s E s' className r o :
  working s E -> vertexCreate fill className r s = (s', o) -> framed s s' /\ working s' E.
Proof.
  intros Hw. apply quiet_step; [done| |]; (eapply keeps_vertexCreate; [| |]).
  - apply catalog_system.
  - apply still_tablewise.
  - intros s1. by apply still_ids, Hw.
  - apply relations_system.
  - apply same_tablewise.
  - intros s1. by apply same_ids, Hw.
Qed.

Lemma working_repr s E : working s E -> repr (db_relation s) (db_txn s) E.
Proof. intros Hw. apply Hw. Qed.
Lemma working_live s E : working s E -> live s s.
Proof. intros Hw. split; [apply framed_refl|]. exists E. by apply working_repr. Qed.

(** A triple about what a command leaves alone, at the command's own state. *)
Lemma frame_of {A} s (m : Cmd D A) s' o :
  hoare (still s) m (fun _ => framed s) (framed s) -> m s = (s', o) -> o <> UB -> framed s s'.
Proof. intros Hm E Ho. specialize (Hm s (still_refl s)). rewrite E in Hm. by destruct o. Qed.

Lemma create_step s E s' className src dst r k o :
  working s E -> edge_id C s className k -> open_end C s (rd_rid src) -> open_end C s (rd_rid dst) ->
  end_pair s (rd_rid src) (rd_rid dst) -> edgeCreate fill className src dst r s = (s', o) -> o <> UB ->
  framed s s' /\ working s' (match o with Ok _ => <[k := (rd_rid src, rd_rid dst)]> E | _ => E end).
Proof.
  intros Hw [(l & c & Hn & Hl & Hk) Ht Hf Hc] [S1 S2 S3] [D1 D2 D3] Hne He Ho.
  assert (framed s s') as Hfr. { eapply frame_of; [|done..]. apply frame_edgeCreate, Hw. }
  destruct k as [k1 m]. cbn [fst snd] in *. subst k1.
  pose proof (edgeCreate_ends fill s E (wk_synced _ _ Hw) (wk_ids _ _ Hw) className src dst r l c m) as Hs.
  rewrite He in Hs. destruct o as [[d r']|e|]; [| |done].
  - destruct Hs as (_ & _ & (_ & Hs & _) & _); [by auto..|]. eapply working_step; [done..|by apply Hs|].
    by apply edge_classes_insert; [apply Hw|..].
  - eapply working_less; [done..|by apply Hs; auto|done].
Qed.

Lemma move_step s E s' side d r o :
  working s E -> rid_ok (rd_rid d) -> open_end C s (rd_rid r) ->
  match side with SRC => updateSrc fill d r | DST => updateDst d r end s = (s', o) -> o <> UB ->
  match o with
  | Ok _ => forall sd, E !! rd_rid d = Some sd ->
      framed s s' /\ working s' (<[rd_rid d := withEnd side (rd_rid r) sd]> E)
  | _ => framed s s' /\ working s' E
  end.
Proof.
  intros Hw Hd [R1 R2 R3] Hm Ho. pose proof (r_base _ _ _ _ _ (working_repr _ _ Hw)) as Hb.
  assert (framed s s') as Hfr.
  { destruct side; (eapply frame_of; [|done..]); [apply frame_updateSrc|apply frame_updateDst]; try done; apply Hw. }
  destruct (updateEnds_ends fill s E d r (wk_synced _ _ Hw) (wk_ids _ _ Hw) Hd R1 R2) as [Hsrc Hdst].
  assert (match o with
          | Ok _ => exists sd, E !! rd_rid d = Some sd /\ synced s' (<[rd_rid d := withEnd side (rd_rid r) sd]> E)
          | _ => synced s' E
          end) as Hs.
  { destruct side; rewrite Hm in *; destruct o; try done;
      [destruct Hsrc as (x & y & ? & ?)|destruct Hdst as (x & y & ? & ?)]; by exists (x, y). }
  destruct o as [[]|e|]; [|by eapply working_less|done].
  destruct Hs as (sd & HE & Hs). intros sd' HE'. simplify_eq.
  destruct (wk_classes _ _ Hw _ _ HE) as (K1 & K2 & K3).
  eapply working_step; [done..|].
  apply edge_classes_insert; [apply Hw|done| |]; by destruct side.
Qed.

Lemma record_step_works s E s' E' : working s E -> record_step s E s' E' -> framed s s' /\ working s' E'.
Proof.
  intros Hw Hstep. destruct Hstep as [className r o He Ho|d r o He Ho|d r o He Ho|className src dst r k a Hk Hs Hd Hne He
    |className src dst r k e Hk Hs Hd Hne He|d Hd He|d He|d r a b Hd Hr HE He|d r e Hd Hr He|d r a b Hd Hr HE He
    |d r e Hd Hr He].
  - by eapply quiet_create_step.
  - by eapply quiet_update_step.
  - by eapply quiet_update_step.
  - by apply (create_step s E s' className src dst r k (Ok a)).
  - by apply (create_step s E s' className src dst r k (Throw e)).
  - pose proof (live_edgeDestroy s (wk_ids _ _ Hw) d s (working_live _ _ Hw)) as Hl. rewrite He in Hl.
    pose proof (edgeDestroy_ends fill s E d (wk_synced _ _ Hw) (wk_ids _ _ Hw) Hd) as Hs. rewrite He in Hs.
    eapply working_less; [done|apply Hl|done|apply delete_subseteq].
  - pose proof (live_vertexDestroy s (wk_ids _ _ Hw) d s (working_live _ _ Hw)) as Hl. rewrite He in Hl.
    pose proof (vertexDestroy_ends fill s E d (wk_synced _ _ Hw) (wk_ids _ _ Hw)) as Hs. rewrite He in Hs.
    eapply working_less; [done|apply Hl|apply Hs|apply map_filter_subseteq].
  - by apply (move_step s E s' SRC d r (Ok tt) Hw Hd Hr He ltac:(done) (a, b)).
  - by apply (move_step s E s' SRC d r (Throw e) Hw Hd Hr He).
  - by apply (move_step s E s' DST d r (Ok tt) Hw Hd Hr He ltac:(done) (a, b)).
  - by apply (move_step s E s' DST d r (Throw e) Hw Hd Hr He).
Qed.

Lemma session_works s E s' E' : working s E -> session s E s' E' -> framed s s' /\ working s' E'.
Proof.
  intros Hw. induction 1 as [|s1 E1 s2 E2 _ [IH1 IH2] Hstep]; [by split; [apply framed_refl|]|].
  destruct (record_step_works _ _ _ _ IH2 Hstep) as [Hf Hw2]. split; [by eapply framed_trans|done].
Qed.
End frames.

Section durable.
  Context {D : Type} `{!Lmdb D, !LmdbLaws D} (fill : byte).

Lemma stored_catalog_ext (d d' : D) C P :
  (forall n, catalog_table n -> entries d' n = entries d n) -> stored_catalog C P d -> stored_catalog C P d'.
Proof.
  intros Hc [S1 S2 S3 S4 S5 S6].
  assert (entries d' TB_CLASSES = entries d TB_CLASSES) as H1 by (apply Hc; by left).
  assert (entries d' TB_PROPERTIES = entries d TB_PROPERTIES) as H2 by (apply Hc; right; by left).
  assert (entries d' TB_INDEXES = entries d TB_INDEXES) as H3 by (apply Hc; right; by right).
  split; unfold table; rewrite ?H1, ?H2, ?H3; done.
Qed.

(** A commit of a transaction that created no class. *)
Lemma commit_no_class d c t c' t' :
  txnType t = READ_WRITE -> isCompleted t = false -> ucSchema t = ∅ -> deletedClassId (dbSchema c) = [] ->
  commit d c t = Ok (true, c', t') -> dbSchema c' = dbSchema c.
Proof.
  intros Hrw Hc Hu Hdel Hcm. destruct (commit_schema _ _ _ _ _ Hrw Hc Hcm) as (base & s' & -> & Hs & _).
  assert (commitSchema base t (dbSchema c) = dbSchema c) as Hsame
    by (unfold commitSchema; by rewrite Hu, bool_decide_true).
  rewrite Hsame in Hs. destruct Hs as [->| ->]; [done|]. destruct (dbSchema c) as [h i q k]. simpl in Hdel. by subst q.
Qed.

(** C1. A transaction that runs record commands and commits: the context it
    leaves holds the edges that the commands made, and the catalog has not
    changed; when every stored loop comes after another row of its vertex, the
    context of the tables opened again holds the same edges and catalog. *)
Theorem session_durable time c E C P t0 c0 (d : D) s' E' :
  quiescent c E -> (maxVersionId (dbTxnStat c) + 1 < UINT64_MAX)%Z -> schema_ids (dbSchema c) ->
  deletedClassId (dbSchema c) = [] ->
  stored_catalog C P d -> catalog_ok C P -> stored_edges d E -> edges_ok E -> edge_classes C E ->
  beginTxn c true false = Ok (t0, c0) ->
  session fill C (mkDb (dbSchema c0) (dbRelation c0) t0 d) E s' E' ->
  (exists c' t', commit (Ok tt) (setRelation (fun _ => db_relation s') c0) (db_txn s') = Ok (true, c', t') /\
     maxVersionId (dbTxnStat c') = (maxVersionId (dbTxnStat c) + 1)%Z /\ quiescent c' E' /\
     dbSchema c' = dbSchema c) /\
  (reopenable E' ->
   exists c2 d2, initDatabase time (Ok tt) (db_store s') newContext = Ok (c2, d2) /\ quiescent c2 E' /\
     (forall t, fresh_writer t -> ucSchema t = ∅ ->
        finds_catalog C P (entries d TB_INDEXES) (dbSchema c2) t) /\
     stored_catalog C P d2 /\ stored_edges d2 E').
Proof.
  intros Hq Hmax Hids Hdel Hcat Hok Hst Hek Hcl Hb Hses.
  destruct (begin_writer c E false Hq Hmax)
    as (? & ? & Hb' & Hf & Hver & Hcomp & Hds & Hg & Hstat & Hs & Hinf & Htinf & Huc).
  rewrite Hb in Hb'. injection Hb' as <- <-.
  pose proof (qs_version _ _ Hq) as H0. destruct (qs_writer _ _ Hq t0 Hf) as [Hr _]; [lia|].
  set (s0 := mkDb _ _ t0 d) in *.
  assert (working C s0 E) as Hw.
  { split; try done; [|by unfold s0; simpl; rewrite Hs]. split; [unfold s0; simpl; by rewrite Hg|done..]. }
  destruct (session_works fill C _ _ _ _ Hw Hses) as [Hfr Hw'].
  pose proof (fr_steps _ _ Hfr) as Hsteps. unfold s0 in Hsteps. cbn [db_relation db_txn] in Hsteps. split.
  - destruct (cycle_commit c E t0 (db_relation s') (db_txn s') E' (Ok tt) (setRelation (fun _ => db_relation s') c0))
      as (c' & t' & Hcm & Hv & Hq'); try done; [by rewrite <- Hg|by apply working_repr in Hw'|].
    exists c', t'. split_and!; try done. destruct (steps_flags _ _ Hsteps) as (F1 & F2 & F3 & F4).
    destruct (steps_schema _ _ Hsteps) as [Hu _]. cbn [snd] in *.
    rewrite <- Hs. eapply (commit_no_class _ (setRelation (fun _ => db_relation s') c0)); [..|exact Hcm].
    + rewrite F3. apply Hf.
    + by rewrite F1.
    + by rewrite Hu.
    + cbn [setRelation dbSchema]. by rewrite Hs.
  - intros Hre. destruct (opening_spec time (db_store s') C P E') as (c2 & d2 & Hi & Hq2 & Hfind & _ & Hc2 & Hs2); try done.
    + by apply (stored_catalog_ext d), Hcat; apply Hfr.
    + apply Hw'.
    + apply Hw'.
    + apply Hw'.
    + exists c2, d2. split_and!; try done. intros t Hft Hut. specialize (Hfind t Hft Hut).
      rewrite (fr_catalog _ _ Hfr) in Hfind; [done|]. right. by right.
Qed.
End durable.
