(* ===== verification/Algorithm.v ===== *)
(** * Graph traversal

    Model of [Algorithm] (src/src/algorithm.hpp, algorithm.cpp) and
    [PathFilter] (src/src/path_filter.cpp): breadth-first and depth-first
    search with depth bounds, and the unweighted shortest path.  The functions
    of the graph that a search calls are passed as the code passes them:
    [edgeFunc] lists the edges of a vertex in a class, [vertexFunc] gives the
    end of an edge to follow ([None] for the null pointer, which follows an
    edge to its other end).  Depths are counted in [Z]: there are fewer levels
    than vertices, so the [unsigned int] of the code does not wrap. *)

From stdpp Require Import base gmap sets list strings sorting relations.
From Stdlib Require Import ZArith Lia.
From S2P Require Import Prelude Types VersionControl TxnObject TxnData RecordModel Parser Graph Schema Generic.

(** ** Path filters *)
Record PathFilter := mkPathFilter {
  vertexFilter : option (DbRecord -> bool);
  edgeFilter : option (DbRecord -> bool);
}.

Definition noPathFilter : PathFilter := mkPathFilter None None.
Definition setVertexFilter (f : option (DbRecord -> bool)) (p : PathFilter) : PathFilter := mkPathFilter f (edgeFilter p).
Definition setEdgeFilter (f : option (DbRecord -> bool)) (p : PathFilter) : PathFilter := mkPathFilter (vertexFilter p) f.
Definition isSetVertex (p : PathFilter) : bool := match vertexFilter p with Some _ => true | None => false end.
Definition isSetEdge (p : PathFilter) : bool := match edgeFilter p with Some _ => true | None => false end.
Definition isEnable (p : PathFilter) : bool := isSetVertex p || isSetEdge p.

Section algorithm.
  Context (s : Schema) (g : Graph) (t : BaseTxn).
  Context (records : ClassId -> list (PositionId * list byte)).

(** [retrieveRdesc]: the null descriptor when the record is filtered out. *)
Definition retrieveRdesc (rid : RecordId) (p : PathFilter) (type : ClassType) : Outcome RecordDescriptor :=
  let* record := retrieveRecord s t records rid in
  match vertexFilter p, edgeFilter p, type with
  | Some f, _, VERTEX => Ok (if f record then rdescOf rid else noRdesc)
  | _, Some f, EDGE => Ok (if f record then rdescOf rid else noRdesc)
  | _, _, _ => Ok (rdescOf rid)
  end.

Definition filteredRdesc (rid : RecordId) (p : PathFilter) (type : ClassType) : Outcome RecordDescriptor :=
  if isEnable p then retrieveRdesc rid p type else Ok (rdescOf rid).

(** [getIncidentEdges], and [getOutEdges] with [edgeFunc] the outgoing
    edges. *)
Definition keepEdges (p : PathFilter) (res : list RecordDescriptor) (es : list RecordId) :
    Outcome (list RecordDescriptor) :=
  ofold (fun res e =>
           let* d := filteredRdesc e p EDGE in
           Ok (if isNoRdesc d then res else res ++ [rdescOf e])) es res.

Definition getIncidentEdges (edgeFunc : RecordId -> ClassId -> Outcome (list RecordId)) (vertex : RecordId)
    (p : PathFilter) (edgeClassIds : list ClassId) : Outcome (list RecordDescriptor) :=
  match edgeClassIds with
  | [] => let* es := edgeFunc vertex 0%Z in keepEdges p [] es
  | _ => ofold (fun res id => let* es := edgeFunc vertex id in keepEdges p res es) edgeClassIds []
  end.

(** The vertex an edge leads to. *)
Definition nextVertex (vertexFunc : option (RecordId -> Outcome RecordId)) (vertex edge : RecordId) :
    Outcome RecordId :=
  match vertexFunc with
  | Some f => f edge
  | None =>
      let* sd := getVertexSrcDst g t edge in
      Ok (if bool_decide (sd.1 <> vertex) then sd.1 else sd.2)
  end.

(** ** Breadth-first search *)
Record BfsState := mkBfsState {
  b_result : list RecordDescriptor;
  b_visited : gset RecordId;
  b_queue : list RecordId;
  b_level : Z;
  b_first : RecordId;
}.

Definition noRid : RecordId := (0, 0)%Z.

Definition addUniqueVertex (minDepth maxDepth : Z) (p : PathFilter) (st : BfsState) (vertex : RecordId) :
    Outcome BfsState :=
  if bool_decide (vertex ∈ b_visited st) then Ok st
  else
    let* d := filteredRdesc vertex p VERTEX in
    let next := (b_level st + 1)%Z in
    let result :=
      if (minDepth <=? next)%Z && (next <=? maxDepth)%Z && negb (isNoRdesc d)
      then b_result st ++ [mkRecordDescriptor (rd_rid d) next] else b_result st in
    let first := if bool_decide (b_first st = noRid) then vertex else b_first st in
    let queue := if (next <? maxDepth)%Z && negb (isNoRdesc d) then b_queue st ++ [vertex] else b_queue st in
    Ok (mkBfsState result ({[vertex]} ∪ b_visited st) queue (b_level st) first).

Definition bfsVertex (edgeFunc : RecordId -> ClassId -> Outcome (list RecordId))
    (vertexFunc : option (RecordId -> Outcome RecordId)) (edgeClassIds : list ClassId)
    (minDepth maxDepth : Z) (p : PathFilter) (source : RecordId) (vertexId : RecordId) (st : BfsState) :
    Outcome BfsState :=
  let st1 :=
    if bool_decide (vertexId = b_first st)
    then mkBfsState (b_result st) (b_visited st) (b_queue st)
           (b_level st + (if bool_decide (vertexId <> source) then 1 else 0)) noRid
    else st in
  let* edges := getIncidentEdges edgeFunc vertexId p edgeClassIds in
  ofold (fun st e => let* v := nextVertex vertexFunc vertexId (rd_rid e) in
                     addUniqueVertex minDepth maxDepth p st v) edges st1.

Fixpoint bfsLoop (fuel : nat) (edgeFunc : RecordId -> ClassId -> Outcome (list RecordId))
    (vertexFunc : option (RecordId -> Outcome RecordId)) (edgeClassIds : list ClassId)
    (minDepth maxDepth : Z) (p : PathFilter) (source : RecordId) (st : BfsState) : Outcome (list RecordDescriptor) :=
  match b_queue st with
  | [] => Ok (b_result st)
  | v :: q =>
      match fuel with
      | O => UB
      | S f =>
          let* st1 := bfsVertex edgeFunc vertexFunc edgeClassIds minDepth maxDepth p source v
                        (mkBfsState (b_result st) (b_visited st) q (b_level st) (b_first st)) in
          bfsLoop f edgeFunc vertexFunc edgeClassIds minDepth maxDepth p source st1
      end
  end.

Definition breadthFirstSearchRdesc (fuel : nat) (d : RecordDescriptor) (minDepth maxDepth : Z)
    (edgeClassIds : list ClassId) (edgeFunc : RecordId -> ClassId -> Outcome (list RecordId))
    (vertexFunc : option (RecordId -> Outcome RecordId)) (p : PathFilter) : Outcome (list RecordDescriptor) :=
  match checkIfRecordExist g t records d with
  | RECORD_NOT_EXIST => Throw NOGDB_GRAPH_NOEXST_VERTEX
  | RECORD_NOT_EXIST_IN_MEMORY => Ok (if (minDepth =? 0)%Z && (minDepth <=? maxDepth)%Z then [d] else [])
  | RECORD_EXIST =>
      rethrow (bfsLoop fuel edgeFunc vertexFunc edgeClassIds minDepth maxDepth p (rd_rid d)
        (mkBfsState (if (minDepth =? 0)%Z then [d] else []) {[rd_rid d]} [rd_rid d] 0 (rd_rid d)))
  end.

(** ** Depth-first search *)

(** [stk] holds one stack of vertices per level; its last elements are the
    tops. *)
Record DfsState := mkDfsState {
  d_result : list RecordDescriptor;
  d_visited : gset RecordId;
  d_stk : list (list RecordId);
  d_level : nat;
}.

Definition pushNext (vertexFunc : option (RecordId -> Outcome RecordId)) (vertex : RecordId)
    (visited : gset RecordId) (stack : list RecordId) (e : RecordDescriptor) : Outcome (list RecordId) :=
  let* v := nextVertex vertexFunc vertex (rd_rid e) in
  Ok (if bool_decide (v ∈ visited) then stack else stack ++ [v]).

(** [while (currentLevel && stk[currentLevel].empty()) --currentLevel] *)
Fixpoint settle (stk : list (list RecordId)) (level : nat) : nat :=
  match level with
  | O => O
  | S l => match stk !! level with Some [] => settle stk l | _ => level end
  end.

Definition dfsVertex (edgeFunc : RecordId -> ClassId -> Outcome (list RecordId))
    (vertexFunc : option (RecordId -> Outcome RecordId)) (edgeClassIds : list ClassId)
    (minDepth maxDepth : Z) (p : PathFilter) (vertex : RecordId) (st : DfsState) : Outcome DfsState :=
  if bool_decide (vertex ∈ d_visited st) then Ok st
  else
    let visited := {[vertex]} ∪ d_visited st in
    let level := d_level st in
    let* result :=
      if (minDepth <=? Z.of_nat level)%Z then
        let* d := if isEnable p
                  then retrieveRdesc vertex (if bool_decide (level = 0) then noPathFilter else p) VERTEX
                  else Ok (rdescOf vertex) in
        Ok (if isNoRdesc d then d_result st else d_result st ++ [mkRecordDescriptor (rd_rid d) (Z.of_nat level)])
      else Ok (d_result st) in
    if (Z.of_nat level <? maxDepth)%Z then
      let level1 := S level in
      let stk1 := if bool_decide (level1 = length (d_stk st)) then d_stk st ++ [[]] else d_stk st in
      let* edges := getIncidentEdges edgeFunc vertex p edgeClassIds in
      let* stack := ofold (pushNext vertexFunc vertex visited) (reverse edges) (default [] (stk1 !! level1)) in
      Ok (mkDfsState result visited (<[level1 := stack]> stk1) level1)
    else Ok (mkDfsState result visited (d_stk st) level).

Fixpoint dfsLoop (fuel : nat) (edgeFunc : RecordId -> ClassId -> Outcome (list RecordId))
    (vertexFunc : option (RecordId -> Outcome RecordId)) (edgeClassIds : list ClassId)
    (minDepth maxDepth : Z) (p : PathFilter) (st : DfsState) : Outcome (list RecordDescriptor) :=
  match d_stk st !! d_level st with
  | None => UB
  | Some stack =>
      match last stack with
      | None => Ok (d_result st)
      | Some vertex =>
          match fuel with
          | O => UB
          | S f =>
              let* st1 := dfsVertex edgeFunc vertexFunc edgeClassIds minDepth maxDepth p vertex
                            (mkDfsState (d_result st) (d_visited st)
                               (<[d_level st := take (length stack - 1) stack]> (d_stk st)) (d_level st)) in
              dfsLoop f edgeFunc vertexFunc edgeClassIds minDepth maxDepth p
                (mkDfsState (d_result st1) (d_visited st1) (d_stk st1) (settle (d_stk st1) (d_level st1)))
          end
      end
  end.

Definition depthFirstSearchRdesc (fuel : nat) (d : RecordDescriptor) (minDepth maxDepth : Z)
    (edgeClassIds : list ClassId) (edgeFunc : RecordId -> ClassId -> Outcome (list RecordId))
    (vertexFunc : option (RecordId -> Outcome RecordId)) (p : PathFilter) : Outcome (list RecordDescriptor) :=
  match checkIfRecordExist g t records d with
  | RECORD_NOT_EXIST => Throw NOGDB_GRAPH_NOEXST_VERTEX
  | RECORD_NOT_EXIST_IN_MEMORY => Ok (if (minDepth =? 0)%Z && (minDepth <=? maxDepth)%Z then [d] else [])
  | RECORD_EXIST =>
      rethrow (dfsLoop fuel edgeFunc vertexFunc edgeClassIds minDepth maxDepth p
        (mkDfsState [] ∅ [[rd_rid d]] 0))
  end.

(** ** Unweighted shortest path *)
Record PathState := mkPathState {
  p_visited : gmap RecordId (RecordDescriptor * RecordId);
  p_queue : list RecordId;
  p_found : bool;
}.

(** One edge of the inner loop, which stops at the target. *)
Definition pathEdge (p : PathFilter) (target vertex : RecordId) (st : PathState) (e : RecordDescriptor) :
    Outcome PathState :=
  if p_found st then Ok st
  else
    let* v := getVertexDst g t (rd_rid e) in
    let* st1 :=
      match p_visited st !! v with
      | Some _ => Ok st
      | None =>
          let* d := filteredRdesc v p VERTEX in
          Ok (if isNoRdesc d then st
              else mkPathState (<[v := (d, vertex)]> (p_visited st)) (p_queue st ++ [v]) false)
      end in
    Ok (mkPathState (p_visited st1) (p_queue st1) (bool_decide (v = target))).

Fixpoint pathLoop (fuel : nat) (edgeClassIds : list ClassId) (p : PathFilter) (target : RecordId) (st : PathState) :
    Outcome PathState :=
  if p_found st then Ok st
  else
    match p_queue st with
    | [] => Ok st
    | vertex :: q =>
        match fuel with
        | O => UB
        | S f =>
            let* edges := getIncidentEdges (getEdgeOut g t) vertex p edgeClassIds in
            let* st1 := ofold (pathEdge p target vertex) edges (mkPathState (p_visited st) q false) in
            pathLoop f edgeClassIds p target st1
        end
    end.

(** From the target back to the source; [at] throws on a vertex that was
    filtered out. *)
Fixpoint backtrack (fuel : nat) (visited : gmap RecordId (RecordDescriptor * RecordId)) (source vertex : RecordId)
    (result : list RecordDescriptor) : Outcome (list RecordDescriptor) :=
  if bool_decide (vertex = source) then Ok result
  else
    match fuel with
    | O => UB
    | S f =>
        match visited !! vertex with
        | None => Throw STD_OUT_OF_RANGE
        | Some (d, parent) => backtrack f visited source parent (result ++ [d])
        end
    end.

Definition numberDepths (l : list RecordDescriptor) : list RecordDescriptor :=
  imap (fun i d => mkRecordDescriptor (rd_rid d) (Z.of_nat i)) l.

Definition bfsShortestPathRdesc (fuel : nat) (src dst : RecordDescriptor) (edgeClassIds : list ClassId)
    (p : PathFilter) : Outcome (list RecordDescriptor) :=
  match checkIfRecordExist g t records src, checkIfRecordExist g t records dst with
  | RECORD_NOT_EXIST, _ => Throw NOGDB_GRAPH_NOEXST_SRC
  | _, RECORD_NOT_EXIST => Throw NOGDB_GRAPH_NOEXST_DST
  | RECORD_EXIST, RECORD_EXIST =>
      rethrow (
        if bool_decide (rd_rid src = rd_rid dst) then Ok [src]
        else
          let* st := pathLoop fuel edgeClassIds p (rd_rid dst)
                       (mkPathState {[rd_rid src := (noRdesc, noRid)]} [rd_rid src] false) in
          if p_found st then
            let* back := backtrack fuel (p_visited st) (rd_rid src) (rd_rid dst) [] in
            Ok (numberDepths (reverse (back ++ [src])))
          else Ok [])
  | _, _ => Ok []
  end.

(** The variants that read the records of the result. *)
Definition withRecords (m : Outcome (list RecordDescriptor)) : Outcome (list (RecordDescriptor * DbRecord)) :=
  let* ds := m in
  ofold (fun res d =>
           let* r := retrieveRecord s t records (rd_rid d) in
           Ok (res ++ [(d, setBasicInfo DEPTH_PROPERTY (le_bytes 4 (rd_depth d)) r)])) ds [].

Definition breadthFirstSearch fuel d minDepth maxDepth edgeClassIds edgeFunc vertexFunc p :=
  withRecords (breadthFirstSearchRdesc fuel d minDepth maxDepth edgeClassIds edgeFunc vertexFunc p).
Definition depthFirstSearch fuel d minDepth maxDepth edgeClassIds edgeFunc vertexFunc p :=
  withRecords (depthFirstSearchRdesc fuel d minDepth maxDepth edgeClassIds edgeFunc vertexFunc p).
Definition bfsShortestPath fuel src dst edgeClassIds p :=
  withRecords (bfsShortestPathRdesc fuel src dst edgeClassIds p).
End algorithm.
