(* ===== verification/AlgorithmSpec.v ===== *)
(** * What the traversals compute

    Breadth-first search without a path filter returns exactly the vertices
    whose distance from the source lies between the depth bounds, each with
    its distance; the proof follows the level marker of the code.  The
    neighbourhood function of the graph is abstract: any function that lists
    the vertices the code reaches from a vertex. *)

From stdpp Require Import base gmap sets list strings sorting relations fin_sets.
From Stdlib Require Import ZArith Lia ZifyBool.
From S2P Require Import Prelude Types TxnData RecordModel Graph Schema Generic Algorithm.

(** ** Distances *)
Section distance.
  Context (succ : RecordId -> list RecordId) (source : RecordId).

(** The ends of the walks of [k] edges. *)
Fixpoint walk (k : nat) : list RecordId :=
  match k with
  | O => [source]
  | S k' => walk k' ≫= succ
  end.

Definition dist (v : RecordId) (k : nat) : Prop := v ∈ walk k /\ forall j, j < k -> v ∉ walk j.

Lemma dist_unique v k k' : dist v k -> dist v k' -> k = k'.
Proof.
  intros [H1 H2] [H1' H2']. destruct (Nat.lt_trichotomy k k') as [?|[?|?]]; [|done|]; exfalso; naive_solver.
Qed.

Lemma dist_exists v k : v ∈ walk k -> exists k', k' <= k /\ dist v k'.
Proof.
  revert v. induction k as [k IH] using lt_wf_ind. intros v Hv.
  destruct (decide (Exists (fun j => v ∈ walk j) (seq 0 k))) as [Hex|Hn].
  - apply Exists_exists in Hex as (j & Hj & Hvj). apply elem_of_seq in Hj.
    destruct (IH j ltac:(lia) v Hvj) as (k' & ? & ?). exists k'. split; [lia|done].
  - exists k. split; [lia|]. split; [done|]. intros j Hj Hvj. apply Hn, Exists_exists.
    exists j. rewrite elem_of_seq. split; [lia|done].
Qed.

Lemma dist_source : dist source 0.
Proof. split; [by apply list_elem_of_singleton|lia]. Qed.

Lemma dist_pred v k : dist v (S k) -> exists u, dist u k /\ v ∈ succ u.
Proof.
  intros [Hv Hmin]. apply list_elem_of_bind in Hv as (u & Hvu & Hu).
  destruct (dist_exists u k Hu) as (j & Hj & Hd).
  assert (j = k) as ->; [|by exists u]. destruct (decide (j = k)) as [|Hne]; [done|].
  destruct (Hmin (S j) ltac:(lia)). apply list_elem_of_bind. exists u. split; [done|apply Hd].
Qed.

Lemma dist_succ u v k : dist u k -> v ∈ succ u -> exists j, j <= S k /\ dist v j.
Proof. intros [Hu _] Hv. apply dist_exists. apply list_elem_of_bind. by exists u. Qed.

Lemma dist_beyond k : (forall v, ~ dist v (S k)) -> forall v j, dist v j -> j <= k.
Proof.
  intros Hn v j. revert v. induction j as [|j IH]; intros v Hd; [lia|].
  destruct (dist_pred v j Hd) as (u & Hu & _). specialize (IH u Hu).
  destruct (decide (j = k)) as [->|]; [by destruct (Hn v)|lia].
Qed.
End distance.

(** ** The search as a pure loop *)
Section bfs.
  Context (succ : RecordId -> list RecordId) (d0 : RecordDescriptor) (V : gset RecordId).
  Context (minDepth maxDepth : Z).
  Context (Hclosed : forall v w, v ∈ V -> w ∈ succ v -> w ∈ V) (Hnull : noRid ∉ V) (Hsource : rd_rid d0 ∈ V).
Let source := rd_rid d0.
Let D := dist succ source.

Definition addVertex (st : BfsState) (v : RecordId) : BfsState :=
  if bool_decide (v ∈ b_visited st) then st
  else
    let next := (b_level st + 1)%Z in
    mkBfsState
      (if (minDepth <=? next)%Z && (next <=? maxDepth)%Z
       then b_result st ++ [mkRecordDescriptor v next] else b_result st)
      ({[v]} ∪ b_visited st)
      (if (next <? maxDepth)%Z then b_queue st ++ [v] else b_queue st)
      (b_level st)
      (if bool_decide (b_first st = noRid) then v else b_first st).

(** The level [L] is being processed: [Q1] of its vertices are left, [Q2] are
    the vertices of the next level found so far, and [Seen] holds of the
    vertices that the processed ones lead to. *)
Record level_inv (L : nat) (Seen : RecordId -> Prop) (Q1 Q2 : list RecordId) (st : BfsState) : Prop := {
  li_level : b_level st = Z.of_nat L;
  li_queue : b_queue st = Q1 ++ Q2;
  li_visited : forall v, v ∈ b_visited st <-> (exists k, k <= L /\ D v k) \/ (Seen v /\ D v (S L));
  li_Q1 : NoDup Q1 /\ Forall (fun v => D v L) Q1;
  li_Q2 : NoDup Q2 /\ (forall v, v ∈ Q2 -> v ∈ b_visited st /\ D v (S L)) /\
          (if (Z.of_nat (S L) <? maxDepth)%Z then forall v, v ∈ b_visited st -> D v (S L) -> v ∈ Q2 else Q2 = []);
  li_first : (b_first st = noRid /\ (forall v, v ∈ b_visited st -> ~ D v (S L))) \/
             (b_first st ∈ b_visited st /\ D (b_first st) (S L) /\
              ((Z.of_nat (S L) < maxDepth)%Z -> head Q2 = Some (b_first st)));
  li_result : forall x, x ∈ b_result st <-> (x = d0 /\ minDepth = 0%Z) \/
      exists k, 0 < k /\ (minDepth <= Z.of_nat k <= maxDepth)%Z /\ rd_depth x = Z.of_nat k /\
        rd_rid x ∈ b_visited st /\ D (rd_rid x) k;
  li_nodup : NoDup (rd_rid <$> b_result st);
  li_V : b_visited st ⊆ V;
}.

Lemma D_V v k : D v k -> v ∈ V.
Proof.
  revert v. induction k as [|k IH]; intros v Hd.
  - destruct Hd as [Hv%list_elem_of_singleton _]. by subst.
  - apply dist_pred in Hd as (u & Hu & Hv). by eapply Hclosed; [apply (IH u)|].
Qed.

Lemma result_visited L Seen Q1 Q2 st x : level_inv L Seen Q1 Q2 st -> x ∈ b_result st -> rd_rid x ∈ b_visited st.
Proof.
  intros I Hx. apply (li_result _ _ _ _ _ I) in Hx as [[-> _]|(k & _ & _ & _ & Hv & _)]; [|done].
  apply (li_visited _ _ _ _ _ I). left. exists 0. split; [lia|apply dist_source].
Qed.

(** A vertex not visited yet that a vertex of level [L] leads to. *)
Lemma fresh_dist L Seen Q1 Q2 st u v :
  level_inv L Seen Q1 Q2 st -> D u L -> v ∈ succ u -> v ∉ b_visited st -> D v (S L).
Proof.
  intros I Hu Hv Hvis. destruct (dist_succ _ _ _ _ _ Hu Hv) as (j & Hj & Hdv). fold D in Hdv.
  destruct (decide (j <= L)); [|by assert (j = S L) as -> by lia].
  destruct Hvis. apply (li_visited _ _ _ _ _ I). left. by exists j.
Qed.

(** Following one edge of a vertex [u] of the current level. *)
Lemma addVertex_inv L Seen Q1 Q2 st u v :
  level_inv L Seen Q1 Q2 st -> D u L -> v ∈ succ u ->
  exists Q2', level_inv L (fun w => Seen w \/ w = v) Q1 Q2' (addVertex st v) /\
    length Q2' + size (V ∖ b_visited (addVertex st v)) <= length Q2 + size (V ∖ b_visited st).
Proof.
  intros I Hu Hv. unfold addVertex. case_bool_decide as Hvis.
  { exists Q2. split; [|lia]. destruct I. split; try done. intros w. rewrite li_visited0. split; [naive_solver|].
    intros [?|[[?| ->] ?]]; [by left|by right|]. by apply li_visited0. }
  pose proof (fresh_dist _ _ _ _ _ _ _ I Hu Hv Hvis) as Hdv.
  assert (v ∈ V) as HvV by (by eapply D_V).
  assert (v <> noRid) as Hvn by (by intros ->).
  assert (forall x, x ∈ b_result st -> rd_rid x <> v) as Hfresh.
  { intros x Hx <-. by apply Hvis, (result_visited _ _ _ _ _ _ I). }
  pose proof I as [HL HQ Hvi HQ1 (HQ2a & HQ2b & HQ2c) Hfi Hre Hnd HV]. rewrite HL.
  replace (Z.of_nat L + 1)%Z with (Z.of_nat (S L)) by lia.
  set (c := (Z.of_nat (S L) <? maxDepth)%Z).
  exists (if c then Q2 ++ [v] else Q2). split; [split|]; cbn [b_level b_queue b_visited b_first b_result].
  - done.
  - rewrite HQ. destruct c; [by rewrite app_assoc|done].
  - intros w. rewrite elem_of_union, elem_of_singleton, Hvi. split; [|naive_solver].
    intros [->|[?|[? ?]]]; [right|by left|right]; auto.
  - done.
  - unfold c. destruct (Z.ltb_spec (Z.of_nat (S L)) maxDepth) as [Hlt|Hge]; (split_and!; [..|]).
    + apply NoDup_app. split_and!; [done| |apply NoDup_singleton].
      intros w Hw Heq%list_elem_of_singleton. subst w. by destruct (HQ2b v Hw).
    + intros w [Hw|Heq%list_elem_of_singleton]%elem_of_app; [destruct (HQ2b w Hw); split; set_solver|].
      subst w. split; [set_solver|done].
    + intros w [Heq%elem_of_singleton|Hw]%elem_of_union Hd; apply elem_of_app; [right; by apply list_elem_of_singleton|].
      left. by apply HQ2c.
    + done.
    + intros w Hw. destruct (HQ2b w Hw). split; [set_solver|done].
    + done.
  - right. destruct Hfi as [[-> Hnone]|(Hfv & HfD & Hhead)].
    + rewrite bool_decide_true by done. split_and!; [set_solver|done|]. unfold c. intros Hlt.
      destruct (Z.ltb_spec (Z.of_nat (S L)) maxDepth); [|lia].
      destruct Q2 as [|w Q2]; [done|]. destruct (HQ2b w ltac:(by left)) as [Hw HwD]. by destruct (Hnone w Hw).
    + rewrite bool_decide_false by (intros Heq; rewrite Heq in Hfv; set_solver).
      split_and!; [set_solver|done|]. unfold c. intros Hlt.
      destruct (Z.ltb_spec (Z.of_nat (S L)) maxDepth); [|lia]. specialize (Hhead Hlt). by destruct Q2.
  - intros x. assert (forall k, D v k -> k = S L) as Huniq by (intros k Hk; by eapply dist_unique).
    destruct ((minDepth <=? Z.of_nat (S L))%Z && (Z.of_nat (S L) <=? maxDepth)%Z) eqn:Hb.
    + rewrite elem_of_app, list_elem_of_singleton, Hre. split.
      * intros [[?|(k & ? & ? & ? & ? & ?)]| ->]; [by left|right; exists k; set_solver|].
        right. exists (S L). cbn [rd_depth rd_rid]. split_and!; [lia|lia|lia|done|set_solver|done].
      * intros [?|(k & Hk & Hm & Hdx & [Hx%elem_of_singleton|Hx]%elem_of_union & HD)]; [by left; left| |].
        -- right. destruct x as [rx kx]; simpl in *. subst rx. rewrite (Huniq k HD) in Hdx. by rewrite Hdx.
        -- left. right. by exists k.
    + rewrite Hre. split.
      * intros [?|(k & ? & ? & ? & ? & ?)]; [by left|right; exists k; set_solver].
      * intros [?|(k & Hk & Hm & Hdx & [Hx%elem_of_singleton|Hx]%elem_of_union & HD)]; [by left| |right; by exists k].
        exfalso. rewrite Hx in HD. rewrite (Huniq k HD) in Hm. lia.
  - destruct ((minDepth <=? Z.of_nat (S L))%Z && (Z.of_nat (S L) <=? maxDepth)%Z); [|done].
    rewrite fmap_app. apply NoDup_app. split_and!; [done| |apply NoDup_singleton].
    intros w (x & -> & Hx)%list_elem_of_fmap Hw%list_elem_of_singleton. by apply (Hfresh x).
  - set_solver.
  - assert (size (V ∖ b_visited st) = S (size (V ∖ ({[v]} ∪ b_visited st)))) as ->.
    { transitivity (size ({[v]} ∪ V ∖ ({[v]} ∪ b_visited st))).
      - f_equal. apply set_eq. intros w. destruct (decide (w = v)); set_solver.
      - rewrite size_union by set_solver. by rewrite size_singleton. }
    destruct c; rewrite ?length_app; simpl; lia.
Qed.

Lemma level_inv_ext L (Seen Seen' : RecordId -> Prop) Q1 Q2 st :
  (forall v, D v (S L) -> Seen v <-> Seen' v) -> level_inv L Seen Q1 Q2 st -> level_inv L Seen' Q1 Q2 st.
Proof. intros Hs []. split; try done. intros v. rewrite li_visited0. naive_solver. Qed.

(** Following all the edges of a vertex. *)
Lemma addVertices_inv L Q1 u vs : D u L -> (forall v, v ∈ vs -> v ∈ succ u) -> forall Seen Q2 st,
  level_inv L Seen Q1 Q2 st ->
  exists Q2', level_inv L (fun w => Seen w \/ w ∈ vs) Q1 Q2' (fold_left addVertex vs st) /\
    length Q2' + size (V ∖ b_visited (fold_left addVertex vs st)) <= length Q2 + size (V ∖ b_visited st).
Proof.
  intros Hu. induction vs as [|v vs IH]; intros Hvs Seen Q2 st I; cbn [fold_left].
  { exists Q2. split; [|lia]. eapply level_inv_ext; [|exact I]. intros w _. set_solver. }
  destruct (addVertex_inv _ _ _ _ _ u v I Hu) as (Q2' & I' & Hm); [apply Hvs; by left|].
  destruct (IH (fun w Hw => Hvs w ltac:(by right)) _ _ _ I') as (Q2'' & I'' & Hm').
  exists Q2''. split; [|lia]. eapply level_inv_ext; [|exact I'']. intros w _. rewrite elem_of_cons. naive_solver.
Qed.

(** The vertices that the vertices of level [L] outside [Q1] lead to. *)
Definition seen (L : nat) (Q1 : list RecordId) (v : RecordId) : Prop :=
  exists w, D w L /\ (w ∉ Q1) /\ v ∈ succ w.

Definition setQueue (q : list RecordId) (st : BfsState) : BfsState :=
  mkBfsState (b_result st) (b_visited st) q (b_level st) (b_first st).

(** The marker of the next level is popped. *)
Definition nextLevel (u : RecordId) (st : BfsState) : BfsState :=
  if bool_decide (u = b_first st)
  then mkBfsState (b_result st) (b_visited st) (b_queue st)
         (b_level st + (if bool_decide (u <> source) then 1 else 0)) noRid
  else st.

Definition bfsStep (u : RecordId) (q : list RecordId) (st : BfsState) : BfsState :=
  fold_left addVertex (succ u) (nextLevel u (setQueue q st)).

Lemma same_level L u Q1 Q2 st :
  level_inv L (seen L (u :: Q1)) (u :: Q1) Q2 st ->
  exists Q2', level_inv L (seen L Q1) Q1 Q2' (bfsStep u (Q1 ++ Q2) st) /\
    length Q2' + size (V ∖ b_visited (bfsStep u (Q1 ++ Q2) st)) <= length Q2 + size (V ∖ b_visited st).
Proof.
  intros I. pose proof I as [HL HQ Hvi [Hnd1 HF1] HQ2 Hfi Hre Hnd HV].
  apply NoDup_cons in Hnd1 as [Hu1 Hnd1]. apply Forall_cons in HF1 as [Hu HF1].
  assert (u <> b_first st) as Hne.
  { intros Heq. destruct Hfi as [[Hf _]|(_ & Hf & _)].
    - apply Hnull. rewrite <- Hf, <- Heq. by eapply D_V.
    - rewrite <- Heq in Hf. pose proof (dist_unique _ _ _ _ _ Hu Hf). lia. }
  unfold bfsStep, nextLevel. cbn [b_first setQueue]. rewrite bool_decide_false by done.
  assert (level_inv L (seen L (u :: Q1)) Q1 Q2 (setQueue (Q1 ++ Q2) st)) as I' by (by split).
  destruct (addVertices_inv L Q1 u (succ u) Hu (fun _ x => x) _ _ _ I') as (Q2' & I'' & Hm).
  exists Q2'. split; [|exact Hm]. eapply level_inv_ext; [|exact I'']. intros v Hv. cbv beta. unfold seen. split.
  - intros [(w & Hw & Hn & Hvw)|Hvu]; [exists w|exists u]; set_solver.
  - intros (w & Hw & Hn & Hvw). destruct (decide (w = u)) as [->|]; [by right|left].
    exists w. set_solver.
Qed.

Lemma new_level L u Q2 st :
  level_inv L (seen L []) [] (u :: Q2) st ->
  exists st', level_inv (S L) (seen (S L) (u :: Q2)) (u :: Q2) [] st' /\
    bfsStep u Q2 st = bfsStep u Q2 st' /\ b_visited st' = b_visited st.
Proof.
  intros I. pose proof I as [HL HQ Hvi _ (HQ2a & HQ2b & HQ2c) Hfi Hre Hnd HV].
  destruct (HQ2b u ltac:(by left)) as [Huv Hu].
  destruct (Z.ltb_spec (Z.of_nat (S L)) maxDepth) as [Hlt|]; [|done].
  destruct Hfi as [[_ Hnone]|(Hfv & HfD & Hhead)]; [by destruct (Hnone u Huv)|].
  specialize (Hhead Hlt). simpl in Hhead. injection Hhead as Hhead.
  set (st' := mkBfsState (b_result st) (b_visited st) (b_queue st) (b_level st + 1) noRid). exists st'.
  assert (u <> source) as Hus.
  { intros ->. pose proof (dist_unique _ _ _ _ _ Hu (dist_source succ source)). done. }
  assert (u <> noRid) as Hun by (intros ->; by apply Hnull, HV).
  split_and!; [|unfold bfsStep, nextLevel, setQueue, st'; simpl; rewrite <- Hhead;
    rewrite (bool_decide_true (u = u)), (bool_decide_false (u = noRid)), bool_decide_true by done; done|done].
  assert (forall v, v ∈ b_visited st <-> exists k, k <= S L /\ D v k) as Hvis.
  { intros v. rewrite Hvi. split.
    - intros [(k & ? & ?)|[_ ?]]; [exists k; split; [lia|done]|by exists (S L)].
    - intros (k & Hk & Hd). destruct (decide (k = S L)) as [->|]; [right|left; exists k; split; [lia|done]].
      split; [|done]. destruct (dist_pred _ _ _ _ Hd) as (w & Hw & Hvw). exists w. split_and!; [done|set_solver|done]. }
  assert (forall v, D v (S (S L)) -> v ∉ b_visited st) as Hno.
  { intros v Hd (k & Hk & Hd')%Hvis. pose proof (dist_unique _ _ _ _ _ Hd Hd'). lia. }
  split; cbn [st' b_level b_queue b_visited b_first b_result].
  - lia.
  - by rewrite app_nil_r.
  - intros v. rewrite Hvis. split; [by left|]. intros [?|[(w & Hw & Hn & Hvw) Hd]]; [done|].
    exfalso. apply Hn. apply HQ2c; [|done]. apply Hvis. by exists (S L).
  - split; [done|]. apply Forall_forall. intros w Hw. by destruct (HQ2b w Hw).
  - split_and!; [apply NoDup_nil; done|set_solver|]. destruct (Z.ltb_spec (Z.of_nat (S (S L))) maxDepth); [|done].
    intros v Hv Hd. by destruct (Hno v Hd).
  - left. split; [done|]. intros v Hv Hd. by destruct (Hno v Hd).
  - done.
  - done.
  - done.
Qed.

Fixpoint bfsPure (fuel : nat) (st : BfsState) : option (list RecordDescriptor) :=
  match b_queue st with
  | [] => Some (b_result st)
  | u :: q => match fuel with O => None | S f => bfsPure f (bfsStep u q st) end
  end.

Definition bfs_correct (res : list RecordDescriptor) : Prop :=
  NoDup (rd_rid <$> res) /\
  forall x, x ∈ res <-> (x = d0 /\ minDepth = 0%Z) \/
    exists k, 0 < k /\ (minDepth <= Z.of_nat k <= maxDepth)%Z /\ rd_depth x = Z.of_nat k /\ D (rd_rid x) k.

Lemma bfs_done L st : level_inv L (seen L []) [] [] st -> bfs_correct (b_result st).
Proof.
  intros [HL HQ Hvi _ (_ & _ & HQ2c) Hfi Hre Hnd HV]. split; [done|]. intros x. rewrite Hre.
  split; [intros [?|(k & ? & ? & ? & ? & ?)]; [by left|right; by exists k]|].
  intros [?|(k & ? & Hm & ? & Hd)]; [by left|right; exists k; split_and!; try done; try lia].
  apply Hvi. destruct (decide (k <= L)) as [|Hk]; [left; by exists k|].
  assert (forall v, D v (S L) -> v ∈ b_visited st) as Hnext.
  { intros v Hv. apply Hvi. right. split; [|done]. destruct (dist_pred _ _ _ _ Hv) as (w & Hw & Hvw).
    exists w. split_and!; [done|set_solver|done]. }
  destruct (Z.ltb_spec (Z.of_nat (S L)) maxDepth) as [Hlt|Hge].
  - assert (forall v, ~ D v (S L)) as Hnone.
    { intros v Hv. pose proof (HQ2c v (Hnext v Hv) Hv) as Hin. by apply elem_of_nil in Hin. }
    pose proof (dist_beyond _ _ _ Hnone _ _ Hd). lia.
  - assert (k = S L) as -> by lia. right. split; [|done].
    destruct (dist_pred _ _ _ _ Hd) as (w & Hw & Hvw). exists w. split_and!; [done|set_solver|done].
Qed.

Lemma bfsPure_correct fuel : forall L Q1 Q2 st,
  level_inv L (seen L Q1) Q1 Q2 st -> length Q1 + length Q2 + size (V ∖ b_visited st) <= fuel ->
  exists res, bfsPure fuel st = Some res /\ bfs_correct res.
Proof.
  induction fuel as [|fuel IH]; intros L Q1 Q2 st I Hf; cbn [bfsPure];
    rewrite (li_queue _ _ _ _ _ I); destruct Q1 as [|u Q1]; cbn [app].
  - destruct Q2; [|simpl in Hf; lia]. eexists. split; [done|]. by eapply bfs_done.
  - simpl in Hf. lia.
  - destruct Q2 as [|u Q2]; [eexists; split; [done|by eapply bfs_done]|].
    destruct (new_level _ _ _ _ I) as (st' & I' & -> & Hv).
    destruct (same_level _ _ _ _ _ I') as (Q2' & I'' & Hm). rewrite app_nil_r in *. rewrite Hv in Hm.
    apply (IH _ _ _ _ I''). simpl in *. lia.
  - destruct (same_level _ _ _ _ _ I) as (Q2' & I' & Hm). apply (IH _ _ _ _ I'). simpl in *. lia.
Qed.

Lemma start_inv :
  level_inv 0 (seen 0 [source]) [source] []
    (mkBfsState (if (minDepth =? 0)%Z then [d0] else []) {[source]} [source] 0 noRid).
Proof.
  assert (forall v k, D v k -> v = source -> k = 0) as H0.
  { intros v k Hd ->. exact (dist_unique _ _ _ _ _ Hd (dist_source succ source)). }
  split; cbn [b_level b_queue b_visited b_first b_result].
  - done.
  - done.
  - intros v. rewrite elem_of_singleton. split.
    + intros ->. left. exists 0. split; [done|apply dist_source].
    + intros [(k & Hk & Hd)|[(w & Hw & Hn & _) _]].
      * assert (k = 0) as -> by lia. destruct Hd as [Hd _]. by apply list_elem_of_singleton in Hd.
      * destruct Hn. destruct Hw as [Hw _]. by simpl in Hw.
  - split; [apply NoDup_singleton|]. apply Forall_singleton, dist_source.
  - split_and!; [by apply NoDup_nil|set_solver|]. destruct (_ <? _)%Z; [|done].
    intros v Hv%elem_of_singleton Hd. by pose proof (H0 v 1 Hd Hv).
  - left. split; [done|]. intros v Hv%elem_of_singleton Hd. by pose proof (H0 v 1 Hd Hv).
  - intros x. destruct (Z.eqb_spec minDepth 0).
    + rewrite list_elem_of_singleton. split; [by left|]. intros [[-> _]|(k & Hk & _ & _ & Hv & Hd)]; [done|].
      apply elem_of_singleton in Hv. pose proof (H0 _ _ Hd Hv). lia.
    + split; [intros Hx; by apply elem_of_nil in Hx|]. intros [[_ ?]|(k & Hk & _ & _ & Hv & Hd)]; [done|].
      apply elem_of_singleton in Hv. pose proof (H0 _ _ Hd Hv). lia.
  - destruct (minDepth =? 0)%Z; [apply NoDup_singleton|by apply NoDup_nil].
  - set_solver.
Qed.

Lemma bfsPure_start fuel :
  size V <= fuel ->
  exists res, bfsPure (S fuel) (mkBfsState (if (minDepth =? 0)%Z then [d0] else []) {[source]} [source] 0 source) = Some res /\
    bfs_correct res.
Proof.
  intros Hf. set (st := mkBfsState _ _ _ _ _).
  set (st0 := mkBfsState (b_result st) (b_visited st) [source] 0 noRid).
  assert (source <> noRid) as Hsn by (intros Heq; apply Hnull; by rewrite <- Heq).
  assert (level_inv 0 (seen 0 [source]) [source] [] st0) as I by apply start_inv.
  assert (bfsStep source [] st = bfsStep source [] st0) as Hstep.
  { unfold bfsStep, nextLevel, setQueue, st, st0; simpl.
    by rewrite (bool_decide_true (source = source)), (bool_decide_false (source = noRid)), bool_decide_false by (done || auto). }
  assert (bfsPure (S fuel) st = bfsPure fuel (bfsStep source [] st)) as -> by done. rewrite Hstep.
  destruct (same_level 0 source [] [] st0 I) as (Q2' & I' & Hm). cbn [app] in *.
  apply (bfsPure_correct fuel _ _ _ _ I').
  assert (size (V ∖ b_visited st0) <= size V) by (apply subseteq_size; set_solver). simpl in *. lia.
Qed.
End bfs.

(** ** The neighbourhood a search explores *)

(** What a traversal needs from the graph: on the vertices [V], listing the
    edges of a vertex succeeds and following them leads to [succ]. *)
Class Neighbourhood (s : Schema) (g : Graph) (t : BaseTxn) (records : ClassId -> list (PositionId * list byte))
    (edgeFunc : RecordId -> ClassId -> Outcome (list RecordId))
    (vertexFunc : option (RecordId -> Outcome RecordId)) (ids : list ClassId)
    (succ : RecordId -> list RecordId) (V : gset RecordId) : Prop := {
  nb_expand v : v ∈ V -> exists es, getIncidentEdges s t records edgeFunc v noPathFilter ids = Ok es /\
    Forall2 (fun e w => nextVertex g t vertexFunc v (rd_rid e) = Ok w) es (succ v);
  nb_closed v w : v ∈ V -> w ∈ succ v -> w ∈ V;
  nb_null : noRid ∉ V;
}.

Section search.
  Context {s : Schema} {g : Graph} {t : BaseTxn} {records : ClassId -> list (PositionId * list byte)}.
  Context {edgeFunc : RecordId -> ClassId -> Outcome (list RecordId)}.
  Context {vertexFunc : option (RecordId -> Outcome RecordId)} {ids : list ClassId}.
  Context {succ : RecordId -> list RecordId} {V : gset RecordId}.
  Context `{Hnb : !Neighbourhood s g t records edgeFunc vertexFunc ids succ V}.
  Context (minDepth maxDepth : Z).

Lemma notNull v : v ∈ V -> isNoRdesc (rdescOf v) = false.
Proof. intros Hv. apply bool_decide_eq_false. intros Heq. apply (nb_null (V := V)). simpl in Heq. by subst v. Qed.

Lemma addUniqueVertex_pure st v :
  v ∈ V -> addUniqueVertex s t records minDepth maxDepth noPathFilter st v = Ok (addVertex minDepth maxDepth st v).
Proof.
  intros Hv. unfold addUniqueVertex, addVertex. case_bool_decide; [done|].
  unfold filteredRdesc. cbn [isEnable isSetVertex isSetEdge vertexFilter edgeFilter noPathFilter orb obind].
  rewrite (notNull v Hv). by rewrite !andb_true_r.
Qed.

Lemma bfsVertex_pure d0 u q st :
  u ∈ V ->
  bfsVertex s g t records edgeFunc vertexFunc ids minDepth maxDepth noPathFilter (rd_rid d0) u (setQueue q st) =
    Ok (bfsStep succ d0 minDepth maxDepth u q st).
Proof.
  intros Hu. destruct (nb_expand u Hu) as (es & Hes & Hsucc).
  unfold bfsVertex. rewrite Hes. cbn [obind]. unfold bfsStep.
  change (if bool_decide (u = b_first (setQueue q st)) then _ else _)
    with (nextLevel d0 u (setQueue q st)).
  generalize (nextLevel d0 u (setQueue q st)). clear Hes.
  assert (Forall (fun w => w ∈ V) (succ u)) as HV by (apply Forall_forall; intros w; by apply nb_closed).
  induction Hsucc as [|e w es ws Hew Hsucc IH]; intros st0; cbn [ofold fold_left]; [done|].
  apply Forall_cons in HV as [Hw HV]. rewrite Hew. cbn [obind]. rewrite addUniqueVertex_pure by done. cbn [obind].
  by apply IH.
Qed.

Lemma bfsStep_queue d0 u q st :
  u ∈ V -> Forall (fun w => w ∈ V) q ->
  Forall (fun w => w ∈ V) (b_queue (bfsStep succ d0 minDepth maxDepth u q st)).
Proof.
  intros Hu Hq. unfold bfsStep.
  assert (Forall (fun w => w ∈ V) (succ u)) as HV by (apply Forall_forall; intros w; by apply nb_closed).
  assert (Forall (fun w => w ∈ V) (b_queue (nextLevel d0 u (setQueue q st)))) as H0.
  { unfold nextLevel. by case_bool_decide. }
  revert H0. generalize (nextLevel d0 u (setQueue q st)).
  induction HV as [|w ws Hw HV IH]; intros st0 H0; cbn [fold_left]; [done|].
  apply IH. unfold addVertex. case_bool_decide; [done|]. cbn [b_queue].
  destruct (_ <? _)%Z; [|done]. apply Forall_app. split; [done|]. by apply Forall_singleton.
Qed.

Lemma bfsLoop_pure d0 fuel : forall st res,
  Forall (fun w => w ∈ V) (b_queue st) ->
  bfsPure succ d0 minDepth maxDepth fuel st = Some res ->
  bfsLoop s g t records fuel edgeFunc vertexFunc ids minDepth maxDepth noPathFilter (rd_rid d0) st = Ok res.
Proof.
  induction fuel as [|fuel IH]; intros st res Hq; cbn [bfsPure bfsLoop].
  { destruct (b_queue st); [by intros [= ->]|done]. }
  destruct (b_queue st) as [|u q] eqn:Eq; [by intros [= ->]|].
  apply Forall_cons in Hq as [Hu Hq].
  change (mkBfsState (b_result st) (b_visited st) q (b_level st) (b_first st)) with (setQueue q st).
  rewrite bfsVertex_pure by done. cbn [obind]. apply IH. by apply bfsStep_queue.
Qed.

(** Breadth-first search terminates, and returns without repetition the
    vertices at a distance from the source between the bounds, each with its
    distance (the source as it was given, when the lower bound is zero). *)
Lemma bfs_exact fuel d :
  rd_rid d ∈ V -> size V < fuel -> checkIfRecordExist g t records d = RECORD_EXIST ->
  exists res, breadthFirstSearchRdesc s g t records fuel d minDepth maxDepth ids edgeFunc vertexFunc noPathFilter = Ok res /\
    NoDup (rd_rid <$> res) /\
    forall x, x ∈ res <-> (x = d /\ minDepth = 0%Z) \/
      exists k, 0 < k /\ (minDepth <= Z.of_nat k <= maxDepth)%Z /\ rd_depth x = Z.of_nat k /\
        dist succ (rd_rid d) (rd_rid x) k.
Proof.
  intros Hd Hf Hex. unfold breadthFirstSearchRdesc. rewrite Hex. destruct fuel as [|fuel]; [lia|].
  destruct (bfsPure_start succ d V minDepth maxDepth (fun v w => nb_closed v w) nb_null Hd fuel)
    as (res & Hres & Hok); [lia|].
  exists res. rewrite (bfsLoop_pure d _ _ res); [done| |done]. by apply Forall_singleton.
Qed.
End search.

(** ** Shortest paths *)
Section dist_bound.
  Context (succ : RecordId -> list RecordId) (source : RecordId) (V : gset RecordId).
  Context (Hclosed : forall v w, v ∈ V -> w ∈ succ v -> w ∈ V) (Hsource : source ∈ V).

(** The levels up to that of a vertex are inhabited by distinct vertices. *)
Lemma dist_bound v k : dist succ source v k -> k < size V.
Proof.
  intros Hd.
  assert (exists l : list RecordId, length l = S k /\ NoDup l /\
            Forall (fun w => w ∈ V /\ exists j, j <= k /\ dist succ source w j) l) as (l & Hlen & Hnd & Hl).
  { revert v Hd. induction k as [|k IH]; intros v Hd.
    - exists [v]. split_and!; [done|apply NoDup_singleton|]. apply Forall_singleton.
      assert (v = source) as -> by (destruct Hd as [Hv _]; by apply list_elem_of_singleton in Hv).
      split; [done|]. exists 0. split; [lia|done].
    - destruct (dist_pred _ _ _ _ Hd) as (u & Hu & Hvu). destruct (IH u Hu) as (l & Hlen & Hnd & Hl).
      exists (v :: l). split_and!; [simpl; lia| |].
      + apply NoDup_cons. split; [|done]. intros Hin. rewrite Forall_forall in Hl.
        destruct (Hl v Hin) as (_ & j & Hj & Hdj). pose proof (dist_unique _ _ _ _ _ Hd Hdj). lia.
      + apply Forall_cons. split.
        * split; [|exists (S k); split; [lia|done]]. apply (Hclosed u); [|done].
          destruct (dist_exists succ source u k) as (j & _ & Hdj); [apply Hu|].
          clear -Hdj Hclosed Hsource. destruct Hdj as [Hw _]. revert u Hw.
          induction j as [|j IH]; intros u Hw; cbn [walk] in Hw.
          -- apply list_elem_of_singleton in Hw. by subst.
          -- apply list_elem_of_bind in Hw as (w & Huw & Hw). by apply (Hclosed w); [apply IH|].
        * eapply Forall_impl; [exact Hl|]. intros w [Hw (j & Hj & Hdj)]. split; [done|]. exists j. split; [lia|done]. }
  assert (list_to_set l ⊆ V) as Hsub.
  { intros w Hw. rewrite elem_of_list_to_set in Hw. rewrite Forall_forall in Hl. by apply Hl. }
  apply subseteq_size in Hsub. rewrite size_list_to_set in Hsub by done. lia.
Qed.
End dist_bound.

(** Numbering a path keeps its vertices and counts them from zero. *)
Lemma numberDepths_rid l : rd_rid <$> numberDepths l = rd_rid <$> l.
Proof.
  unfold numberDepths. apply list_eq. intros i. rewrite !list_lookup_fmap, list_lookup_imap. by destruct (l !! i).
Qed.

Lemma numberDepths_depth l : rd_depth <$> numberDepths l = Z.of_nat <$> seq 0 (length l).
Proof.
  apply list_eq. intros i. unfold numberDepths. rewrite !list_lookup_fmap, list_lookup_imap.
  destruct (l !! i) as [x|] eqn:Hx; simpl.
  - by rewrite lookup_seq_lt by (by eapply lookup_lt_Some).
  - rewrite (lookup_ge_None_2 (seq _ _)); [done|]. rewrite length_seq. by apply lookup_ge_None.
Qed.

(** Consecutive vertices are neighbours. *)
Definition is_walk (succ : RecordId -> list RecordId) (l : list RecordId) : Prop :=
  forall i u v, l !! i = Some u -> l !! S i = Some v -> v ∈ succ u.

Section path.
  Context {s : Schema} {g : Graph} {t : BaseTxn} {records : ClassId -> list (PositionId * list byte)}.
  Context {ids : list ClassId} {succ : RecordId -> list RecordId} {V : gset RecordId}.
  Context `{Hnb : !Neighbourhood s g t records (getEdgeOut g t) (Some (getVertexDst g t)) ids succ V}.
  Context (source target : RecordId) (Hsource : source ∈ V) (Hdiff : source <> target).
Let D := dist succ source.
Let maxDepth : Z := (Z.of_nat (size V) + 2)%Z.

Lemma path_closed v w : v ∈ V -> w ∈ succ v -> w ∈ V.
Proof. apply (nb_closed (Neighbourhood := Hnb)). Qed.
Lemma path_null : noRid ∉ V.
Proof. apply (nb_null (Neighbourhood := Hnb)). Qed.

Lemma path_step L Seen Q1 Q2 b u v :
  level_inv succ (rdescOf source) V 1 maxDepth L Seen Q1 Q2 b -> D u L -> v ∈ succ u ->
  exists Q2', level_inv succ (rdescOf source) V 1 maxDepth L (fun w => Seen w \/ w = v) Q1 Q2' (addVertex 1 maxDepth b v).
Proof.
  intros I Hu Hv. destruct (addVertex_inv succ (rdescOf source) V 1 maxDepth path_closed path_null Hsource
    _ _ _ _ _ u v I Hu Hv) as (Q2' & I' & _). by exists Q2'.
Qed.

(** Every visited vertex but the source has a parent one level above. *)
Definition parents_ok (m : gmap RecordId (RecordDescriptor * RecordId)) : Prop :=
  is_Some (m !! source) /\
  forall v d u, m !! v = Some (d, u) -> v <> source ->
    d = rdescOf v /\ is_Some (m !! u) /\ v ∈ succ u /\ exists k, D u k /\ D v (S k).

Definition sim (st : PathState) (b : BfsState) : Prop :=
  p_found st = false /\ dom (p_visited st) = b_visited b /\ p_queue st = b_queue b /\
  parents_ok (p_visited st) /\ target ∉ b_visited b.

Definition reached (st : PathState) : Prop :=
  p_found st = true /\ parents_ok (p_visited st) /\ is_Some (p_visited st !! target).

Lemma parents_insert m u v k :
  parents_ok m -> m !! v = None -> is_Some (m !! u) -> v ∈ succ u -> D u k -> D v (S k) ->
  parents_ok (<[v := (rdescOf v, u)]> m).
Proof.
  intros [Hs Hm] Hv Hu Hvu Hdu Hdv. split.
  { rewrite lookup_insert. by case_decide. }
  intros w d x Hw Hne. rewrite lookup_insert in Hw. case_decide as Heq.
  - subst w. injection Hw as <- <-. split_and!; [done| |done|by exists k].
    rewrite lookup_insert. by case_decide.
  - destruct (Hm w d x Hw Hne) as (? & ? & ? & ?). split_and!; [done| |done|done].
    rewrite lookup_insert. by case_decide.
Qed.

Lemma path_edges L Q1 u es ws :
  D u L -> u ∈ V -> (forall v, v ∈ ws -> v ∈ succ u) ->
  Forall2 (fun e w => nextVertex g t (Some (getVertexDst g t)) u (rd_rid e) = Ok w) es ws ->
  forall Seen Q2 st b, sim st b -> u ∈ b_visited b ->
  level_inv succ (rdescOf source) V 1 maxDepth L Seen Q1 Q2 b ->
  exists st', ofold (pathEdge s g t records noPathFilter target u) es st = Ok st' /\
    (reached st' \/ sim st' (fold_left (addVertex 1 maxDepth) ws b)).
Proof.
  intros Hu HuV Hws Hes. induction Hes as [|e v es ws Hev Hes IH]; intros Seen Q2 st b Hsim Hub I; cbn [ofold fold_left].
  { exists st. auto. }
  destruct Hsim as (Hf & Hdom & Hq & Hpar & Htgt). unfold pathEdge at 1. rewrite Hf. cbn [nextVertex] in Hev.
  assert (v ∈ succ u) as Hvu by (apply Hws; by left).
  destruct (path_step _ _ _ _ _ u v I Hu Hvu) as (Q2' & I').
  rewrite Hev. cbn [obind]. destruct (p_visited st !! v) as [x|] eqn:Ev.
  - assert (v ∈ b_visited b) as Hvb by (rewrite <- Hdom; by apply elem_of_dom_2 in Ev).
    assert (v <> target) as Hvt by (by intros ->). cbn [obind].
    rewrite bool_decide_false by done. unfold addVertex in I' |- *. rewrite bool_decide_true in I' |- * by done.
    eapply IH; [intros w Hw; apply Hws; by right| |done|exact I'].
    unfold sim; cbn [p_found p_visited p_queue]. done.
  - assert (v ∉ b_visited b) as Hvb by (rewrite <- Hdom; by apply not_elem_of_dom).
    pose proof (fresh_dist _ _ _ _ _ _ _ _ _ _ _ _ I Hu Hvu Hvb) as Hdv.
    assert (v ∈ V) as HvV by (by eapply path_closed).
    unfold filteredRdesc. cbn [isEnable isSetVertex isSetEdge vertexFilter edgeFilter noPathFilter orb obind].
    rewrite (notNull (Hnb := Hnb) v HvV). cbn [p_visited p_queue].
    assert (parents_ok (<[v:=(rdescOf v, u)]> (p_visited st))) as Hpar'.
    { eapply parents_insert; [done|done| |done|exact Hu|done]. apply elem_of_dom. by rewrite Hdom. }
    destruct (decide (v = target)) as [->|Hvt].
    + rewrite bool_decide_true by done. exists (mkPathState (<[target:=(rdescOf target, u)]> (p_visited st)) (p_queue st ++ [target]) true).
      split; [|left; split_and!; [done|done|cbn [p_visited]; rewrite lookup_insert_eq; by eexists]].
      clear. induction es as [|e' es IH]; cbn [ofold]; [done|]. unfold pathEdge at 1. cbn [p_found obind]. done.
    + rewrite bool_decide_false by done. unfold addVertex in I' |- *. rewrite bool_decide_false in I' |- * by done.
      assert ((b_level b + 1 <? maxDepth)%Z = true) as Hlt.
      { rewrite (li_level _ _ _ _ _ _ _ _ _ _ I). unfold maxDepth.
        pose proof (dist_bound succ source V path_closed Hsource u L Hu). lia. }
      rewrite Hlt in I' |- *. eapply IH; [intros w Hw; apply Hws; by right| | |exact I'].
      * unfold sim; cbn [p_found p_visited p_queue b_visited b_queue]. split_and!; [done| | |done|set_solver].
        -- rewrite dom_insert_L, Hdom. done.
        -- by rewrite Hq.
      * cbn [b_visited]. set_solver.
Qed.

(** The first vertex of the current level is taken. *)
Lemma path_pop L u Q1 Q2 b :
  level_inv succ (rdescOf source) V 1 maxDepth L (seen succ (rdescOf source) L (u :: Q1)) (u :: Q1) Q2 b ->
  D u L /\ u ∈ V /\ u ∈ b_visited b /\
  level_inv succ (rdescOf source) V 1 maxDepth L (seen succ (rdescOf source) L (u :: Q1)) Q1 Q2
    (nextLevel (rdescOf source) u (setQueue (Q1 ++ Q2) b)).
Proof.
  intros I. pose proof I as [HL HQ Hvi [Hnd1 HF1] HQ2 Hfi Hre Hnd HV].
  apply NoDup_cons in Hnd1 as [Hu1 Hnd1]. apply Forall_cons in HF1 as [Hu HF1].
  assert (u ∈ b_visited b) as Hub by (apply Hvi; left; by exists L).
  assert (u <> b_first b) as Hne.
  { intros Heq. destruct Hfi as [[Hf _]|(_ & Hf & _)].
    - apply path_null. rewrite <- Hf, <- Heq. by apply HV.
    - rewrite <- Heq in Hf. pose proof (dist_unique _ _ _ _ _ Hu Hf). lia. }
  split_and!; [done|by apply HV|done|].
  unfold nextLevel. cbn [b_first setQueue]. rewrite bool_decide_false by done. by split.
Qed.

Lemma path_iter L u Q1 Q2 st b :
  level_inv succ (rdescOf source) V 1 maxDepth L (seen succ (rdescOf source) L (u :: Q1)) (u :: Q1) Q2 b ->
  sim (mkPathState (p_visited st) (Q1 ++ Q2) false) (setQueue (Q1 ++ Q2) b) ->
  exists es st', getIncidentEdges s t records (getEdgeOut g t) u noPathFilter ids = Ok es /\
    ofold (pathEdge s g t records noPathFilter target u) es (mkPathState (p_visited st) (Q1 ++ Q2) false) = Ok st' /\
    (reached st' \/ sim st' (bfsStep succ (rdescOf source) 1 maxDepth u (Q1 ++ Q2) b)).
Proof.
  intros I Hsim. destruct (path_pop _ _ _ _ _ I) as (Hu & HuV & Hub & I').
  destruct (nb_expand (Neighbourhood := Hnb) u HuV) as (es & Hes & Hsucc).
  assert (sim (mkPathState (p_visited st) (Q1 ++ Q2) false) (nextLevel (rdescOf source) u (setQueue (Q1 ++ Q2) b)) /\
          u ∈ b_visited (nextLevel (rdescOf source) u (setQueue (Q1 ++ Q2) b))) as [Hsim' Hub'].
  { unfold nextLevel. by case_bool_decide. }
  destruct (path_edges L Q1 u es (succ u) Hu HuV (fun _ x => x) Hsucc _ _ _ _ Hsim' Hub' I') as (st' & Hrun & Hst').
  by exists es, st'.
Qed.

Lemma pathLoop_correct fuel : forall L Q1 Q2 st b,
  level_inv succ (rdescOf source) V 1 maxDepth L (seen succ (rdescOf source) L Q1) Q1 Q2 b ->
  sim st b -> (exists v, D v L) -> length Q1 + length Q2 + size (V ∖ b_visited b) <= fuel ->
  exists st', pathLoop s g t records fuel ids noPathFilter target st = Ok st' /\
    (reached st' \/ (p_found st' = false /\ forall k, ~ D target k)).
Proof.
  induction fuel as [|fuel IH]; intros L Q1 Q2 st b I Hsim [v HvL] Hfuel; cbn [pathLoop];
    pose proof Hsim as (Hf & Hdom & Hq & Hpar & Htgt); rewrite Hf, Hq, (li_queue _ _ _ _ _ _ _ _ _ _ I).
  all: assert (Q1 = [] -> Q2 = [] -> forall k, ~ D target k) as Hdone.
  1,3: intros -> -> k Hk; apply Htgt, (li_visited _ _ _ _ _ _ _ _ _ _ I); left; exists k; split; [|done];
    apply (dist_beyond _ _ L) with (2 := Hk); intros w Hw;
    pose proof (dist_bound succ source V path_closed Hsource v L HvL);
    pose proof (proj2 (proj2 (li_Q2 _ _ _ _ _ _ _ _ _ _ I))) as Hc;
    replace (Z.of_nat (S L) <? maxDepth)%Z with true in Hc by (unfold maxDepth; lia);
    eapply not_elem_of_nil, (Hc w); [|exact Hw]; apply (li_visited _ _ _ _ _ _ _ _ _ _ I); right; split; [|exact Hw];
    destruct (dist_pred _ _ _ _ Hw) as (x & Hx & Hwx); exists x; split_and!; [done|set_solver|done].
  - destruct Q1; [|simpl in Hfuel; lia]. destruct Q2; [|simpl in Hfuel; lia]. exists st. auto.
  - assert (forall L' u Q1' Q2' b', Q1 ++ Q2 = u :: Q1' ++ Q2' ->
        level_inv succ (rdescOf source) V 1 maxDepth L' (seen succ (rdescOf source) L' (u :: Q1')) (u :: Q1') Q2' b' ->
        b_visited b' = b_visited b -> length Q1' + length Q2' + size (V ∖ b_visited b') <= fuel ->
        exists st', (let* edges := getIncidentEdges s t records (getEdgeOut g t) u noPathFilter ids in
                     let* st1 := ofold (pathEdge s g t records noPathFilter target u) edges
                                   (mkPathState (p_visited st) (Q1' ++ Q2') false) in
                     pathLoop s g t records fuel ids noPathFilter target st1) = Ok st' /\
          (reached st' \/ (p_found st' = false /\ forall k, ~ D target k))) as Hiter.
    { intros L' u Q1' Q2' b' _ I' Hvis Hm.
      destruct (path_iter L' u Q1' Q2' st b' I') as (es & st' & -> & Hrun & Hst').
      { unfold sim, setQueue; cbn [p_found p_visited p_queue b_visited b_queue]. by rewrite Hvis. }
      cbn [obind]. rewrite Hrun. cbn [obind]. destruct Hst' as [Hre|Hsim'].
      - exists st'. split; [|by left]. destruct Hre as (Hfd & _). destruct fuel; cbn [pathLoop]; by rewrite Hfd.
      - destruct (same_level succ (rdescOf source) V 1 maxDepth path_closed path_null Hsource _ _ _ _ _ I') as (Q2'' & I'' & Hm').
        apply (IH _ _ _ _ _ I'' Hsim'); [|lia]. exists u. by destruct (path_pop _ _ _ _ _ I'). }
    destruct Q1 as [|u Q1]; cbn [app].
    + destruct Q2 as [|u Q2]; [exists st; auto|].
      destruct (new_level succ (rdescOf source) V 1 maxDepth path_closed path_null Hsource _ _ _ _ I) as (b' & I' & _ & Hv).
      pose proof (Hiter (S L) u Q2 [] b') as H. rewrite app_nil_r in H. apply H; [done|done|done|].
      rewrite Hv. simpl in *. lia.
    + apply (Hiter L u Q1 Q2 b); [done|done|done|]. simpl in *. lia.
Qed.

(** A shortest path from the source. *)
Definition path_to (p : list RecordId) (v : RecordId) (k : nat) : Prop :=
  length p = S k /\ head p = Some source /\ last p = Some v /\ is_walk succ p.

Lemma path_snoc p u v k : path_to p u k -> v ∈ succ u -> path_to (p ++ [v]) v (S k).
Proof.
  intros (Hlen & Hhd & Hlast & Hw) Hv. split_and!.
  - rewrite length_app. simpl. lia.
  - by destruct p.
  - by rewrite last_snoc.
  - intros i x y Hx Hy. destruct (decide (S i < length p)) as [Hi|Hi].
    + rewrite lookup_app_l in Hx by lia. rewrite lookup_app_l in Hy by lia. by apply (Hw i).
    + pose proof (lookup_lt_Some _ _ _ Hy) as Hlt. rewrite length_app in Hlt. simpl in Hlt.
      rewrite lookup_app_r in Hy by lia. rewrite lookup_app_l in Hx by lia.
      replace (S i - length p) with 0 in Hy by lia. simpl in Hy. injection Hy as <-.
      rewrite last_lookup in Hlast. replace (Init.Nat.pred (length p)) with i in Hlast by lia. congruence.
Qed.

Lemma backtrack_path m : parents_ok m -> forall k fuel v acc,
  D v k -> is_Some (m !! v) -> k <= fuel ->
  exists ds, backtrack fuel m source v acc = Ok (acc ++ ds) /\ path_to (reverse ((rd_rid <$> ds) ++ [source])) v k.
Proof.
  intros [Hs Hm]. induction k as [|k IH]; intros fuel v acc Hv [[d u] Hmv] Hf.
  - assert (v = source) as -> by (destruct Hv as [Hv _]; by apply list_elem_of_singleton in Hv).
    exists []. rewrite app_nil_r. split; [destruct fuel; cbn [backtrack]; by rewrite bool_decide_true|].
    by split_and!.
  - assert (v <> source) as Hne.
    { intros ->. pose proof (dist_unique _ _ _ _ _ Hv (dist_source succ source)). done. }
    destruct fuel as [|fuel]; [lia|]. cbn [backtrack]. rewrite bool_decide_false, Hmv by done.
    destruct (Hm v d u Hmv Hne) as (-> & Hmu & Hvu & k' & Hu & Hv').
    pose proof (dist_unique _ _ _ _ _ Hv Hv') as [= <-].
    destruct (IH fuel u (acc ++ [rdescOf v]) Hu Hmu ltac:(lia)) as (ds & -> & Hp).
    exists (rdescOf v :: ds). rewrite <- app_assoc. split; [done|].
    cbn [fmap list_fmap rd_rid rdescOf app]. rewrite reverse_cons. by eapply path_snoc.
Qed.
End path.

(** The unweighted shortest path: it terminates; if the target is reachable
    the result is a walk from the source to the target along edges of the
    graph with as many edges as the distance between them, numbered from 0;
    otherwise it is empty. *)
Lemma shortest_path_exact s g t records ids succ V
    `{!Neighbourhood s g t records (getEdgeOut g t) (Some (getVertexDst g t)) ids succ V} fuel src dst :
  rd_rid src ∈ V -> size V < fuel ->
  checkIfRecordExist g t records src = RECORD_EXIST -> checkIfRecordExist g t records dst = RECORD_EXIST ->
  rd_rid src <> rd_rid dst ->
  exists res, bfsShortestPathRdesc s g t records fuel src dst ids noPathFilter = Ok res /\
    ((exists k, dist succ (rd_rid src) (rd_rid dst) k /\
        path_to (succ := succ) (rd_rid src) (rd_rid <$> res) (rd_rid dst) k /\
        rd_depth <$> res = Z.of_nat <$> seq 0 (S k)) \/
     (res = [] /\ forall k, ~ dist succ (rd_rid src) (rd_rid dst) k)).
Proof.
  intros Hsrc Hf Hes Hed Hne. unfold bfsShortestPathRdesc. rewrite Hes, Hed, bool_decide_false by done.
  set (source := rd_rid src) in *. set (target := rd_rid dst) in *.
  set (maxDepth := (Z.of_nat (size V) + 2)%Z).
  assert (forall v w, v ∈ V -> w ∈ succ v -> w ∈ V) as Hclosed by (intros v w; apply nb_closed).
  assert (noRid ∉ V) as Hnull by apply nb_null.
  pose proof (start_inv succ (rdescOf source) V 1 maxDepth Hclosed Hnull Hsrc) as I. cbn [rd_rid rdescOf] in I.
  change (1 =? 0)%Z with false in I. cbn iota in I. set (b := mkBfsState _ _ _ _ _) in I.
  destruct (pathLoop_correct (succ := succ) (V := V) source target Hsrc Hne fuel 0 [source] []
    (mkPathState {[source := (noRdesc, noRid)]} [source] false) b) as (st & Hrun & Hst).
  - exact I.
  - unfold sim; cbn [p_found p_visited p_queue b b_visited b_queue]. split_and!; try done.
    + apply dom_singleton_L.
    + split; [rewrite lookup_singleton; by case_decide|].
      intros v d u Hv Hvs. rewrite lookup_singleton in Hv. by case_decide.
    + set_solver.
  - exists source. apply dist_source.
  - cbn [b b_visited length]. assert (size (V ∖ {[source]}) <= size V) by (apply subseteq_size; set_solver). lia.
  - rewrite Hrun. cbn [obind]. destruct Hst as [(-> & Hpar & Htgt)|[-> Hno]].
    + assert (exists k, dist succ source target k) as [k Hk].
      { destruct Htgt as [[d u] Hd]. destruct Hpar as [_ Hpar]. assert (target <> source) as Hts by done.
        destruct (Hpar target d u Hd Hts) as (_ & _ & _ & k & _ & Hk). by exists (S k). }
      pose proof (dist_bound succ source V Hclosed Hsrc target k Hk) as Hbound.
      destruct (backtrack_path (succ := succ) (V := V) source (p_visited st) Hpar k fuel target [] Hk Htgt) as (ds & -> & Hp); [lia|].
      cbn [obind rethrow app]. eexists. split; [reflexivity|]. left. exists k. split; [done|].
      split.
      * rewrite numberDepths_rid, fmap_reverse, fmap_app. exact Hp.
      * destruct Hp as (Hlen & _). rewrite length_reverse, length_app, length_fmap in Hlen.
        rewrite numberDepths_depth. do 2 f_equal. rewrite length_reverse, length_app. simpl in *. lia.
    + cbn [rethrow]. exists []. split; [done|]. right. split; [done|]. exact Hno.
Qed.
