(* ===== verification/GraphSearch.v ===== *)
(** * Searching the relation graph

    The traversals of [Algorithm] on a graph that represents a map of edges
    (GraphSpec), following outgoing edges of every class: distances and paths
    are those of the map. *)

From stdpp Require Import base gmap sets list sorting relations fin_sets.
From Stdlib Require Import ZArith Lia.
From S2P Require Import Prelude Types TxnData Graph GraphSpec GraphQuery Schema Generic Algorithm AlgorithmSpec.

(** ** Distances in a map of edges *)
Definition edge_rel (E : gmap RecordId (RecordId * RecordId)) (u v : RecordId) : Prop :=
  exists k, E !! k = Some (u, v).

Definition graph_dist (E : gmap RecordId (RecordId * RecordId)) (u v : RecordId) (k : nat) : Prop :=
  nsteps (edge_rel E) k u v /\ forall j, j < k -> ~ nsteps (edge_rel E) j u v.

Definition outNeighbours (g : Graph) (t : BaseTxn) (u : RecordId) : list RecordId :=
  match getEdgeOut g t u 0%Z with
  | Ok ks => omap (fun k => match getVertexDst g t k with Ok w => Some w | _ => None end) ks
  | _ => []
  end.

(** The vertices of the map, and the source. *)
Section vertex_ids.
  Context (E : gmap RecordId (RecordId * RecordId)) (source : RecordId).

Definition vertexIds : gset RecordId :=
  list_to_set (source :: (map_to_list E ≫= fun p => [p.2.1; p.2.2])).

Lemma elem_of_vertexIds v : v ∈ vertexIds <-> v = source \/ exists k u w, E !! k = Some (u, w) /\ (v = u \/ v = w).
Proof.
  unfold vertexIds. rewrite elem_of_list_to_set, elem_of_cons, list_elem_of_bind. split.
  - intros [->|([k [u w]] & Hv & Hk)]; [by left|right]. apply elem_of_map_to_list in Hk. simpl in Hv.
    exists k, u, w. split; [done|]. set_solver.
  - intros [->|(k & u & w & HE & Hv)]; [by left|right]. exists (k, (u, w)). rewrite elem_of_map_to_list.
    simpl. split; [set_solver|done].
Qed.

Lemma size_list_le (xs : list RecordId) : size (list_to_set xs : gset RecordId) <= length xs.
Proof.
  induction xs as [|x xs IH]; [done|]. cbn [list_to_set length].
  rewrite size_union_alt, size_singleton.
  assert (size ((list_to_set xs : gset RecordId) ∖ {[x]}) <= size (list_to_set xs : gset RecordId))
    by (apply subseteq_size; set_solver). lia.
Qed.

Lemma size_vertexIds : size vertexIds <= 1 + 2 * size E.
Proof.
  unfold vertexIds. etransitivity; [apply size_list_le|]. rewrite <- (length_map_to_list E). cbn [length].
  assert (forall l : list (RecordId * (RecordId * RecordId)),
    length (l ≫= fun p => [p.2.1; p.2.2]) = 2 * length l) as ->; [|lia].
  induction l as [|p l IH]; [done|]. rewrite bind_cons, length_app, IH. simpl. lia.
Qed.
End vertex_ids.

Section search.
  Context (s : Schema) (g : Graph) (t : BaseTxn) (records : ClassId -> list (PositionId * list byte)).
  Context (E : gmap RecordId (RecordId * RecordId)) (Hr : repr g t E).

Lemma end_visible k u v : E !! k = Some (u, v) -> (exists l, vvis g t u l) /\ (exists l, vvis g t v l).
Proof.
  intros HE. destruct (proj1 (r_src _ _ _ _ _ Hr) k _ HE) as (_ & l1 & _ & H1 & _).
  destruct (proj1 (r_dst _ _ _ _ _ Hr) k _ HE) as (_ & l2 & _ & H2 & _). by split; eexists.
Qed.

Lemma outNeighbours_spec u v : v ∈ outNeighbours g t u <-> edge_rel E u v.
Proof.
  unfold outNeighbours, edge_rel. pose proof (adjacency_spec g t E u 0%Z Hr) as [Hno Hyes].
  destruct (lookupVertex g t u) as [[l x]|] eqn:Hl.
  - apply lookupVertex_spec in Hl as [Hl _]; [|by eapply r_base].
    destruct (Hyes l Hl) as (_ & outs & _ & -> & _ & _ & _ & Hout). rewrite list_elem_of_omap. split.
    + intros (k & Hk & Hd). destruct (endpoints_spec g t E k Hr) as (_ & _ & Hdst). rewrite Hdst in Hd.
      apply Hout in Hk as [([a b] & HE & Hp) _]. rewrite HE in Hd. simplify_eq/=. by exists k.
    + intros [k HE]. exists k. destruct (endpoints_spec g t E k Hr) as (_ & _ & ->). rewrite HE. split; [|done].
      apply Hout. split; [by eexists|by left].
  - assert (forall l, ~ vvis g t u l) as Hn.
    { intros l Hv. destruct (lock_vvis g t (r_base _ _ _ _ _ Hr) u l Hv) as (x & _ & Hx & _).
      assert (lookupVertex g t u = Some (l, x)) by (apply lookupVertex_spec; [by eapply r_base|done]). congruence. }
    destruct (Hno Hn) as [_ ->]. split; [intros H; by apply elem_of_nil in H|].
    intros [k HE]. destruct (end_visible k u v HE) as [[l Hv] _]. by destruct (Hn l).
Qed.

(** ** The neighbourhood of outgoing edges *)
Context (source : RecordId) (l0 : Loc) (Hvis : vvis g t source l0).
Context (HnullE : E !! noRid = None) (HnullV : source <> noRid /\ map_Forall (fun _ p => p.1 <> noRid /\ p.2 <> noRid) E).

Lemma keepEdges_all es res :
  Forall (fun e => e <> noRid) es -> keepEdges s t records noPathFilter res es = Ok (res ++ (rdescOf <$> es)).
Proof.
  unfold keepEdges. intros Hes. revert res. induction Hes as [|e es He Hes IH]; intros res; cbn [ofold].
  { by rewrite app_nil_r. }
  unfold filteredRdesc. cbn [isEnable isSetVertex isSetEdge vertexFilter edgeFilter noPathFilter orb obind].
  assert (isNoRdesc (rdescOf e) = false) as ->.
  { apply bool_decide_eq_false. intros Heq. by apply He. }
  rewrite IH, <- app_assoc. done.
Qed.

#[local] Instance out_neighbourhood :
  Neighbourhood s g t records (getEdgeOut g t) (Some (getVertexDst g t)) [] (outNeighbours g t) (vertexIds E source).
Proof.
  split.
  - intros v Hv. assert (exists l, vvis g t v l) as [l Hl].
    { apply elem_of_vertexIds in Hv as [->|(k & u & w & HE & [->| ->])]; [by exists l0|..];
        destruct (end_visible _ _ _ HE); done. }
    destruct (proj2 (adjacency_spec g t E v 0%Z Hr) l Hl) as (_ & outs & _ & Hout & _ & _ & _ & Hin).
    assert (Forall (fun k => exists u w, E !! k = Some (u, w)) outs) as HE.
    { apply Forall_forall. intros k Hk. apply Hin in Hk as [([a b] & HE & _) _]. by exists a, b. }
    exists (rdescOf <$> outs). unfold getIncidentEdges, outNeighbours. rewrite Hout. cbn [obind]. split.
    + apply (keepEdges_all _ []). eapply Forall_impl; [exact HE|]. intros k (a & b & HEk) ->. congruence.
    + clear Hout Hin. induction HE as [|k ks (a & b & HEk) HE IH]; simpl; [constructor|].
      destruct (endpoints_spec g t E k Hr) as (_ & _ & Hd). rewrite HEk in Hd. rewrite Hd. by constructor.
  - intros v w _ (k & HE)%outNeighbours_spec. apply elem_of_vertexIds. right. exists k, v, w. auto.
  - intros [Heq|(k & u & w & HE & Hk)]%elem_of_vertexIds; [by destruct HnullV|].
    destruct (proj2 HnullV k _ HE) as [H1 H2]. simpl in *. by destruct Hk.
Qed.

Lemma walk_nsteps v k : v ∈ walk (outNeighbours g t) source k <-> nsteps (edge_rel E) k source v.
Proof.
  revert v. induction k as [|k IH]; intros v; cbn [walk].
  - rewrite list_elem_of_singleton. split; [intros ->; constructor|by inversion 1].
  - rewrite list_elem_of_bind. split.
    + intros (u & Hu & Hw). eapply nsteps_r; [by apply IH|by apply outNeighbours_spec].
    + intros (u & Hu & Hw)%nsteps_inv_r. exists u. split; [by apply outNeighbours_spec|by apply IH].
Qed.

Lemma dist_graph v k : dist (outNeighbours g t) source v k <-> graph_dist E source v k.
Proof. unfold dist, graph_dist. setoid_rewrite walk_nsteps. done. Qed.

End search.

Lemma vvis_exists g t records E d l : repr g t E -> vvis g t (rd_rid d) l -> checkIfRecordExist g t records d = RECORD_EXIST.
Proof.
  intros Hr Hl. pose proof (r_base _ _ _ _ _ Hr) as Hb. unfold checkIfRecordExist.
  destruct (lock_vvis g t Hb _ l Hl) as (x & _ & Hx & _).
  by rewrite (proj2 (lookupVertex_spec g t Hb _ l x) (conj Hl Hx)).
Qed.


(** The record ids of edges and vertices are not the null record id. *)
Definition ids_ok (E : gmap RecordId (RecordId * RecordId)) : Prop :=
  E !! noRid = None /\ map_Forall (fun _ p => p.1 <> noRid /\ p.2 <> noRid) E.

(** C15. Breadth-first search along outgoing edges terminates within the given
    fuel and returns, without repetition, exactly the vertices whose distance
    from the source in the map of edges lies between the depth bounds, each
    with its distance. *)
Theorem bfs_on_graph s g t records E d l minDepth maxDepth fuel :
  repr g t E -> ids_ok E -> rd_rid d <> noRid -> vvis g t (rd_rid d) l -> 1 + 2 * size E < fuel ->
  exists res,
    breadthFirstSearchRdesc s g t records fuel d minDepth maxDepth [] (getEdgeOut g t)
      (Some (getVertexDst g t)) noPathFilter = Ok res /\
    NoDup (rd_rid <$> res) /\
    forall x, x ∈ res <-> (x = d /\ minDepth = 0%Z) \/
      exists k, 0 < k /\ (minDepth <= Z.of_nat k <= maxDepth)%Z /\ rd_depth x = Z.of_nat k /\
        graph_dist E (rd_rid d) (rd_rid x) k.
Proof.
  intros Hr [HnE HnV] Hd Hl Hf.
  pose proof (out_neighbourhood s g t records E Hr (rd_rid d) l Hl HnE (conj Hd HnV)) as Hnb.
  pose proof (size_vertexIds E (rd_rid d)) as Hsize.
  destruct (bfs_exact (Hnb := Hnb) minDepth maxDepth fuel d) as (res & Hrun & Hnd & Hres).
  - apply elem_of_vertexIds. by left.
  - lia.
  - by eapply vvis_exists.
  - exists res. split_and!; [done|done|]. intros x. rewrite Hres. by setoid_rewrite (dist_graph g t E Hr (rd_rid d)).
Qed.

(** C16. The shortest path: when the target can be reached along outgoing edges,
    the result is a path of the map of edges from the source to the target
    whose number of edges is the distance, its depths counting from zero;
    when it cannot, the result is empty. *)
Theorem shortest_path_on_graph s g t records E src dst l l' fuel :
  repr g t E -> ids_ok E -> rd_rid src <> noRid -> vvis g t (rd_rid src) l -> vvis g t (rd_rid dst) l' ->
  rd_rid src <> rd_rid dst -> 1 + 2 * size E < fuel ->
  exists res, bfsShortestPathRdesc s g t records fuel src dst [] noPathFilter = Ok res /\
    ((exists k, graph_dist E (rd_rid src) (rd_rid dst) k /\ length res = S k /\
        rd_rid <$> head res = Some (rd_rid src) /\ rd_rid <$> last res = Some (rd_rid dst) /\
        (forall i a b, res !! i = Some a -> res !! S i = Some b -> edge_rel E (rd_rid a) (rd_rid b)) /\
        rd_depth <$> res = Z.of_nat <$> seq 0 (S k)) \/
     (res = [] /\ forall k, ~ graph_dist E (rd_rid src) (rd_rid dst) k)).
Proof.
  intros Hr [HnE HnV] Hd Hl Hl' Hne Hf.
  pose proof (out_neighbourhood s g t records E Hr (rd_rid src) l Hl HnE (conj Hd HnV)) as Hnb.
  pose proof (size_vertexIds E (rd_rid src)) as Hsize.
  destruct (shortest_path_exact s g t records [] (outNeighbours g t) (vertexIds E (rd_rid src)) fuel src dst)
    as (res & Hrun & Hres).
  - apply elem_of_vertexIds. by left.
  - lia.
  - by eapply vvis_exists.
  - by eapply vvis_exists.
  - done.
  - exists res. split; [done|]. destruct Hres as [(k & Hk & (Hlen & Hhd & Hlast & Hw) & Hdep)|[-> Hno]]; [left|right].
    + exists k. rewrite length_fmap in Hlen. rewrite fmap_last in Hlast.
      assert (rd_rid <$> head res = Some (rd_rid src)) as Hhd' by (by destruct res). clear Hhd.
      split_and!; try done; [by apply (dist_graph g t E Hr)|].
      intros i a b Ha Hb. apply (outNeighbours_spec g t E Hr). apply (Hw i); rewrite list_lookup_fmap; by rewrite ?Ha, ?Hb.
    + split; [done|]. intros k Hk. by apply (Hno k), (dist_graph g t E Hr).
Qed.
