(* ===== verification/OutEdges.v ===== *)
(** * The outgoing edges a search follows

    The interface [OutEdges] between the graph and the searches that follow
    outgoing edges of given classes: the edges of a vertex are listed, each
    once, and the ends of an edge can be read.  The graph implements it for
    every map of edges it represents ([graph_out_edges]). *)

From stdpp Require Import base gmap sets list sorting relations fin_sets.
From Stdlib Require Import ZArith Lia.
From S2P Require Import Prelude Types TxnData Graph GraphSpec GraphQuery Schema Generic Algorithm AlgorithmSpec GraphSearch.

Abbreviation EdgeMap := (gmap RecordId (RecordId * RecordId)).

(** What the loop needs: the outgoing edges of a vertex, each once, and the
    ends of an edge. *)
Class OutEdges (s : Schema) (g : Graph) (t : BaseTxn) (records : ClassId -> list (PositionId * list byte))
    (ids : list ClassId) (E : EdgeMap) (outs : RecordId -> list RecordId) (V : gset RecordId) : Prop := {
  oe_list v : v ∈ V -> getIncidentEdges s t records (getEdgeOut g t) v noPathFilter ids = Ok (rdescOf <$> outs v);
  oe_spec v e : v ∈ V -> e ∈ outs v <-> exists w, E !! e = Some (v, w);
  oe_nodup v : v ∈ V -> NoDup (outs v);
  oe_src e u w : E !! e = Some (u, w) -> getVertexSrc g t e = Ok u;
  oe_dst e u w : E !! e = Some (u, w) -> getVertexDst g t e = Ok w;
  oe_closed e u w : E !! e = Some (u, w) -> u ∈ V /\ w ∈ V;
  oe_null : noRid ∉ V;
}.

(** The edges that leave the vertices outside [S]: the measure of the
    searches, which scan the edges of a vertex once. *)
Definition unexpanded (E : EdgeMap) (S : list RecordId) : gset RecordId := dom (filter (fun p => p.2.1 ∉ S) E).

Lemma unexpanded_nil (E : EdgeMap) : size (unexpanded E []) <= size E.
Proof. unfold unexpanded. rewrite size_dom. apply map_subseteq_size, map_filter_subseteq. Qed.

Section unexpanded.
  Context {s : Schema} {g : Graph} {t : BaseTxn} {records : ClassId -> list (PositionId * list byte)}.
  Context {ids : list ClassId} {E : EdgeMap} {outs : RecordId -> list RecordId} {V : gset RecordId}.
  Context `{Hoe : !OutEdges s g t records ids E outs V}.

Lemma unexpanded_cons S v :
  v ∈ V -> v ∉ S -> size (unexpanded E (v :: S)) + length (outs v) = size (unexpanded E S).
Proof.
  intros HV Hv. rewrite <- (size_list_to_set (C := gset RecordId) (outs v)) by (by apply oe_nodup).
  rewrite <- size_union.
  - f_equal. apply set_eq. intros e. rewrite elem_of_union, elem_of_list_to_set, (oe_spec v e HV).
    unfold unexpanded. rewrite !elem_of_dom. unfold is_Some. setoid_rewrite map_lookup_filter_Some. split.
    + intros [([a b] & He & Hn)|[w He]]; [|by exists (v, w)]. exists (a, b). simpl in *. set_solver.
    + intros ([a b] & He & Hn). simpl in *. destruct (decide (a = v)) as [->|Hne]; [right; by eexists|left].
      exists (a, b). simpl. set_solver.
  - intros e. rewrite elem_of_list_to_set, (oe_spec v e HV). unfold unexpanded. rewrite elem_of_dom. unfold is_Some.
    setoid_rewrite map_lookup_filter_Some. intros ([a b] & He & Hn) [w He']. simplify_eq/=. set_solver.
Qed.

End unexpanded.

(** ** On the graph *)

(** The edges of the given classes; no class means every class. *)
Definition in_classes (ids : list ClassId) (e : RecordId) : Prop := ids = [] \/ e.1 ∈ ids.
#[export] Instance in_classes_dec ids e : Decision (in_classes ids e).
Proof. unfold in_classes. apply _. Defined.

Definition restrict (ids : list ClassId) (E : EdgeMap) : EdgeMap := filter (fun p => in_classes ids p.1) E.

Lemma restrict_size ids E : size (restrict ids E) <= size E.
Proof. apply map_subseteq_size, map_filter_subseteq. Qed.

Definition classes_ok (ids : list ClassId) : Prop := NoDup ids /\ 0%Z ∉ ids.

Section graph.
  Context (s : Schema) (g : Graph) (t : BaseTxn) (records : ClassId -> list (PositionId * list byte)).
  Context (E : EdgeMap) (Hr : repr g t E) (ids : list ClassId) (Hids : classes_ok ids).

Definition edgesAt (v : RecordId) (c : ClassId) : list RecordId :=
  match getEdgeOut g t v c with Ok ks => ks | _ => [] end.

Definition classEdges (v : RecordId) : list RecordId :=
  match ids with [] => edgesAt v 0%Z | _ => ids ≫= edgesAt v end.

Lemma edgesAt_spec v l c :
  vvis g t v l ->
  getEdgeOut g t v c = Ok (edgesAt v c) /\ NoDup (edgesAt v c) /\
  forall e, e ∈ edgesAt v c <-> (exists w, E !! e = Some (v, w)) /\ (c = 0%Z \/ e.1 = c).
Proof.
  intros Hl. destruct (proj2 (adjacency_spec g t E v c Hr) l Hl) as (_ & outs & _ & Hout & _ & Hnd & _ & Hin).
  unfold edgesAt. rewrite Hout. split_and!; [done|done|]. intros e. rewrite Hin. unfold incident_in. simpl.
  split; intros [He Hc]; (split; [|done]).
  - destruct He as ([a b] & He & <-). by eexists.
  - destruct He as [w He]. by eexists.
Qed.

Lemma classEdges_list v l :
  vvis g t v l -> E !! noRid = None ->
  getIncidentEdges s t records (getEdgeOut g t) v noPathFilter ids = Ok (rdescOf <$> classEdges v).
Proof.
  intros Hl Hnull.
  assert (forall c res, keepEdges s t records noPathFilter res (edgesAt v c) = Ok (res ++ (rdescOf <$> edgesAt v c))) as Hkeep.
  { intros c res. apply keepEdges_all. apply Forall_forall. intros e He.
    destruct (edgesAt_spec v l c Hl) as (_ & _ & Hin). apply Hin in He as [[w He] _]. congruence. }
  assert (forall cs res, ofold (fun res c => let* es := getEdgeOut g t v c in keepEdges s t records noPathFilter res es) cs res
            = Ok (res ++ (rdescOf <$> (cs ≫= edgesAt v)))) as Hfold.
  { induction cs as [|c cs IH]; intros res; cbn [ofold]; [by rewrite app_nil_r|].
    destruct (edgesAt_spec v l c Hl) as (-> & _ & _). cbn [obind]. rewrite Hkeep. cbn [obind].
    by rewrite IH, bind_cons, fmap_app, app_assoc. }
  unfold getIncidentEdges, classEdges. destruct ids as [|c cs]; [|apply (Hfold (c :: cs) [])].
  destruct (edgesAt_spec v l 0%Z Hl) as (-> & _ & _). cbn [obind]. apply (Hkeep 0%Z []).
Qed.

Lemma classEdges_spec v l :
  vvis g t v l -> NoDup (classEdges v) /\ forall e, e ∈ classEdges v <-> exists w, restrict ids E !! e = Some (v, w).
Proof.
  intros Hl. pose proof (fun c => edgesAt_spec v l c Hl) as Hspec. unfold classEdges, restrict, in_classes.
  setoid_rewrite map_lookup_filter_Some. cbn [fst].
  destruct ids as [|c0 cs] eqn:Hi.
  { destruct (Hspec 0%Z) as (_ & Hnd & Hin). split; [done|]. intros e. rewrite Hin. naive_solver. }
  rewrite <- Hi in *. destruct Hids as [Hnd H0]. split.
  - clear -Hnd H0 Hspec. induction Hnd as [|c cs Hc Hnd IH]; [constructor|]. rewrite bind_cons.
    apply NoDup_app. split_and!; [apply Hspec| |apply IH; set_solver].
    intros e He Hin. apply list_elem_of_bind in Hin as (c' & He' & Hc').
    apply Hspec in He as [_ [->|<-]]; [set_solver|]. apply Hspec in He' as [_ [->|<-]]; set_solver.
  - intros e. rewrite list_elem_of_bind. split.
    + intros (c & He & Hc). apply Hspec in He as [[w He] [->|<-]]; [done|]. exists w. split; [done|by right].
    + intros (w & He & [?|Hc]); [congruence|]. exists e.1. split; [|done]. apply Hspec. split; [by eexists|by right].
Qed.

Lemma graph_out_edges source l0 :
  vvis g t source l0 -> source <> noRid -> ids_ok E ->
  OutEdges s g t records ids (restrict ids E) classEdges (vertexIds E source).
Proof.
  intros Hsrc Hnull [HE0 HEn].
  assert (forall v, v ∈ vertexIds E source -> exists l, vvis g t v l) as Hvis.
  { intros v [->|(k & u & w & HE & [->| ->])]%elem_of_vertexIds; [by exists l0|..];
      destruct (end_visible g t E Hr _ _ _ HE); done. }
  assert (forall e u w, restrict ids E !! e = Some (u, w) -> E !! e = Some (u, w)) as Hsub
    by (intros e u w; by intros [? _]%map_lookup_filter_Some).
  split.
  - intros v [l Hl]%Hvis. by eapply classEdges_list.
  - intros v e [l Hl]%Hvis. by apply (classEdges_spec v l).
  - intros v [l Hl]%Hvis. by apply (classEdges_spec v l).
  - intros e u w HE%Hsub. destruct (endpoints_spec g t E e Hr) as (_ & Hs & _). by rewrite Hs, HE.
  - intros e u w HE%Hsub. destruct (endpoints_spec g t E e Hr) as (_ & _ & Hd). by rewrite Hd, HE.
  - intros e u w HE%Hsub. rewrite !elem_of_vertexIds. split; right; exists e, u, w; auto.
  - intros [Heq|(k & u & w & HE & Hk)]%elem_of_vertexIds; [done|].
    destruct (HEn k _ HE) as [H1 H2]. simpl in *. by destruct Hk.
Qed.
End graph.

