(* ===== verification/DfsSpec.v ===== *)
(** * Correctness of the depth-first search

    The loop of [depthFirstSearchRdesc] (Algorithm) over a map of edges: every
    vertex it reports is reached by a walk of the reported length, no vertex is
    reported twice, and when the depth bound is no smaller than the number of
    vertices every reachable vertex is reported.  [S] is the list of visited
    vertices, the last one first. *)

From stdpp Require Import base gmap sets list sorting relations fin_sets.
From Stdlib Require Import ZArith Lia ZifyBool.
From S2P Require Import Prelude Types TxnData Graph GraphSpec GraphQuery Schema Generic Algorithm AlgorithmSpec GraphSearch OutEdges.

(** The number of entries on the stacks. *)
Definition entries (stk : list (list RecordId)) : nat := length (concat stk).

Lemma entries_insert stk i old new :
  stk !! i = Some old -> entries (<[i := new]> stk) + length old = entries stk + length new.
Proof.
  unfold entries. revert i. induction stk as [|x stk IH]; intros [|i] Hi; simplify_eq/=.
  - rewrite !length_app. lia.
  - rewrite !length_app. specialize (IH i Hi). lia.
Qed.

Lemma settle_spec stk : forall level,
  settle stk level <= level /\
  (forall i, settle stk level < i <= level -> stk !! i = Some []) /\
  (settle stk level = 0 \/ stk !! settle stk level <> Some []).
Proof.
  induction level as [|l IH]; cbn [settle]; [split_and!; [lia|lia|by left]|].
  destruct (stk !! Datatypes.S l) as [[|v stack]|] eqn:Hl.
  - destruct IH as (H1 & H2 & H3). split_and!; [lia| |done].
    intros i Hi. destruct (decide (i = Datatypes.S l)) as [->|]; [done|]. apply H2. lia.
  - split_and!; [lia|lia|right; by rewrite Hl].
  - split_and!; [lia|lia|right; by rewrite Hl].
Qed.

Section dfs.
  Context {s : Schema} {g : Graph} {t : BaseTxn} {records : ClassId -> list (PositionId * list byte)}.
  Context {ids : list ClassId} {E : EdgeMap} {outs : RecordId -> list RecordId} {V : gset RecordId}.
  Context `{Hoe : !OutEdges s g t records ids E outs V}.
  Context (src : RecordId) (HsrcV : src ∈ V) (minDepth maxDepth : Z).

Definition follow : option (RecordId -> Outcome RecordId) := Some (getVertexDst g t).

(** Some stack holds [v]. *)
Definition stacked (stk : list (list RecordId)) (v : RecordId) : Prop :=
  exists i stack, stk !! i = Some stack /\ v ∈ stack.

Record dfs_inv (S : list RecordId) (st : DfsState) : Prop := {
  df_visited : d_visited st = list_to_set S;
  df_nodup : NoDup S;
  df_V v : v ∈ S -> v ∈ V;
  df_level : d_level st < length (d_stk st);
  df_above i stack : d_level st < i -> d_stk st !! i = Some stack -> stack = [];
  df_stack i stack v : d_stk st !! i = Some stack -> v ∈ stack ->
    v ∈ V /\ nsteps (edge_rel E) i src v /\ (Z.of_nat i <= maxDepth)%Z;
  df_bound : d_level st <= length S;
  df_closed : (Z.of_nat (size V) <= maxDepth)%Z -> forall u e w,
    u ∈ S -> E !! e = Some (u, w) -> (w ∈ S) \/ stacked (d_stk st) w;
  df_src : (src ∈ S) \/ stacked (d_stk st) src;
  df_result : NoDup (rd_rid <$> d_result st);
  df_sound x : x ∈ d_result st -> rd_rid x ∈ S /\ exists k, rd_depth x = Z.of_nat k /\
    (minDepth <= Z.of_nat k <= maxDepth)%Z /\ nsteps (edge_rel E) k src (rd_rid x);
  df_all : minDepth = 0%Z -> forall v, v ∈ S -> v ∈ rd_rid <$> d_result st;
}.

(** The targets pushed for the edges of a vertex. *)
Lemma pushes v visited es : forall stack,
  Forall (fun e => exists w, E !! e = Some (v, w)) es ->
  exists ws, ofold (pushNext g t follow v visited) (rdescOf <$> es) stack = Ok (stack ++ ws) /\
    length ws <= length es /\
    (forall w, w ∈ ws -> (w ∉ visited) /\ exists e, E !! e = Some (v, w)) /\
    (forall e w, e ∈ es -> E !! e = Some (v, w) -> (w ∈ visited) \/ (w ∈ ws)).
Proof.
  induction es as [|e es IH]; intros stack Hes.
  { exists []. rewrite app_nil_r. split_and!; [done|lia| |]; intros *; rewrite elem_of_nil; done. }
  apply Forall_cons in Hes as [[w HE] Hes]. cbn [fmap list_fmap ofold].
  assert (pushNext g t follow v visited stack (rdescOf e) =
    Ok (if bool_decide (w ∈ visited) then stack else stack ++ [w])) as ->.
  { unfold pushNext, nextVertex, follow. cbn [rdescOf rd_rid]. by rewrite (oe_dst _ _ _ HE). }
  cbn [obind]. case_bool_decide as Hw.
  - destruct (IH stack Hes) as (ws & -> & Hlen & Hin & Hall). exists ws. split_and!; [done|simpl; lia|done|].
    intros e' w' [->|He']%elem_of_cons HE'; [left; congruence|by eapply Hall].
  - destruct (IH (stack ++ [w]) Hes) as (ws & -> & Hlen & Hin & Hall). exists (w :: ws).
    rewrite <- app_assoc. split_and!; [done|simpl; lia| |].
    + intros w' [->|Hw']%elem_of_cons; [split; [done|by eexists]|by apply Hin].
    + intros e' w' [->|He']%elem_of_cons HE'; [right; rewrite HE in HE'; simplify_eq; by left|].
      destruct (Hall e' w' He' HE'); [by left|right; by right].
Qed.

(** Taking the top of the current stack. *)
Definition popped (stack : list RecordId) (st : DfsState) : DfsState :=
  mkDfsState (d_result st) (d_visited st) (<[d_level st := stack]> (d_stk st)) (d_level st).

Lemma stacked_popped st stack v w :
  d_stk st !! d_level st = Some (stack ++ [v]) -> stacked (d_stk st) w ->
  w = v \/ stacked (d_stk (popped stack st)) w.
Proof.
  intros Hst (i & l & Hi & Hw). destruct (decide (i = d_level st)) as [->|Hne].
  - rewrite Hst in Hi. simplify_eq. apply elem_of_app in Hw as [Hw|Hw%list_elem_of_singleton]; [right|by left].
    exists (d_level st), stack. simpl. split; [|done]. apply list_lookup_insert_eq. by eapply lookup_lt_Some.
  - right. exists i, l. simpl. by rewrite list_lookup_insert_ne.
Qed.

Lemma popped_seen S st stack v :
  dfs_inv S st -> d_stk st !! d_level st = Some (stack ++ [v]) -> v ∈ S -> dfs_inv S (popped stack st).
Proof.
  intros Hd Hst Hv.
  assert (forall w, w ∈ S \/ stacked (d_stk st) w -> w ∈ S \/ stacked (d_stk (popped stack st)) w) as Hkeep.
  { intros w [?|Hw]; [by left|]. destruct (stacked_popped st stack v w Hst Hw) as [->|?]; [by left|by right]. }
  destruct Hd. split; simpl; try done.
  - by rewrite length_insert.
  - intros i l Hi. rewrite list_lookup_insert_ne by lia. by apply df_above0.
  - intros i l w. destruct (decide (i = d_level st)) as [->|Hne].
    + rewrite list_lookup_insert_eq by done. intros [= <-] Hw. eapply df_stack0; [done|]. set_solver.
    + rewrite list_lookup_insert_ne by done. apply df_stack0.
  - intros Hb u e w Hu HE. apply Hkeep. by eapply df_closed0.
  - by apply Hkeep.
Qed.

(** The result after visiting [v] at a level. *)
Definition report (v : RecordId) (level : nat) (res : list RecordDescriptor) : list RecordDescriptor :=
  if (minDepth <=? Z.of_nat level)%Z then res ++ [mkRecordDescriptor v (Z.of_nat level)] else res.

(** The stacks with an empty one at the next level. *)
Definition extended (level : nat) (stk : list (list RecordId)) : list (list RecordId) :=
  if bool_decide (level = length stk) then stk ++ [[]] else stk.

Lemma extended_lookup level stk i l :
  extended level stk !! i = Some l -> stk !! i = Some l \/ i = level /\ l = [].
Proof.
  unfold extended. case_bool_decide as Hl; [|by left]. intros [Hi|[Hi Hl']]%lookup_app_Some; [by left|right].
  apply list_lookup_singleton_Some in Hl' as [? <-]. split; [lia|done].
Qed.

Lemma extended_old level stk i l : stk !! i = Some l -> extended level stk !! i = Some l.
Proof. intros Hi. unfold extended. case_bool_decide; [by apply lookup_app_l_Some|done]. Qed.

Lemma extended_entries level stk : entries (extended level stk) = entries stk.
Proof. unfold extended, entries. case_bool_decide; [by rewrite concat_app, length_app, Nat.add_0_r|done]. Qed.

Lemma report_inv S st stack v :
  dfs_inv S st -> d_stk st !! d_level st = Some (stack ++ [v]) -> v ∉ S ->
  let res := report v (d_level st) (d_result st) in
  NoDup (rd_rid <$> res) /\
  (forall x, x ∈ res -> rd_rid x ∈ v :: S /\ exists k, rd_depth x = Z.of_nat k /\
    (minDepth <= Z.of_nat k <= maxDepth)%Z /\ nsteps (edge_rel E) k src (rd_rid x)) /\
  (minDepth = 0%Z -> forall w, w ∈ v :: S -> w ∈ rd_rid <$> res).
Proof.
  intros Hd Hst Hv res. destruct (df_stack _ _ Hd _ _ v Hst) as (HvV & Hwalk & Hmax); [set_solver|].
  unfold res, report. destruct (Z.leb_spec minDepth (Z.of_nat (d_level st))) as [Hmin|Hmin]; split_and!.
  - rewrite fmap_app. apply NoDup_app. split_and!; [by eapply df_result| |by apply NoDup_singleton].
    intros r Hr Hv'%list_elem_of_singleton. simpl in Hv'. subst r. apply list_elem_of_fmap in Hr as (x & -> & Hx).
    by destruct (df_sound _ _ Hd x Hx).
  - intros x [Hx|Hx%list_elem_of_singleton]%elem_of_app.
    + destruct (df_sound _ _ Hd x Hx) as [? ?]. split; [by right|done].
    + subst x. split; [by left|]. exists (d_level st). done.
  - intros H0 w Hw. rewrite fmap_app, elem_of_app. apply elem_of_cons in Hw as [->|Hw]; [right; by left|left].
    by eapply df_all.
  - by eapply df_result.
  - intros x Hx. destruct (df_sound _ _ Hd x Hx) as [? ?]. split; [by right|done].
  - lia.
Qed.

Lemma level_in_bounds S st stack v :
  dfs_inv S st -> d_stk st !! d_level st = Some (stack ++ [v]) -> v ∉ S -> d_level st < size V.
Proof.
  intros Hd Hst Hv. destruct (df_stack _ _ Hd _ _ v Hst) as (HvV & _); [set_solver|].
  assert (length (v :: S) <= size V); [|pose proof (df_bound _ _ Hd); simpl in *; lia].
  rewrite <- (size_list_to_set (C := gset RecordId) (v :: S)) by (constructor; [done|by eapply df_nodup]).
  apply subseteq_size. intros x. rewrite elem_of_list_to_set. intros [->|Hx]%elem_of_cons; [done|by eapply df_V].
Qed.

(** Visiting a vertex at the depth bound. *)
Lemma visit_leaf S st stack v :
  dfs_inv S st -> d_stk st !! d_level st = Some (stack ++ [v]) -> v ∉ S -> ~ (Z.of_nat (d_level st) < maxDepth)%Z ->
  dfs_inv (v :: S) (mkDfsState (report v (d_level st) (d_result st)) ({[v]} ∪ d_visited st)
                      (<[d_level st := stack]> (d_stk st)) (d_level st)).
Proof.
  intros Hd Hst Hv Hleaf. pose proof (report_inv S st stack v Hd Hst Hv) as (R1 & R2 & R3).
  pose proof (level_in_bounds S st stack v Hd Hst Hv) as Hlev.
  destruct (df_stack _ _ Hd _ _ v Hst) as (HvV & _); [set_solver|].
  destruct Hd. split; simpl; try done.
  - by rewrite df_visited0.
  - by constructor.
  - intros x [->|Hx]%elem_of_cons; [done|auto].
  - by rewrite length_insert.
  - intros i l Hi. rewrite list_lookup_insert_ne by lia. by apply df_above0.
  - intros i l w. destruct (decide (i = d_level st)) as [->|Hne].
    + rewrite list_lookup_insert_eq by done. intros [= <-] Hw. eapply df_stack0; [done|]. set_solver.
    + rewrite list_lookup_insert_ne by done. apply df_stack0.
  - lia.
  - lia.
  - destruct df_src0 as [?|Hs]; [left; by right|].
    destruct (stacked_popped st stack v src Hst Hs) as [->|?]; [left; by left|by right].
Qed.

(** Visiting a vertex above the depth bound: its unvisited targets are put on
    the next stack. *)
Lemma visit_inner S st stack v ws :
  dfs_inv S st -> d_stk st !! d_level st = Some (stack ++ [v]) -> v ∉ S -> (Z.of_nat (d_level st) < maxDepth)%Z ->
  (forall w, w ∈ ws -> (w ∉ {[v]} ∪ d_visited st) /\ exists e, E !! e = Some (v, w)) ->
  (forall e w, e ∈ outs v -> E !! e = Some (v, w) -> (w ∈ {[v]} ∪ d_visited st) \/ (w ∈ ws)) ->
  let level1 := Datatypes.S (d_level st) in
  dfs_inv (v :: S) (mkDfsState (report v (d_level st) (d_result st)) ({[v]} ∪ d_visited st)
                      (<[level1 := ws]> (extended level1 (<[d_level st := stack]> (d_stk st)))) level1).
Proof.
  intros Hd Hst Hv Hinner Hws Hall level1. pose proof (report_inv S st stack v Hd Hst Hv) as (R1 & R2 & R3).
  destruct (df_stack _ _ Hd _ _ v Hst) as (HvV & Hwalk & _); [set_solver|].
  set (stk0 := <[d_level st := stack]> (d_stk st)). set (stk1 := extended level1 stk0).
  assert (length stk0 = length (d_stk st)) as Hlen0 by (unfold stk0; by rewrite length_insert).
  assert (level1 < length stk1) as Hlev1.
  { unfold stk1, extended. case_bool_decide as Heq; [rewrite length_app; simpl; lia|].
    pose proof (df_level _ _ Hd). unfold level1 in *. lia. }
  assert (forall i l, stk1 !! i = Some l -> i <> level1 -> stk0 !! i = Some l) as Hold.
  { intros i l Hi Hne. by destruct (extended_lookup _ _ _ _ Hi) as [?|[? _]]. }
  assert (forall w, stacked stk0 w -> stacked (<[level1 := ws]> stk1) w) as Hkeep.
  { intros w (i & l & Hi & Hw). exists i, l. destruct (decide (i = level1)) as [->|Hne].
    - unfold stk0 in Hi. rewrite list_lookup_insert_ne in Hi by (unfold level1; lia).
      rewrite (df_above _ _ Hd level1 l) in Hw; [by apply elem_of_nil in Hw|unfold level1; lia|done].
    - rewrite list_lookup_insert_ne by done. split; [by apply extended_old|done]. }
  assert (forall w, stacked (d_stk st) w -> w = v \/ stacked (<[level1 := ws]> stk1) w) as Hkeep'.
  { intros w Hw. destruct (stacked_popped st stack v w Hst Hw) as [?|Hs]; [by left|right]. by apply Hkeep. }
  destruct Hd. split; simpl; try done.
  - by rewrite df_visited0.
  - by constructor.
  - intros x [->|Hx]%elem_of_cons; [done|auto].
  - by rewrite length_insert.
  - intros i l Hi. rewrite list_lookup_insert_ne by lia. intros Hl. apply Hold in Hl; [|lia].
    unfold stk0 in Hl. rewrite list_lookup_insert_ne in Hl by (unfold level1 in Hi; lia).
    apply (df_above0 i); [unfold level1 in Hi; lia|done].
  - intros i l w. destruct (decide (i = level1)) as [->|Hne].
    + rewrite list_lookup_insert_eq by done. intros [= <-] Hw. destruct (Hws w Hw) as [_ [e HE]].
      split_and!; [by apply (oe_closed e v w)| |unfold level1; lia].
      eapply nsteps_r; [done|]. by exists e.
    + rewrite list_lookup_insert_ne by done. intros Hl%Hold; [|done]. unfold stk0 in Hl.
      destruct (decide (i = d_level st)) as [->|Hne'].
      * rewrite list_lookup_insert_eq in Hl by done. simplify_eq. intros Hw. eapply df_stack0; [done|]. set_solver.
      * rewrite list_lookup_insert_ne in Hl by done. by apply df_stack0.
  - unfold level1. lia.
  - intros Hb u e w [->|Hu]%elem_of_cons HE.
    + destruct (Hall e w) as [Hw|Hw]; [apply oe_spec; [done|by eexists]|done| |].
      * left. rewrite df_visited0 in Hw. set_solver.
      * right. exists level1, ws. by rewrite list_lookup_insert_eq.
    + destruct (df_closed0 Hb u e w Hu HE) as [?|Hs]; [left; by right|].
      destruct (Hkeep' w Hs) as [->|?]; [left; by left|by right].
  - destruct df_src0 as [?|Hs]; [left; by right|]. destruct (Hkeep' src Hs) as [->|?]; [left; by left|by right].
Qed.

(** ** The loop *)
Definition settled (st : DfsState) : DfsState :=
  mkDfsState (d_result st) (d_visited st) (d_stk st) (settle (d_stk st) (d_level st)).

(** The current stack is empty only at the bottom. *)
Definition live (st : DfsState) : Prop := d_level st = 0 \/ d_stk st !! d_level st <> Some [].

Lemma settled_inv S st : dfs_inv S st -> dfs_inv S (settled st) /\ live (settled st).
Proof.
  intros Hd. destruct (settle_spec (d_stk st) (d_level st)) as (Hle & Hempty & Hlive). split; [|exact Hlive].
  destruct Hd. split; simpl; try done.
  - lia.
  - intros i stack Hi Hl. destruct (decide (i <= d_level st)); [|apply (df_above0 i); [lia|done]].
    rewrite Hempty in Hl by lia. by injection Hl.
  - lia.
Qed.

(** One iteration keeps the invariant and uses up an entry or the edges of a
    new vertex. *)
Lemma dfs_step S st stack v :
  dfs_inv S st -> d_stk st !! d_level st = Some (stack ++ [v]) ->
  exists S' st', dfsVertex s g t records (getEdgeOut g t) follow ids minDepth maxDepth noPathFilter v (popped stack st) = Ok st' /\
    dfs_inv S' st' /\ entries (d_stk st') + size (unexpanded E S') < entries (d_stk st) + size (unexpanded E S).
Proof.
  intros Hd Hst. pose proof (entries_insert _ _ _ stack Hst) as Hent. rewrite length_app in Hent. simpl in Hent.
  destruct (df_stack _ _ Hd _ _ v Hst) as (HvV & _); [set_solver|].
  assert (v ∈ d_visited st <-> v ∈ S) as Hvis by (by rewrite (df_visited _ _ Hd), elem_of_list_to_set).
  unfold dfsVertex. cbn [popped d_visited d_level d_result d_stk]. case_bool_decide as Hv.
  { exists S, (popped stack st). split_and!; [done|eapply popped_seen; [done..|by apply Hvis]|]. simpl. lia. }
  assert (v ∉ S) as HvS by (by rewrite <- Hvis).
  pose proof (unexpanded_cons S v HvV HvS) as Hunexp.
  assert ((if (minDepth <=? Z.of_nat (d_level st))%Z
           then let* d := Ok (rdescOf v) in
                Ok (if isNoRdesc d then d_result st
                    else d_result st ++ [mkRecordDescriptor (rd_rid d) (Z.of_nat (d_level st))])
           else Ok (d_result st)) = Ok (report v (d_level st) (d_result st))) as Hres.
  { unfold report. destruct (_ <=? _)%Z; [|done]. cbn [obind].
    assert (isNoRdesc (rdescOf v) = false) as ->; [|done].
    apply bool_decide_eq_false. intros Heq. apply (oe_null (V := V)). by assert (v = noRid) as <- by done. }
  cbn [isEnable isSetVertex isSetEdge vertexFilter edgeFilter noPathFilter orb]. rewrite Hres. cbn [obind].
  destruct (Z.ltb_spec (Z.of_nat (d_level st)) maxDepth) as [Hlt|Hge].
  - rewrite (oe_list v HvV). cbn [obind]. rewrite <- fmap_reverse.
    change (if bool_decide (Datatypes.S (d_level st) = length (<[d_level st:=stack]> (d_stk st))) then _ else _)
      with (extended (Datatypes.S (d_level st)) (<[d_level st:=stack]> (d_stk st))).
    set (stk1 := extended _ _).
    destruct (pushes v ({[v]} ∪ d_visited st) (reverse (outs v)) []) as (ws & Hrun & Hlen & Hin & Hall).
    { apply Forall_forall. intros e. rewrite elem_of_reverse. by apply oe_spec. }
    assert (stk1 !! Datatypes.S (d_level st) = Some []) as Hnext.
    { assert (Datatypes.S (d_level st) < length stk1) as [l Hl]%lookup_lt_is_Some_2.
      { unfold stk1, extended. pose proof (df_level _ _ Hd). case_bool_decide; rewrite ?length_app, length_insert in *; simpl; lia. }
      rewrite Hl. destruct (extended_lookup _ _ _ _ Hl) as [Hl'|[_ ->]]; [|done].
      rewrite list_lookup_insert_ne in Hl' by lia. f_equal. eapply (df_above _ _ Hd); [|done]. lia. }
    rewrite Hnext. cbn [from_option id]. rewrite Hrun. cbn [obind app].
    eexists (v :: S), _. split_and!; [reflexivity| |].
    + eapply visit_inner; try done. intros e w He. apply Hall. by rewrite elem_of_reverse.
    + cbn [d_stk]. pose proof (entries_insert _ _ _ ws Hnext) as Hent'. unfold stk1 in *. rewrite extended_entries in Hent'.
      rewrite length_reverse in Hlen. simpl in Hent'. lia.
  - eexists (v :: S), _. split_and!; [reflexivity|by apply visit_leaf; [..|lia]|]. simpl. lia.
Qed.

Lemma dfsLoop_correct fuel : forall S st,
  dfs_inv S st -> live st -> entries (d_stk st) + size (unexpanded E S) <= fuel ->
  exists S' st', dfsLoop s g t records fuel (getEdgeOut g t) follow ids minDepth maxDepth noPathFilter st = Ok (d_result st') /\
    dfs_inv S' st' /\ forall w, ~ stacked (d_stk st') w.
Proof.
  induction fuel as [|fuel IH]; intros S st Hd Hlive Hf; cbn [dfsLoop];
    (destruct (lookup_lt_is_Some_2 (d_stk st) (d_level st)) as [stack Hst]; [by eapply df_level|]); rewrite Hst;
    (destruct stack as [|v stack0 _] using rev_ind; [|rewrite last_snoc]).
  1,3: exists S, st; split_and!; [done|done|]; intros w (i & l & Hi & Hw);
    destruct Hlive as [H0|]; [|congruence];
    assert (l = []) as -> by (destruct i as [|i]; [rewrite H0 in Hst; congruence|apply (df_above _ _ Hd (Datatypes.S i)); [lia|done]]);
    by apply elem_of_nil in Hw.
  - pose proof (entries_insert _ _ _ [] Hst) as He. rewrite length_app in He. simpl in He. lia.
  - destruct (dfs_step S st stack0 v Hd Hst) as (S' & st' & Hrun & Hd' & Hlt).
    assert (take (length (stack0 ++ [v]) - 1) (stack0 ++ [v]) = stack0) as ->.
    { rewrite length_app. simpl. by rewrite Nat.add_sub, take_app_length. }
    change (mkDfsState (d_result st) (d_visited st) (<[d_level st:=stack0]> (d_stk st)) (d_level st)) with (popped stack0 st).
    rewrite Hrun. cbn [obind]. destruct (settled_inv S' st' Hd') as [Hs Hl].
    apply (IH S' (settled st')); [done|done|]. simpl. lia.
Qed.

Lemma dfs_start : (0 <= maxDepth)%Z -> dfs_inv [] (mkDfsState [] ∅ [[src]] 0).
Proof.
  intros Hmax. split; simpl; try done.
  - constructor.
  - intros v Hv. by apply elem_of_nil in Hv.
  - lia.
  - intros [|i] stack Hi Hl; [lia|done].
  - intros [|i] stack v Hl; [|done]. simplify_eq/=. intros ->%list_elem_of_singleton. split_and!; [done|constructor|lia].
  - intros _ u e w Hu. by apply elem_of_nil in Hu.
  - right. exists 0, [src]. split; [done|by left].
  - constructor.
  - intros x Hx. by apply elem_of_nil in Hx.
Qed.
End dfs.

(** C18. Depth-first search along the outgoing edges of the given classes
    terminates; it reports no vertex twice, each at the length of a walk that
    leads to it and within the depth bounds; and from depth zero, when the
    upper bound is at least the number of vertices, it reports every vertex
    that can be reached. *)
Theorem dfs_on_graph s g t records E d ids l minDepth maxDepth fuel :
  repr g t E -> ids_ok E -> classes_ok ids -> rd_rid d <> noRid -> vvis g t (rd_rid d) l ->
  (0 <= maxDepth)%Z -> 1 + size E < fuel ->
  exists res,
    depthFirstSearchRdesc s g t records fuel d minDepth maxDepth ids (getEdgeOut g t)
      (Some (getVertexDst g t)) noPathFilter = Ok res /\
    NoDup (rd_rid <$> res) /\
    (forall x, x ∈ res -> exists k, rd_depth x = Z.of_nat k /\ (minDepth <= Z.of_nat k <= maxDepth)%Z /\
       nsteps (edge_rel (restrict ids E)) k (rd_rid d) (rd_rid x)) /\
    (minDepth = 0%Z -> (1 + 2 * Z.of_nat (size E) <= maxDepth)%Z ->
       forall v, rtc (edge_rel (restrict ids E)) (rd_rid d) v -> v ∈ rd_rid <$> res).
Proof.
  intros Hr Hok Hids Hnull Hl Hmax Hf.
  pose proof (graph_out_edges s g t records E Hr ids Hids (rd_rid d) l Hl Hnull Hok) as Hoe.
  assert (rd_rid d ∈ vertexIds E (rd_rid d)) as HsrcV by (apply elem_of_vertexIds; by left).
  unfold depthFirstSearchRdesc. rewrite (vvis_exists g t records E d l Hr Hl).
  destruct (dfsLoop_correct (rd_rid d) HsrcV minDepth maxDepth fuel [] _
              (dfs_start (V := vertexIds E (rd_rid d)) (rd_rid d) HsrcV minDepth maxDepth Hmax))
    as (S & st & Hrun & Hd & Hdone).
  { by left. }
  { pose proof (unexpanded_nil (restrict ids E)). pose proof (restrict_size ids E). simpl. lia. }
  unfold follow in Hrun. rewrite Hrun. exists (d_result st). split_and!; [done|by eapply df_result| |].
  - intros x Hx. by destruct (df_sound _ _ _ _ _ Hd x Hx).
  - intros H0 Hbig v Hv. eapply df_all; [done..|].
    assert (rd_rid d ∈ S) as HS by (by destruct (df_src _ _ _ _ _ Hd) as [?|[]%Hdone]).
    assert (Z.of_nat (size (vertexIds E (rd_rid d))) <= maxDepth)%Z as Hb.
    { pose proof (size_vertexIds E (rd_rid d)). lia. }
    revert v Hv. apply (rtc_ind_r (fun v => v ∈ S)); [done|]. intros v w _ [e HE] IH.
    by destruct (df_closed _ _ _ _ _ Hd Hb v e w IH HE) as [?|[]%Hdone].
Qed.
