(* ===== verification/Dijkstra.v ===== *)
(** * Weighted shortest paths

    Model of [Algorithm::dijkstraShortestPathRdesc] (src/src/algorithm.hpp), a
    template over the cost function and the type of costs, here instantiated
    with integers (the sums of the costs of a path are assumed to fit the
    machine type a caller chooses).  The heap is [std::priority_queue]: which
    of several minimal entries its [top] returns is not specified, so the
    choice is a parameter [heapTop] with the contract [HeapTop], and the
    theorem holds for every implementation of the contract. *)

From stdpp Require Import base gmap sets list sorting relations fin_sets.
From Stdlib Require Import ZArith Lia.
From S2P Require Import Prelude Types TxnData RecordModel Graph GraphSpec GraphQuery Schema Generic Algorithm AlgorithmSpec GraphSearch.

Abbreviation nodeInfo := (Z * RecordId)%type.

(** [top] and [pop] of the heap: some entry of minimal distance. *)
Class HeapTop (heapTop : list nodeInfo -> option (nodeInfo * list nodeInfo)) : Prop := {
  ht_empty : heapTop [] = None;
  ht_top h : h <> [] -> exists x h', heapTop h = Some (x, h') /\ Permutation h (x :: h') /\
    Forall (fun y => (x.1 <= y.1)%Z) h';
}.

Record DijkstraState := mkDijkstraState {
  k_parent : gmap RecordId RecordDescriptor;
  k_distance : gmap RecordId Z;
  k_heap : list nodeInfo;
}.

Section model.
  Context (s : Schema) (g : Graph) (t : BaseTxn).
  Context (records : ClassId -> list (PositionId * list byte)).
  Context (heapTop : list nodeInfo -> option (nodeInfo * list nodeInfo)).
  Context (costFunction : RecordDescriptor -> Z).

(** The body of the loop over the outgoing edges. *)
Definition relaxEdge (p : PathFilter) (dist : Z) (st : DijkstraState) (edge : RecordDescriptor) :
    Outcome DijkstraState :=
  let* nextVertex := getVertexDst g t (rd_rid edge) in
  let* d := filteredRdesc s t records nextVertex p VERTEX in
  if isNoRdesc d then Ok st
  else
    let nextDist := (dist + costFunction edge)%Z in
    let shorter := match k_distance st !! nextVertex with
                   | None => true
                   | Some old => (nextDist <? old)%Z
                   end in
    Ok (if shorter
        then mkDijkstraState (<[nextVertex := edge]> (k_parent st)) (<[nextVertex := nextDist]> (k_distance st))
               (k_heap st ++ [(nextDist, nextVertex)])
        else st).

Fixpoint dijkstraLoop (fuel : nat) (edgeClassIds : list ClassId) (p : PathFilter) (dstId : RecordId)
    (st : DijkstraState) : Outcome DijkstraState :=
  match heapTop (k_heap st) with
  | None => Ok st
  | Some ((dist, vertex), heap) =>
      match fuel with
      | O => UB
      | S f =>
          let st1 := mkDijkstraState (k_parent st) (k_distance st) heap in
          if bool_decide (vertex = dstId) then Ok st1
          else
            match k_distance st !! vertex with
            | None => Throw STD_OUT_OF_RANGE
            | Some best =>
                if (best <? dist)%Z then dijkstraLoop f edgeClassIds p dstId st1
                else
                  let* edges := getIncidentEdges s t records (getEdgeOut g t) vertex p edgeClassIds in
                  let* st2 := ofold (relaxEdge p dist) edges st1 in
                  dijkstraLoop f edgeClassIds p dstId st2
            end
      end
  end.

(** From the target back to the source over the recorded edges. *)
Fixpoint tracePath (fuel : nat) (parent : gmap RecordId RecordDescriptor) (srcId vertex : RecordId)
    (result : list RecordDescriptor) : Outcome (list RecordDescriptor) :=
  if bool_decide (vertex = srcId) then Ok result
  else
    match fuel with
    | O => UB
    | S f =>
        match parent !! vertex with
        | None => Throw STD_OUT_OF_RANGE
        | Some e =>
            let* u := getVertexSrc g t (rd_rid e) in
            tracePath f parent srcId u (result ++ [rdescOf u])
        end
    end.

Definition dijkstraShortestPathRdesc (fuel : nat) (src dst : RecordDescriptor) (edgeClassIds : list ClassId)
    (p : PathFilter) : Outcome (Z * list RecordDescriptor) :=
  match checkIfRecordExist g t records src, checkIfRecordExist g t records dst with
  | RECORD_NOT_EXIST, _ => Throw NOGDB_GRAPH_NOEXST_SRC
  | _, RECORD_NOT_EXIST => Throw NOGDB_GRAPH_NOEXST_DST
  | RECORD_EXIST, RECORD_EXIST =>
      let srcId := rd_rid src in
      let dstId := rd_rid dst in
      let* st := dijkstraLoop fuel edgeClassIds p dstId (mkDijkstraState ∅ {[srcId := 0%Z]} [(0%Z, srcId)]) in
      match k_distance st !! dstId with
      | None => Ok (0%Z, [])
      | Some d =>
          let* back := tracePath fuel (k_parent st) srcId dstId [rdescOf dstId] in
          Ok (d, numberDepths (reverse back))
      end
  | _, _ => Ok (0%Z, [])
  end.

(** The variant that reads the records; unlike the other searches it leaves
    the depth of the stored record. *)
Definition dijkstraShortestPath (fuel : nat) (src dst : RecordDescriptor) (edgeClassIds : list ClassId)
    (p : PathFilter) : Outcome (Z * list (RecordDescriptor * DbRecord)) :=
  let* (d, ds) := dijkstraShortestPathRdesc fuel src dst edgeClassIds p in
  let* rs := ofold (fun res x =>
               let* r := retrieveRecord s t records (rd_rid x) in Ok (res ++ [(x, r)])) ds [] in
  Ok (d, rs).
End model.

(** The implementation the samples use: the first minimal entry. *)
Fixpoint firstMin (h : list nodeInfo) : option (nodeInfo * list nodeInfo) :=
  match h with
  | [] => None
  | x :: h1 =>
      match firstMin h1 with
      | None => Some (x, [])
      | Some (y, h2) => if (x.1 <=? y.1)%Z then Some (x, h1) else Some (y, x :: h2)
      end
  end.

Lemma firstMin_spec h : h <> [] -> exists x h', firstMin h = Some (x, h') /\ Permutation h (x :: h') /\
  Forall (fun y => (x.1 <= y.1)%Z) h'.
Proof.
  induction h as [|x h IH]; [done|]. intros _. simpl. destruct h as [|z h].
  { by exists x, []. }
  destruct IH as (y & h2 & -> & Hp & Hmin); [done|].
  assert (Forall (fun w => (y.1 <= w.1)%Z) (z :: h)) as Hall by (rewrite Hp; by constructor).
  destruct (Z.leb_spec x.1 y.1) as [Hle|Hlt].
  - exists x, (z :: h). split_and!; [done|done|]. eapply Forall_impl; [exact Hall|]. simpl. intros; lia.
  - exists y, (x :: h2). split_and!; [done| |].
    + rewrite Hp. by constructor.
    + constructor; [lia|done].
Qed.

#[export] Instance firstMin_top : HeapTop firstMin.
Proof. split; [done|apply firstMin_spec]. Qed.
