(* ===== verification/DijkstraSpec.v ===== *)
(** * Correctness of the weighted shortest path

    The invariant of the loop of [Dijkstra] over a map of edges with
    non-negative costs: the vertices whose edges have been relaxed ([S], the
    last one first) are optimal, every other vertex that was reached is in the
    heap with its distance, and the parents lead back to the source through
    [S].  An interface, [OutEdges], says what the loop needs of the graph. *)

From stdpp Require Import base gmap sets list sorting relations fin_sets.
From Stdlib Require Import ZArith Lia.
From S2P Require Import Prelude Types TxnData Graph GraphSpec GraphQuery Schema Generic Algorithm AlgorithmSpec GraphSearch OutEdges Dijkstra.

(** ** Routes: walks with the sum of the costs of their edges *)
Inductive route (E : EdgeMap) (cost : RecordDescriptor -> Z) (source : RecordId) :
    list RecordId -> RecordId -> Z -> Prop :=
| route_source : route E cost source [source] source 0
| route_edge p u c e v : route E cost source p u c -> E !! e = Some (u, v) ->
    route E cost source (p ++ [v]) v (c + cost (rdescOf e)).

Section dijkstra.
  Context {s : Schema} {g : Graph} {t : BaseTxn} {records : ClassId -> list (PositionId * list byte)}.
  Context {ids : list ClassId} {E : EdgeMap} {outs : RecordId -> list RecordId} {V : gset RecordId}.
  Context `{Hoe : !OutEdges s g t records ids E outs V}.
  Context (heapTop : list nodeInfo -> option (nodeInfo * list nodeInfo)) `{Htop : !HeapTop heapTop}.
  Context (cost : RecordDescriptor -> Z).
  Context (Hcost : forall e sd, E !! e = Some sd -> (0 <= cost (rdescOf e))%Z).
  Context (src dst : RecordId) (HsrcV : src ∈ V).

(** Relaxing one edge to [w] at distance [d] of its source. *)
Definition relax (d : Z) (e w : RecordId) (st : DijkstraState) : DijkstraState :=
  let n := (d + cost (rdescOf e))%Z in
  if match k_distance st !! w with None => true | Some old => (n <? old)%Z end
  then mkDijkstraState (<[w := rdescOf e]> (k_parent st)) (<[w := n]> (k_distance st)) (k_heap st ++ [(n, w)])
  else st.

Lemma relaxEdge_pure d e u w st :
  E !! e = Some (u, w) ->
  relaxEdge s g t records cost noPathFilter d st (rdescOf e) = Ok (relax d e w st).
Proof.
  intros HE. unfold relaxEdge, relax. cbn [rdescOf rd_rid]. rewrite (oe_dst _ _ _ HE). cbn [obind].
  unfold filteredRdesc. cbn [isEnable isSetVertex isSetEdge vertexFilter edgeFilter noPathFilter orb obind].
  assert (isNoRdesc (rdescOf w) = false) as ->; [|by destruct (k_distance st !! w)].
  apply bool_decide_eq_false. intros Heq. apply (oe_null (V := V)). assert (w = noRid) as <- by done. by apply (oe_closed e u w).
Qed.

(** ** The invariant *)
Abbreviation dist st := (k_distance st).

(** The edge recorded for [v] comes from a vertex of [l]. *)
Definition via (st : DijkstraState) (v : RecordId) (l : list RecordId) : Prop :=
  exists e u, k_parent st !! v = Some (rdescOf e) /\ E !! e = Some (u, v) /\ u ∈ l.

Record dij (S todo : list RecordId) (st : DijkstraState) : Prop := {
  dj_src : dist st !! src = Some 0%Z;
  dj_dst : dst ∉ S;
  dj_nodup : NoDup S;
  dj_dom v : v ∈ S -> is_Some (dist st !! v);
  dj_V v d : dist st !! v = Some d -> v ∈ V;
  dj_sound v d : dist st !! v = Some d -> (0 <= d)%Z /\ (v = src \/
    exists e u du, k_parent st !! v = Some (rdescOf e) /\ E !! e = Some (u, v) /\ u ∈ S /\
      dist st !! u = Some du /\ d = (du + cost (rdescOf e))%Z);
  dj_pending v d : dist st !! v = Some d -> v ∈ S \/ (d, v) ∈ k_heap st;
  dj_heap d v : (d, v) ∈ k_heap st -> exists d', dist st !! v = Some d' /\ (d' <= d)%Z;
  dj_edges u du e w : u ∈ S -> dist st !! u = Some du -> E !! e = Some (u, w) ->
    e ∈ todo \/ exists dw, dist st !! w = Some dw /\ (dw <= du + cost (rdescOf e))%Z;
  dj_max u du d v : u ∈ S -> dist st !! u = Some du -> (d, v) ∈ k_heap st -> (du <= d)%Z;
  dj_order l1 v l2 : S = l1 ++ v :: l2 -> v = src \/ via st v l2;
}.

Lemma dij_start : dij [] [] (mkDijkstraState ∅ {[src := 0%Z]} [(0%Z, src)]).
Proof.
  split; simpl.
  - by rewrite lookup_singleton_eq.
  - apply not_elem_of_nil.
  - constructor.
  - intros v Hv. by apply elem_of_nil in Hv.
  - intros v d [<- <-]%lookup_singleton_Some. done.
  - intros v d [<- <-]%lookup_singleton_Some. split; [lia|by left].
  - intros v d [<- <-]%lookup_singleton_Some. right. by left.
  - intros d v [= -> ->]%list_elem_of_singleton. exists 0%Z. by rewrite lookup_singleton_eq.
  - intros u du e w Hu. by apply elem_of_nil in Hu.
  - intros u du d v Hu. by apply elem_of_nil in Hu.
  - intros l1 v l2 H. by destruct l1.
Qed.

Lemma shorter_cases st w n :
  (exists dw, dist st !! w = Some dw /\ (dw <= n)%Z) \/ (forall dw, dist st !! w = Some dw -> (n < dw)%Z).
Proof.
  destruct (dist st !! w) as [dw|] eqn:Hw; [|by right].
  destruct (Z.le_gt_cases dw n) as [Hle|Hgt]; [left; by exists dw|right]. intros ? [= <-]. lia.
Qed.

Lemma relax_improve d e w st :
  (forall dw, dist st !! w = Some dw -> (d + cost (rdescOf e) < dw)%Z) ->
  relax d e w st = mkDijkstraState (<[w := rdescOf e]> (k_parent st)) (<[w := (d + cost (rdescOf e))%Z]> (k_distance st))
                     (k_heap st ++ [((d + cost (rdescOf e))%Z, w)]).
Proof.
  intros Hnew. unfold relax. destruct (dist st !! w) as [dw|] eqn:Hw; [|done].
  by rewrite (proj2 (Z.ltb_lt _ _) (Hnew _ eq_refl)).
Qed.

(** An edge whose target is already as close changes nothing. *)
Lemma relax_noop d e w st dw :
  dist st !! w = Some dw -> (dw <= d + cost (rdescOf e))%Z -> relax d e w st = st.
Proof. intros Hw Hle. unfold relax. rewrite Hw. destruct (Z.ltb_spec (d + cost (rdescOf e)) dw); [lia|done]. Qed.

Lemma relax_dij S todo d e v w st :
  dij S (e :: todo) st -> E !! e = Some (v, w) -> v ∈ S -> dist st !! v = Some d ->
  (forall u du, u ∈ S -> dist st !! u = Some du -> (du <= d)%Z) ->
  dij S todo (relax d e w st) /\ (forall u, u ∈ S -> k_distance (relax d e w st) !! u = k_distance st !! u) /\
  length (k_heap (relax d e w st)) <= length (k_heap st) + 1.
Proof.
  intros Hd HE Hv Hdv Hmax. pose proof (Hcost e _ HE) as Hc.
  destruct (shorter_cases st w (d + cost (rdescOf e))) as [(dw & Hw & Hle)|Hnew].
  - rewrite (relax_noop _ _ _ _ dw) by done. split_and!; [|done|lia]. destruct Hd; split; try done.
    intros u du e' w' Hu Hdu HE'. destruct (dj_edges0 u du e' w' Hu Hdu HE') as [[->|?]%elem_of_cons|?]; auto.
    right. rewrite HE in HE'. simplify_eq. by exists dw.
  - rewrite (relax_improve _ _ _ _ Hnew).
    assert (w ∉ S) as HwS.
    { intros Hw. destruct (dj_dom _ _ _ Hd w Hw) as [dw Hdw]. pose proof (Hmax w dw Hw Hdw).
      pose proof (Hnew dw Hdw). lia. }
    assert (w <> src) as Hsrc by (intros ->; pose proof (Hnew _ (dj_src _ _ _ Hd));
      pose proof (proj1 (dj_sound _ _ _ Hd _ _ Hdv)); lia).
    assert (forall u, u ∈ S -> u <> w) as HSw by (intros u Hu ->; done).
    split; [|split; [|simpl; rewrite length_app; simpl; lia]].
    2: { intros u Hu. simpl. by rewrite lookup_insert_ne by (intros ->; by eapply HSw). }
    destruct Hd. split; simpl; try done.
    + by rewrite lookup_insert_ne.
    + intros u Hu. rewrite lookup_insert_ne by (intros ->; by eapply HSw). auto.
    + intros x dx [[<- <-]|[Hne Hx]]%lookup_insert_Some; [by apply (oe_closed e v w)|by eapply dj_V0].
    + intros x dx [[<- <-]|[Hne Hx]]%lookup_insert_Some.
      * pose proof (proj1 (dj_sound0 _ _ Hdv)). split; [lia|right]. exists e, v, d. rewrite lookup_insert_eq.
        rewrite lookup_insert_ne by (intros ->; by eapply HSw). done.
      * destruct (dj_sound0 x dx Hx) as [Hpos [->|(e' & u & du & Hp & HE' & Hu & Hdu & Heq)]]; (split; [done|]);
          [by left|right]. exists e', u, du. rewrite !lookup_insert_ne by (done || intros ->; by eapply HSw). done.
    + intros x dx [[<- <-]|[Hne Hx]]%lookup_insert_Some; [right; set_solver|].
      destruct (dj_pending0 x dx Hx); [by left|right; set_solver].
    + intros dx x [Hx|[= -> ->]%list_elem_of_singleton]%elem_of_app.
      * destruct (dj_heap0 dx x Hx) as (d' & Hd' & Hle). destruct (decide (x = w)) as [->|Hne].
        -- exists (d + cost (rdescOf e))%Z. rewrite lookup_insert_eq. split; [done|]. pose proof (Hnew d' Hd'). lia.
        -- exists d'. by rewrite lookup_insert_ne.
      * exists (d + cost (rdescOf e))%Z. by rewrite lookup_insert_eq.
    + intros u du e' w' Hu Hdu HE'. rewrite lookup_insert_ne in Hdu by (intros ->; by eapply HSw).
      destruct (decide (w' = w)) as [->|Hne].
      * rewrite lookup_insert_eq.
        destruct (dj_edges0 u du e' w Hu Hdu HE') as [[->|?]%elem_of_cons|(dw & Hdw & Hle)]; [right|by left|right].
        -- rewrite HE in HE'. simplify_eq. by eexists.
        -- eexists. split; [done|]. pose proof (Hnew dw Hdw). lia.
      * rewrite lookup_insert_ne by done.
        destruct (dj_edges0 u du e' w' Hu Hdu HE') as [[->|?]%elem_of_cons|?]; [congruence|by left|by right].
    + intros u du dx x Hu Hdu [Hx|[= -> ->]%list_elem_of_singleton]%elem_of_app;
        rewrite lookup_insert_ne in Hdu by (intros ->; by eapply HSw); [by eapply dj_max0|].
      pose proof (Hmax u du Hu Hdu). lia.
    + intros l1 x l2 HS. destruct (dj_order0 l1 x l2 HS) as [->|(e' & u & Hp & HE' & Hu)]; [by left|right].
      exists e', u. simpl. rewrite lookup_insert_ne; [done|]. intros ->. apply HwS. rewrite HS. set_solver.
Qed.

Lemma relax_loop S d v es : forall st,
  dij S es st -> v ∈ S -> dist st !! v = Some d ->
  (forall u du, u ∈ S -> dist st !! u = Some du -> (du <= d)%Z) ->
  Forall (fun e => exists w, E !! e = Some (v, w)) es ->
  exists st', ofold (relaxEdge s g t records cost noPathFilter d) (rdescOf <$> es) st = Ok st' /\ dij S [] st' /\
    length (k_heap st') <= length (k_heap st) + length es.
Proof.
  induction es as [|e es IH]; intros st Hd Hv Hdv Hmax Hes.
  { exists st. split_and!; [done|done|lia]. }
  apply Forall_cons in Hes as [[w HE] Hes]. cbn [fmap list_fmap ofold].
  rewrite (relaxEdge_pure d e v w st HE). cbn [obind].
  destruct (relax_dij S es d e v w st Hd HE Hv Hdv Hmax) as (Hd' & Hsame & Hlen).
  destruct (IH (relax d e w st) Hd' Hv) as (st' & Hrun & Hdij & Hlen').
  - by rewrite Hsame.
  - intros u du Hu. rewrite Hsame by done. by apply Hmax.
  - done.
  - exists st'. split_and!; [done|done|simpl; lia].
Qed.

(** ** One iteration *)
Definition setHeap (h : list nodeInfo) (st : DijkstraState) : DijkstraState :=
  mkDijkstraState (k_parent st) (k_distance st) h.

Lemma drop_stale S d v h st :
  dij S [] st -> Permutation (k_heap st) ((d, v) :: h) ->
  (v ∈ S \/ exists d', dist st !! v = Some d' /\ (d' < d)%Z) -> dij S [] (setHeap h st).
Proof.
  intros Hd Hp Hv. destruct Hd. split; simpl; try done.
  - intros x dx Hx. destruct (dj_pending0 x dx Hx) as [?|Hin]; [by left|]. rewrite Hp in Hin.
    apply elem_of_cons in Hin as [[= -> ->]|?]; [left|by right].
    destruct Hv as [?|(d' & Hd' & Hlt)]; [done|]. rewrite Hx in Hd'. simplify_eq. lia.
  - intros dx x Hx. apply dj_heap0. rewrite Hp. by right.
  - intros u du dx x Hu Hdu Hx. eapply dj_max0; [done..|]. rewrite Hp. by right.
Qed.

Lemma settle_vertex S d v h st :
  dij S [] st -> Permutation (k_heap st) ((d, v) :: h) -> Forall (fun y => (d <= y.1)%Z) h ->
  v ∉ S -> v <> dst -> dist st !! v = Some d -> dij (v :: S) (outs v) (setHeap h st).
Proof.
  intros Hd Hp Hmin Hv Hdst Hdv. destruct Hd. split; simpl; try done.
  - set_solver.
  - by constructor.
  - intros x [->|Hx]%elem_of_cons; [by eexists|auto].
  - intros x dx Hx. destruct (dj_sound0 x dx Hx) as [? [?|(e & u & du & ? & ? & ? & ? & ?)]]; (split; [done|]);
      [by left|right]. exists e, u, du. split_and!; try done. by right.
  - intros x dx Hx. destruct (dj_pending0 x dx Hx) as [?|Hin]; [left; by right|]. rewrite Hp in Hin.
    apply elem_of_cons in Hin as [[= -> ->]|?]; [left; by left|by right].
  - intros dx x Hx. apply dj_heap0. rewrite Hp. by right.
  - intros u du e w [->|Hu]%elem_of_cons Hdu HE.
    + left. apply oe_spec; [by eapply dj_V0|by eexists].
    + destruct (dj_edges0 u du e w Hu Hdu HE) as [Hin|?]; [by apply elem_of_nil in Hin|by right].
  - intros u du dx x [->|Hu]%elem_of_cons Hdu Hx.
    + rewrite Hdv in Hdu. simplify_eq. rewrite Forall_forall in Hmin. by apply (Hmin _ Hx).
    + eapply dj_max0; [done..|]. rewrite Hp. by right.
  - intros l1 x l2 HS. destruct l1 as [|y l1]; simpl in HS; injection HS as -> ->; [|by eapply dj_order0].
    destruct (dj_sound0 x d Hdv) as [_ [?|(e & u & du & ? & ? & ? & ? & ?)]]; [by left|right]. by exists e, u.
Qed.

(** Every route either ends at a settled vertex, at a cost its distance does
    not exceed, or costs at least any bound below the heap. *)
Lemma frontier S st b p x k :
  dij S [] st -> (forall d v, (d, v) ∈ k_heap st -> (b <= d)%Z) -> route E cost src p x k ->
  (x ∈ S /\ exists dx, dist st !! x = Some dx /\ (dx <= k)%Z) \/ (b <= k)%Z.
Proof.
  intros Hd Hb. induction 1 as [|p u c e v Hp IH HE].
  - destruct (dj_pending _ _ _ Hd src 0%Z (dj_src _ _ _ Hd)) as [?|Hin]; [left|right; by eapply Hb].
    split; [done|]. exists 0%Z. by rewrite (dj_src _ _ _ Hd).
  - pose proof (Hcost e _ HE) as Hc. destruct IH as [[Hu (du & Hdu & Hle)]|Hle]; [|right; lia].
    destruct (dj_edges _ _ _ Hd u du e v Hu Hdu HE) as [Hin|(dv & Hdv & Hle')]; [by apply elem_of_nil in Hin|].
    destruct (dj_pending _ _ _ Hd v dv Hdv) as [?|Hin]; [left|right; pose proof (Hb _ _ Hin); lia].
    split; [done|]. exists dv. split; [done|lia].
Qed.

(** Scanning a settled vertex once more changes nothing. *)
Lemma relax_settled S d v h st es :
  dij S [] st -> v ∈ S -> dist st !! v = Some d -> Forall (fun e => exists w, E !! e = Some (v, w)) es ->
  ofold (relaxEdge s g t records cost noPathFilter d) (rdescOf <$> es) (setHeap h st) = Ok (setHeap h st).
Proof.
  intros Hd Hv Hdv. induction 1 as [|e es [w HE] Hes IH]; [done|]. cbn [fmap list_fmap ofold].
  rewrite (relaxEdge_pure d e v w _ HE). cbn [obind].
  destruct (dj_edges _ _ _ Hd v d e w Hv Hdv HE) as [Hin|(dw & Hdw & Hle)]; [by apply elem_of_nil in Hin|].
  by rewrite (relax_noop d e w _ dw).
Qed.

(** ** The loop *)
Definition finished (st : DijkstraState) : Prop :=
  exists S h, dij S [] (setHeap h st) /\
    match dist st !! dst with
    | Some d => forall p k, route E cost src p dst k -> (d <= k)%Z
    | None => forall p k, ~ route E cost src p dst k
    end.

Lemma finished_target S d h st :
  dij S [] st -> Permutation (k_heap st) ((d, dst) :: h) -> Forall (fun y => (d <= y.1)%Z) h ->
  finished (setHeap h st).
Proof.
  intros Hd Hp Hmin. exists S, (k_heap st). simpl. split; [by destruct st|].
  destruct (dj_heap _ _ _ Hd d dst) as (d' & Hd' & Hle); [rewrite Hp; by left|]. rewrite Hd'.
  intros p k Hr. destruct (frontier S st d p dst k Hd) as [[Hin _]|Hk]; [|done|by destruct (dj_dst _ _ _ Hd)|lia].
  intros dx x Hx. rewrite Hp in Hx. apply elem_of_cons in Hx as [[= -> ->]|Hx]; [lia|].
  rewrite Forall_forall in Hmin. by apply (Hmin _ Hx).
Qed.

Lemma finished_exhausted S st : dij S [] st -> k_heap st = [] -> finished st.
Proof.
  intros Hd Hh. exists S, []. split; [unfold setHeap; rewrite <- Hh; by destruct st|].
  destruct (dist st !! dst) as [d|] eqn:Hdst.
  - destruct (dj_pending _ _ _ Hd dst d Hdst) as [Hin|Hin]; [by destruct (dj_dst _ _ _ Hd)|].
    rewrite Hh in Hin. by apply elem_of_nil in Hin.
  - intros p k Hr. destruct (frontier S st (k + 1) p dst k Hd) as [[Hin _]|Hk]; [|done|by destruct (dj_dst _ _ _ Hd)|lia].
    intros dx x Hx. rewrite Hh in Hx. by apply elem_of_nil in Hx.
Qed.

Lemma dijkstraLoop_correct fuel : forall S st,
  dij S [] st -> length (k_heap st) + size (unexpanded E S) <= fuel ->
  exists st', dijkstraLoop s g t records heapTop cost fuel ids noPathFilter dst st = Ok st' /\ finished st'.
Proof.
  induction fuel as [|fuel IH]; intros S st Hd Hf; cbn [dijkstraLoop]; destruct (k_heap st) as [|x0 h0] eqn:Hh;
    [rewrite ht_empty; exists st; split; [done|by eapply finished_exhausted]|simpl in Hf; lia|
     rewrite ht_empty; exists st; split; [done|by eapply finished_exhausted]|].
  destruct (ht_top (x0 :: h0)) as ([d v] & h & Htopeq & Hp & Hmin); [done|]. rewrite Htopeq. rewrite <- Hh in Hp.
  assert (length (k_heap st) = Datatypes.S (length h)) as Hlen by (by rewrite Hp). rewrite <- Hh in Hf.
  change (mkDijkstraState (k_parent st) (k_distance st) h) with (setHeap h st).
  case_bool_decide as Hv; [subst v; exists (setHeap h st); split; [done|by eapply finished_target]|].
  destruct (dj_heap _ _ _ Hd d v) as (best & Hbest & Hle); [rewrite Hp; by left|]. rewrite Hbest.
  destruct (Z.ltb_spec best d) as [Hlt|Hge].
  { apply (IH S); [|simpl; lia]. eapply drop_stale; [done..|]. right. by exists best. }
  assert (best = d) as -> by lia. assert (v ∈ V) as HvV by (by eapply dj_V).
  rewrite (oe_list v HvV). cbn [obind].
  assert (Forall (fun e => exists w, E !! e = Some (v, w)) (outs v)) as Hes
    by (apply Forall_forall; intros e; by apply oe_spec).
  destruct (decide (v ∈ S)) as [HvS|HvS].
  - rewrite (relax_settled S d v) by done. cbn [obind].
    apply (IH S); [|simpl; lia]. eapply drop_stale; [done..|by left].
  - destruct (relax_loop (v :: S) d v (outs v) (setHeap h st)) as (st' & -> & Hd' & Hlen');
      [by eapply settle_vertex|by left|done| |done|].
    + intros u du [->|Hu]%elem_of_cons Hdu; simpl in Hdu; [rewrite Hbest in Hdu; simplify_eq; lia|].
      eapply (dj_max _ _ _ Hd u du d v); [done..|]. rewrite Hp. by left.
    + cbn [obind]. apply (IH (v :: S)); [done|]. pose proof (unexpanded_cons S v HvV HvS). simpl in Hlen'. lia.
Qed.

(** ** The way back *)
Lemma trace_settled st : forall l1 v l2 fuel res,
  dij (l1 ++ v :: l2) [] st -> length l2 < fuel ->
  exists q dv, tracePath g t fuel (k_parent st) src v res = Ok (res ++ (rdescOf <$> q)) /\
    dist st !! v = Some dv /\ route E cost src (reverse (v :: q)) v dv.
Proof.
  intros l1 v l2. remember (length l2) as n eqn:Hn. revert l1 v l2 Hn.
  induction (lt_wf n) as [n _ IH]. intros l1 v l2 -> fuel res Hd Hf.
  destruct (dj_dom _ _ _ Hd v) as [dv Hdv]; [set_solver|]. destruct fuel as [|fuel]; [lia|]. cbn [tracePath].
  case_bool_decide as Hsrc.
  { subst v. exists [], 0%Z. rewrite app_nil_r. split_and!; [done|by eapply dj_src|constructor]. }
  destruct (dj_order _ _ _ Hd l1 v l2 eq_refl) as [?|(e & u & Hpar & HE & Hu)]; [done|].
  rewrite Hpar. cbn [rdescOf rd_rid]. rewrite (oe_src _ _ _ HE). cbn [obind].
  apply list_elem_of_split in Hu as (l3 & l4 & ->).
  rewrite length_app in Hf, IH. cbn [length] in Hf, IH.
  destruct (IH (length l4) ltac:(lia) (l1 ++ v :: l3) u l4 eq_refl fuel (res ++ [rdescOf u]))
    as (q & du & Hrun & Hdu & Hr); [by rewrite <- app_assoc|lia|].
  exists (u :: q), dv. rewrite Hrun, <- app_assoc. split_and!; [done|done|].
  destruct (dj_sound _ _ _ Hd v dv Hdv) as [_ [?|(e' & u' & du' & Hpar' & HE' & _ & Hdu' & ->)]]; [done|].
  rewrite Hpar in Hpar'. injection Hpar' as <-. rewrite HE in HE'. injection HE' as <-.
  rewrite Hdu in Hdu'. injection Hdu' as <-.
  rewrite reverse_cons. by eapply route_edge.
Qed.

Lemma finished_trace st d fuel :
  finished st -> dist st !! dst = Some d -> size V < fuel ->
  exists q, tracePath g t fuel (k_parent st) src dst [rdescOf dst] = Ok (rdescOf <$> (dst :: q)) /\
    route E cost src (reverse (dst :: q)) dst d.
Proof.
  intros (S & h & Hd & _) Hdst Hf. destruct fuel as [|fuel]; [lia|]. cbn [tracePath].
  case_bool_decide as Hsrc.
  { exists []. split; [done|]. rewrite Hsrc in Hdst |- *. pose proof (dj_src _ _ _ Hd) as H0. simpl in H0.
    rewrite Hdst in H0. simplify_eq. constructor. }
  destruct (dj_sound _ _ _ Hd dst d Hdst) as [_ [?|(e & u & du & Hpar & HE & Hu & Hdu & ->)]]; [done|].
  simpl in Hpar, Hdu. rewrite Hpar. cbn [rdescOf rd_rid]. rewrite (oe_src _ _ _ HE). cbn [obind].
  assert (length S <= size V) as HSV.
  { rewrite <- (size_list_to_set (C := gset RecordId) S) by (by eapply dj_nodup). apply subseteq_size.
    intros x Hx. rewrite elem_of_list_to_set in Hx. destruct (dj_dom _ _ _ Hd x Hx) as [dx Hdx]. by eapply dj_V. }
  apply list_elem_of_split in Hu as (l1 & l2 & ->). rewrite length_app in HSV. simpl in HSV.
  destruct (trace_settled (setHeap h st) l1 u l2 fuel ([rdescOf dst] ++ [rdescOf u]) Hd) as (q & du' & Hrun & Hdu' & Hr);
    [lia|]. simpl in Hrun, Hdu'. rewrite Hdu in Hdu'. injection Hdu' as <-.
  exists (u :: q). split; [exact Hrun|]. rewrite reverse_cons. by eapply route_edge.
Qed.
End dijkstra.

Lemma list_fmap_id_rid (l : list RecordId) : rd_rid ∘ rdescOf <$> l = l.
Proof. induction l as [|x l IH]; [done|]. rewrite fmap_cons. by f_equal. Qed.

(** C17. Dijkstra's algorithm over the edges of the given classes, with
    non-negative costs: it terminates and returns a cheapest route from the
    source to the target with its cost, numbered by depth, or the empty result
    when there is no route; whatever order the heap gives to ties. *)
Theorem dijkstra_on_graph s g t records E heapTop `{!HeapTop heapTop} cost src dst ids l l' fuel :
  repr g t E -> ids_ok E -> classes_ok ids -> rd_rid src <> noRid ->
  vvis g t (rd_rid src) l -> vvis g t (rd_rid dst) l' ->
  (forall e sd, E !! e = Some sd -> (0 <= cost (rdescOf e))%Z) -> 1 + 2 * size E < fuel ->
  (exists k res,
     dijkstraShortestPathRdesc s g t records heapTop cost fuel src dst ids noPathFilter = Ok (k, res) /\
     route (restrict ids E) cost (rd_rid src) (rd_rid <$> res) (rd_rid dst) k /\
     (forall p k', route (restrict ids E) cost (rd_rid src) p (rd_rid dst) k' -> (k <= k')%Z) /\
     rd_depth <$> res = Z.of_nat <$> seq 0 (length res)) \/
  (dijkstraShortestPathRdesc s g t records heapTop cost fuel src dst ids noPathFilter = Ok (0%Z, []) /\
     forall p k, ~ route (restrict ids E) cost (rd_rid src) p (rd_rid dst) k).
Proof.
  intros Hr Hok Hids Hnull Hl Hl' Hcost Hf.
  pose proof (graph_out_edges s g t records E Hr ids Hids (rd_rid src) l Hl Hnull Hok) as Hoe.
  unfold dijkstraShortestPathRdesc.
  rewrite (vvis_exists g t records E src l Hr Hl), (vvis_exists g t records E dst l' Hr Hl').
  assert (forall e sd, restrict ids E !! e = Some sd -> (0 <= cost (rdescOf e))%Z) as Hcost'
    by (intros e sd [He _]%map_lookup_filter_Some; by eapply Hcost).
  assert (rd_rid src ∈ vertexIds E (rd_rid src)) as HsrcV by (apply elem_of_vertexIds; by left).
  destruct (dijkstraLoop_correct heapTop cost Hcost' (rd_rid src) (rd_rid dst) HsrcV fuel [] _
              (dij_start cost (rd_rid src) (rd_rid dst) HsrcV)) as (st & -> & Hfin).
  { pose proof (unexpanded_nil (restrict ids E)). pose proof (restrict_size ids E). simpl. lia. }
  cbn [obind]. destruct (k_distance st !! rd_rid dst) as [d|] eqn:Hd.
  - left. destruct (finished_trace heapTop cost Hcost' (rd_rid src) (rd_rid dst) HsrcV st d fuel Hfin Hd) as (q & -> & Hroute).
    { pose proof (size_vertexIds E (rd_rid src)). lia. }
    cbn [obind]. exists d, (numberDepths (reverse (rdescOf <$> rd_rid dst :: q))). split_and!; [done| | |].
    + rewrite numberDepths_rid, <- fmap_reverse, <- list_fmap_compose.
      rewrite list_fmap_id_rid. exact Hroute.
    + destruct Hfin as (S0 & h & _ & Hopt). by rewrite Hd in Hopt.
    + rewrite numberDepths_depth. unfold numberDepths. by rewrite length_imap.
  - right. split; [done|]. destruct Hfin as (S & h & _ & Hopt). by rewrite Hd in Hopt.
Qed.
