(* ===== verification/Cursor.v ===== *)
(** * Cursors over result sets

    Model of [ResultSetCursor] (src/src/cursor.cpp): the position of the
    cursor in the descriptors of a result, the record under it, and the cache
    of class properties.  Copies and moves leave the record behind. *)

From stdpp Require Import base gmap sets list strings sorting.
From Stdlib Require Import ZArith Lia ZifyBool.
From S2P Require Import Prelude Types TxnData RecordModel Parser Schema Generic.

Record Cursor := mkCursor {
  metadata : list RecordDescriptor;
  currentIndex : Z;
  cachedInfos : gmap ClassId ClassPropertyInfo;
  result : option (RecordDescriptor * DbRecord);
}.

Definition newCursor (ds : list RecordDescriptor) : Cursor := mkCursor ds (-1) ∅ None.

(** Copies: the cache is copied with the positions; the [Result] of the new
    cursor is the default one, and an assignment keeps the one it had. *)
Definition copyCursor (rc : Cursor) : Cursor := mkCursor (metadata rc) (currentIndex rc) (cachedInfos rc) None.
Definition assignCursor (this rc : Cursor) : Cursor :=
  mkCursor (metadata rc) (currentIndex rc) (cachedInfos rc) (result this).

(** Moves also empty the descriptors of the other cursor and take its cache: the
    cursor that is left has nothing to read, so the missing cache is never
    looked at. *)
Definition movedFrom (rc : Cursor) : Cursor := mkCursor [] (currentIndex rc) ∅ (result rc).
Definition moveCursor (rc : Cursor) : Cursor * Cursor := (copyCursor rc, movedFrom rc).
Definition moveAssignCursor (this rc : Cursor) : Cursor * Cursor := (assignCursor this rc, movedFrom rc).

Section cursor.
  Context (s : Schema) (t : BaseTxn) (records : ClassId -> list (PositionId * list byte)).

Definition cursorSize (c : Cursor) : Z := Z.of_nat (length (metadata c)).
Definition cursorCount (c : Cursor) : Z := cursorSize c.
Definition isEmpty (c : Cursor) : bool := bool_decide (metadata c = []).

Definition hasNext (c : Cursor) : bool := negb (isEmpty c) && (currentIndex c <? cursorSize c - 1)%Z.
Definition hasPrevious (c : Cursor) : bool := negb (isEmpty c) && (0 <? currentIndex c)%Z.
Definition hasAt (index : Z) (c : Cursor) : bool := negb (isEmpty c) && (index <? cursorSize c - 1)%Z.

(** [resolveClassPropertyInfo]: the cached properties, or those of the class,
    which are then cached. *)
Definition resolveClassPropertyInfo (id : ClassId) (c : Cursor) : Outcome (ClassPropertyInfo * Cursor) :=
  match cachedInfos c !! id with
  | Some info => Ok (info, c)
  | None =>
      let* x := getClassDescriptor s t id CT_UNDEFINED in
      let* info := getClassMapProperty s t x.2 in
      Ok (info, mkCursor (metadata c) (currentIndex c) (emplace id info (cachedInfos c)) (result c))
  end.

(** Reading the record under the cursor after it has moved to [index]. *)
Definition readAt (index : Z) (c : Cursor) : Outcome Cursor :=
  match metadata c !! Z.to_nat index with
  | None => UB
  | Some d =>
      let* (info, c1) := resolveClassPropertyInfo (rd_rid d).1
                           (mkCursor (metadata c) index (cachedInfos c) (result c)) in
      let* r := getRecordResult s t records info d in
      Ok (mkCursor (metadata c1) (currentIndex c1) (cachedInfos c1) (Some r))
  end.

Definition next (c : Cursor) : Outcome (bool * Cursor) :=
  if negb (isEmpty c) && (currentIndex c =? -1)%Z then ofmap (pair true) (readAt 0 c)
  else if hasNext c then ofmap (pair true) (readAt (currentIndex c + 1) c)
  else Ok (false, c).

Definition previous (c : Cursor) : Outcome (bool * Cursor) :=
  if negb (isEmpty c) && (cursorSize c <=? currentIndex c)%Z then ofmap (pair true) (readAt (cursorSize c - 1) c)
  else if hasPrevious c then ofmap (pair true) (readAt (currentIndex c - 1) c)
  else Ok (false, c).

Definition first (c : Cursor) : Outcome Cursor := if isEmpty c then Ok c else readAt 0 c.
Definition last_ (c : Cursor) : Outcome Cursor := if isEmpty c then Ok c else readAt (cursorSize c - 1) c.

Definition to (index : Z) (c : Cursor) : Outcome (bool * Cursor) :=
  if (cursorSize c <=? index)%Z then Ok (false, c) else ofmap (pair true) (readAt index c).

(** A loop [while (cursor.next())] that looks at each record in turn: the
    descriptors visited. *)
Fixpoint visitAll (fuel : nat) (c : Cursor) : Outcome (list RecordDescriptor) :=
  match fuel with
  | O => UB
  | S f =>
      let* (b, c1) := next c in
      if (b : bool) then
        match result c1 with
        | Some (d, _) => let* ds := visitAll f c1 in Ok (d :: ds)
        | None => UB
        end
      else Ok []
  end.

(** ** Positions *)
Definition wf_cursor (c : Cursor) : Prop := (-1 <= currentIndex c < Z.max 1 (cursorSize c))%Z.

(** The row of a descriptor, read on its own. *)
Definition readRow (d : RecordDescriptor) : Outcome (RecordDescriptor * DbRecord) :=
  let* x := getClassDescriptor s t (rd_rid d).1 CT_UNDEFINED in
  let* info := getClassMapProperty s t x.2 in
  getRecordResult s t records info d.

(** The cache holds the properties of the classes. *)
Definition cached (c : Cursor) : Prop :=
  forall id info, cachedInfos c !! id = Some info ->
    exists x, getClassDescriptor s t id CT_UNDEFINED = Ok x /\ getClassMapProperty s t x.2 = Ok info.

(** Every record of the result can be read. *)
Definition readable (c : Cursor) : Prop :=
  cached c /\ forall d, d ∈ metadata c -> exists r, readRow d = Ok (d, r).

Lemma readable_new ds : (forall d, d ∈ ds -> exists r, readRow d = Ok (d, r)) -> readable (newCursor ds).
Proof. intros H. split; [by intros ?? ?|exact H]. Qed.

Lemma readAt_ok index c d :
  readable c -> metadata c !! Z.to_nat index = Some d ->
  exists c1 r, readAt index c = Ok c1 /\ metadata c1 = metadata c /\ currentIndex c1 = index /\
    result c1 = Some (d, r) /\ readRow d = Ok (d, r) /\ readable c1.
Proof.
  intros [Hc Hr] Hd. unfold readAt. rewrite Hd. destruct (Hr d) as [r Hrow]; [by eapply list_elem_of_lookup_2|].
  pose proof Hrow as Hg. unfold readRow in Hg.
  unfold resolveClassPropertyInfo. cbn [cachedInfos metadata currentIndex result].
  destruct (cachedInfos c !! (rd_rid d).1) as [info|] eqn:E; cbn [obind].
  - destruct (Hc _ _ E) as (x & Hx & Hm). rewrite Hx in Hg. cbn [obind] in Hg. rewrite Hm in Hg. cbn [obind] in Hg.
    rewrite Hg. cbn [obind]. eexists _, r. by split_and!.
  - destruct (getClassDescriptor s t (rd_rid d).1 CT_UNDEFINED) as [x| |] eqn:Hx; cbn [obind] in *; [|done..].
    destruct (getClassMapProperty s t x.2) as [info| |] eqn:Hm; cbn [obind metadata currentIndex cachedInfos] in *; [|done..].
    rewrite Hg. cbn [obind metadata currentIndex cachedInfos]. eexists _, r.
    split; [done|]. split; [done|]. split; [done|]. split; [done|]. split; [done|]. split; [|exact Hr].
    intros id info' H. cbn [cachedInfos] in H. rewrite lookup_emplace in H.
    destruct (cachedInfos c !! id) eqn:E'; [simplify_eq; by apply Hc|].
    case_decide; [|done]. simplify_eq. by exists x.
Qed.

Lemma isEmpty_size c : isEmpty c = (cursorSize c =? 0)%Z.
Proof. unfold isEmpty, cursorSize. by destruct (metadata c); case_bool_decide. Qed.

Lemma readAt_in index c :
  readable c -> (0 <= index < cursorSize c)%Z ->
  exists d c1 r, metadata c !! Z.to_nat index = Some d /\ readAt index c = Ok c1 /\ metadata c1 = metadata c /\
    currentIndex c1 = index /\ result c1 = Some (d, r) /\ readRow d = Ok (d, r) /\ readable c1.
Proof.
  intros Hr Hi. unfold cursorSize in Hi. destruct (lookup_lt_is_Some_2 (metadata c) (Z.to_nat index)) as [d Hd]; [lia|].
  destruct (readAt_ok index c d Hr Hd) as (c1 & r & ?). by exists d, c1, r.
Qed.

(** Moving a cursor whose records can be read: [next] and [previous] succeed
    exactly when [hasNext] and [hasPrevious] announce it and move by one,
    [first], [last] and [to] land where they say, the position stays well
    formed, and the record under the cursor is the one of its position. *)
Theorem cursor_moves c index :
  wf_cursor c -> readable c -> (0 <= index)%Z ->
  let lands i m := exists d c1 r, metadata c !! Z.to_nat i = Some d /\ m = Ok c1 /\ metadata c1 = metadata c /\
                     currentIndex c1 = i /\ result c1 = Some (d, r) /\ readRow d = Ok (d, r) /\ wf_cursor c1 in
  (if hasNext c then exists c1, next c = Ok (true, c1) /\ lands (currentIndex c + 1)%Z (Ok c1)
   else next c = Ok (false, c)) /\
  (if hasPrevious c then exists c1, previous c = Ok (true, c1) /\ lands (currentIndex c - 1)%Z (Ok c1)
   else previous c = Ok (false, c)) /\
  (metadata c <> [] -> lands 0%Z (first c) /\ lands (cursorSize c - 1)%Z (last_ c)) /\
  (if (index <? cursorSize c)%Z then exists c1, to index c = Ok (true, c1) /\ lands index (Ok c1)
   else to index c = Ok (false, c)).
Proof.
  intros Hwf Hr Hi lands. unfold wf_cursor in Hwf.
  assert (forall i, (0 <= i < cursorSize c)%Z -> exists c1, readAt i c = Ok c1 /\ lands i (Ok c1)) as Hland.
  { intros i Hii. destruct (readAt_in i c Hr Hii) as (d & c1 & r & Hd & Hrun & Hm & Hc & Hres & Hrow & _).
    exists c1. split; [done|]. exists d, c1, r. split_and!; try done; unfold wf_cursor, cursorSize in *; rewrite ?Hm; lia. }
  unfold next, previous, first, last_, to, hasNext, hasPrevious. rewrite isEmpty_size. split_and!.
  - destruct (Z.eqb_spec (cursorSize c) 0) as [|Hs]; simpl; [done|].
    assert (0 <= cursorSize c)%Z by (unfold cursorSize; lia).
    destruct (Z.eqb_spec (currentIndex c) (-1)) as [Hc|Hc].
    + destruct (Z.ltb_spec (currentIndex c) (cursorSize c - 1)); [|lia].
      destruct (Hland 0%Z) as (c1 & -> & Hl); [lia|]. exists c1. rewrite Hc. done.
    + destruct (Z.ltb_spec (currentIndex c) (cursorSize c - 1)); [|done].
      destruct (Hland (currentIndex c + 1)%Z) as (c1 & -> & Hl); [lia|]. by exists c1.
  - destruct (Z.eqb_spec (cursorSize c) 0) as [|Hs]; simpl; [done|].
    assert (0 <= cursorSize c)%Z by (unfold cursorSize; lia).
    destruct (Z.leb_spec (cursorSize c) (currentIndex c)); [lia|].
    destruct (Z.ltb_spec 0 (currentIndex c)); [|done].
    destruct (Hland (currentIndex c - 1)%Z) as (c1 & -> & Hl); [lia|]. by exists c1.
  - intros Hne. assert (0 < cursorSize c)%Z by (unfold cursorSize; destruct (metadata c); simpl; [done|lia]).
    destruct (Z.eqb_spec (cursorSize c) 0); [lia|].
    destruct (Hland 0%Z) as (c1 & -> & H1); [lia|]. destruct (Hland (cursorSize c - 1)%Z) as (c2 & -> & H2); [lia|]. done.
  - destruct (Z.leb_spec (cursorSize c) index), (Z.ltb_spec index (cursorSize c)); try lia; [done|].
    destruct (Hland index) as (c1 & -> & Hl); [lia|]. by exists c1.
Qed.

Lemma visitAll_from fuel : forall c,
  readable c -> (-1 <= currentIndex c < Z.max 1 (cursorSize c))%Z ->
  (cursorSize c - currentIndex c <= Z.of_nat fuel)%Z -> (metadata c = [] -> currentIndex c = -1)%Z ->
  visitAll fuel c = Ok (drop (Z.to_nat (currentIndex c + 1)) (metadata c)).
Proof.
  induction fuel as [|fuel IH]; intros c Hr Hc Hf He.
  { unfold cursorSize in *. destruct (metadata c); [specialize (He eq_refl)|]; simpl in *; lia. }
  cbn [visitAll]. unfold next, hasNext. rewrite isEmpty_size.
  assert (0 <= cursorSize c)%Z as Hs by (unfold cursorSize; lia).
  destruct (decide (currentIndex c + 1 < cursorSize c)%Z) as [Hlt|Hge].
  - destruct (readAt_in (currentIndex c + 1) c Hr) as (d & c1 & r & Hd & Hrun & Hm & Hi & Hres & _ & Hr1); [lia|].
    assert ((if negb (cursorSize c =? 0)%Z && (currentIndex c =? -1)%Z then ofmap (pair true) (readAt 0 c)
             else if negb (cursorSize c =? 0)%Z && (currentIndex c <? cursorSize c - 1)%Z
                  then ofmap (pair true) (readAt (currentIndex c + 1) c) else Ok (false, c)) = Ok (true, c1)) as ->.
    { destruct (Z.eqb_spec (cursorSize c) 0); [lia|]. simpl.
      destruct (Z.eqb_spec (currentIndex c) (-1)) as [Hm1|].
      - rewrite Hm1 in Hrun. change (-1 + 1)%Z with 0%Z in Hrun. by rewrite Hrun.
      - destruct (Z.ltb_spec (currentIndex c) (cursorSize c - 1)); [|lia]. by rewrite Hrun. }
    cbn [obind]. rewrite Hres. rewrite (IH c1).
    + cbn [obind]. rewrite Hi, Hm. rewrite (drop_S _ d (Z.to_nat (currentIndex c + 1))) by done.
      by replace (Z.to_nat (currentIndex c + 1 + 1)) with (S (Z.to_nat (currentIndex c + 1))) by lia.
    + done.
    + unfold cursorSize in *. rewrite Hm, Hi. lia.
    + unfold cursorSize in *. rewrite Hm, Hi. lia.
    + intros Hnil. rewrite Hm in Hnil. by rewrite Hnil in Hd.
  - assert (drop (Z.to_nat (currentIndex c + 1)) (metadata c) = []) as ->.
    { apply drop_ge. unfold cursorSize in *. lia. }
    destruct (Z.eqb_spec (cursorSize c) 0); simpl; [done|].
    destruct (Z.eqb_spec (currentIndex c) (-1)); [lia|].
    destruct (Z.ltb_spec (currentIndex c) (cursorSize c - 1)); [lia|done].
Qed.

(** Iterating a fresh cursor with [next] terminates and visits every record of
    the result once, in order. *)
Theorem cursor_visits_all ds fuel :
  readable (newCursor ds) -> length ds < fuel -> visitAll fuel (newCursor ds) = Ok ds.
Proof.
  intros Hr Hf. rewrite visitAll_from; [done|done|..]; unfold newCursor, cursorSize; simpl; try lia.
Qed.

(** [hasAt] refuses the last position, which [to] reaches. *)
Theorem hasAt_misses_last c :
  readable c -> metadata c <> [] ->
  hasAt (cursorSize c - 1) c = false /\ exists c1, to (cursorSize c - 1) c = Ok (true, c1).
Proof.
  intros Hr Hne. assert (0 < cursorSize c)%Z by (unfold cursorSize; destruct (metadata c); simpl; [done|lia]).
  split; [unfold hasAt; rewrite Z.ltb_irrefl; apply andb_false_r|].
  destruct (readAt_in (cursorSize c - 1) c Hr) as (d & c1 & r & _ & Hrun & _); [lia|].
  exists c1. unfold to. destruct (Z.leb_spec (cursorSize c) (cursorSize c - 1)); [lia|]. by rewrite Hrun.
Qed.

(** [operator*] of a copy is not that of the original: the record is lost, or it
    is the one the cursor assigned to had before, at another position.  Where the
    copy moves it reads what the original would. *)
Lemma readAt_result index c c' :
  metadata c' = metadata c -> cachedInfos c' = cachedInfos c -> readAt index c' = readAt index c.
Proof.
  intros Hm Hc. unfold readAt. rewrite Hm. destruct (metadata c !! Z.to_nat index) as [d|]; [|done].
  unfold resolveClassPropertyInfo. cbn [cachedInfos metadata currentIndex]. rewrite Hc.
  destruct (cachedInfos c !! (rd_rid d).1) as [info|].
  - cbn [obind]. by destruct (getRecordResult s t records info d).
  - destruct (getClassDescriptor s t (rd_rid d).1 CT_UNDEFINED) as [x|e|]; [|done..]. cbn [obind].
    destruct (getClassMapProperty s t x.2) as [info|e|]; [|done..]. cbn [obind].
    by destruct (getRecordResult s t records info d).
Qed.

Lemma step_flag index c c' :
  metadata c' = metadata c -> cachedInfos c' = cachedInfos c -> ofmap (pair true) (readAt index c') = ofmap (pair true) (readAt index c).
Proof. intros. by rewrite (readAt_result index c c'). Qed.

Theorem cursor_copies this c :
  result (copyCursor c) = None /\ result (assignCursor this c) = result this /\
  currentIndex (assignCursor this c) = currentIndex c /\
  forall c', c' = copyCursor c \/ c' = assignCursor this c ->
    (hasNext c = true -> next c' = next c) /\ (hasPrevious c = true -> previous c' = previous c) /\
    forall index, (index < cursorSize c)%Z -> to index c' = to index c.
Proof.
  split_and!; [done..|]. intros c' Hc'.
  assert (metadata c' = metadata c /\ currentIndex c' = currentIndex c /\ cachedInfos c' = cachedInfos c) as (Hm & Hi & Hc)
    by (by destruct Hc' as [->| ->]).
  assert (isEmpty c' = isEmpty c /\ cursorSize c' = cursorSize c) as [He Hs] by (unfold isEmpty, cursorSize; by rewrite Hm).
  split_and!.
  - intros Hn. unfold next. assert (hasNext c' = true) as Hn' by (unfold hasNext in *; by rewrite He, Hs, Hi).
    rewrite Hn, Hn', He, Hi, !(step_flag _ c c') by done. done.
  - intros Hp. unfold previous. assert (hasPrevious c' = true) as Hp' by (unfold hasPrevious in *; by rewrite He, Hi).
    rewrite Hp, Hp', He, Hs, Hi, !(step_flag _ c c') by done. done.
  - intros index Hlt. unfold to. rewrite Hs. destruct (Z.leb_spec (cursorSize c) index); [lia|]. by apply step_flag.
Qed.

(** A cursor that was moved from does not move, and reports no record ahead. *)
Theorem moved_from_inert this c :
  let m := (moveCursor c).2 in
  m = (moveAssignCursor this c).2 /\ next m = Ok (false, m) /\ previous m = Ok (false, m) /\ first m = Ok m /\
  last_ m = Ok m /\ forall index, (0 <= index)%Z -> to index m = Ok (false, m).
Proof.
  cbn zeta. split_and!; try done. intros index Hi. unfold to.
  change (cursorSize (moveCursor c).2) with 0%Z. destruct (Z.leb_spec 0 index); [done|lia].
Qed.
End cursor.
