(* ===== verification/Query.v ===== *)
(** * Queries

    The public queries of [Vertex], [Edge] and [Traverse] (src/src/vertex.cpp,
    edge.cpp, traverse.cpp) with their class filters (class_filter.cpp), the
    selection of the edges of a vertex by conditions (compare.cpp), and the
    variants that return descriptors for a cursor (compare_cursor.cpp).  The
    data store is [records], the content of the class tables in the order of
    the keys. *)

From stdpp Require Import base gmap sets list strings sorting.
From Stdlib Require Import ZArith Lia.
From S2P Require Import Prelude.
From S2P Require Import Types.
From S2P Require Import VersionControl.
From S2P Require Import TxnObject.
From S2P Require Import TxnData.
From S2P Require Import RecordModel.
From S2P Require Import Parser.
From S2P Require Import Graph.
From S2P Require Import Schema.
From S2P Require Import Validate.
From S2P Require Import Generic.
From S2P Require Import Compare.
From S2P Require Import Algorithm.
From S2P Require Import Cursor.

(** ** Class filters *)
Record ClassFilter := mkClassFilter { classNames : gset string }.

Definition newClassFilter (names : list string) : ClassFilter := mkClassFilter (list_to_set names).
Definition classFilterAdd (name : string) (f : ClassFilter) : ClassFilter := mkClassFilter ({[name]} ∪ classNames f).
Definition classFilterRemove (name : string) (f : ClassFilter) : ClassFilter := mkClassFilter (classNames f ∖ {[name]}).
Definition classFilterSize (f : ClassFilter) : nat := size (classNames f).
Definition classFilterEmpty (f : ClassFilter) : bool := bool_decide (classNames f = ∅).
(** The set is listed in the order of the names. *)
Definition classFilterNames (f : ClassFilter) : list string := (map_items (gset_to_gmap tt (classNames f))).*1.

(** A result: a descriptor with its record. *)
Abbreviation Result := (RecordDescriptor * DbRecord)%type.
Abbreviation EdgeFunc := (RecordId -> ClassId -> Outcome (list RecordId)).

Section query.
  Context (regex_match : list byte -> list byte -> Outcome bool).
  Context (s : Schema) (g : Graph) (t : BaseTxn).
  Context (records : ClassId -> list (PositionId * list byte)).
  Context (ptr_order : gset Loc -> list Loc).

(** ** The edges of a vertex whose records pass a test *)
Definition retrieveWhere (accept : DbRecord -> Outcome bool) (edgeFunc : EdgeFunc) (rid : RecordId)
    (result : list Result) (id : ClassId) : Outcome (list Result) :=
  let* es := edgeFunc rid id in
  ofold (fun res e =>
           let* record := retrieveRecord s t records e in
           let* b := accept record in
           Ok (if (b : bool) then res ++ [(rdescOf e, record)] else res)) es result.

Definition edgesWhere (accept : DbRecord -> Outcome bool) (edgeFunc : EdgeFunc) (d : RecordDescriptor)
    (edgeClassIds : list ClassId) : Outcome (list Result) :=
  match checkIfRecordExist g t records d with
  | RECORD_NOT_EXIST => Throw NOGDB_GRAPH_NOEXST_VERTEX
  | RECORD_NOT_EXIST_IN_MEMORY => Ok []
  | RECORD_EXIST =>
      rethrow (match edgeClassIds with
               | [] => retrieveWhere accept edgeFunc (rd_rid d) [] 0%Z
               | _ => ofold (retrieveWhere accept edgeFunc (rd_rid d)) edgeClassIds []
               end)
  end.

Definition getEdgeCondition (edgeFunc : EdgeFunc) (d : RecordDescriptor) (edgeClassIds : list ClassId)
    (c : Condition) (type : PropertyType) : Outcome (list Result) :=
  edgesWhere (checkCondition regex_match c type) edgeFunc d edgeClassIds.
Definition getEdgeMultiCondition (edgeFunc : EdgeFunc) (d : RecordDescriptor) (edgeClassIds : list ClassId)
    (m : MultiCondition) (types : gmap string PropertyType) : Outcome (list Result) :=
  edgesWhere (fun r => execute regex_match m r types) edgeFunc d edgeClassIds.
Definition getEdgeFunction (edgeFunc : EdgeFunc) (d : RecordDescriptor) (edgeClassIds : list ClassId)
    (f : DbRecord -> bool) : Outcome (list Result) :=
  edgesWhere (fun r => Ok (f r)) edgeFunc d edgeClassIds.

(** ** The types of the properties of a condition *)

(** [validateProperty]: whether a class has the property, and its type. *)
Definition validateOne (name : string) (st : PropertyType * bool) (info : ClassInfo) : Outcome (PropertyType * bool) :=
  match nameToDesc (ci_propertyInfo info) !! name with
  | None => Ok st
  | Some d =>
      if bool_decide (st.1 = PT_UNDEFINED) then Ok (pd_type d, true)
      else if bool_decide (st.1 = pd_type d) then Ok st
      else Throw NOGDB_CTX_CONFLICT_PROPTYPE
  end.
Definition validateProperty (infos : list ClassInfo) (name : string) : Outcome PropertyType :=
  let* (type, isFound) := ofold (validateOne name) infos (PT_UNDEFINED, false) in
  if (isFound : bool) then Ok type else Throw NOGDB_CTX_NOEXST_PROPERTY.

(** [PropertyMapType]: the properties a composed condition names, and the
    number of those without a type. *)
Definition conditionTypes (m : MultiCondition) : gmap string PropertyType :=
  fold_left (fun ts c => emplace (propName c) PT_UNDEFINED ts) (conditions m) ∅.
Definition resolveOne (info : ClassInfo) (st : gmap string PropertyType * Z) (name : string) :
    Outcome (gmap string PropertyType * Z) :=
  match nameToDesc (ci_propertyInfo info) !! name, st.1 !! name with
  | Some d, Some type =>
      if bool_decide (type = PT_UNDEFINED) then Ok (<[name := pd_type d]> st.1, (st.2 - 1)%Z)
      else if bool_decide (type = pd_type d) then Ok st
      else Throw NOGDB_CTX_CONFLICT_PROPTYPE
  | _, _ => Ok st
  end.
Definition resolveInfo (st : gmap string PropertyType * Z) (info : ClassInfo) :
    Outcome (gmap string PropertyType * Z) :=
  ofold (resolveOne info) ((map_items st.1).*1) st.
Definition validateAndResolveProperties (infos : list ClassInfo) (types : gmap string PropertyType) :
    Outcome (gmap string PropertyType) :=
  let* (types', undefined) := ofold resolveInfo infos (types, Z.of_nat (size types)) in
  if (undefined =? 0)%Z then Ok types' else Throw NOGDB_CTX_NOEXST_PROPERTY.

(** ** Selecting the records of a class *)
Definition classInfosOf (className : string) (type : ClassType) : Outcome (list ClassInfo) :=
  let* classes := getMultipleClassDescriptorByName s t ptr_order [className] type in
  getMultipleClassMapProperty s t ptr_order classes.

Definition compareConditionOf (className : string) (type : ClassType) (c : Condition) :=
  let* infos := classInfosOf className type in
  compareCondition regex_match records infos c.

Definition compareMultiCondition (className : string) (type : ClassType) (m : MultiCondition) :=
  let types := conditionTypes m in
  require (bool_decide (types <> ∅)) ;;;
  let* infos := classInfosOf className type in
  let* types' := validateAndResolveProperties infos types in
  getRecordMultiCondition regex_match records infos m types'.

Definition compareFunction (className : string) (type : ClassType) (f : DbRecord -> bool) :=
  let* infos := classInfosOf className type in
  scanClasses records infos (fun r => Ok (f r)).

(** ** Selecting the edges of a vertex

    The classes of the filter with their subclasses; without a filter, those
    of the edges the vertex has. *)
Definition edgeClassInfos (edgeClassFunc : RecordId -> Outcome (list ClassId)) (rid : RecordId) (f : ClassFilter) :
    Outcome (list ClassInfo) :=
  let* classes := getMultipleClassDescriptorByName s t ptr_order (classFilterNames f) EDGE in
  if bool_decide (classes = ∅) then
    let* ids := edgeClassFunc rid in
    let* classes' := getMultipleClassDescriptor s t ptr_order ids EDGE in
    getMultipleClassMapProperty s t ptr_order classes'
  else getMultipleClassMapProperty s t ptr_order classes.

Definition compareEdgeCondition (d : RecordDescriptor) (edgeFunc : EdgeFunc)
    (edgeClassFunc : RecordId -> Outcome (list ClassId)) (c : Condition) (f : ClassFilter) : Outcome (list Result) :=
  let* _ := getClassDescriptor s t (rd_rid d).1 VERTEX in
  let* infos := edgeClassInfos edgeClassFunc (rd_rid d) f in
  let* type := validateProperty infos (propName c) in
  getEdgeCondition edgeFunc d (ci_id <$> infos) c type.

Definition compareEdgeMultiCondition (d : RecordDescriptor) (edgeFunc : EdgeFunc)
    (edgeClassFunc : RecordId -> Outcome (list ClassId)) (m : MultiCondition) (f : ClassFilter) : Outcome (list Result) :=
  let types := conditionTypes m in
  require (bool_decide (types <> ∅)) ;;;
  let* _ := getClassDescriptor s t (rd_rid d).1 VERTEX in
  let* infos := edgeClassInfos edgeClassFunc (rd_rid d) f in
  let* types' := validateAndResolveProperties infos types in
  getEdgeMultiCondition edgeFunc d (ci_id <$> infos) m types'.

(** With a function as the condition, the class ids found without a filter
    are pushed to a variable that hides the one passed on. *)
Definition compareEdgeFunction (d : RecordDescriptor) (edgeFunc : EdgeFunc)
    (edgeClassFunc : RecordId -> Outcome (list ClassId)) (cond : DbRecord -> bool) (f : ClassFilter) :
    Outcome (list Result) :=
  let* _ := getClassDescriptor s t (rd_rid d).1 VERTEX in
  let* classes := getMultipleClassDescriptorByName s t ptr_order (classFilterNames f) EDGE in
  let* infos := edgeClassInfos edgeClassFunc (rd_rid d) f in
  getEdgeFunction edgeFunc d (if bool_decide (classes = ∅) then [] else ci_id <$> infos) cond.

(** ** The descriptors for a cursor (compare_cursor.cpp) *)
Definition rdescScanClass (accept : DbRecord -> Outcome bool) (result : list RecordDescriptor) (info : ClassInfo) :
    Outcome (list RecordDescriptor) :=
  ofold (fun res kv =>
           if (kv.1 =? EM_MAXRECNUM)%Z then Ok res
           else
             let* record := parseRawDataWithBasicInfo (bytes_of_string (ci_name info)) (ci_id info, kv.1)
                              (Some kv.2) (ci_propertyInfo info) in
             let* b := accept record in
             Ok (if (b : bool) then res ++ [rdescOf (ci_id info, kv.1)] else res))
    (records (ci_id info)) result.
Definition rdescScanClasses (infos : list ClassInfo) (accept : DbRecord -> Outcome bool) :
    Outcome (list RecordDescriptor) :=
  ofold (rdescScanClass accept) infos [].

Definition getRdescCondition (infos : list ClassInfo) (c : Condition) (type : PropertyType) :=
  rdescScanClasses infos (checkCondition regex_match c type).
Definition getRdescMultiCondition (infos : list ClassInfo) (m : MultiCondition) (types : gmap string PropertyType) :=
  rdescScanClasses infos (fun r => execute regex_match m r types).
Definition getRdescFunction (infos : list ClassInfo) (f : DbRecord -> bool) :=
  rdescScanClasses infos (fun r => Ok (f r)).

Definition retrieveRdescWhere (accept : DbRecord -> Outcome bool) (edgeFunc : EdgeFunc) (rid : RecordId)
    (result : list RecordDescriptor) (id : ClassId) : Outcome (list RecordDescriptor) :=
  let* es := edgeFunc rid id in
  ofold (fun res e =>
           let* record := retrieveRecord s t records e in
           let* b := accept record in
           Ok (if (b : bool) then res ++ [rdescOf e] else res)) es result.

Definition rdescEdgesWhere (accept : DbRecord -> Outcome bool) (edgeFunc : EdgeFunc) (d : RecordDescriptor)
    (edgeClassIds : list ClassId) : Outcome (list RecordDescriptor) :=
  match checkIfRecordExist g t records d with
  | RECORD_NOT_EXIST => Throw NOGDB_GRAPH_NOEXST_VERTEX
  | RECORD_NOT_EXIST_IN_MEMORY => Ok []
  | RECORD_EXIST =>
      rethrow (match edgeClassIds with
               | [] => retrieveRdescWhere accept edgeFunc (rd_rid d) [] 0%Z
               | _ => ofold (retrieveRdescWhere accept edgeFunc (rd_rid d)) edgeClassIds []
               end)
  end.

Definition getRdescEdgeCondition (edgeFunc : EdgeFunc) (d : RecordDescriptor) (edgeClassIds : list ClassId)
    (c : Condition) (type : PropertyType) :=
  rdescEdgesWhere (checkCondition regex_match c type) edgeFunc d edgeClassIds.
Definition getRdescEdgeMultiCondition (edgeFunc : EdgeFunc) (d : RecordDescriptor) (edgeClassIds : list ClassId)
    (m : MultiCondition) (types : gmap string PropertyType) :=
  rdescEdgesWhere (fun r => execute regex_match m r types) edgeFunc d edgeClassIds.
Definition getRdescEdgeFunction (edgeFunc : EdgeFunc) (d : RecordDescriptor) (edgeClassIds : list ClassId)
    (f : DbRecord -> bool) :=
  rdescEdgesWhere (fun r => Ok (f r)) edgeFunc d edgeClassIds.

Definition compareConditionRdesc (className : string) (type : ClassType) (c : Condition) :
    Outcome (list RecordDescriptor) :=
  let* infos := classInfosOf className type in
  let* type := ofold (resolveType (propName c)) infos PT_UNDEFINED in
  if bool_decide (type = PT_UNDEFINED) then Throw NOGDB_CTX_NOEXST_PROPERTY
  else getRdescCondition infos c type.

Definition compareMultiConditionRdesc (className : string) (type : ClassType) (m : MultiCondition) :
    Outcome (list RecordDescriptor) :=
  let types := conditionTypes m in
  require (bool_decide (types <> ∅)) ;;;
  let* infos := classInfosOf className type in
  let* types' := validateAndResolveProperties infos types in
  getRdescMultiCondition infos m types'.

Definition compareFunctionRdesc (className : string) (type : ClassType) (f : DbRecord -> bool) :
    Outcome (list RecordDescriptor) :=
  let* infos := classInfosOf className type in
  getRdescFunction infos f.

Definition compareEdgeConditionRdesc (d : RecordDescriptor) (edgeFunc : EdgeFunc)
    (edgeClassFunc : RecordId -> Outcome (list ClassId)) (c : Condition) (f : ClassFilter) :
    Outcome (list RecordDescriptor) :=
  let* _ := getClassDescriptor s t (rd_rid d).1 VERTEX in
  let* infos := edgeClassInfos edgeClassFunc (rd_rid d) f in
  let* type := validateProperty infos (propName c) in
  getRdescEdgeCondition edgeFunc d (ci_id <$> infos) c type.

Definition compareEdgeMultiConditionRdesc (d : RecordDescriptor) (edgeFunc : EdgeFunc)
    (edgeClassFunc : RecordId -> Outcome (list ClassId)) (m : MultiCondition) (f : ClassFilter) :
    Outcome (list RecordDescriptor) :=
  let types := conditionTypes m in
  require (bool_decide (types <> ∅)) ;;;
  let* _ := getClassDescriptor s t (rd_rid d).1 VERTEX in
  let* infos := edgeClassInfos edgeClassFunc (rd_rid d) f in
  let* types' := validateAndResolveProperties infos types in
  getRdescEdgeMultiCondition edgeFunc d (ci_id <$> infos) m types'.

Definition compareEdgeFunctionRdesc (d : RecordDescriptor) (edgeFunc : EdgeFunc)
    (edgeClassFunc : RecordId -> Outcome (list ClassId)) (cond : DbRecord -> bool) (f : ClassFilter) :
    Outcome (list RecordDescriptor) :=
  let* _ := getClassDescriptor s t (rd_rid d).1 VERTEX in
  let* classes := getMultipleClassDescriptorByName s t ptr_order (classFilterNames f) EDGE in
  let* infos := edgeClassInfos edgeClassFunc (rd_rid d) f in
  getRdescEdgeFunction edgeFunc d (if bool_decide (classes = ∅) then [] else ci_id <$> infos) cond.

(** ** [Vertex] and [Edge] *)

(** [Vertex::get] and [Edge::get] of a class: the records of a subclass carry
    the name the caller gave. *)
Definition infoNamed (className : string) (c : ClassDescriptor) : Outcome ClassInfo :=
  let* info := getClassMapProperty s t c in
  Ok (mkClassInfo (cd_id c) className info).
Definition getOfClass (type : ClassType) (className : string) : Outcome (list Result) :=
  let* classes := getMultipleClassDescriptorByName s t ptr_order [className] type in
  ofold (fun res l =>
           match sheap s !! l with
           | None => Ok res
           | Some c =>
               let* info := infoNamed className c in
               let* partial := getRecordFromClassInfo records info in
               Ok (res ++ partial)
           end) (ptr_order classes) [].
Definition rdescOfClass (type : ClassType) (className : string) : Outcome (list RecordDescriptor) :=
  let* classes := getMultipleClassDescriptorByName s t ptr_order [className] type in
  ofold (fun res l =>
           match sheap s !! l with
           | None => Ok res
           | Some c => let* info := infoNamed className c in Ok (res ++ getRdescFromClassInfo records info)
           end) (ptr_order classes) [].
Definition getCursorOfClass (type : ClassType) (className : string) : Outcome Cursor :=
  ofmap newCursor (rdescOfClass type className).

Definition vertexGet := getOfClass VERTEX.
Definition vertexGetCursor := getCursorOfClass VERTEX.
Definition edgeGet := getOfClass EDGE.
Definition edgeGetCursor := getCursorOfClass EDGE.

(** With a condition, a function or a composed condition. *)
Definition vertexGetWhere className := compareConditionOf className VERTEX.
Definition vertexGetFunction className := compareFunction className VERTEX.
Definition vertexGetMulti className := compareMultiCondition className VERTEX.
Definition vertexGetWhereCursor className c := ofmap newCursor (compareConditionRdesc className VERTEX c).
Definition vertexGetFunctionCursor className f := ofmap newCursor (compareFunctionRdesc className VERTEX f).
Definition vertexGetMultiCursor className m := ofmap newCursor (compareMultiConditionRdesc className VERTEX m).
Definition edgeGetWhere className := compareConditionOf className EDGE.
Definition edgeGetFunction className := compareFunction className EDGE.
Definition edgeGetMulti className := compareMultiCondition className EDGE.
Definition edgeGetWhereCursor className c := ofmap newCursor (compareConditionRdesc className EDGE c).
Definition edgeGetFunctionCursor className f := ofmap newCursor (compareFunctionRdesc className EDGE f).
Definition edgeGetMultiCursor className m := ofmap newCursor (compareMultiConditionRdesc className EDGE m).

Definition edgesOfVertex (edgeFunc : EdgeFunc) (d : RecordDescriptor) (f : ClassFilter) : Outcome (list Result) :=
  let* _ := getClassDescriptor s t (rd_rid d).1 VERTEX in
  let* edgeClassIds := getEdgeClassId s t ptr_order (classFilterNames f) in
  getEdgeNeighbour s g t records edgeFunc d edgeClassIds.
Definition edgeCursorOfVertex (edgeFunc : EdgeFunc) (d : RecordDescriptor) (f : ClassFilter) : Outcome Cursor :=
  let* _ := getClassDescriptor s t (rd_rid d).1 VERTEX in
  let* edgeClassIds := getEdgeClassId s t ptr_order (classFilterNames f) in
  ofmap newCursor (getRdescEdgeNeighbour g t records edgeFunc d edgeClassIds).

Definition getInEdge := edgesOfVertex (getEdgeIn g t).
Definition getOutEdge := edgesOfVertex (getEdgeOut g t).
Definition getAllEdge := edgesOfVertex (getEdgeInOut g t).
Definition getInEdgeCursor := edgeCursorOfVertex (getEdgeIn g t).
Definition getOutEdgeCursor := edgeCursorOfVertex (getEdgeOut g t).
Definition getAllEdgeCursor := edgeCursorOfVertex (getEdgeInOut g t).

(** With a condition. *)
Definition getInEdgeWhere d := compareEdgeCondition d (getEdgeIn g t) (getEdgeClassIn g t).
Definition getOutEdgeWhere d := compareEdgeCondition d (getEdgeOut g t) (getEdgeClassOut g t).
Definition getAllEdgeWhere d := compareEdgeCondition d (getEdgeInOut g t) (getEdgeClassInOut g t).
Definition getInEdgeWhereCursor d c f :=
  ofmap newCursor (compareEdgeConditionRdesc d (getEdgeIn g t) (getEdgeClassIn g t) c f).
Definition getOutEdgeWhereCursor d c f :=
  ofmap newCursor (compareEdgeConditionRdesc d (getEdgeOut g t) (getEdgeClassOut g t) c f).
Definition getAllEdgeWhereCursor d c f :=
  ofmap newCursor (compareEdgeConditionRdesc d (getEdgeInOut g t) (getEdgeClassInOut g t) c f).

(** With a composed condition. *)
Definition getInEdgeMulti d := compareEdgeMultiCondition d (getEdgeIn g t) (getEdgeClassIn g t).
Definition getOutEdgeMulti d := compareEdgeMultiCondition d (getEdgeOut g t) (getEdgeClassOut g t).
Definition getAllEdgeMulti d := compareEdgeMultiCondition d (getEdgeInOut g t) (getEdgeClassInOut g t).
Definition getInEdgeMultiCursor d m f :=
  ofmap newCursor (compareEdgeMultiConditionRdesc d (getEdgeIn g t) (getEdgeClassIn g t) m f).
Definition getOutEdgeMultiCursor d m f :=
  ofmap newCursor (compareEdgeMultiConditionRdesc d (getEdgeOut g t) (getEdgeClassOut g t) m f).
Definition getAllEdgeMultiCursor d m f :=
  ofmap newCursor (compareEdgeMultiConditionRdesc d (getEdgeInOut g t) (getEdgeClassInOut g t) m f).

(** With a function. *)
Definition getInEdgeFunction d := compareEdgeFunction d (getEdgeIn g t) (getEdgeClassIn g t).
Definition getOutEdgeFunction d := compareEdgeFunction d (getEdgeOut g t) (getEdgeClassOut g t).
Definition getAllEdgeFunction d := compareEdgeFunction d (getEdgeInOut g t) (getEdgeClassInOut g t).
Definition getInEdgeFunctionCursor d h f :=
  ofmap newCursor (compareEdgeFunctionRdesc d (getEdgeIn g t) (getEdgeClassIn g t) h f).
Definition getOutEdgeFunctionCursor d h f :=
  ofmap newCursor (compareEdgeFunctionRdesc d (getEdgeOut g t) (getEdgeClassOut g t) h f).
Definition getAllEdgeFunctionCursor d h f :=
  ofmap newCursor (compareEdgeFunctionRdesc d (getEdgeInOut g t) (getEdgeClassInOut g t) h f).

(** [getIndex] asks for the index only, and the flag is not read. *)
Definition getIndexOfClass (type : ClassType) (className : string) (c : Condition) :=
  let searchIndexOnly := true in compareConditionOf className type c.
Definition getIndexCursorOfClass (type : ClassType) (className : string) (c : Condition) : Outcome Cursor :=
  let searchIndexOnly := true in ofmap newCursor (compareConditionRdesc className type c).
Definition getIndexMultiOfClass (type : ClassType) (className : string) (m : MultiCondition) :=
  let searchIndexOnly := true in compareMultiCondition className type m.
Definition getIndexMultiCursorOfClass (type : ClassType) (className : string) (m : MultiCondition) : Outcome Cursor :=
  let searchIndexOnly := true in ofmap newCursor (compareMultiConditionRdesc className type m).

(** ** [Traverse]

    An overload without a path filter passes an empty one, [noPathFilter]. *)
Definition traverse {A} (search : list ClassId -> Outcome A) (d : RecordDescriptor) (f : ClassFilter) : Outcome A :=
  let* _ := getClassDescriptor s t (rd_rid d).1 VERTEX in
  let* edgeClassIds := getEdgeClassId s t ptr_order (classFilterNames f) in
  search edgeClassIds.

Definition inEdgeBfs fuel d minDepth maxDepth p := traverse (fun ids =>
  breadthFirstSearch s g t records fuel d minDepth maxDepth ids (getEdgeIn g t) (Some (getVertexSrc g t)) p) d.
Definition outEdgeBfs fuel d minDepth maxDepth p := traverse (fun ids =>
  breadthFirstSearch s g t records fuel d minDepth maxDepth ids (getEdgeOut g t) (Some (getVertexDst g t)) p) d.
Definition allEdgeBfs fuel d minDepth maxDepth p := traverse (fun ids =>
  breadthFirstSearch s g t records fuel d minDepth maxDepth ids (getEdgeInOut g t) None p) d.
Definition inEdgeDfs fuel d minDepth maxDepth p := traverse (fun ids =>
  depthFirstSearch s g t records fuel d minDepth maxDepth ids (getEdgeIn g t) (Some (getVertexSrc g t)) p) d.
Definition outEdgeDfs fuel d minDepth maxDepth p := traverse (fun ids =>
  depthFirstSearch s g t records fuel d minDepth maxDepth ids (getEdgeOut g t) (Some (getVertexDst g t)) p) d.
Definition allEdgeDfs fuel d minDepth maxDepth p := traverse (fun ids =>
  depthFirstSearch s g t records fuel d minDepth maxDepth ids (getEdgeInOut g t) None p) d.

Definition inEdgeBfsCursor fuel d minDepth maxDepth p := traverse (fun ids => ofmap newCursor
  (breadthFirstSearchRdesc s g t records fuel d minDepth maxDepth ids (getEdgeIn g t) (Some (getVertexSrc g t)) p)) d.
Definition outEdgeBfsCursor fuel d minDepth maxDepth p := traverse (fun ids => ofmap newCursor
  (breadthFirstSearchRdesc s g t records fuel d minDepth maxDepth ids (getEdgeOut g t) (Some (getVertexDst g t)) p)) d.
Definition allEdgeBfsCursor fuel d minDepth maxDepth p := traverse (fun ids => ofmap newCursor
  (breadthFirstSearchRdesc s g t records fuel d minDepth maxDepth ids (getEdgeInOut g t) None p)) d.
Definition inEdgeDfsCursor fuel d minDepth maxDepth p := traverse (fun ids => ofmap newCursor
  (depthFirstSearchRdesc s g t records fuel d minDepth maxDepth ids (getEdgeIn g t) (Some (getVertexSrc g t)) p)) d.
Definition outEdgeDfsCursor fuel d minDepth maxDepth p := traverse (fun ids => ofmap newCursor
  (depthFirstSearchRdesc s g t records fuel d minDepth maxDepth ids (getEdgeOut g t) (Some (getVertexDst g t)) p)) d.
Definition allEdgeDfsCursor fuel d minDepth maxDepth p := traverse (fun ids => ofmap newCursor
  (depthFirstSearchRdesc s g t records fuel d minDepth maxDepth ids (getEdgeInOut g t) None p)) d.

Definition traversePath {A} (search : list ClassId -> Outcome A) (src dst : RecordDescriptor) (f : ClassFilter) :
    Outcome A :=
  let* _ := getClassDescriptor s t (rd_rid src).1 VERTEX in
  let* _ := getClassDescriptor s t (rd_rid dst).1 VERTEX in
  let* edgeClassIds := getEdgeClassId s t ptr_order (classFilterNames f) in
  search edgeClassIds.
Definition shortestPath fuel src dst p := traversePath (fun ids => bfsShortestPath s g t records fuel src dst ids p) src dst.
Definition shortestPathCursor fuel src dst p :=
  traversePath (fun ids => ofmap newCursor (bfsShortestPathRdesc s g t records fuel src dst ids p)) src dst.

(** ** [Db] (db.cpp) *)
Definition getSchema : Outcome (list PClassDescriptor) :=
  ofold (fun res p =>
           match sheap s !! p.2 with
           | None => Ok res
           | Some c => let* d := transform s t c in Ok (res ++ [d])
           end) (map_items (getNameToDescMapping s t)) [].
Definition getSchemaByName (className : string) : Outcome PClassDescriptor :=
  let* x := isExistingClassByName s t className in transform s t x.2.
Definition getSchemaById (classId : ClassId) : Outcome PClassDescriptor :=
  let* x := isExistingClass s t classId in transform s t x.2.
End query.
