(* ===== verification/QuerySpec.v ===== *)
(** * What the queries return

    The variants of the queries that fill a cursor list the descriptors of the
    records the others return; on a graph that represents a map of edges, the
    edges of a vertex that satisfy a condition are exactly those of the map
    whose records do. *)

From stdpp Require Import base gmap sets list strings sorting.
From Stdlib Require Import ZArith Lia.
From S2P Require Import Prelude.
From S2P Require Import Types.
From S2P Require Import VersionControl.
From S2P Require Import TxnObject.
From S2P Require Import TxnData.
From S2P Require Import RecordModel.
From S2P Require Import Parser.
From S2P Require Import Graph.
From S2P Require Import GraphSpec.
From S2P Require Import GraphQuery.
From S2P Require Import Schema.
From S2P Require Import Validate.
From S2P Require Import Generic.
From S2P Require Import Compare.
From S2P Require Import Algorithm.
From S2P Require Import GraphSearch.
From S2P Require Import OutEdges.
From S2P Require Import Cursor.
From S2P Require Import Query.

(** ** Loops that simulate each other *)
Lemma ofold_sim {A B X} (h : A -> B) (f : A -> X -> Outcome A) (f' : B -> X -> Outcome B) l :
  (forall x a, x ∈ l -> f' (h a) x = ofmap h (f a x)) -> forall a, ofold f' l (h a) = ofmap h (ofold f l a).
Proof.
  induction l as [|x l IH]; intros Hf a; cbn [ofold]; [done|]. rewrite (Hf x a) by (by left).
  destruct (f a x) as [a'|e|]; cbn [obind ofmap]; [|done|done]. apply IH. intros y b Hy. apply Hf. by right.
Qed.

Lemma ofmap_bind {A B X} (h : A -> B) (m : Outcome X) (f : X -> Outcome A) :
  ofmap h (let* x := m in f x) = (let* x := m in ofmap h (f x)).
Proof. by destruct m. Qed.

Lemma rethrow_ofmap {A B} (h : A -> B) (m : Outcome A) : rethrow (ofmap h m) = ofmap h (rethrow m).
Proof. by destruct m. Qed.

(** Two computations that begin alike. *)
Ltac bind_cases :=
  cbv zeta; repeat (match goal with |- obind ?m _ = _ => destruct m; cbn [obind]; [|done|done] end).

Section variants.
Context (regex_match : list byte -> list byte -> Outcome bool) (s : Schema) (g : Graph) (t : BaseTxn).
Context (records : ClassId -> list (PositionId * list byte)) (ptr_order : gset Loc -> list Loc).

(** The descriptors of the results of a scan, and of a search for edges. *)
Definition scanned (l : list (RecordId * DbRecord)) : list RecordDescriptor := (fun x => rdescOf x.1) <$> l.
Definition descriptors (l : list Result) : list RecordDescriptor := l.*1.

Lemma rdescScan_sim infos accept :
  rdescScanClasses records infos accept = ofmap scanned (scanClasses records infos accept).
Proof.
  apply (ofold_sim scanned _ _ infos) with (a := []). intros info acc _. unfold rdescScanClass, scanClass.
  apply (ofold_sim scanned). intros kv res _. destruct (kv.1 =? EM_MAXRECNUM)%Z; [done|].
  destruct (parseRawDataWithBasicInfo _ _ _ _) as [r|e|]; [|done|done]. cbn [obind].
  destruct (accept r) as [[]|e|]; [|done|done|done]. cbn. unfold scanned. by rewrite fmap_app.
Qed.

Lemma rdescEdges_sim accept edgeFunc d ids :
  rdescEdgesWhere s g t records accept edgeFunc d ids = ofmap descriptors (edgesWhere s g t records accept edgeFunc d ids).
Proof.
  assert (forall id res, retrieveRdescWhere s t records accept edgeFunc (rd_rid d) (descriptors res) id =
    ofmap descriptors (retrieveWhere s t records accept edgeFunc (rd_rid d) res id)) as Hone.
  { intros id res. unfold retrieveRdescWhere, retrieveWhere. destruct (edgeFunc (rd_rid d) id) as [es|e|]; [|done|done].
    cbn [obind]. apply (ofold_sim descriptors). intros e acc _.
    destruct (retrieveRecord s t records e) as [r|err|]; [|done|done]. cbn [obind].
    destruct (accept r) as [[]|err|]; [|done|done|done]. cbn. unfold descriptors. by rewrite fmap_app. }
  unfold rdescEdgesWhere, edgesWhere. destruct (checkIfRecordExist g t records d); [done|done|].
  rewrite <- rethrow_ofmap. f_equal. destruct ids as [|id ids]; [apply (Hone 0%Z [])|].
  apply (ofold_sim descriptors _ _ (id :: ids)) with (a := []). intros x a _. apply Hone.
Qed.

(** Every query for a cursor gives the descriptors of the records that the
    query of the same name returns, and fails as it does. *)
Theorem cursor_variants :
  (forall className type c, compareConditionRdesc regex_match s t records ptr_order className type c =
     ofmap scanned (compareConditionOf regex_match s t records ptr_order className type c)) /\
  (forall className type m, compareMultiConditionRdesc regex_match s t records ptr_order className type m =
     ofmap scanned (compareMultiCondition regex_match s t records ptr_order className type m)) /\
  (forall className type f, compareFunctionRdesc s t records ptr_order className type f =
     ofmap scanned (compareFunction s t records ptr_order className type f)) /\
  (forall d ef cf c f, compareEdgeConditionRdesc regex_match s g t records ptr_order d ef cf c f =
     ofmap descriptors (compareEdgeCondition regex_match s g t records ptr_order d ef cf c f)) /\
  (forall d ef cf m f, compareEdgeMultiConditionRdesc regex_match s g t records ptr_order d ef cf m f =
     ofmap descriptors (compareEdgeMultiCondition regex_match s g t records ptr_order d ef cf m f)) /\
  (forall d ef cf cond f, compareEdgeFunctionRdesc s g t records ptr_order d ef cf cond f =
     ofmap descriptors (compareEdgeFunction s g t records ptr_order d ef cf cond f)).
Proof.
  split_and!; intros.
  - unfold compareConditionRdesc, compareConditionOf, compareCondition. bind_cases.
    case_bool_decide; [done|]. apply rdescScan_sim.
  - unfold compareMultiConditionRdesc, compareMultiCondition. bind_cases. apply rdescScan_sim.
  - unfold compareFunctionRdesc, compareFunction. bind_cases. apply rdescScan_sim.
  - unfold compareEdgeConditionRdesc, compareEdgeCondition. bind_cases. apply rdescEdges_sim.
  - unfold compareEdgeMultiConditionRdesc, compareEdgeMultiCondition. bind_cases. apply rdescEdges_sim.
  - unfold compareEdgeFunctionRdesc, compareEdgeFunction. bind_cases. apply rdescEdges_sim.
Qed.
End variants.

(** ** The edges of a vertex of the graph *)

(** [Some DST]: the incoming edges, [Some SRC]: the outgoing ones, [None]:
    both. *)
Definition edgeFuncOf (g : Graph) (t : BaseTxn) (dir : option Side) : EdgeFunc :=
  match dir with Some DST => getEdgeIn g t | Some SRC => getEdgeOut g t | None => getEdgeInOut g t end.
Definition edgeClassFuncOf (g : Graph) (t : BaseTxn) (dir : option Side) : RecordId -> Outcome (list ClassId) :=
  match dir with Some DST => getEdgeClassIn g t | Some SRC => getEdgeClassOut g t | None => getEdgeClassInOut g t end.

Definition touches (dir : option Side) (E : EdgeMap) (v k : RecordId) : Prop :=
  exists sd, E !! k = Some sd /\ match dir with Some side => proj_of side sd = v | None => sd.1 = v \/ sd.2 = v end.

Lemma edgeFuncOf_spec g t E dir v l c :
  repr g t E -> vvis g t v l ->
  exists es, edgeFuncOf g t dir v c = Ok es /\ NoDup es /\ forall k, k ∈ es <-> touches dir E v k /\ (c = 0%Z \/ k.1 = c).
Proof.
  intros Hr Hl. destruct (proj2 (adjacency_spec g t E v c Hr) l Hl) as (ins & outs & Hin & Hout & N1 & N2 & H1 & H2).
  destruct dir as [[]|]; cbn [edgeFuncOf].
  - exists outs. done.
  - exists ins. done.
  - destruct (edgeInOut_spec g t E v c l Hr Hl) as (es & He & Hs & Hmem). exists es. split; [done|]. split.
    + clear -Hs. induction Hs as [|x es Hs IH Hx]; constructor; [|done]. intros Hin. rewrite Forall_forall in Hx.
      by destruct (Hx x Hin).
    + intros k. rewrite Hmem. unfold incident_in, touches. naive_solver.
Qed.

Section edges.
Context (s : Schema) (g : Graph) (t : BaseTxn) (records : ClassId -> list (PositionId * list byte)).
Context (accept : DbRecord -> Outcome bool).

(** The record of an edge can be read, and the test decides it. *)
Definition readable (k : RecordId) : Prop :=
  exists r b, retrieveRecord s t records k = Ok r /\ accept r = Ok b.
Definition keepEdge (k : RecordId) : option Result :=
  match retrieveRecord s t records k with
  | Ok r => match accept r with Ok true => Some (rdescOf k, r) | _ => None end
  | _ => None
  end.

Lemma retrieveWhere_ok edgeFunc v res c es :
  edgeFunc v c = Ok es -> Forall readable es ->
  retrieveWhere s t records accept edgeFunc v res c = Ok (res ++ omap keepEdge es).
Proof.
  intros He Hread. unfold retrieveWhere. rewrite He. cbn [obind]. clear He. revert res.
  induction Hread as [|k es (r & b & Hr & Hb) _ IH]; intros res; cbn [ofold]; [by rewrite app_nil_r|].
  rewrite Hr. cbn [obind]. rewrite Hb. cbn [obind]. rewrite IH. cbn [omap list_omap]. unfold keepEdge at 2. rewrite Hr, Hb.
  destruct b; [by rewrite <- app_assoc|done].
Qed.

Lemma elem_of_kept (es : list RecordId) d r :
  (d, r) ∈ omap keepEdge es <-> exists k, k ∈ es /\ d = rdescOf k /\ retrieveRecord s t records k = Ok r /\ accept r = Ok true.
Proof.
  rewrite list_elem_of_omap. unfold keepEdge. split.
  - intros (k & Hk & Heq). exists k. repeat case_match; simplify_eq. done.
  - intros (k & Hk & -> & Hr & Ha). exists k. split; [done|]. by rewrite Hr, Ha.
Qed.

Lemma NoDup_kept (es : list RecordId) : NoDup es -> NoDup (omap keepEdge es).*1.
Proof.
  induction 1 as [|k es Hk _ IH]; [constructor|]. cbn [omap list_omap].
  destruct (keepEdge k) as [p|] eqn:Ep; [|exact IH]. cbn. constructor; [|exact IH].
  assert (p.1 = rdescOf k) as -> by (unfold keepEdge in Ep; repeat case_match; by simplify_eq).
  intros ([d r'] & Hd & Hin)%list_elem_of_fmap. apply elem_of_kept in Hin as (k' & Hk' & Heq & _). cbn in Hd. subst d.
  apply (f_equal rd_rid) in Heq. cbn in Heq. by subst.
Qed.

(** The edges of the given classes at a vertex, one class after the other. *)
Lemma edgesWhere_spec E dir d l ids :
  repr g t E -> vvis g t (rd_rid d) l -> classes_ok ids ->
  (forall k, touches dir E (rd_rid d) k -> in_classes ids k -> readable k) ->
  exists res, edgesWhere s g t records accept (edgeFuncOf g t dir) d ids = Ok res /\ NoDup res.*1 /\
    forall x r, (x, r) ∈ res <-> exists k, x = rdescOf k /\ touches dir E (rd_rid d) k /\ in_classes ids k /\
      retrieveRecord s t records k = Ok r /\ accept r = Ok true.
Proof.
  intros Hr Hl [Hnd H0] Hread. pose proof (fun c => edgeFuncOf_spec g t E dir (rd_rid d) l c Hr Hl) as Hes.
  unfold edgesWhere. rewrite (vvis_exists g t records E d l Hr Hl).
  assert (exists es, NoDup es /\ (forall k, k ∈ es <-> touches dir E (rd_rid d) k /\ in_classes ids k) /\
    (Forall readable es -> (match ids with
      | [] => retrieveWhere s t records accept (edgeFuncOf g t dir) (rd_rid d) [] 0%Z
      | _ => ofold (retrieveWhere s t records accept (edgeFuncOf g t dir) (rd_rid d)) ids []
      end) = Ok (omap keepEdge es))) as (es & Hnes & Hmem & Hrun).
  { destruct ids as [|c0 cs0].
    - destruct (Hes 0%Z) as (es & He & Hn & Hk). exists es. split; [done|]. split; [|intros Hf; by apply (retrieveWhere_ok _ _ [])].
      intros k. rewrite Hk. unfold in_classes. naive_solver.
    - assert (forall cs res, NoDup cs -> 0%Z ∉ cs -> exists es, NoDup es /\
        (forall k, k ∈ es <-> touches dir E (rd_rid d) k /\ k.1 ∈ cs) /\
        (Forall readable es -> ofold (retrieveWhere s t records accept (edgeFuncOf g t dir) (rd_rid d)) cs res = Ok (res ++ omap keepEdge es))) as Hall.
      { induction cs as [|c cs IH]; intros res Hncs Hz.
        - exists []. split; [constructor|]. split; [set_solver|]. intros _. cbn. by rewrite app_nil_r.
        - apply NoDup_cons in Hncs as [Hc Hncs]. destruct (Hes c) as (es & He & Hn & Hk).
          destruct (IH (res ++ omap keepEdge es) Hncs ltac:(set_solver)) as (es' & Hn' & Hk' & Hrun).
          exists (es ++ es'). split; [|split].
          + apply NoDup_app. split_and!; [done| |done]. intros k [_ Hkc]%Hk [_ Hkc']%Hk'. set_solver.
          + intros k. rewrite elem_of_app, Hk, Hk', elem_of_cons. assert (c <> 0%Z) by set_solver. naive_solver.
          + intros [Hf Hf']%Forall_app. cbn [ofold]. rewrite (retrieveWhere_ok _ _ _ _ es He Hf). cbn [obind].
            by rewrite (Hrun Hf'), omap_app, app_assoc. }
      destruct (Hall (c0 :: cs0) [] Hnd H0) as (es & Hn & Hk & Hrun). exists es. split; [done|]. split; [|exact Hrun].
      intros k. rewrite Hk. unfold in_classes. naive_solver. }
  assert (Forall readable es) as Hf by (apply Forall_forall; intros k [? ?]%Hmem; by apply Hread).
  rewrite (Hrun Hf). exists (omap keepEdge es). split; [done|]. split; [by apply NoDup_kept|].
  intros x r. rewrite elem_of_kept. setoid_rewrite Hmem. naive_solver.
Qed.
End edges.

(** ** Conditions on the edges of a vertex *)
Lemma validateProperty_resolve infos name :
  Forall (typed name) infos ->
  validateProperty infos name =
    (let* type := ofold (resolveType name) infos PT_UNDEFINED in
     if bool_decide (type = PT_UNDEFINED) then Throw NOGDB_CTX_NOEXST_PROPERTY else Ok type).
Proof.
  intros Hty. unfold validateProperty.
  set (h := fun type : PropertyType => (type, negb (bool_decide (type = PT_UNDEFINED)))).
  assert (forall type, ofold (validateOne name) infos (h type) = ofmap h (ofold (resolveType name) infos type)) as Hsim.
  { apply (ofold_sim h). intros info ty Hin. rewrite Forall_forall in Hty. specialize (Hty info Hin). unfold typed in Hty.
    unfold validateOne, resolveType, h. cbn [fst].
    destruct (nameToDesc (ci_propertyInfo info) !! name) as [pd|] eqn:Ed; [|done].
    destruct (decide (ty = PT_UNDEFINED)) as [->|Hu].
    { rewrite (bool_decide_true (PT_UNDEFINED = PT_UNDEFINED)) by done. unfold ofmap. cbn [obind]. by rewrite (bool_decide_false (pd_type pd = PT_UNDEFINED)) by (by apply Hty). }
    rewrite !(bool_decide_false (ty = PT_UNDEFINED)) by done. destruct (bool_decide (ty = pd_type pd)); [|done].
    cbn [ofmap obind]. by rewrite bool_decide_false. }
  specialize (Hsim PT_UNDEFINED). unfold h in Hsim at 1. rewrite bool_decide_true in Hsim by done. cbn [negb] in Hsim. rewrite Hsim.
  destruct (ofold (resolveType name) infos PT_UNDEFINED) as [type|e|]; [|done|done]. cbn. by case_bool_decide.
Qed.

Section conditions.
Context (regex_match : list byte -> list byte -> Outcome bool) (s : Schema) (g : Graph) (t : BaseTxn).
Context (records : ClassId -> list (PositionId * list byte)) (ptr_order : gset Loc -> list Loc).

(** C38. Selecting the edges of a vertex by a condition on a property of the
    classes of the filter: a property no class has is reported, classes that
    disagree on its type are reported, and otherwise the result holds, once
    each, exactly the edges of the map at the vertex whose records satisfy the
    condition. *)
Theorem edge_condition_exact E dir d l c f x infos :
  repr g t E -> vvis g t (rd_rid d) l -> getClassDescriptor s t (rd_rid d).1 VERTEX = Ok x ->
  edgeClassInfos s t ptr_order (edgeClassFuncOf g t dir) (rd_rid d) f = Ok infos ->
  classes_ok (ci_id <$> infos) -> Forall (typed (propName c)) infos ->
  let run := compareEdgeCondition regex_match s g t records ptr_order d (edgeFuncOf g t dir) (edgeClassFuncOf g t dir) c f in
  ((forall info, info ∈ infos -> nameToDesc (ci_propertyInfo info) !! propName c = None) ->
   run = Throw NOGDB_CTX_NOEXST_PROPERTY) /\
  (forall i1 i2, i1 ∈ infos -> i2 ∈ infos -> typeIn (propName c) i1 <> PT_UNDEFINED ->
     typeIn (propName c) i2 <> PT_UNDEFINED -> typeIn (propName c) i1 <> typeIn (propName c) i2 ->
   run = Throw NOGDB_CTX_CONFLICT_PROPTYPE) /\
  (forall type info0, info0 ∈ infos -> typeIn (propName c) info0 = type -> type <> PT_UNDEFINED ->
     (forall info, info ∈ infos -> typeIn (propName c) info = PT_UNDEFINED \/ typeIn (propName c) info = type) ->
     (forall k, touches dir E (rd_rid d) k -> k.1 ∈ (ci_id <$> infos) ->
        readable s t records (checkCondition regex_match c type) k) ->
   exists res, run = Ok res /\ NoDup (res.*1) /\
     forall y r, (y, r) ∈ res <-> exists k, y = rdescOf k /\ touches dir E (rd_rid d) k /\ k.1 ∈ (ci_id <$> infos) /\
       retrieveRecord s t records k = Ok r /\ checkCondition regex_match c type r = Ok true).
Proof.
  intros Hr Hl Hx Hinfos Hok Hty run. subst run. unfold compareEdgeCondition. rewrite Hx. cbn [obind].
  rewrite Hinfos. cbn [obind]. rewrite (validateProperty_resolve infos (propName c) Hty).
  pose proof (resolveTypes_spec (propName c) infos PT_UNDEFINED Hty) as Hres.
  destruct (ofold (resolveType (propName c)) infos PT_UNDEFINED) as [type|e|] eqn:Ef; [| |done]; cbn [obind].
  - destruct Hres as (_ & Hsome & Hall). split_and!.
    + intros Hnone. destruct Hsome as [->|(i & Hi & <-)]; [done|]. unfold typeIn. by rewrite (Hnone i Hi).
    + intros i1 i2 H1 H2 Hu1 Hu2 Hne.
      destruct (Hall i1 H1) as [?|?]; [done|]. destruct (Hall i2 H2) as [?|?]; [done|]. congruence.
    + intros type' i Hi Hit Hu _ Hread. destruct (Hall i Hi) as [?|Ht]; [congruence|].
      assert (type = type') as -> by congruence. rewrite bool_decide_false by done. cbn [obind].
      assert (ci_id <$> infos <> []) as Hne by (destruct infos; [by apply elem_of_nil in Hi|done]).
      assert (forall k, in_classes (ci_id <$> infos) k <-> k.1 ∈ (ci_id <$> infos)) as Hin
        by (intros k; unfold in_classes; naive_solver).
      destruct (edgesWhere_spec s g t records (checkCondition regex_match c type') E dir d l (ci_id <$> infos) Hr Hl Hok)
        as (res & Hrun & Hnd & Hmem); [intros k Hk Hc%Hin; by apply Hread|].
      exists res. split; [exact Hrun|]. split; [done|]. intros y r. rewrite Hmem. by setoid_rewrite Hin.
  - destruct Hres as [-> (i & Hi & Hiu & Hrest)]. split_and!; [|done|].
    + intros Hnone. destruct Hiu. unfold typeIn. by rewrite (Hnone i Hi).
    + intros type' i' _ _ _ Hall _. destruct Hrest as [[_ ?]|(i2 & Hi2 & Hu2 & Hne)]; [done|].
      destruct (Hall i Hi) as [?|?], (Hall i2 Hi2) as [?|?]; congruence.
Qed.

(** A stored vertex that is in no relation: the plain query has no edges to
    return, the query with a condition and no filter is an error. *)
Lemma condition_needs_memory d c x v vs :
  getClassDescriptor s t (rd_rid d).1 VERTEX = Ok x -> lookupVertex g t (rd_rid d) = None ->
  dsGet records (rd_rid d) = Some (v :: vs) ->
  getInEdge s g t records ptr_order d (newClassFilter []) = Ok [] /\
  getInEdgeWhere regex_match s g t records ptr_order d c (newClassFilter []) = Throw NOGDB_GRAPH_NOEXST_VERTEX.
Proof.
  intros Hx Hl Hd. unfold getInEdge, edgesOfVertex, getInEdgeWhere, compareEdgeCondition. rewrite Hx. cbn [obind].
  assert (classFilterNames (newClassFilter []) = []) as Hf by (vm_compute; reflexivity).
  unfold getEdgeClassId, edgeClassInfos. rewrite !Hf. cbn [getMultipleClassDescriptorByName obind].
  assert (getEdgeClassIn g t (rd_rid d) = Throw NOGDB_GRAPH_NOEXST_VERTEX) as Hc
    by (unfold getEdgeClassIn, withVertex; by rewrite Hl).
  split; [|by rewrite Hc].
  unfold getEdgeNeighbour, checkIfRecordExist. by rewrite Hl, Hd.
Qed.

(** The cursor of a class lists the records [get] returns, when it returns. *)
Lemma cursor_of_class type className res :
  getOfClass s t records ptr_order type className = Ok res ->
  getCursorOfClass s t records ptr_order type className = Ok (newCursor res.*1).
Proof.
  unfold getCursorOfClass, rdescOfClass, getOfClass.
  destruct (getMultipleClassDescriptorByName _ _ _ _ _) as [classes|e|]; [|done|done]. cbn [obind].
  assert (forall info recs, getRecordFromClassInfo records info = Ok recs -> recs.*1 = getRdescFromClassInfo records info) as Hone.
  { intros info. unfold getRecordFromClassInfo, getRdescFromClassInfo. generalize (records (ci_id info)).
    assert (forall rows acc recs,
      ofold (fun res kv => if (kv.1 =? EM_MAXRECNUM)%Z then Ok res
             else let* r := parseRawDataWithBasicInfo (bytes_of_string (ci_name info)) (ci_id info, kv.1) (Some kv.2) (ci_propertyInfo info) in
                  Ok (res ++ [(rdescOf (ci_id info, kv.1), r)])) rows acc = Ok recs ->
      recs.*1 = acc.*1 ++ omap (fun kv => if (kv.1 =? EM_MAXRECNUM)%Z then None else Some (rdescOf (ci_id info, kv.1))) rows) as H.
    { induction rows as [|kv rows IH]; intros acc recs; cbn [ofold omap list_omap].
      - intros [= <-]. by rewrite app_nil_r.
      - destruct (kv.1 =? EM_MAXRECNUM)%Z; [apply IH|].
        destruct (parseRawDataWithBasicInfo _ _ _ _) as [r|e|]; [|done|done]. cbn [obind].
        intros ->%IH. by rewrite fmap_app, <- app_assoc. }
    intros rows recs ->%H. done. }
  generalize (ptr_order classes). intros ls.
  change (@nil RecordDescriptor) with ((@nil Result).*1). generalize (@nil Result). intros acc. revert acc.
  induction ls as [|l ls IH]; intros acc; cbn [ofold]; [by intros [= <-]|].
  destruct (sheap s !! l) as [c|]; [|apply IH].
  destruct (infoNamed s t className c) as [info|e|]; [|done|done]. cbn [obind].
  destruct (getRecordFromClassInfo records info) as [recs|e|] eqn:Er; [|done|done]. cbn [obind].
  rewrite <- (Hone _ _ Er), <- fmap_app. apply IH.
Qed.
End conditions.
