(* ===== verification/SqlLexer.v ===== *)
(** * The SQL lexer

    Model of the first part of SQL (src/src/sql.cpp): the tokens of a
    statement, their values, and the loop of [SQL::execute] that feeds the
    parser.  A text is a C string, its bytes with the terminator; a read past
    the terminator is undefined behaviour.  The parser is generated from
    sql_parser.y by a tool: it is a parameter. *)

From stdpp Require Import base gmap sets list strings sorting.
From Stdlib Require Import ZArith Lia.
From S2P Require Import Prelude.
From S2P Require Import Types.
From S2P Require Import Blob.
From S2P Require Import Compare.

(** ** Tokens *)
Inductive Tok :=
| TK_SPACE | TK_ILLEGAL | TK_SIGNED | TK_UNSIGNED | TK_FLOAT | TK_STRING | TK_BLOB | TK_IDENTITY
| TK_LP | TK_RP | TK_SEMI | TK_STAR | TK_EQ | TK_NE | TK_LT | TK_LE | TK_GT | TK_GE | TK_COMMA
| TK_DOT | TK_LB | TK_RB | TK_SHARP | TK_COLON | TK_AT | TK_ALTER | TK_AND | TK_AS | TK_ASC
| TK_BEGIN | TK_BY | TK_CASE | TK_CLASS | TK_CONTAIN | TK_CREATE | TK_DELETE | TK_DESC | TK_DROP
| TK_EDGE | TK_END | TK_EXISTS | TK_EXTENDS | TK_FROM | TK_GROUP | TK_IF | TK_INDEX | TK_IS
| TK_LIKE | TK_LIMIT | TK_MAXDEPTH | TK_MINDEPTH | TK_NOT | TK_NULL | TK_OR | TK_ORDER
| TK_PROPERTY | TK_SELECT | TK_SET | TK_SKIP | TK_STRATEGY | TK_TO | TK_TRAVERSE | TK_UPDATE
| TK_VERTEX | TK_WHERE | TK_WITH | TK_REGEX | TK_BETWEEN.

(** A token: its text and its type.  The code keeps a pointer into the
    statement and a length, so the text behind the token, up to and with the
    terminator, can be read through it too. *)
Record Token := mkToken { tok_z : list byte; tok_t : Tok; tok_after : list byte }.

(** ** Characters *)
Definition isdigit (c : byte) : bool := ((48 <=? c) && (c <=? 57))%Z.
Definition isalpha (c : byte) : bool := (((65 <=? c) && (c <=? 90)) || ((97 <=? c) && (c <=? 122)))%Z.
Definition isalnum (c : byte) : bool := isdigit c || isalpha c.
Definition isxdigit (c : byte) : bool :=
  isdigit c || (((65 <=? c) && (c <=? 70)) || ((97 <=? c) && (c <=? 102)))%Z.

(** The class of each byte. *)
Definition aiClass : list Z :=
  [27; 27; 27; 27; 27; 27; 27; 27; 27; 7; 7; 27; 7; 7; 27; 27;
   27; 27; 27; 27; 27; 27; 27; 27; 27; 27; 27; 27; 27; 27; 27; 27;
   7; 15; 8; 5; 4; 22; 24; 8; 17; 18; 21; 20; 23; 11; 26; 16;
   3; 3; 3; 3; 3; 3; 3; 3; 3; 3; 5; 19; 12; 14; 13; 6;
   5; 1; 1; 1; 1; 1; 1; 1; 1; 1; 1; 1; 1; 1; 1; 1;
   1; 1; 1; 1; 1; 1; 1; 1; 0; 1; 1; 9; 27; 9; 27; 1;
   8; 1; 1; 1; 1; 1; 1; 1; 1; 1; 1; 1; 1; 1; 1; 1;
   1; 1; 1; 1; 1; 1; 1; 1; 0; 1; 1; 27; 10; 27; 25; 27;
   2; 2; 2; 2; 2; 2; 2; 2; 2; 2; 2; 2; 2; 2; 2; 2;
   2; 2; 2; 2; 2; 2; 2; 2; 2; 2; 2; 2; 2; 2; 2; 2;
   2; 2; 2; 2; 2; 2; 2; 2; 2; 2; 2; 2; 2; 2; 2; 2;
   2; 2; 2; 2; 2; 2; 2; 2; 2; 2; 2; 2; 2; 2; 2; 2;
   2; 2; 2; 2; 2; 2; 2; 2; 2; 2; 2; 2; 2; 2; 2; 2;
   2; 2; 2; 2; 2; 2; 2; 2; 2; 2; 2; 2; 2; 2; 2; 2;
   2; 2; 2; 2; 2; 2; 2; 2; 2; 2; 2; 2; 2; 2; 2; 2;
   2; 2; 2; 2; 2; 2; 2; 2; 2; 2; 2; 2; 2; 2; 2; 2]%Z.
Definition CC_X : Z := 0.
Definition CC_KYWD : Z := 1.
Definition CC_ID : Z := 2.
Definition CC_DIGIT : Z := 3.
Definition CC_DOLLAR : Z := 4.
Definition CC_VARALPHA : Z := 5.
Definition CC_VARNUM : Z := 6.
Definition CC_SPACE : Z := 7.
Definition CC_QUOTE : Z := 8.
Definition CC_BRACKET : Z := 9.
Definition CC_PIPE : Z := 10.
Definition CC_MINUS : Z := 11.
Definition CC_LT : Z := 12.
Definition CC_GT : Z := 13.
Definition CC_EQ : Z := 14.
Definition CC_BANG : Z := 15.
Definition CC_SLASH : Z := 16.
Definition CC_LP : Z := 17.
Definition CC_RP : Z := 18.
Definition CC_SEMI : Z := 19.
Definition CC_PLUS : Z := 20.
Definition CC_STAR : Z := 21.
Definition CC_PERCENT : Z := 22.
Definition CC_COMMA : Z := 23.
Definition CC_AND : Z := 24.
Definition CC_TILDA : Z := 25.
Definition CC_DOT : Z := 26.
Definition classOfChar (c : byte) : Z := nth (Z.to_nat c) aiClass 27%Z.

Definition IdChar (c : byte) : bool := (128 <=? c)%Z || isalnum c.

(** ** Keywords *)
Definition keywords : list (string * Tok) :=
  [("ALTER", TK_ALTER); ("AND", TK_AND); ("AS", TK_AS); ("ASC", TK_ASC); ("BEGIN", TK_BEGIN);
("BY", TK_BY); ("CASE", TK_CASE); ("CLASS", TK_CLASS); ("CONTAIN", TK_CONTAIN);
("CREATE", TK_CREATE); ("DELETE", TK_DELETE); ("DESC", TK_DESC); ("DROP", TK_DROP);
("EDGE", TK_EDGE); ("END", TK_END); ("EXISTS", TK_EXISTS); ("EXTENDS", TK_EXTENDS);
("FROM", TK_FROM); ("GROUP", TK_GROUP); ("IF", TK_IF); ("INDEX", TK_INDEX); ("IS", TK_IS);
("LIKE", TK_LIKE); ("LIMIT", TK_LIMIT); ("MAXDEPTH", TK_MAXDEPTH); ("MINDEPTH", TK_MINDEPTH);
("NOT", TK_NOT); ("NULL", TK_NULL); ("OR", TK_OR); ("ORDER", TK_ORDER);
("PROPERTY", TK_PROPERTY); ("SELECT", TK_SELECT); ("SET", TK_SET); ("SKIP", TK_SKIP);
("STRATEGY", TK_STRATEGY); ("TO", TK_TO); ("TRAVERSE", TK_TRAVERSE); ("UPDATE", TK_UPDATE);
("VERTEX", TK_VERTEX); ("WHERE", TK_WHERE); ("WITH", TK_WITH)].

(** [strcasecmp] of two texts is zero. *)
Definition equalNoCase (a b : list byte) : bool := bool_decide (toLower a = toLower b).

Fixpoint lookupNoCase {A} (l : list (string * A)) (name : list byte) : option A :=
  match l with
  | [] => None
  | (k, x) :: l' => if equalNoCase (bytes_of_string k) name then Some x else lookupNoCase l' name
  end.

Definition keywordCode (z : list byte) : Tok :=
  match lookupNoCase keywords z with Some t => t | None => TK_IDENTITY end.

(** ** Reading the text *)
Definition at_ (z : list byte) (i : nat) : Outcome byte := match z !! i with Some c => Ok c | None => UB end.

(** [for (i = k; P(z[i]); i++) {}] *)
Fixpoint scan (P : byte -> bool) (l : list byte) : Outcome nat :=
  match l with
  | [] => UB
  | c :: l' => if P c then let* n := scan P l' in Ok (S n) else Ok 0
  end.
Definition scanFrom (P : byte -> bool) (k : nat) (z : list byte) : Outcome nat :=
  let* n := scan P (drop k z) in Ok (k + n).

(** The loop over a quoted text: the index of the closing delimiter, or of the
    terminator.  After a backslash one byte is skipped, whatever it is. *)
Fixpoint scanQuote (delim : byte) (i : nat) (l : list byte) : Outcome nat :=
  match l with
  | [] => UB
  | c :: l' =>
      if (c =? 0)%Z then Ok i
      else if (c =? 92)%Z then match l' with [] => UB | _ :: l'' => scanQuote delim (2 + i) l'' end
      else if (c =? delim)%Z then Ok i
      else scanQuote delim (S i) l'
  end.

(** A token that begins with a digit. *)
Definition numberToken (z : list byte) : Outcome (nat * Tok) :=
  let* c0 := at_ z 0 in
  let* hex :=
    if (c0 =? 48)%Z then
      let* c1 := at_ z 1 in
      if ((c1 =? 120) || (c1 =? 88))%Z then let* c2 := at_ z 2 in Ok (isxdigit c2) else Ok false
    else Ok false in
  if (hex : bool) then let* i := scanFrom isxdigit 3 z in Ok (i, TK_UNSIGNED)
  else
    let* i := scanFrom isdigit 0 z in
    let* c := at_ z i in
    let* (i, t) := if (c =? 46)%Z then let* i := scanFrom isdigit (S i) z in Ok (i, TK_FLOAT)
                   else Ok (i, TK_UNSIGNED) in
    let* c := at_ z i in
    let* e :=
      if ((c =? 101) || (c =? 69))%Z then
        let* d := at_ z (S i) in
        if isdigit d then Ok true
        else if ((d =? 43) || (d =? 45))%Z then let* d2 := at_ z (2 + i) in Ok (isdigit d2)
        else Ok false
      else Ok false in
    let* (i, t) := if (e : bool) then let* i := scanFrom isdigit (2 + i) z in Ok (i, TK_FLOAT) else Ok (i, t) in
    let* j := scanFrom IdChar i z in
    Ok (j, if bool_decide (i < j) then TK_ILLEGAL else t).

Definition identifier (i : nat) (z : list byte) : Outcome (option (nat * Tok)) :=
  let* i := scanFrom IdChar i z in Ok (Some (i, TK_IDENTITY)).

(** A literal of bytes, [x'...']. *)
Definition blobToken (z : list byte) : Outcome (nat * Tok) :=
  let* i := scanFrom isxdigit 2 z in
  let* c := at_ z i in
  let* (i, t) :=
    if negb (c =? 39)%Z || Nat.odd i then
      let* i := scanFrom (fun c => negb (c =? 0)%Z && negb (c =? 39)%Z) i z in Ok (i, TK_ILLEGAL)
    else Ok (i, TK_BLOB) in
  let* c := at_ z i in
  Ok (if (c =? 0)%Z then i else S i, t).

(** The length and the type of the token at the head of the text; [None] is
    the length -1. *)
Fixpoint getTokenID (z : list byte) : Outcome (option (nat * Tok)) :=
  match z with
  | [] => UB
  | c :: z' =>
      let k := classOfChar c in
      let one t := Ok (Some (1, t)) in
      if (k =? CC_SPACE)%Z then
        let* i := scanFrom (fun c => classOfChar c =? CC_SPACE)%Z 1 z in Ok (Some (i, TK_SPACE))
      else if (k =? CC_MINUS)%Z then
        let* c1 := at_ z 1 in
        if negb (classOfChar c1 =? CC_DIGIT)%Z then Ok None
        else
          let* r := getTokenID z' in
          match r with
          | Some (i, t) => Ok (Some (S i, match t with TK_UNSIGNED => TK_SIGNED | _ => t end))
          | None => UB
          end
      else if (k =? CC_LP)%Z then one TK_LP
      else if (k =? CC_RP)%Z then one TK_RP
      else if (k =? CC_SEMI)%Z then one TK_SEMI
      else if (k =? CC_STAR)%Z then one TK_STAR
      else if (k =? CC_EQ)%Z then
        let* c1 := at_ z 1 in Ok (Some (if (c1 =? 61)%Z then 2 else 1, TK_EQ))
      else if (k =? CC_LT)%Z then
        let* c1 := at_ z 1 in
        Ok (Some (if (c1 =? 61)%Z then (2, TK_LE) else if (c1 =? 62)%Z then (2, TK_NE) else (1, TK_LT)))
      else if (k =? CC_GT)%Z then
        let* c1 := at_ z 1 in Ok (Some (if (c1 =? 61)%Z then (2, TK_GE) else (1, TK_GT)))
      else if (k =? CC_BANG)%Z then
        let* c1 := at_ z 1 in Ok (Some (if (c1 =? 61)%Z then (2, TK_NE) else (1, TK_ILLEGAL)))
      else if (k =? CC_COMMA)%Z then one TK_COMMA
      else if (k =? CC_QUOTE)%Z then
        let* i := scanQuote c 1 z' in
        let* d := at_ z i in
        Ok (Some (if ((d =? 39) || (d =? 34))%Z then (S i, TK_STRING)
                  else if negb (d =? 0)%Z then (S i, TK_IDENTITY) else (i, TK_ILLEGAL)))
      else if (k =? CC_DOT)%Z then one TK_DOT
      else if (k =? CC_DIGIT)%Z then let* r := numberToken z in Ok (Some r)
      else if (k =? CC_BRACKET)%Z then one (if (c =? 91)%Z then TK_LB else TK_RB)
      else if (k =? CC_VARALPHA)%Z then
        if (c =? 35)%Z then one TK_SHARP
        else if (c =? 58)%Z then one TK_COLON
        else if (c =? 64)%Z then one TK_AT
        else Ok None
      else if (k =? CC_KYWD)%Z then
        let* i := scanFrom (fun c => classOfChar c <=? CC_KYWD)%Z 1 z in
        let* d := at_ z i in
        if IdChar d then identifier (S i) z else Ok (Some (i, keywordCode (take i z)))
      else if (k =? CC_X)%Z then
        let* c1 := at_ z 1 in
        if (c1 =? 39)%Z then let* r := blobToken z in Ok (Some r) else identifier 1 z
      else if (k =? CC_ID)%Z then identifier 1 z
      else Ok None
  end.

(** ** Values *)

(** [dequote] works in place behind the position it reads. *)
Fixpoint dequoteLoop (quote : byte) (l : list byte) : Outcome (list byte) :=
  match l with
  | [] => UB
  | c :: l' =>
      require (negb (c =? 0)%Z) ;;;
      if (c =? quote)%Z then Ok []
      else if (c =? 92)%Z then
        match l' with
        | [] => UB
        | d :: l'' =>
            let* r := dequoteLoop quote l'' in
            Ok (if (d =? quote)%Z then quote :: r else if (d =? 92)%Z then 92%Z :: r else c :: d :: r)
        end
      else let* r := dequoteLoop quote l' in Ok (c :: r)
  end.
Definition dequote (z : list byte) : Outcome (list byte) :=
  match z with
  | [] => Ok []
  | q :: z' =>
      if ((q =? 34) || (q =? 39) || (q =? 96) || (q =? 91))%Z
      then dequoteLoop (if (q =? 91)%Z then 93%Z else q) (z' ++ [0%Z])
      else Ok z
  end.
Definition tokenString (t : Token) : Outcome (list byte) := dequote (tok_z t).

Definition HexToInt (h : byte) : Z := Z.land (h + 9 * Z.land 1 (Z.shiftr h 6)) 15.
Fixpoint HexToBlob (z : list byte) : list byte :=
  match z with
  | a :: b :: z' => Z.lor (Z.shiftl (HexToInt a) 4) (HexToInt b) :: HexToBlob z'
  | _ => []
  end.

(** [std::stoull] and [std::stoll] in base ten: the digits up to the first
    other character. *)
Fixpoint leadingDigits (z : list byte) : list byte :=
  match z with c :: z' => if isdigit c then c :: leadingDigits z' else [] | [] => [] end.
Definition stoull (z : list byte) : Outcome Z :=
  let v := stoul (leadingDigits z) in
  if (v <=? UINT64_MAX)%Z then Ok v else Throw STD_OUT_OF_RANGE.
Definition stoll (z : list byte) : Outcome Z :=
  match z with
  | 45%Z :: z' =>
      let v := (- stoul (leadingDigits z'))%Z in if (- 2 ^ 63 <=? v)%Z then Ok v else Throw STD_OUT_OF_RANGE
  | _ => let v := stoul (leadingDigits z) in if (v <? 2 ^ 63)%Z then Ok v else Throw STD_OUT_OF_RANGE
  end.

(** [Token::toBytes]; a number with a fraction or an exponent is read by
    [stod], whose result is the eight bytes of the number. *)
Definition tokenBytes (stod : list byte -> Outcome (list byte)) (t : Token) : Outcome (list byte * PropertyType) :=
  match tok_t t with
  | TK_NULL => Ok ([], PT_UNDEFINED)
  | TK_FLOAT => let* b := stod (tok_z t) in Ok (b, REAL)
  | TK_STRING => let* s := tokenString t in Ok (cstr s, TEXT)
  | TK_SIGNED => let* v := stoll (tok_z t) in Ok (le_bytes 8 v, BIGINT)
  | TK_UNSIGNED => let* v := stoull (tok_z t) in Ok (le_bytes 8 v, UNSIGNED_BIGINT)
  | TK_BLOB => Ok (HexToBlob (take (length (tok_z t) - 3) (drop 2 (tok_z t))), BLOB)
  | _ => require false ;;; Ok ([], PT_UNDEFINED)
  end.

(** ** [SQL::execute]

    The parser takes a token type ([None] is the end of the input, zero), a
    text and what stands behind it, and may stop with an error.  After the text it is given a semicolon,
    unless the text ends with one, and the end; their text is that of the last
    token. *)
Section execute.
Context {P R : Type} (parse : P -> option Tok -> list byte -> list byte -> P).
Context (rc : P -> option Error) (result : P -> R).

Definition feed (p : P) (t : option Tok) (z after : list byte) : Outcome P :=
  let p' := parse p t z after in match rc p' with Some e => Throw e | None => Ok p' end.

Fixpoint executeLoop (fuel : nat) (p : P) (z prev : list byte) (last : option (option Tok)) : Outcome P :=
  match fuel with
  | O => UB
  | S fuel =>
      let* c := at_ z 0 in
      if (c =? 0)%Z then
        match last with
        | Some None => Ok p
        | Some (Some TK_SEMI) => let* p' := feed p None prev z in executeLoop fuel p' z prev (Some None)
        | _ => let* p' := feed p (Some TK_SEMI) prev z in executeLoop fuel p' z prev (Some (Some TK_SEMI))
        end
      else
        let* r := getTokenID z in
        match r with
        | None | Some (_, TK_ILLEGAL) => Throw NOGDB_SQL_UNRECOGNIZED_TOKEN
        | Some (n, TK_SPACE) => executeLoop fuel p (drop n z) (take n z) last
        | Some (n, t) =>
            let* p' := feed p (Some t) (take n z) (drop n z) in executeLoop fuel p' (drop n z) (take n z) (Some (Some t))
        end
  end.

Definition execute (p : P) (sql : list byte) : Outcome R :=
  let z := cstr sql in
  let* p' := executeLoop (3 + length z) p (z ++ [0%Z]) [] None in Ok (result p').
End execute.
