(* ===== verification/SqlSpec.v ===== *)
(** * What the SQL lexer does

    Every token is a part of the text, a statement is read to its end, and the
    literals of texts, numbers and bytes are read as what they were written
    for.  Three inputs it gets wrong are shown at the end. *)

From stdpp Require Import base gmap sets list strings sorting.
From Stdlib Require Import ZArith Lia.
From S2P Require Import Prelude.
From S2P Require Import Types.
From S2P Require Import Blob.
From S2P Require Import Compare.
From S2P Require Import SqlLexer.

(** The bytes of a C string, without the terminator. *)
Definition text_ok (l : list byte) : Prop := Forall (fun c => c <> 0%Z) l.
Abbreviation terminated l := (l ++ [0%Z]).

Lemma at_terminated l i : i <= length l -> exists c, at_ (terminated l) i = Ok c /\ (c = 0%Z \/ i < length l).
Proof.
  intros Hi. unfold at_. destruct (decide (i < length l)) as [Hlt|Hge].
  - destruct (lookup_lt_is_Some_2 (terminated l) i) as [c Hc]; [rewrite length_app; lia|]. rewrite Hc. eauto.
  - replace i with (length l) by lia. rewrite list_lookup_middle by done. eauto.
Qed.

Lemma scan_terminated P l : P 0%Z = false -> exists n, scan P (terminated l) = Ok n /\ n <= length l.
Proof.
  intros HP. induction l as [|c l (n & Hn & Hle)]; cbn [app scan].
  - rewrite HP. by exists 0.
  - destruct (P c); [|exists 0; cbn; split; [done|lia]]. rewrite Hn. cbn. exists (S n). split; [done|lia].
Qed.

Lemma scanFrom_terminated P k l : P 0%Z = false -> k <= length l ->
  exists n, scanFrom P k (terminated l) = Ok n /\ k <= n <= length l.
Proof.
  intros HP Hk. unfold scanFrom. rewrite drop_app_le by done.
  destruct (scan_terminated P (drop k l) HP) as (n & -> & Hn). rewrite length_drop in Hn. cbn. exists (k + n). split; [done|lia].
Qed.

(** The head of the text decides the rest. *)
Ltac scan_step :=
  match goal with
  | |- context [scanFrom ?P ?k (terminated ?l)] =>
      let n := fresh "n" in let Hn := fresh "Hn" in
      destruct (scanFrom_terminated P k l eq_refl) as (n & -> & Hn); [cbn in *; lia|]; cbn [obind]
  | |- context [at_ (terminated ?l) ?i] =>
      let c := fresh "c" in let Hc := fresh "Hc" in
      destruct (at_terminated l i) as (c & -> & Hc); [cbn in *; lia|]; cbn [obind]
  end.

Lemma scanQuote_terminated delim l : forall i,
  match scanQuote delim i (terminated l) with
  | Ok n => i <= n <= i + length l
  | Throw _ => False
  | UB => last l = Some 92%Z
  end.
Proof.
  induction l as [l IH] using (induction_ltof1 _ (@length Z)). unfold ltof in IH. intros i.
  destruct l as [|c l]; cbn [app scanQuote]; [cbn; lia|].
  destruct (c =? 0)%Z; [cbn; lia|]. destruct (Z.eqb_spec c 92) as [->|_].
  - destruct l as [|d l]; cbn [app]; [done|]. specialize (IH l ltac:(cbn; lia) (2 + i)).
    destruct (scanQuote delim (2 + i) (terminated l)) as [n|e|]; [cbn [length]; lia|done|].
    destruct l as [|x l]; [by cbn in IH|]. done.
  - destruct (c =? delim)%Z; [cbn; lia|]. specialize (IH l ltac:(cbn; lia) (S i)).
    destruct (scanQuote delim (S i) (terminated l)) as [n|e|]; [cbn [length]; lia|done|].
    destruct l as [|x l]; [by cbn in IH|]. done.
Qed.

Ltac split_char :=
  match goal with
  | |- context [(?c =? ?k)%Z] => destruct (Z.eqb_spec c k); cbn [orb andb negb obind]
  end.

Lemma numberToken_total c l : isdigit c = true ->
  exists n t, numberToken (terminated (c :: l)) = Ok (n, t) /\ 1 <= n <= length (c :: l).
Proof.
  intros Hd. unfold numberToken.
  assert (forall n, scanFrom isdigit 0 (terminated (c :: l)) = Ok n -> 1 <= n) as Hpos.
  { intros n. unfold scanFrom. cbn [drop app scan]. rewrite Hd. destruct (scan _ _); cbn; [|done|done]. intros [= <-]. lia. }
  assert (exists b, (let* c0 := at_ (terminated (c :: l)) 0 in
      if (c0 =? 48)%Z then
        let* c1 := at_ (terminated (c :: l)) 1 in
        if ((c1 =? 120) || (c1 =? 88))%Z then let* c2 := at_ (terminated (c :: l)) 2 in Ok (isxdigit c2) else Ok false
      else Ok false) = Ok b /\ (b = true -> 3 <= length (c :: l))) as (b & Hb & Hlen).
  { repeat (scan_step || split_char); eexists; (split; [reflexivity|]); try done;
      intros Hx; assert (c2 <> 0%Z) by (intros ->; done); lia. }
  revert Hb. destruct (at_terminated (c :: l) 0) as (c0 & -> & _); [lia|]. cbn [obind]. intros ->. cbn [obind].
  destruct b; [repeat scan_step; eexists _, _; split; [reflexivity|]; specialize (Hlen eq_refl); lia|].
  destruct (scanFrom_terminated isdigit 0 (c :: l) eq_refl) as (n0 & Hn0 & Hle0); [lia|]. apply Hpos in Hn0 as Hp0.
  rewrite Hn0. cbn [obind]. clear Hpos Hn0 Hlen Hd.
  destruct (at_terminated (c :: l) n0) as (c1 & -> & Hc1); [lia|]. cbn [obind].
  assert (exists n1 t1, (if (c1 =? 46)%Z then let* i := scanFrom isdigit (S n0) (terminated (c :: l)) in Ok (i, TK_FLOAT)
      else Ok (n0, TK_UNSIGNED)) = Ok (n1, t1) /\ n0 <= n1 <= length (c :: l)) as (n1 & t1 & -> & Hn1).
  { repeat (split_char || scan_step); eexists _, _; (split; [reflexivity|lia]). }
  cbn [obind]. destruct (at_terminated (c :: l) n1) as (c2 & -> & Hc2); [lia|]. cbn [obind].
  assert (exists b, (if ((c2 =? 101) || (c2 =? 69))%Z then
        let* d := at_ (terminated (c :: l)) (S n1) in
        if isdigit d then Ok true
        else if ((d =? 43) || (d =? 45))%Z then let* d2 := at_ (terminated (c :: l)) (2 + n1) in Ok (isdigit d2) else Ok false
      else Ok false) = Ok b /\ (b = true -> 2 + n1 <= length (c :: l))) as (b & -> & Hlen).
  { repeat (split_char || scan_step); try (eexists; split; [reflexivity|done]).
    all: destruct (isdigit _) eqn:Ed; [eexists; split; [reflexivity|]; intros _;
      match goal with H : ?c = 0%Z \/ _ |- _ => destruct H as [->|]; [done|lia] end|].
    all: repeat (split_char || scan_step); eexists; (split; [reflexivity|]); try done; lia. }
  cbn [obind].
  assert (exists n2 t2, (if b then let* i := scanFrom isdigit (2 + n1) (terminated (c :: l)) in Ok (i, TK_FLOAT) else Ok (n1, t1)) =
      Ok (n2, t2) /\ n1 <= n2 <= length (c :: l)) as (n2 & t2 & -> & Hn2).
  { destruct b; [specialize (Hlen eq_refl); repeat scan_step|]; eexists _, _; (split; [reflexivity|lia]). }
  cbn [obind]. repeat scan_step. eexists _, _. split; [reflexivity|lia].
Qed.

(** ** Character classes *)
Lemma class_range (P : byte -> Z -> bool) c :
  forallb (fun c => P c (classOfChar c)) (seqZ 0 256) = true -> (0 <= c < 256)%Z -> P c (classOfChar c) = true.
Proof. intros Hall Hc. rewrite forallb_forall in Hall. apply Hall, list_elem_of_In, elem_of_seqZ. lia. Qed.

Lemma class_cases (P : byte -> Z -> bool) :
  forallb (fun c => P c (classOfChar c)) (seqZ 0 256) = true -> (forall c, P c 27%Z = true) -> forall c, P c (classOfChar c) = true.
Proof.
  intros Hall Hout c. destruct (decide (0 <= c < 256)%Z) as [Hc|Hc]; [by apply class_range|].
  replace (classOfChar c) with 27%Z; [apply Hout|]. unfold classOfChar.
  destruct (decide (c < 0)%Z) as [Hneg|Hge]; [by destruct c|].
  rewrite nth_overflow; [done|]. change (length aiClass) with 256. lia.
Qed.

Lemma class_digit c : classOfChar c = CC_DIGIT -> isdigit c = true.
Proof.
  intros Hc. pose proof (class_cases (fun c k => negb (k =? CC_DIGIT)%Z || isdigit c)) as H.
  specialize (H ltac:(vm_compute; reflexivity) ltac:(done) c). cbv beta in H. rewrite Hc in H. exact H.
Qed.

Lemma class_quote c : classOfChar c = CC_QUOTE -> c = 34%Z \/ c = 39%Z \/ c = 96%Z.
Proof.
  intros Hc.
  pose proof (class_cases (fun c k => negb (k =? CC_QUOTE)%Z || ((c =? 34) || (c =? 39) || (c =? 96))%Z)) as H.
  specialize (H ltac:(vm_compute; reflexivity) ltac:(done) c). cbv beta in H. rewrite Hc in H. cbn [negb orb] in H.
  rewrite Z.eqb_refl in H. cbn in H. lia.
Qed.

Lemma class_zero : classOfChar 0 = 27%Z.
Proof. vm_compute. reflexivity. Qed.

Lemma digit_class c : isdigit c = true -> classOfChar c = CC_DIGIT.
Proof.
  intros Hc. assert (0 <= c < 256)%Z as Hr by (unfold isdigit in Hc; lia).
  pose proof (class_range (fun c k => negb (isdigit c) || (k =? CC_DIGIT)%Z) c ltac:(vm_compute; reflexivity) Hr) as H.
  cbv beta in H. rewrite Hc in H. by apply Z.eqb_eq.
Qed.

(** ** Every token is a part of the text *)
Ltac split_class :=
  match goal with
  | |- context [(classOfChar ?c =? ?k)%Z] => destruct (Z.eqb_spec (classOfChar c) k) as [?Hclass|_]
  end.

Lemma digit_token c l : isdigit c = true ->
  getTokenID (terminated (c :: l)) = let* r := numberToken (terminated (c :: l)) in Ok (Some r).
Proof. intros Hc. apply digit_class in Hc. cbn [app getTokenID]. rewrite Hc. reflexivity. Qed.

(** Where it reads: the length of a token is positive and within the text; the
    only text read past its end is an open quotation that ends in a
    backslash. *)
Lemma token_in_text c l :
  match getTokenID (terminated (c :: l)) with
  | Ok (Some (n, t)) => 1 <= n <= length (c :: l)
  | Ok None => True
  | Throw _ => False
  | UB => (c = 34%Z \/ c = 39%Z \/ c = 96%Z) /\ last l = Some 92%Z
  end.
Proof.
  assert (forall i, 1 <= i <= length (c :: l) -> exists n, identifier i (terminated (c :: l)) = Ok (Some (n, TK_IDENTITY)) /\
    1 <= n <= length (c :: l)) as Hident.
  { intros i Hi. unfold identifier. destruct (scanFrom_terminated IdChar i (c :: l) eq_refl) as (n & -> & Hn); [lia|].
    eexists. split; [reflexivity|lia]. }
  change (terminated (c :: l)) with (c :: terminated l). cbn [getTokenID].
  change (c :: terminated l) with (terminated (c :: l)). cbv zeta.
  destruct (Z.eqb_spec (classOfChar c) CC_SPACE) as [Hs|_]; [repeat scan_step; lia|].
  destruct (Z.eqb_spec (classOfChar c) CC_MINUS) as [Hm|_].
  { destruct (at_terminated (c :: l) 1) as (c1 & Hc1 & _); [cbn; lia|]. rewrite Hc1. cbn [obind].
    destruct (Z.eqb_spec (classOfChar c1) CC_DIGIT) as [Hd|_]; cbn [negb]; [|done]. apply class_digit in Hd.
    destruct l as [|x l]; [injection Hc1 as <-; done|]. injection Hc1 as <-.
    rewrite (digit_token x l Hd). destruct (numberToken_total x l Hd) as (n & t & -> & Hn). cbn [obind length] in *. lia. }
  split_class; [cbn; lia|]. split_class; [cbn; lia|]. split_class; [cbn; lia|]. split_class; [cbn; lia|].
  split_class; [repeat (scan_step || split_char); cbn [length] in *; lia|].
  split_class; [repeat (scan_step || split_char); cbn [length] in *; lia|].
  split_class; [repeat (scan_step || split_char); cbn [length] in *; lia|].
  split_class; [repeat (scan_step || split_char); cbn [length] in *; lia|].
  split_class; [cbn; lia|].
  destruct (Z.eqb_spec (classOfChar c) CC_QUOTE) as [Hq|_].
  { apply class_quote in Hq. pose proof (scanQuote_terminated c l 1) as H.
    destruct (scanQuote c 1 (terminated l)) as [i|e|]; [|done|done]. cbn [obind].
    destruct (at_terminated (c :: l) i) as (d & -> & Hd); [cbn; lia|]. cbn [obind].
    repeat split_char; cbn [length] in *; lia. }
  split_class; [cbn; lia|].
  destruct (Z.eqb_spec (classOfChar c) CC_DIGIT) as [Hd|_].
  { apply class_digit in Hd. destruct (numberToken_total c l Hd) as (n & t & -> & Hn). cbn. exact Hn. }
  split_class; [cbn; lia|].
  split_class; [repeat split_char; cbn [length]; lia || done|].
  split_class.
  { scan_step. scan_step. destruct (IdChar c0) eqn:Eid; [|lia].
    destruct (Hident (S n)) as (m & -> & Hm); [|exact Hm]. destruct Hc as [->|]; [done|lia]. }
  split_class.
  { scan_step. split_char; [|destruct (Hident 1) as (m & -> & Hm); [cbn; lia|exact Hm]].
    unfold blobToken. assert (2 <= length (c :: l)) by lia. do 3 scan_step.
    match goal with |- context [negb ?b || Nat.odd ?k] => destruct (negb b || Nat.odd k) end; cbn [obind];
      scan_step; split_char; lia. }
  split_class; [destruct (Hident 1) as (m & -> & Hm); [cbn; lia|exact Hm]|done].
Qed.

(** ** A statement is read to its end *)

(** The tokens of a text, spaces included, and whether all of it was
    recognised. *)
Fixpoint lexAll (fuel : nat) (l : list byte) : list Token * bool :=
  match fuel, l with
  | _, [] => ([], true)
  | O, _ => ([], false)
  | S fuel, _ =>
      match getTokenID (terminated l) with
      | Ok (Some (n, TK_ILLEGAL)) => ([], false)
      | Ok (Some (n, t)) => let '(toks, complete) := lexAll fuel (drop n l) in (mkToken (take n l) t (terminated (drop n l)) :: toks, complete)
      | _ => ([], false)
      end
  end.

Lemma lexAll_cover fuel : forall l toks complete, lexAll fuel l = (toks, complete) ->
  concat (tok_z <$> toks) `prefix_of` l /\ (complete = true -> concat (tok_z <$> toks) = l).
Proof.
  induction fuel as [|fuel IH]; intros l toks complete; destruct l as [|c l]; cbn [lexAll];
    try (by intros [= <- <-]; split; [apply prefix_nil|]).
  destruct (getTokenID (terminated (c :: l))) as [[[n t]|]|e|]; try (by intros [= <- <-]; split; [apply prefix_nil|]).
  destruct (lexAll fuel (drop n (c :: l))) as [toks' complete'] eqn:E. apply IH in E as [Hp Hc].
  destruct t; try (by intros [= <- <-]; split; [apply prefix_nil|]);
    intros [= <- <-]; cbn [fmap list_fmap concat tok_z]; (split;
      [rewrite <- (take_drop n (c :: l)) at 2; by apply prefix_app|
       intros Hx; rewrite (Hc Hx); apply take_drop]).
Qed.

Section execute.
Context {P R : Type} (parse : P -> option Tok -> list byte -> list byte -> P).
Context (rc : P -> option Error) (result : P -> R).

Definition feedAll (p : P) (toks : list Token) : Outcome P :=
  ofold (fun p t => match tok_t t with TK_SPACE => Ok p | x => feed parse rc p (Some x) (tok_z t) (tok_after t) end) toks p.
Definition lastType (last : option (option Tok)) (toks : list Token) : option (option Tok) :=
  foldl (fun a t => match tok_t t with TK_SPACE => a | x => Some (Some x) end) last toks.
Definition lastText (prev : list byte) (toks : list Token) : list byte := foldl (fun _ t => tok_z t) prev toks.
(** The semicolon, when it is missing, and the end. *)
Definition closing (p : P) (prev : list byte) (last : option (option Tok)) : Outcome P :=
  match last with
  | Some None => Ok p
  | Some (Some TK_SEMI) => feed parse rc p None prev [0%Z]
  | _ => let* p' := feed parse rc p (Some TK_SEMI) prev [0%Z] in feed parse rc p' None prev [0%Z]
  end.

Lemma loop_end fuel p prev last : executeLoop parse rc (3 + fuel) p [0%Z] prev last = closing p prev last.
Proof.
  assert (forall p fuel, executeLoop parse rc (S fuel) p [0%Z] prev (Some None) = Ok p) as H0 by done.
  assert (forall p fuel, executeLoop parse rc (2 + fuel) p [0%Z] prev (Some (Some TK_SEMI)) = feed parse rc p None prev [0%Z]) as H1.
  { intros q f. change (executeLoop parse rc (2 + f) q [0%Z] prev (Some (Some TK_SEMI))) with
      (let* p' := feed parse rc q None prev [0%Z] in executeLoop parse rc (S f) p' [0%Z] prev (Some None)).
    by destruct (feed parse rc q None prev [0%Z]). }
  destruct last as [[t|]|]; [destruct t|done|]; try (apply H1);
    (change (executeLoop parse rc (3 + fuel) p [0%Z] prev ?l) with
      (let* p' := feed parse rc p (Some TK_SEMI) prev [0%Z] in executeLoop parse rc (2 + fuel) p' [0%Z] prev (Some (Some TK_SEMI)));
     cbn [closing]; destruct (feed parse rc p (Some TK_SEMI) prev [0%Z]); [apply H1|done|done]).
Qed.

Lemma loop_token fuel p c l prev last : text_ok (c :: l) ->
  executeLoop parse rc (S fuel) p (terminated (c :: l)) prev last =
    (let* r := getTokenID (terminated (c :: l)) in
     match r with
     | None | Some (_, TK_ILLEGAL) => Throw NOGDB_SQL_UNRECOGNIZED_TOKEN
     | Some (n, TK_SPACE) => executeLoop parse rc fuel p (drop n (terminated (c :: l))) (take n (terminated (c :: l))) last
     | Some (n, t) =>
         let* p' := feed parse rc p (Some t) (take n (terminated (c :: l))) (drop n (terminated (c :: l))) in
         executeLoop parse rc fuel p' (drop n (terminated (c :: l))) (take n (terminated (c :: l))) (Some (Some t))
     end).
Proof. intros [Hc _]%Forall_cons. cbn [executeLoop]. unfold at_. cbn [lookup list_lookup app obind]. by rewrite (proj2 (Z.eqb_neq c 0) Hc). Qed.

Lemma last_drop_ne n (l : list byte) x : last l <> Some x -> last (drop n l) <> Some x.
Proof.
  intros Hl Hd. apply Hl. rewrite <- (take_drop n l), last_app, Hd. done.
Qed.

Lemma loop_reads m : forall l fuel p prev last0, length l <= m -> text_ok l -> last l <> Some 92%Z ->
  executeLoop parse rc (3 + m + fuel) p (terminated l) prev last0 =
    (let '(toks, complete) := lexAll m l in
     let* p' := feedAll p toks in
     if (complete : bool) then closing p' (lastText prev toks) (lastType last0 toks)
     else Throw NOGDB_SQL_UNRECOGNIZED_TOKEN).
Proof.
  induction m as [|m IH]; intros l fuel p prev last0 Hlen Hok Hlast; (destruct l as [|c l]; [cbn [lexAll]; apply loop_end|cbn in Hlen]); [lia|].
  change (3 + S m + fuel) with (S (3 + m + fuel)). rewrite loop_token by done.
  pose proof (token_in_text c l) as Ht. cbn [lexAll].
  destruct (getTokenID (terminated (c :: l))) as [[[n t]|]|e|]; cbn [obind]; [|done|done|].
  - rewrite drop_app_le, take_app_le by lia.
    assert (length (drop n (c :: l)) <= m) as Hm by (rewrite length_drop; cbn [length]; lia).
    assert (text_ok (drop n (c :: l))) as Hok' by (by apply Forall_drop).
    assert (last (drop n (c :: l)) <> Some 92%Z) as Hlast' by (by apply last_drop_ne).
    destruct (lexAll m (drop n (c :: l))) as [toks complete] eqn:E.
    destruct t; try done; unfold feedAll; cbn [ofold tok_t tok_z tok_after obind];
      try (destruct (feed parse rc p _ _ _) as [p'|e|]; cbn [obind]; [|done|done]);
      rewrite (IH _ fuel _ _ _ Hm Hok' Hlast'), E; done.
  - destruct Ht as [_ Ht]. destruct l as [|x l]; [done|]. by destruct Hlast.
Qed.

(** C34. Unless the text ends in a backslash, [SQL::execute] stops and reads no
    byte past the terminator: it feeds the parser the tokens of the text, in
    order and without the spaces, then the missing semicolon and the end, and
    stops with an error at the first token it does not recognise or the first
    error of the parser; the tokens are the text, without gaps. *)
Theorem execute_reads p sql : last (cstr sql) <> Some 92%Z ->
  exists toks complete, lexAll (length (cstr sql)) (cstr sql) = (toks, complete) /\
    concat (tok_z <$> toks) `prefix_of` cstr sql /\ (complete = true -> concat (tok_z <$> toks) = cstr sql) /\
    execute parse rc result p sql =
      (let* p' := feedAll p toks in
       let* p'' := if (complete : bool) then closing p' (lastText [] toks) (lastType None toks)
                   else Throw NOGDB_SQL_UNRECOGNIZED_TOKEN in
       Ok (result p'')).
Proof.
  intros Hlast. destruct (lexAll (length (cstr sql)) (cstr sql)) as [toks complete] eqn:E.
  exists toks, complete. destruct (lexAll_cover _ _ _ _ E) as [Hp Hc]. split_and!; [done..|].
  assert (text_ok (cstr sql)) as Hok.
  { clear. induction sql as [|c l IH]; [constructor|]. cbn [cstr]. destruct (Z.eqb_spec c 0); [constructor|by constructor]. }
  unfold execute. cbv zeta. replace (3 + length (cstr sql)) with (3 + length (cstr sql) + 0) by lia.
  rewrite (loop_reads _ _ 0 p [] None (le_n _) Hok Hlast), E. by destruct (feedAll p toks).
Qed.
End execute.

(** ** Literals *)
Definition escape (q c : byte) : list byte := if ((c =? q) || (c =? 92))%Z then [92%Z; c] else [c].
Definition quoted (q : byte) (s : list byte) : list byte := [q] ++ (s ≫= escape q) ++ [q].
Definition hexDigit (d : Z) : byte := (if d <? 10 then 48 + d else 87 + d)%Z.
Definition blobLiteral (bs : list byte) : list byte :=
  [120; 39]%Z ++ (bs ≫= fun b => [hexDigit (b / 16); hexDigit (b mod 16)]%Z) ++ [39%Z].

(** What may follow a number. *)
Definition ends_number (rest : list byte) : Prop :=
  match rest with [] => True | c :: _ => IdChar c = false /\ c <> 46%Z end.

Lemma scan_app P ds rest : Forall (fun c => P c = true) ds -> match rest with [] => False | c :: _ => P c = false end ->
  scan P (ds ++ rest) = Ok (length ds).
Proof.
  intros Hds Hr. induction Hds as [|c ds Hc _ IH]; cbn [app scan length].
  - destruct rest as [|c r]; [done|]. cbn. by rewrite Hr.
  - by rewrite Hc, IH.
Qed.

Lemma scanQuote_escaped q s rest : q <> 0%Z -> q <> 92%Z -> text_ok s -> forall i,
  scanQuote q i ((s ≫= escape q) ++ q :: rest) = Ok (i + length (s ≫= escape q)).
Proof.
  intros H0 H92 Hs. induction Hs as [|c s Hc _ IH]; intros i; cbn [mbind list_bind app scanQuote].
  - rewrite (proj2 (Z.eqb_neq _ _) H0), (proj2 (Z.eqb_neq _ _) H92), Z.eqb_refl. f_equal. cbn. lia.
  - unfold escape at 1 3. destruct (Z.eqb_spec c q) as [->|Hq]; cbn [orb app scanQuote].
    + cbn [Z.eqb]. rewrite IH. f_equal. cbn. lia.
    + destruct (Z.eqb_spec c 92) as [->|H]; cbn [app scanQuote].
      * cbn [Z.eqb]. rewrite IH. f_equal. cbn. lia.
      * rewrite (proj2 (Z.eqb_neq _ _) Hc), (proj2 (Z.eqb_neq _ _) H), (proj2 (Z.eqb_neq _ _) Hq), IH. f_equal. cbn. lia.
Qed.

Lemma dequote_escaped q s rest : q <> 0%Z -> q <> 92%Z -> text_ok s ->
  dequoteLoop q ((s ≫= escape q) ++ q :: rest) = Ok s.
Proof.
  intros H0 H92 Hs. induction Hs as [|c s Hc _ IH]; cbn [mbind list_bind app dequoteLoop].
  - rewrite (proj2 (Z.eqb_neq _ _) H0), Z.eqb_refl. done.
  - unfold escape at 1. destruct (Z.eqb_spec c q) as [->|Hq]; cbn [orb app dequoteLoop].
    + rewrite (proj2 (Z.eqb_neq 92 q)) by done. cbn [Z.eqb negb require obind]. rewrite IH. cbn [obind]. by rewrite Z.eqb_refl.
    + destruct (Z.eqb_spec c 92) as [->|H]; cbn [app dequoteLoop].
      * rewrite (proj2 (Z.eqb_neq 92 q)) by done. cbn [Z.eqb negb require obind]. rewrite IH. done.
      * rewrite (proj2 (Z.eqb_neq _ _) Hc), (proj2 (Z.eqb_neq _ _) H), (proj2 (Z.eqb_neq _ _) Hq), IH. done.
Qed.

Lemma quote_token q z : (q = 34 \/ q = 39)%Z ->
  getTokenID (q :: z) =
    (let* i := scanQuote q 1 z in
     let* d := at_ (q :: z) i in
     Ok (Some (if ((d =? 39) || (d =? 34))%Z then (S i, TK_STRING)
               else if negb (d =? 0)%Z then (S i, TK_IDENTITY) else (i, TK_ILLEGAL)))).
Proof. by intros [-> | ->]. Qed.

Lemma quoted_token q s rest : (q = 34 \/ q = 39)%Z -> text_ok s ->
  getTokenID (terminated (quoted q s ++ rest)) = Ok (Some (length (quoted q s), TK_STRING)) /\
  forall stod after, tokenBytes stod (mkToken (quoted q s) TK_STRING after) = Ok (s, TEXT).
Proof.
  intros Hq Hs. assert (q <> 0 /\ q <> 92)%Z as [H0 H92] by lia. split.
  - assert (quoted q s ++ rest ++ [0%Z] = q :: (s ≫= escape q) ++ q :: rest ++ [0%Z]) as Hz
      by (unfold quoted; by rewrite <- !app_assoc).
    rewrite <- app_assoc, Hz, (quote_token q _ Hq), scanQuote_escaped by done. cbn [obind].
    assert (at_ (q :: (s ≫= escape q) ++ q :: rest ++ [0%Z]) (1 + length (s ≫= escape q)) = Ok q) as ->.
    { unfold at_. change (1 + ?n) with (S n). rewrite lookup_cons, list_lookup_middle by done. done. }
    cbn [obind]. replace ((q =? 39) || (q =? 34))%Z with true by lia.
    unfold quoted. cbn [app length]. rewrite length_app. cbn [length]. do 3 f_equal. lia.
  - intros stod after. unfold tokenBytes, tokenString, quoted. cbn [tok_t tok_z app dequote].
    replace ((q =? 34) || (q =? 39) || (q =? 96) || (q =? 91))%Z with true by lia.
    rewrite (proj2 (Z.eqb_neq q 91)) by lia. rewrite <- app_assoc. cbn [app].
    rewrite dequote_escaped by done. cbn [obind]. by rewrite cstr_id.
Qed.

(** Numbers. *)
Lemma digits_token ds rest : ds <> [] -> Forall (fun c => isdigit c = true) ds -> ends_number rest ->
  numberToken (terminated (ds ++ rest)) = Ok (length ds, TK_UNSIGNED).
Proof.
  intros Hne Hds Hr.
  assert (exists c r, terminated rest = c :: r /\ IdChar c = false /\ c <> 46%Z) as (c & r & Hc & Hid & H46).
  { destruct rest as [|c rest]; [by exists 0%Z, []|]. destruct Hr. by exists c, (rest ++ [0%Z]). }
  rewrite <- app_assoc, Hc. clear Hc Hr rest.
  assert (isdigit c = false) as Hd.
  { unfold IdChar, isalnum in Hid. by apply orb_false_iff in Hid as [_ [? _]%orb_false_iff]. }
  assert (forall k, (97 <= k <= 122 \/ 65 <= k <= 90)%Z -> c <> k) as Hal.
  { intros k Hk ->. unfold IdChar, isalnum, isalpha in Hid. lia. }
  unfold numberToken.
  assert ((let* c0 := at_ (ds ++ c :: r) 0 in
      if (c0 =? 48)%Z then
        let* c1 := at_ (ds ++ c :: r) 1 in
        if ((c1 =? 120) || (c1 =? 88))%Z then let* c2 := at_ (ds ++ c :: r) 2 in Ok (isxdigit c2) else Ok false
      else Ok false) = Ok false) as Hhex.
  { destruct ds as [|d0 ds]; [done|]. cbn. destruct (d0 =? 48)%Z; [|done].
    assert (exists c1, at_ (d0 :: ds ++ c :: r) 1 = Ok c1 /\ c1 <> 120%Z /\ c1 <> 88%Z) as (c1 & -> & H1 & H2).
    { destruct ds as [|d1 ds]; [exists c; split; [done|]; split; apply Hal; lia|]. exists d1. split; [done|].
      apply Forall_cons in Hds as [_ [Hd1 _]%Forall_cons]. unfold isdigit in Hd1. lia. }
    cbn [obind]. by rewrite (proj2 (Z.eqb_neq _ _) H1), (proj2 (Z.eqb_neq _ _) H2). }
  revert Hhex. destruct (at_ (ds ++ c :: r) 0) as [c0|e|]; cbn [obind]; [|done|done]. intros ->. cbn [obind].
  assert (scanFrom isdigit 0 (ds ++ c :: r) = Ok (length ds)) as ->
    by (unfold scanFrom; rewrite drop_0; by rewrite (scan_app isdigit ds (c :: r) Hds Hd)).
  cbn [obind]. assert (at_ (ds ++ c :: r) (length ds) = Ok c) as Hat
    by (unfold at_; by rewrite list_lookup_middle).
  rewrite Hat. cbn [obind]. rewrite (proj2 (Z.eqb_neq c 46)) by done. cbn [obind]. rewrite Hat. cbn [obind].
  rewrite (proj2 (Z.eqb_neq c 101)), (proj2 (Z.eqb_neq c 69)) by (apply Hal; lia). cbn [orb obind].
  assert (scanFrom IdChar (length ds) (ds ++ c :: r) = Ok (length ds)) as ->
    by (unfold scanFrom; rewrite drop_app_length; cbn [scan]; rewrite Hid; cbn [obind]; by rewrite Nat.add_0_r).
  cbn [obind]. by rewrite bool_decide_false by lia.
Qed.

Lemma unsigned_token n rest : (0 <= n <= UINT64_MAX)%Z -> ends_number rest ->
  getTokenID (terminated (to_string n ++ rest)) = Ok (Some (length (to_string n), TK_UNSIGNED)) /\
  forall stod after, tokenBytes stod (mkToken (to_string n) TK_UNSIGNED after) = Ok (le_bytes 8 n, UNSIGNED_BIGINT).
Proof.
  intros Hn Hr.
  assert (Forall (fun c => isdigit c = true) (to_string n)) as Hds.
  { unfold to_string. apply Forall_fmap. eapply Forall_impl; [apply digits_aux_range; lia|]. cbn. unfold isdigit. lia. }
  split.
  - pose proof (digits_token (to_string n) rest (to_string_nonempty n) Hds Hr) as H.
    destruct (to_string n) as [|d ds] eqn:E; [by apply to_string_nonempty in E|].
    apply Forall_cons in Hds as [Hd _]. change ((d :: ds) ++ rest) with (d :: (ds ++ rest)) in *.
    by rewrite (digit_token d (ds ++ rest) Hd), H.
  - intros stod after. unfold tokenBytes, stoull. cbn [tok_t tok_z].
    assert (leadingDigits (to_string n) = to_string n) as ->.
    { induction Hds as [|c l Hc _ IH]; [done|]. cbn. by rewrite Hc, IH. }
    rewrite stoul_to_string by done. by rewrite (proj2 (Z.leb_le _ _)) by lia.
Qed.

Lemma signed_token n rest : (0 < n <= 2 ^ 63)%Z -> ends_number rest ->
  getTokenID (terminated ((45%Z :: to_string n) ++ rest)) = Ok (Some (S (length (to_string n)), TK_SIGNED)) /\
  forall stod after, tokenBytes stod (mkToken (45%Z :: to_string n) TK_SIGNED after) = Ok (le_bytes 8 (- n), BIGINT).
Proof.
  intros Hn Hr. assert (0 <= n <= UINT64_MAX)%Z as Hn' by (unfold UINT64_MAX; lia).
  destruct (unsigned_token n rest Hn' Hr) as [Ht _].
  assert (Forall (fun c => isdigit c = true) (to_string n)) as Hds.
  { unfold to_string. apply Forall_fmap. eapply Forall_impl; [apply digits_aux_range; lia|]. cbn. unfold isdigit. lia. }
  split.
  - destruct (to_string n) as [|d ds] eqn:E; [by apply to_string_nonempty in E|]. apply Forall_cons in Hds as [Hd _].
    change (terminated ((45%Z :: d :: ds) ++ rest)) with (45%Z :: terminated ((d :: ds) ++ rest)).
    assert (forall z, getTokenID (45%Z :: z) =
      (let* c1 := at_ (45%Z :: z) 1 in
       if negb (classOfChar c1 =? CC_DIGIT)%Z then Ok None
       else let* r := getTokenID z in
            match r with
            | Some (i, t) => Ok (Some (S i, match t with TK_UNSIGNED => TK_SIGNED | _ => t end))
            | None => UB
            end)) as -> by done.
    assert (at_ (45%Z :: terminated ((d :: ds) ++ rest)) 1 = Ok d) as -> by done. cbn [obind].
    rewrite (digit_class d Hd). cbn [negb Z.eqb CC_DIGIT Pos.eqb]. by rewrite Ht.
  - intros stod after. unfold tokenBytes, stoll. cbn [tok_t tok_z].
    assert (leadingDigits (to_string n) = to_string n) as ->.
    { clear Ht. induction Hds as [|c l Hc _ IH]; [done|]. cbn. by rewrite Hc, IH. }
    rewrite stoul_to_string by done. by rewrite (proj2 (Z.leb_le _ _)) by lia.
Qed.

(** Bytes. *)
Lemma hexDigit_xdigit d : (0 <= d < 16)%Z -> isxdigit (hexDigit d) = true.
Proof. intros Hd. unfold hexDigit, isxdigit, isdigit. case_match; lia. Qed.

Lemma hex_pair b : (0 <= b < 256)%Z ->
  Z.lor (Z.shiftl (HexToInt (hexDigit (b / 16))) 4) (HexToInt (hexDigit (b mod 16))) = b.
Proof.
  intros Hb.
  assert (forallb (fun b => Z.lor (Z.shiftl (HexToInt (hexDigit (b / 16))) 4) (HexToInt (hexDigit (b mod 16))) =? b)%Z
    (seqZ 0 256) = true) as H by (vm_compute; reflexivity).
  rewrite forallb_forall in H. apply Z.eqb_eq, H, list_elem_of_In, elem_of_seqZ. lia.
Qed.

Lemma blob_token bs rest : Forall (fun b => 0 <= b < 256)%Z bs ->
  getTokenID (terminated (blobLiteral bs ++ rest)) = Ok (Some (length (blobLiteral bs), TK_BLOB)) /\
  forall stod after, tokenBytes stod (mkToken (blobLiteral bs) TK_BLOB after) = Ok (bs, BLOB).
Proof.
  intros Hbs. set (hex := bs ≫= fun b => [hexDigit (b / 16); hexDigit (b mod 16)]%Z).
  assert (length hex = 2 * length bs) as Hlen by (unfold hex; clear; induction bs as [|b bs IH]; cbn in *; lia).
  assert (Forall (fun c => isxdigit c = true) hex) as Hx.
  { unfold hex. clear Hlen. induction Hbs as [|b bs Hb _ IH]; [constructor|].
    cbn [mbind list_bind app]. repeat constructor; [apply hexDigit_xdigit; Z.div_mod_to_equations; lia..|exact IH]. }
  split.
  - assert (terminated (blobLiteral bs ++ rest) = 120%Z :: 39%Z :: hex ++ 39%Z :: terminated rest) as ->
      by (unfold blobLiteral; fold hex; by rewrite <- !app_assoc).
    set (z := 120%Z :: 39%Z :: hex ++ 39%Z :: terminated rest).
    change (getTokenID z) with (let* r := blobToken z in Ok (Some r)). unfold blobToken.
    assert (scanFrom isxdigit 2 z = Ok (2 + length hex)) as ->
      by (unfold scanFrom; change (drop 2 z) with (hex ++ 39%Z :: terminated rest); by rewrite (scan_app isxdigit hex (39%Z :: terminated rest) Hx eq_refl)).
    cbn [obind]. assert (at_ z (2 + length hex) = Ok 39%Z) as Hat
      by (unfold at_; change (z !! (2 + length hex)) with ((hex ++ 39%Z :: terminated rest) !! length hex); by rewrite list_lookup_middle).
    rewrite Hat. cbn [obind].
    replace (Nat.odd (2 + length hex)) with false.
    2: { rewrite Hlen. symmetry. rewrite <- Nat.negb_even. replace (2 + 2 * length bs) with (2 * S (length bs)) by lia.
         by rewrite Nat.even_mul. }
    cbn [Z.eqb Pos.eqb negb orb obind]. rewrite Hat. cbn [obind Z.eqb].
    unfold blobLiteral. fold hex. cbn [app length]. rewrite length_app. cbn [length]. do 3 f_equal. lia.
  - intros stod after. unfold tokenBytes, blobLiteral. fold hex. cbn [tok_t tok_z app length drop].
    rewrite length_app. cbn [length]. replace (S (S (length hex + 1)) - 3) with (length hex) by lia.
    rewrite drop_0, take_app_length. do 2 f_equal. unfold hex. clear -Hbs.
    induction Hbs as [|b bs Hb _ IH]; [done|]. cbn [mbind list_bind app HexToBlob]. by rewrite (hex_pair b Hb), IH.
Qed.

(** C37. A literal is one token, whatever follows it, and its value is what was
    written: a text between either kind of quotes, an unsigned and a negative
    number, a string of bytes. *)
Theorem literals_roundtrip :
  (forall q s rest, (q = 34 \/ q = 39)%Z -> text_ok s ->
     getTokenID (terminated (quoted q s ++ rest)) = Ok (Some (length (quoted q s), TK_STRING)) /\
     forall stod after, tokenBytes stod (mkToken (quoted q s) TK_STRING after) = Ok (s, TEXT)) /\
  (forall n rest, (0 <= n <= UINT64_MAX)%Z -> ends_number rest ->
     getTokenID (terminated (to_string n ++ rest)) = Ok (Some (length (to_string n), TK_UNSIGNED)) /\
     forall stod after, tokenBytes stod (mkToken (to_string n) TK_UNSIGNED after) = Ok (le_bytes 8 n, UNSIGNED_BIGINT)) /\
  (forall n rest, (0 < n <= 2 ^ 63)%Z -> ends_number rest ->
     getTokenID (terminated ((45%Z :: to_string n) ++ rest)) = Ok (Some (S (length (to_string n)), TK_SIGNED)) /\
     forall stod after, tokenBytes stod (mkToken (45%Z :: to_string n) TK_SIGNED after) = Ok (le_bytes 8 (- n), BIGINT)) /\
  (forall bs rest, Forall (fun b => 0 <= b < 256)%Z bs ->
     getTokenID (terminated (blobLiteral bs ++ rest)) = Ok (Some (length (blobLiteral bs), TK_BLOB)) /\
     forall stod after, tokenBytes stod (mkToken (blobLiteral bs) TK_BLOB after) = Ok (bs, BLOB)).
Proof. split_and!; [apply quoted_token|apply unsigned_token|apply signed_token|apply blob_token]. Qed.

(** ** What the lexer gets wrong *)

(** An open quotation whose last character is a backslash: the byte after the
    terminator is read. *)
Lemma open_quotation_overreads : getTokenID (terminated (bytes_of_string "'a\")) = UB.
Proof. vm_compute. reflexivity. Qed.

(** A hexadecimal number is one token, and its value is zero. *)
Lemma hexadecimal_is_zero stod :
  getTokenID (terminated (bytes_of_string "0x1f")) = Ok (Some (4, TK_UNSIGNED)) /\
  tokenBytes stod (mkToken (bytes_of_string "0x1f") TK_UNSIGNED [0%Z]) = Ok (le_bytes 8 0, UNSIGNED_BIGINT).
Proof. vm_compute. split; reflexivity. Qed.

(** The valid class names "a1_b" and "x_y" are each cut in two tokens: after a
    digit, and after a leading x, an underscore does not belong to a name. *)
Lemma names_are_cut :
  (fun t => (string_of_bytes (tok_z t), tok_t t)) <$> (lexAll 4 (bytes_of_string "a1_b")).1 =
    [("a1", TK_IDENTITY); ("_b", TK_IDENTITY)] /\
  (fun t => (string_of_bytes (tok_z t), tok_t t)) <$> (lexAll 3 (bytes_of_string "x_y")).1 =
    [("x", TK_IDENTITY); ("_y", TK_IDENTITY)].
Proof. vm_compute. split; reflexivity. Qed.
