(* ===== verification/Sql.v ===== *)
(** * SQL values and projections

    Model of the middle part of SQL (src/src/sql.cpp, sql.hpp, and the
    projections of sql_context.cpp): values that may hold result sets, records
    of such values, the functions of a select statement, and the items of its
    projections.  The database is read only here. *)

From stdpp Require Import base gmap sets list strings sorting.
From Stdlib Require Import ZArith Lia.
From S2P Require Import Prelude.
From S2P Require Import Types.
From S2P Require Import Store.
From S2P Require Import Blob.
From S2P Require Import TxnData.
From S2P Require Import RecordModel.
From S2P Require Import Parser.
From S2P Require Import Graph.
From S2P Require Import Schema.
From S2P Require Import Generic.
From S2P Require Import Compare.
From S2P Require Import Commands.
From S2P Require Import Cursor.
From S2P Require Import Query.
From S2P Require Import SqlLexer.

(** ** Values, records and results *)
Inductive SqlBytes := mkSqlBytes {
  sb_raw : list byte;
  sb_type : PropertyType;
  sb_results : option (list (RecordDescriptor * list (string * SqlBytes)));
}.
(** A record is a [std::map], listed in the order of its keys. *)
Abbreviation SqlRecord := (list (string * SqlBytes)).
Abbreviation SqlResult := (RecordDescriptor * SqlRecord)%type.

Definition noBytes : SqlBytes := mkSqlBytes [] PT_UNDEFINED None.
Definition sqlBytesEmpty (b : SqlBytes) : bool := bool_decide (sb_raw b = []).

(** The order of [std::set<Bytes>]: of two values of one size each is less
    than the other as soon as they differ. *)
Definition sqlBytesLess (a b : SqlBytes) : bool :=
  if bool_decide (length (sb_raw a) = length (sb_raw b)) then negb (bool_decide (sb_raw a = sb_raw b))
  else bool_decide (length (sb_raw a) < length (sb_raw b)).

Fixpoint sqlLookup (name : string) (r : SqlRecord) : option SqlBytes :=
  match r with
  | [] => None
  | (k, v) :: r' => if bool_decide (k = name) then Some v else sqlLookup name r'
  end.
Definition sqlGet (name : string) (r : SqlRecord) : SqlBytes :=
  match sqlLookup name r with Some v => v | None => noBytes end.
Fixpoint sqlPlace (name : string) (v : SqlBytes) (r : SqlRecord) : SqlRecord :=
  match r with
  | [] => [(name, v)]
  | (k, x) :: r' => if String.ltb name k then (name, v) :: r else (k, x) :: sqlPlace name v r'
  end.
(** [std::map::insert] *)
Definition sqlInsert (name : string) (v : SqlBytes) (r : SqlRecord) : SqlRecord :=
  match sqlLookup name r with Some _ => r | None => sqlPlace name v r end.

(** A name that is taken gets the first free number from two on. *)
Definition numberedName (name : string) (num : nat) : string :=
  (name +:+ string_of_bytes (to_string (Z.of_nat num)))%string.
Fixpoint freeName (fuel : nat) (name : string) (num : nat) (r : SqlRecord) : string :=
  match fuel with
  | O => numberedName name num
  | S fuel => match sqlLookup (numberedName name num) r with Some _ => freeName fuel name (S num) r | None => numberedName name num end
  end.
Definition sqlSet (name : string) (v : SqlBytes) (r : SqlRecord) : SqlRecord :=
  match sqlLookup name r with
  | None => sqlPlace name v r
  | Some _ => sqlPlace (freeName (length r) name 2 r) v r
  end.
Definition sqlRecordEmpty (r : SqlRecord) : bool := forallb (fun p => sqlBytesEmpty p.2) r.

(** [Record(nogdb::Record &&)], [toBaseRecord] *)
Definition sqlRecordOf (r : DbRecord) : SqlRecord :=
  fold_left (fun acc p => sqlInsert p.1 (mkSqlBytes p.2 PT_UNDEFINED None) acc)
    (map_items (getAll r) ++ map_items (getBasicInfo r)) [].
Definition toBaseRecord (r : SqlRecord) : Outcome DbRecord :=
  recordOf (list_to_map ((fun p => (p.1, sb_raw p.2)) <$> r)).
Definition sqlResultOf (x : RecordDescriptor * DbRecord) : SqlResult := (x.1, sqlRecordOf x.2).

(** [descriptorsToString], [Bytes(ResultSet &&)] *)
Definition descriptorsToString (rows : list SqlResult) : list byte :=
  to_string (Z.of_nat (length rows)) ++ (rows ≫= fun x => [44; 35]%Z ++ rid2str (rd_rid x.1)).
Definition bytesOfResults (rows : list SqlResult) : SqlBytes :=
  mkSqlBytes (descriptorsToString rows) PT_UNDEFINED (Some rows).

(** [ResultSet::limit] *)
Definition limitRows {A} (skip limit : Z) (rows : list A) : list A :=
  let rows := if (0 <? skip)%Z then
                if (skip <? Z.of_nat (length rows))%Z then drop (Z.to_nat skip) rows else []
              else rows in
  if (0 <=? limit)%Z && (limit <? Z.of_nat (length rows))%Z then take (Z.to_nat limit) rows else rows.

(** ** Projections *)
Inductive Projection :=
| P_PROPERTY (name : string)
| P_FUNCTION (name : string) (args : list Projection)
| P_METHOD (a b : Projection)
| P_ARRAY_SELECTOR (p : Projection) (index : Z)
| P_CONDITION (p : Projection) (c : Condition)
| P_ALIAS (p : Projection) (name : string).

Fixpoint projectionName (p : Projection) : string :=
  match p with
  | P_PROPERTY name => name
  | P_FUNCTION name _ => name
  | P_METHOD a _ => projectionName a
  | P_ARRAY_SELECTOR p _ => projectionName p
  | P_CONDITION p _ => projectionName p
  | P_ALIAS _ name => name
  end.

(** ** Functions *)
Inductive FunctionId :=
| F_UNDEFINE | F_COUNT | F_MIN | F_MAX | F_IN | F_IN_E | F_IN_V | F_OUT | F_OUT_E | F_OUT_V
| F_BOTH | F_BOTH_E | F_BOTH_V | F_EXPAND.

Definition functionNames : list (string * FunctionId) :=
  [("COUNT", F_COUNT); ("MIN", F_MIN); ("MAX", F_MAX); ("IN", F_IN); ("INE", F_IN_E); ("INV", F_IN_V);
   ("OUT", F_OUT); ("OUTE", F_OUT_E); ("OUTV", F_OUT_V); ("BOTH", F_BOTH); ("BOTHE", F_BOTH_E);
   ("BOTHV", F_BOTH_V); ("EXPAND", F_EXPAND)]%string.
Definition functionId (name : string) : FunctionId :=
  match lookupNoCase functionNames (bytes_of_string name) with Some i => i | None => F_UNDEFINE end.

Definition isAggregateResult (i : FunctionId) : bool :=
  match i with F_COUNT | F_MIN | F_MAX => true | _ => false end.
Definition isWalkResult (i : FunctionId) : bool :=
  match i with F_IN | F_IN_E | F_IN_V | F_OUT | F_OUT_E | F_OUT_V | F_BOTH | F_BOTH_E => true | _ => false end.
Definition isExpand (i : FunctionId) : bool := match i with F_EXPAND => true | _ => false end.

Definition countRows (input : list SqlResult) (args : list Projection) : Outcome SqlBytes :=
  let number n := mkSqlBytes (le_bytes 8 (Z.of_nat n)) UNSIGNED_BIGINT None in
  match args with
  | [] => Ok (number (length input))
  | [P_PROPERTY name] =>
      Ok (number (length (filter (fun x => sqlBytesEmpty (sqlGet name x.2) = false) input)))
  | _ => Throw NOGDB_SQL_INVALID_FUNCTION_ARGS
  end.
Definition executeAggregateResult (i : FunctionId) (args : list Projection) (input : list SqlResult) : Outcome SqlBytes :=
  match i with F_COUNT => countRows input args | _ => Throw NOGDB_SQL_INVALID_FUNCTION_NAME end.

Definition argsToClassFilter (args : list Projection) : Outcome ClassFilter :=
  ofold (fun f p => match p with
                    | P_PROPERTY name => Ok (classFilterAdd name f)
                    | _ => Throw NOGDB_SQL_INVALID_FUNCTION_ARGS
                    end) args (newClassFilter []).

(** ** Reading the database *)
Definition CLASS_DESCRIPTOR_TEMPORARY : ClassId := (UINT16_MAX - 1)%Z.

Section sql.
  Context {D : Type} `{!Lmdb D}.
  Context (regex_match : list byte -> list byte -> Outcome bool) (ptr_order : gset Loc -> list Loc).

Definition rowsOf (s : Db D) : ClassId -> list (PositionId * list byte) := tableRecords (db_store s).

Definition walkEdges (edges : Schema -> Graph -> BaseTxn -> (ClassId -> list (PositionId * list byte)) ->
      (gset Loc -> list Loc) -> RecordDescriptor -> ClassFilter -> Outcome (list (RecordDescriptor * DbRecord)))
    (s : Db D) (input : SqlResult) (args : list Projection) : Outcome (list SqlResult) :=
  let* f := argsToClassFilter args in
  let* rows := edges (db_schema s) (db_relation s) (db_txn s) (rowsOf s) ptr_order input.1 f in
  Ok (sqlResultOf <$> rows).
Definition walkInEdge := walkEdges getInEdge.
Definition walkOutEdge := walkEdges getOutEdge.
Definition walkBothEdge := walkEdges getAllEdge.

(** The vertex at an end of each edge. *)
Definition endsOf (vertex : RecordDescriptor -> Cmd D (RecordDescriptor * DbRecord)) (s : Db D) (edges acc : list SqlResult) :
    Outcome (list SqlResult) :=
  ofold (fun acc e => let* v := (vertex e.1 s).2 in Ok (acc ++ [sqlResultOf v])) edges acc.
Definition walkIn (s : Db D) (input : SqlResult) (args : list Projection) : Outcome (list SqlResult) :=
  let* edges := walkInEdge s input args in endsOf getSrc s edges [].
Definition walkOut (s : Db D) (input : SqlResult) (args : list Projection) : Outcome (list SqlResult) :=
  let* edges := walkOutEdge s input args in endsOf getDst s edges [].
Definition walkBoth (s : Db D) (input : SqlResult) (args : list Projection) : Outcome (list SqlResult) :=
  let* ins := walkInEdge s input args in
  let* rows := endsOf getSrc s ins [] in
  let* outs := walkOutEdge s input args in
  endsOf getDst s outs rows.
Definition walkVertex (vertices : RecordDescriptor -> Cmd D (list (RecordDescriptor * DbRecord))) (s : Db D)
    (input : SqlResult) (args : list Projection) : Outcome (list SqlResult) :=
  match args with
  | [] => let* vs := (vertices input.1 s).2 in Ok (sqlResultOf <$> vs)
  | _ => Throw NOGDB_SQL_INVALID_FUNCTION_ARGS
  end.
Definition walkInVertex := walkVertex (fun d => let? v := getDst d in cret [v]).
Definition walkOutVertex := walkVertex (fun d => let? v := getSrc d in cret [v]).
Definition walkBothVertex := walkVertex (fun d => let? (a, b) := getSrcDst d in cret [a; b]).

(** [Function::execute] *)
Definition functionExecute (i : FunctionId) (args : list Projection) (s : Db D) (input : SqlResult) : Outcome SqlBytes :=
  require (negb (isAggregateResult i)) ;;;
  require (negb (isExpand i)) ;;;
  let* rows :=
    match i with
    | F_IN => walkIn s input args
    | F_IN_E => walkInEdge s input args
    | F_IN_V => walkInVertex s input args
    | F_OUT => walkOut s input args
    | F_OUT_E => walkOutEdge s input args
    | F_OUT_V => walkOutVertex s input args
    | F_BOTH => walkBoth s input args
    | F_BOTH_E => walkBothEdge s input args
    | F_BOTH_V => walkBothVertex s input args
    | _ => Throw NOGDB_SQL_INVALID_FUNCTION_NAME
    end in
  Ok (bytesOfResults rows).

(** ** The types of the properties of a row *)
Definition publicTypes (c : PClassDescriptor) : gmap string PropertyType := pd_type <$> pcd_properties c.
Definition basicTypes : gmap string PropertyType :=
  {[CLASS_NAME_PROPERTY := TEXT; RECORD_ID_PROPERTY := TEXT; VERSION_PROPERTY := UNSIGNED_BIGINT]}.

(** [getPropertyMapTypeFromClassDescriptor] *)
Definition propertyTypesOf (s : Db D) (classId : ClassId) : Outcome (gmap string PropertyType) :=
  if bool_decide (classId = CLASS_DESCRIPTOR_TEMPORARY) then Ok ∅
  else let* c := getSchemaById (db_schema s) (db_txn s) classId in Ok (publicTypes c ∪ basicTypes).

(** [executeCondition]: the types are kept from row to row of one class. *)
Definition conditionTypesOf (s : Db D) (types : gmap string PropertyType) (previous : ClassId) (x : SqlResult) :
    Outcome (gmap string PropertyType) :=
  let classId := (rd_rid x.1).1 in
  if bool_decide (classId = CLASS_DESCRIPTOR_TEMPORARY) then
    Ok (list_to_map ((fun p => (p.1, sb_type p.2)) <$> x.2) ∪ basicTypes)
  else if negb (bool_decide (classId = previous)) then
    let* c := getSchemaById (db_schema s) (db_txn s) classId in Ok (publicTypes c ∪ basicTypes)
  else Ok types.
Definition executeCondition (s : Db D) (input : list SqlResult) (conds : MultiCondition) : Outcome (list SqlResult) :=
  let* (result, _, _) :=
    ofold (fun st x =>
             let '(result, types, previous) := st in
             let* types := conditionTypesOf s types previous x in
             let* r := toBaseRecord x.2 in
             let* b := Compare.execute regex_match conds r types in
             Ok (if (b : bool) then result ++ [x] else result, types, (rd_rid x.1).1))
      input ([], ∅, UINT16_MAX) in
  Ok result.

(** [Condition(RECORD_ID_PROPERTY) || !Condition(RECORD_ID_PROPERTY)] *)
Definition alwaysTrue : MultiCondition :=
  let c := newCondition RECORD_ID_PROPERTY in multiOf c (negate c) OR.
Definition withAlwaysTrue (c : Condition) : MultiCondition := multiOfMulti c alwaysTrue AND.

(** ** The items of a projection *)
Definition projectProperty (input : SqlResult) (name : string) (types : gmap string PropertyType) : Outcome SqlBytes :=
  let b := sqlGet name input.2 in
  if sqlBytesEmpty b || negb (bool_decide (sb_type b = PT_UNDEFINED)) then Ok b
  else match types !! name with Some t => Ok (mkSqlBytes (sb_raw b) t None) | None => Throw STD_OUT_OF_RANGE end.

Definition projectCondition (s : Db D) (input : SqlResult) (name : string) (args : list Projection) (c : Condition) :
    Outcome SqlBytes :=
  if negb (isWalkResult (functionId name)) then Throw NOGDB_SQL_INVALID_PROJECTION
  else
    let* resA := functionExecute (functionId name) args s input in
    match sb_results resA with
    | Some rows =>
        let* result := executeCondition s rows (withAlwaysTrue c) in
        Ok (if bool_decide (length result = 0) then noBytes else bytesOfResults result)
    | None => Throw NOGDB_SQL_INVALID_PROJECTION
    end.

Fixpoint getProjectionItem (s : Db D) (proj : Projection) (input : SqlResult) (types : gmap string PropertyType) :
    Outcome SqlBytes :=
  match proj with
  | P_PROPERTY name => projectProperty input name types
  | P_FUNCTION name args =>
      let i := functionId name in
      if isAggregateResult i || isExpand i then Throw NOGDB_SQL_INVALID_PROJECTION
      else functionExecute i args s input
  | P_METHOD a b =>
      let* resA := getProjectionItem s a input types in
      match sb_results resA with
      | Some [x] =>
          let* types' := propertyTypesOf s (rd_rid x.1).1 in getProjectionItem s b x types'
      | Some rows =>
          let* (results, _) :=
            ofold (fun st x =>
                     let '(results, types') := st in
                     let* types' := if bool_decide ((rd_rid x.1).1 = UINT16_MAX) then Ok types'
                                    else propertyTypesOf s (rd_rid x.1).1 in
                     let* resB := getProjectionItem s b x types' in
                     match sb_results resB with
                     | Some rowsB => Ok (results ++ rowsB, types')
                     | None => Throw NOGDB_SQL_INVALID_PROJECTION_METHOD
                     end) rows ([], ∅) in
          Ok (bytesOfResults results)
      | None => if sqlBytesEmpty resA then Ok noBytes else Throw NOGDB_SQL_NOT_IMPLEMENTED
      end
  | P_ARRAY_SELECTOR p index =>
      let* resA := getProjectionItem s p input types in
      match sb_results resA with
      | Some rows => Ok (match rows !! Z.to_nat index with Some x => bytesOfResults [x] | None => noBytes end)
      | None => Throw NOGDB_SQL_NOT_IMPLEMENTED
      end
  | P_CONDITION p c =>
      match p with
      | P_FUNCTION name args => projectCondition s input name args c
      | _ => Throw NOGDB_SQL_INVALID_PROJECTION
      end
  | P_ALIAS p _ => getProjectionItem s p input types
  end.

(** [Function::expand] *)
Definition expandRows (s : Db D) (input : list SqlResult) (args : list Projection) : Outcome (list SqlResult) :=
  match args with
  | [arg] =>
      ofold (fun results x =>
               let* out := getProjectionItem s arg x ∅ in
               match sb_results out with
               | Some rows => Ok (results ++ rows)
               | None => if sqlBytesEmpty out then Ok results else Throw NOGDB_SQL_INVALID_FUNCTION_ARGS
               end) input []
  | _ => Throw NOGDB_SQL_INVALID_FUNCTION_ARGS
  end.

(** ** Projections and groups of a result set *)
Definition aggregateItem (input : list SqlResult) (st : SqlRecord * bool) (p : Projection) : Outcome (SqlRecord * bool) :=
  match p with
  | P_FUNCTION name args =>
      let i := functionId name in
      if isAggregateResult i then
        let* b := executeAggregateResult i args input in Ok (sqlSet name b st.1, true)
      else if isExpand i then Throw NOGDB_SQL_INVALID_PROJECTION
      else Ok st
  | _ => Ok st
  end.
Definition isAggregate (p : Projection) : bool :=
  match p with P_FUNCTION name _ => isAggregateResult (functionId name) | _ => false end.

Definition projectRow (s : Db D) (projs : list Projection) (x : SqlResult) (r : SqlRecord) : Outcome SqlRecord :=
  let* types := propertyTypesOf s (rd_rid x.1).1 in
  ofold (fun r p => let* b := getProjectionItem s p x types in Ok (sqlSet (projectionName p) b r)) projs r.

Definition temporary (n : Z) : RecordDescriptor := rdescOf (CLASS_DESCRIPTOR_TEMPORARY, n).

Definition selectRows (s : Db D) (input : list SqlResult) (projs : list Projection) : Outcome (list SqlResult) :=
  let* (tmpRec, aggregated) := ofold (aggregateItem input) projs ([], false) in
  if (aggregated : bool) then
    let* r := match list.last input with
              | Some x => projectRow s (filter (fun p => isAggregate p = false) projs) x tmpRec
              | None => Ok tmpRec
              end in
    Ok [(temporary 0, r)]
  else
    ofold (fun results x =>
             let* r := projectRow s projs x [] in
             Ok (if sqlRecordEmpty r then results else results ++ [(temporary (u32 (Z.of_nat (length results))), r)]))
      input [].
Definition selectProjection (s : Db D) (input : list SqlResult) (projs : list Projection) : Outcome (list SqlResult) :=
  match projs with
  | [] => Ok input
  | [P_FUNCTION name args] => if isExpand (functionId name) then expandRows s input args else selectRows s input projs
  | _ => selectRows s input projs
  end.

(** [selectGroupBy] runs over the rows from the last to the first.  The set that
    holds the values needs a strict order: with two different values of one size
    its behaviour is undefined.  For a value it has seen before the loop erases
    the row from the vector, which invalidates the reverse iterator of the loop,
    whose base lies behind the row, and then increments that iterator: undefined
    as well. *)
Definition comparable (a : SqlBytes) (b : SqlBytes) : bool := negb (sqlBytesLess a b && sqlBytesLess b a).
Fixpoint groupRows (group : string) (rows : list SqlResult) : Outcome (list SqlResult * list SqlBytes) :=
  match rows with
  | [] => Ok ([], [])
  | x :: rows' =>
      let* (kept, grouped) := groupRows group rows' in
      let v := sqlGet group x.2 in
      if negb (forallb (comparable v) grouped) then UB
      else if existsb (fun g => negb (sqlBytesLess v g) && negb (sqlBytesLess g v)) grouped then UB
      else Ok (x :: kept, v :: grouped)
  end.
Definition selectGroupBy (input : list SqlResult) (group : string) : Outcome (list SqlResult) :=
  if bool_decide (group = EmptyString) then Ok input
  else let* (kept, _) := groupRows group input in Ok kept.
End sql.
