(* ===== verification/SqlContext.v ===== *)
(** * SQL statements

    Model of the statements of SQL (src/src/sql_context.cpp, the arguments in
    sql.hpp): what the parser calls once it has read a statement.  A statement
    reports an error of the library as its result; a standard exception
    escapes.  A set of descriptors is a set of record ids, listed in order. *)

From stdpp Require Import base gmap sets list strings sorting.
From Stdlib Require Import ZArith Lia.
From S2P Require Import Prelude.
From S2P Require Import Types.
From S2P Require Import Store.
From S2P Require Import Blob.
From S2P Require Import TxnData.
From S2P Require Import RecordModel.
From S2P Require Import Graph.
From S2P Require Import Schema.
From S2P Require Import Generic.
From S2P Require Import Compare.
From S2P Require Import Commands.
From S2P Require Import ClassCommands.
From S2P Require Import Algorithm.
From S2P Require Import Cursor.
From S2P Require Import Query.
From S2P Require Import SqlLexer.
From S2P Require Import Sql.

(** ** Arguments and results *)
Abbreviation RecordDescriptorSet := (gset RecordId).
Definition setElements (rids : RecordDescriptorSet) : list RecordDescriptor :=
  rdescOf <$> merge_sort Graph.rid_le (elements rids).

Inductive Where := NO_COND | W_CONDITION (c : Condition) | W_MULTI_COND (m : MultiCondition).

Record TraverseArgs := mkTraverseArgs {
  ta_direction : string;
  ta_filter : list string;
  ta_root : RecordDescriptor;
  ta_minDepth : Z;
  ta_maxDepth : Z;
  ta_strategy : string;
}.

Inductive Target :=
| NO_TARGET
| T_CLASS (className : string)
| T_RIDS (rids : RecordDescriptorSet)
| T_NESTED (args : SelectArgs)
| T_NESTED_TRAVERSE (args : TraverseArgs)
with SelectArgs :=
| mkSelectArgs (projections : list Projection) (from : Target) (where_ : Where) (group : string) (skip limit : Z).

Definition isTarget (t : Target) : bool := match t with NO_TARGET => false | _ => true end.

(** [SQL::Result] *)
Inductive Reply :=
| NO_RESULT
| R_ERROR (e : Error)
| R_CLASS_DESCRIPTOR (c : PClassDescriptor)
| R_PROPERTY_DESCRIPTOR (p : PropertyDescriptor)
| R_RECORD_DESCRIPTORS (ds : list RecordDescriptor)
| R_RESULT_SET (rows : list Result).

(** ** Errors of a statement *)
Definition tryCatch {D A} (m : Cmd D A) (handler : Error -> Cmd D A) : Cmd D A :=
  fun s => let '(s1, r) := m s in
           match r with
           | Throw STD_OUT_OF_RANGE => (s1, r)
           | Throw e => handler e s1
           | _ => (s1, r)
           end.
Definition reportError {D} (m : Cmd D Reply) : Cmd D Reply := tryCatch m (fun e => cret (R_ERROR e)).
(** [IF EXISTS], [IF NOT EXISTS]: one error is taken for the result of [alt]. *)
Definition reportUnless {D} (check : bool) (e0 : Error) (alt m : Cmd D Reply) : Cmd D Reply :=
  tryCatch m (fun e => if check && bool_decide (e = e0) then alt else cret (R_ERROR e)).

Fixpoint cmapM {D A B} (l : list A) (f : A -> Cmd D B) : Cmd D (list B) :=
  match l with
  | [] => cret []
  | x :: l' => let? y := f x in let? ys := cmapM l' f in cret (y :: ys)
  end.

Definition ofToken {D} (t : Token) : Cmd D string :=
  asks (fun _ => ofmap string_of_bytes (tokenString t)).

(** ** The rows of a cursor *)
Section cursor.
  Context (s : Schema) (t : BaseTxn) (records : ClassId -> list (PositionId * list byte)).

Definition currentRow (c : Cursor) : SqlResult :=
  sqlResultOf (match Cursor.result c with Some x => x | None => (noRdesc, emptyRecord) end).

Fixpoint takeRows (fuel : nat) (limit : Z) (c : Cursor) : Outcome (list SqlResult) :=
  match fuel with
  | O => UB
  | S fuel =>
      if (0 <? limit)%Z then
        let* (more, c1) := next s t records c in
        if (more : bool) then let* rows := takeRows fuel (limit - 1) c1 in Ok (currentRow c :: rows)
        else Ok [currentRow c]
      else Ok []
  end.
Fixpoint restRows (fuel : nat) (c : Cursor) : Outcome (list SqlResult) :=
  match fuel with
  | O => UB
  | S fuel =>
      let* (more, c1) := next s t records c in
      if (more : bool) then let* rows := restRows fuel c1 in Ok (currentRow c :: rows) else Ok [currentRow c]
  end.

(** [ResultSet(ResultSetCursor &, int, int)] *)
Definition cursorRows (c : Cursor) (skip limit : Z) : Outcome (list SqlResult) :=
  let skip := if (skip <? 0)%Z then 0%Z else skip in
  let* (found, c1) := Cursor.to s t records skip c in
  if (found : bool) then
    let fuel := S (length (metadata c1)) in
    if (0 <=? limit)%Z then takeRows fuel limit c1 else restRows fuel c1
  else Ok [].
End cursor.

Section context.
  Context {D : Type} `{!Lmdb D} (fill : byte).
  Context (regex_match : list byte -> list byte -> Outcome bool) (ptr_order : gset Loc -> list Loc) (fuel : nat).

(** ** Reading statements *)
Definition findClassType (s : Db D) (className : string) : Outcome ClassType :=
  let* c := getSchemaByName (db_schema s) (db_txn s) className in Ok (pcd_type c).

Definition selectVertex (s : Db D) (className : string) (w : Where) : Outcome Cursor :=
  match w with
  | NO_COND => vertexGetCursor (db_schema s) (db_txn s) (rowsOf s) ptr_order className
  | W_CONDITION c => vertexGetWhereCursor regex_match (db_schema s) (db_txn s) (rowsOf s) ptr_order className c
  | W_MULTI_COND m => vertexGetMultiCursor regex_match (db_schema s) (db_txn s) (rowsOf s) ptr_order className m
  end.
Definition selectEdge (s : Db D) (className : string) (w : Where) : Outcome Cursor :=
  match w with
  | NO_COND => edgeGetCursor (db_schema s) (db_txn s) (rowsOf s) ptr_order className
  | W_CONDITION c => edgeGetWhereCursor regex_match (db_schema s) (db_txn s) (rowsOf s) ptr_order className c
  | W_MULTI_COND m => edgeGetMultiCursor regex_match (db_schema s) (db_txn s) (rowsOf s) ptr_order className m
  end.

Definition selectRids (s : Db D) (rids : RecordDescriptorSet) : Outcome (list SqlResult) :=
  ofold (fun rows d => let* r := (getRecord d s).2 in Ok (rows ++ [sqlResultOf (d, r)])) (setElements rids) [].

Definition selectWhere (s : Db D) (input : list SqlResult) (w : Where) : Outcome (list SqlResult) :=
  match w, input with
  | NO_COND, _ | _, [] => Ok input
  | W_CONDITION c, _ => executeCondition regex_match s input (withAlwaysTrue c)
  | W_MULTI_COND m, _ => executeCondition regex_match s input m
  end.

Definition UINT_MAX : Z := 4294967295.
Definition traverseFunctions :=
  [("INDEPTH_FIRST", inEdgeDfs); ("OUTDEPTH_FIRST", outEdgeDfs); ("ALLDEPTH_FIRST", allEdgeDfs);
   ("INBREADTH_FIRST", inEdgeBfs); ("OUTBREADTH_FIRST", outEdgeBfs); ("ALLBREADTH_FIRST", allEdgeBfs)]%string.
Definition traversePrivate (s : Db D) (a : TraverseArgs) : Outcome (list SqlResult) :=
  if ((ta_minDepth a <? 0) || (UINT_MAX <? ta_minDepth a))%Z then Throw NOGDB_SQL_INVALID_TRAVERSE_MIN_DEPTH
  else if ((ta_maxDepth a <? 0) || (UINT_MAX <? ta_maxDepth a))%Z then Throw NOGDB_SQL_INVALID_TRAVERSE_MAX_DEPTH
  else
    match lookupNoCase traverseFunctions (bytes_of_string (ta_direction a +:+ ta_strategy a)) with
    | Some func =>
        let* rows := func (db_schema s) (db_relation s) (db_txn s) (rowsOf s) ptr_order fuel (ta_root a)
                       (ta_minDepth a) (ta_maxDepth a) noPathFilter (newClassFilter (ta_filter a)) in
        Ok (sqlResultOf <$> rows)
    | None =>
        let dir name := equalNoCase (bytes_of_string name) (bytes_of_string (ta_direction a)) in
        if negb (dir "IN"%string) && negb (dir "OUT"%string) && negb (dir "ALL"%string)
        then Throw NOGDB_SQL_INVALID_TRAVERSE_DIRECTION else Throw NOGDB_SQL_INVALID_TRAVERSE_STRATEGY
    end.

(** After a traversal more rows may be erased than there are. *)
Definition limitTraversed (skip limit : Z) (rows : list SqlResult) : Outcome (list SqlResult) :=
  let* rows := if (0 <? skip)%Z then
                 if (skip <=? Z.of_nat (length rows))%Z then Ok (drop (Z.to_nat skip) rows) else UB
               else Ok rows in
  Ok (if ((0 <=? limit) && (limit <? Z.of_nat (length rows)))%Z then take (Z.to_nat limit) rows else rows).

Fixpoint selectTarget (s : Db D) (t : Target) (w : Where) (skip limit : Z) : Outcome (list SqlResult) :=
  match t with
  | NO_TARGET => Ok []
  | T_CLASS className =>
      let* type := findClassType s className in
      match type with
      | VERTEX =>
          let* c := selectVertex s className w in cursorRows (db_schema s) (db_txn s) (rowsOf s) c skip limit
      | EDGE =>
          let* c := selectEdge s className w in cursorRows (db_schema s) (db_txn s) (rowsOf s) c skip limit
      | CT_UNDEFINED => Throw NOGDB_CTX_INVALID_CLASSTYPE
      end
  | T_RIDS rids =>
      let* rows := selectRids s rids in
      let* rows := selectWhere s rows w in
      Ok (limitRows skip limit rows)
  | T_NESTED args =>
      let* rows := selectPrivate s args in
      let* rows := selectWhere s rows w in
      Ok (limitRows skip limit rows)
  | T_NESTED_TRAVERSE args =>
      let* rows := traversePrivate s args in
      let* rows := selectWhere s rows w in
      limitTraversed skip limit rows
  end
with selectPrivate (s : Db D) (a : SelectArgs) : Outcome (list SqlResult) :=
  let 'mkSelectArgs projections from where_ group skip limit := a in
  let* rows := selectTarget s from where_ skip limit in
  let* rows := selectProjection regex_match ptr_order s rows projections in
  selectGroupBy rows group.

Definition selectAll (s : Db D) (t : Target) (w : Where) : Outcome (list SqlResult) := selectTarget s t w (-1) (-1).

Definition toBaseResult (x : SqlResult) : Outcome Result := let* r := toBaseRecord x.2 in Ok (x.1, r).
Definition toBaseResults (rows : list SqlResult) : Outcome (list Result) :=
  ofold (fun acc x => let* r := toBaseResult x in Ok (acc ++ [r])) rows [].

Definition select (a : SelectArgs) : Cmd D Reply :=
  reportError (asks (fun s => let* rows := selectPrivate s a in let* rs := toBaseResults rows in Ok (R_RESULT_SET rs))).
Definition traverse (a : TraverseArgs) : Cmd D Reply :=
  reportError (asks (fun s => let* rows := traversePrivate s a in let* rs := toBaseResults rows in Ok (R_RESULT_SET rs))).

(** ** Classes, properties and indexes *)
Definition classSchema (name : string) : Cmd D PClassDescriptor :=
  asks (fun s => getSchemaByName (db_schema s) (db_txn s) name).

Definition createClass (tName tExtend : Token) (checkIfNotExists : bool) : Cmd D Reply :=
  let? name := ofToken tName in
  reportUnless checkIfNotExists NOGDB_CTX_DUPLICATE_CLASS
    (let? c := classSchema name in cret (R_CLASS_DESCRIPTOR c))
    (let? c := match tok_t tExtend with
               | TK_VERTEX => classCreate name VERTEX
               | TK_EDGE => classCreate name EDGE
               | _ => let? super := ofToken tExtend in classCreateExtend name super
               end in
     cret (R_CLASS_DESCRIPTOR c)).

(** [NAME] is the only attribute there is. *)
Definition isAlterName (attr : string) : bool := equalNoCase (bytes_of_string "NAME") (bytes_of_string attr).
Definition ofValue (value : list byte) : Cmd D string := asks (fun _ => ofmap string_of_bytes (toText value)).

Definition alterClass (tName tAttr : Token) (value : list byte) : Cmd D Reply :=
  reportError (
    let? attr := ofToken tAttr in
    if isAlterName attr then
      let? name := ofToken tName in
      let? newName := ofValue value in
      let? _ := classAlter name newName in cret NO_RESULT
    else throws NOGDB_SQL_INVALID_ALTER_ATTR).

Definition dropClass (tName : Token) (checkIfExists : bool) : Cmd D Reply :=
  reportUnless checkIfExists NOGDB_CTX_NOEXST_CLASS (cret NO_RESULT)
    (let? name := ofToken tName in let? _ := classDrop name in cret NO_RESULT).

Definition sqlTypeNames : list (string * PropertyType) :=
  [("TINYINT", TINYINT); ("UNSIGNED_TINYINT", UNSIGNED_TINYINT); ("SMALLINT", SMALLINT);
   ("UNSIGNED_SMALLINT", UNSIGNED_SMALLINT); ("INTEGER", INTEGER); ("UNSIGNED_INTEGER", UNSIGNED_INTEGER);
   ("BIGINT", BIGINT); ("UNSIGNED_BIGINT", UNSIGNED_BIGINT); ("TEXT", TEXT); ("REAL", REAL); ("BLOB", BLOB)]%string.
Definition typeNamed (t : Token) : Outcome PropertyType :=
  match tokenString t with
  | Ok name => Ok (match lookupNoCase sqlTypeNames name with Some type => type | None => PT_UNDEFINED end)
  | Throw _ => Ok PT_UNDEFINED
  | UB => UB
  end.

Definition createProperty (tClassName tPropName tType : Token) (checkIfNotExists : bool) : Cmd D Reply :=
  reportUnless checkIfNotExists NOGDB_CTX_DUPLICATE_PROPERTY
    (let? className := ofToken tClassName in
     let? c := classSchema className in
     let? propName := ofToken tPropName in
     match pcd_properties c !! propName with
     | Some p => cret (R_PROPERTY_DESCRIPTOR p)
     | None => throws STD_OUT_OF_RANGE
     end)
    (let? type := asks (fun _ => typeNamed tType) in
     let? className := ofToken tClassName in
     let? propName := ofToken tPropName in
     let? p := propertyAdd className propName type in cret (R_PROPERTY_DESCRIPTOR p)).

Definition alterProperty (tClassName tPropName tAttr : Token) (value : list byte) : Cmd D Reply :=
  reportError (
    let? attr := ofToken tAttr in
    if isAlterName attr then
      let? className := ofToken tClassName in
      let? propName := ofToken tPropName in
      let? newName := ofValue value in
      let? _ := propertyAlter className propName newName in cret NO_RESULT
    else throws NOGDB_SQL_INVALID_ALTER_ATTR).

Definition dropProperty (tClassName tPropName : Token) (checkIfExists : bool) : Cmd D Reply :=
  reportUnless checkIfExists NOGDB_CTX_NOEXST_PROPERTY (cret NO_RESULT)
    (let? className := ofToken tClassName in
     let? propName := ofToken tPropName in
     let? _ := propertyRemove className propName in cret NO_RESULT).

(** [strcasecmp(a, b) < 0] *)
Fixpoint bytesLess (a b : list byte) : bool :=
  match a, b with
  | _, [] => false
  | [], _ => true
  | x :: a', y :: b' => if (x =? y)%Z then bytesLess a' b' else (x <? y)%Z
  end.
Definition stringcasecmp (a b : list byte) : bool := bytesLess (toLower a) (toLower b).

(** The type of the index is compared for the order of the names, not for
    their equality. *)
Definition createIndex (tClassName tPropName tIndexType : Token) : Cmd D Reply :=
  reportError (
    let? type := ofToken tIndexType in
    let isUnique := negb (stringcasecmp (bytes_of_string type) (bytes_of_string "UNIQUE")) in
    let? className := ofToken tClassName in
    let? propName := ofToken tPropName in
    let? _ := ClassCommands.createIndex className propName isUnique in cret NO_RESULT).

Definition dropIndex (tClassName tPropName : Token) : Cmd D Reply :=
  reportError (
    let? className := ofToken tClassName in
    let? propName := ofToken tPropName in
    let? _ := ClassCommands.dropIndex className propName in cret NO_RESULT).

(** ** Vertices and edges *)
Definition createVertex (tClassName : Token) (prop : DbRecord) : Cmd D Reply :=
  reportError (
    let? className := ofToken tClassName in
    let? x := vertexCreate fill className prop in cret (R_RECORD_DESCRIPTORS [x.1])).

(** One edge for each pair; all of them are created from one record, which
    [Edge::create] stamps. *)
Definition createEdgeTo (name : string) (src : SqlResult) (st : list RecordDescriptor * DbRecord) (dst : SqlResult) :
    Cmd D (list RecordDescriptor * DbRecord) :=
  let? x := edgeCreate fill name src.1 dst.1 st.2 in cret (st.1 ++ [x.1], x.2).
Fixpoint cfold {A S} (f : S -> A -> Cmd D S) (l : list A) (st : S) : Cmd D S :=
  match l with [] => cret st | x :: l' => let? st' := f st x in cfold f l' st' end.
Definition createEdge (name : string) (src dest : Target) (prop : DbRecord) : Cmd D Reply :=
  reportError (
    let? srcVertex := asks (fun s => selectAll s src NO_COND) in
    let? destVertex := asks (fun s => selectAll s dest NO_COND) in
    let? st := cfold (fun st x => cfold (createEdgeTo name x) destVertex st) srcVertex ([], prop) in
    cret (R_RECORD_DESCRIPTORS st.1)).

(** Every target keeps its other properties. *)
Definition updateTarget (prop : DbRecord) (x : SqlResult) : Cmd D RecordDescriptor :=
  let? r := asks (fun _ => toBaseRecord x.2) in
  let r := fold_left (fun r p => set p.1 p.2 r) (map_items (getAll prop)) r in
  let? c := asks (fun s => getSchemaById (db_schema s) (db_txn s) (rd_rid x.1).1) in
  let? _ := match pcd_type c with
            | VERTEX => vertexUpdate fill x.1 r
            | EDGE => edgeUpdate fill x.1 r
            | CT_UNDEFINED => throws NOGDB_CTX_INVALID_CLASSTYPE
            end in
  cret x.1.
Definition update (target : Target) (prop : DbRecord) (w : Where) : Cmd D Reply :=
  reportError (
    let? targets := asks (fun s => selectAll s target w) in
    let? ds := cmapM targets (updateTarget prop) in
    cret (R_RECORD_DESCRIPTORS ds)).

Definition deleteVertex (target : Target) (w : Where) : Cmd D Reply :=
  reportError (
    let? targets := asks (fun s => selectAll s target w) in
    let? ds := cmapM targets (fun x => let? _ := vertexDestroy fill x.1 in cret x.1) in
    cret (R_RECORD_DESCRIPTORS ds)).

(** The edges of a vertex that are deleted with it as their source or their
    destination. *)
Definition outEdgesWhere (s : Db D) (className : string) (w : Where) (x : SqlResult) : Outcome (list Result) :=
  let f := newClassFilter [className] in
  match w with
  | NO_COND => getOutEdge (db_schema s) (db_relation s) (db_txn s) (rowsOf s) ptr_order x.1 f
  | W_CONDITION c =>
      getOutEdgeWhere regex_match (db_schema s) (db_relation s) (db_txn s) (rowsOf s) ptr_order x.1 c f
  | W_MULTI_COND m =>
      getOutEdgeMulti regex_match (db_schema s) (db_relation s) (db_txn s) (rowsOf s) ptr_order x.1 m f
  end.
Definition inEdgesWhere (s : Db D) (className : string) (w : Where) (x : SqlResult) : Outcome (list Result) :=
  let f := newClassFilter [className] in
  match w with
  | NO_COND => getInEdge (db_schema s) (db_relation s) (db_txn s) (rowsOf s) ptr_order x.1 f
  | W_CONDITION c =>
      getInEdgeWhere regex_match (db_schema s) (db_relation s) (db_txn s) (rowsOf s) ptr_order x.1 c f
  | W_MULTI_COND m =>
      getInEdgeMulti regex_match (db_schema s) (db_relation s) (db_txn s) (rowsOf s) ptr_order x.1 m f
  end.
Definition edgeRids (edges : SqlResult -> Outcome (list Result)) (ends : list SqlResult) : Outcome RecordDescriptorSet :=
  ofold (fun rids x => let* es := edges x in Ok (rids ∪ list_to_set ((fun e => rd_rid e.1) <$> es))) ends ∅.

(** [while (edges.next()) targets.insert(edges->descriptor)] *)
Definition visitedRids (s : Db D) (c : Cursor) : Outcome RecordDescriptorSet :=
  let* ds := visitAll (db_schema s) (db_txn s) (rowsOf s) (S (length (metadata c))) c in
  Ok (list_to_set (rd_rid <$> ds)).

Definition edgesToDelete (s : Db D) (className : string) (from to : Target) (w : Where) : Outcome RecordDescriptorSet :=
  let* srcs := selectAll s from NO_COND in
  let* outEdgeRids := edgeRids (outEdgesWhere s className w) srcs in
  let* inEdgeRids :=
    if negb (bool_decide (outEdgeRids = ∅)) || negb (isTarget from) then
      let* dests := selectAll s to NO_COND in edgeRids (inEdgesWhere s className w) dests
    else Ok ∅ in
  if isTarget from && isTarget to then Ok (outEdgeRids ∩ inEdgeRids)
  else if isTarget from then Ok inEdgeRids
  else if isTarget to then Ok outEdgeRids
  else let* c := selectEdge s className w in visitedRids s c.

Definition deleteEdge (target from to : Target) (w : Where) : Cmd D Reply :=
  reportError (
    let? targets := asks (fun s => match target with
                                   | T_CLASS className => edgesToDelete s className from to w
                                   | T_RIDS rids => Ok rids
                                   | _ => Ok ∅
                                   end) in
    let? _ := cfor (setElements targets) (edgeDestroy fill) in
    cret (R_RECORD_DESCRIPTORS (setElements targets))).

(** ** What the parser may call (the commands of sql_parser.y) *)
Inductive Statement :=
| S_CREATE_CLASS (name extends : Token) (checkIfNotExists : bool)
| S_ALTER_CLASS (name attr : Token) (value : list byte)
| S_DROP_CLASS (name : Token) (checkIfExists : bool)
| S_CREATE_PROPERTY (className propName type : Token) (checkIfNotExists : bool)
| S_ALTER_PROPERTY (className propName attr : Token) (value : list byte)
| S_DROP_PROPERTY (className propName : Token) (checkIfExists : bool)
| S_CREATE_VERTEX (name : Token) (prop : DbRecord)
| S_CREATE_EDGE (name : string) (src dest : Target) (prop : DbRecord)
| S_SELECT (args : SelectArgs)
| S_UPDATE (target : Target) (prop : DbRecord) (w : Where)
| S_DELETE_VERTEX (target : Target) (w : Where)
| S_DELETE_EDGE (target from to : Target) (w : Where)
| S_TRAVERSE (args : TraverseArgs)
| S_CREATE_INDEX (className propName type : Token)
| S_DROP_INDEX (className propName : Token).

Definition statement (st : Statement) : Cmd D Reply :=
  match st with
  | S_CREATE_CLASS name extends check => createClass name extends check
  | S_ALTER_CLASS name attr value => alterClass name attr value
  | S_DROP_CLASS name check => dropClass name check
  | S_CREATE_PROPERTY className propName type check => createProperty className propName type check
  | S_ALTER_PROPERTY className propName attr value => alterProperty className propName attr value
  | S_DROP_PROPERTY className propName check => dropProperty className propName check
  | S_CREATE_VERTEX name prop => createVertex name prop
  | S_CREATE_EDGE name src dest prop => createEdge name src dest prop
  | S_SELECT args => select args
  | S_UPDATE target prop w => update target prop w
  | S_DELETE_VERTEX target w => deleteVertex target w
  | S_DELETE_EDGE target from to w => deleteEdge target from to w
  | S_TRAVERSE args => traverse args
  | S_CREATE_INDEX className propName type => createIndex className propName type
  | S_DROP_INDEX className propName => dropIndex className propName
  end.
End context.
