(* ===== verification/SqlContextSpec.v ===== *)
(** * The statements of SQL

    What holds of the SQL values and statements: the rows a cursor is read
    for, the rows [GROUP BY] keeps and when its set is not an order, the
    errors that are results, [IF EXISTS] and [IF NOT EXISTS], and the edges
    that [DELETE EDGE] does not delete. *)

From stdpp Require Import base gmap sets list strings sorting.
From Stdlib Require Import ZArith Lia.
From S2P Require Import Prelude.
From S2P Require Import Types.
From S2P Require Import Store.
From S2P Require Import TxnData.
From S2P Require Import RecordModel.
From S2P Require Import Graph.
From S2P Require Import Parser.
From S2P Require Import Schema.
From S2P Require Import Validate.
From S2P Require Import Generic.
From S2P Require Import Compare.
From S2P Require Import Commands.
From S2P Require Import ClassCommands.
From S2P Require Import Cursor.
From S2P Require Import Query.
From S2P Require Import SqlLexer.
From S2P Require Import Sql.
From S2P Require Import SqlContext.

(** ** The rows of a cursor *)
Section cursor.
  Context (s : Schema) (t : BaseTxn) (records : ClassId -> list (PositionId * list byte)).

(** The row of a descriptor, read on its own. *)
Definition rowOf (d : RecordDescriptor) : Outcome SqlResult :=
  let* r := readRow s t records d in Ok (sqlResultOf r).
Fixpoint rowsFor (ds : list RecordDescriptor) : Outcome (list SqlResult) :=
  match ds with [] => Ok [] | d :: ds' => let* x := rowOf d in let* xs := rowsFor ds' in Ok (x :: xs) end.

(** The row under the cursor is that of its position. *)
Definition under (i : nat) (c : Cursor) : Prop :=
  currentIndex c = Z.of_nat i /\ exists d, metadata c !! i = Some d /\ rowOf d = Ok (currentRow c).

Lemma readAt_row i c :
  readable s t records c -> i < length (metadata c) ->
  exists c1, readAt s t records (Z.of_nat i) c = Ok c1 /\ metadata c1 = metadata c /\ readable s t records c1 /\ under i c1.
Proof.
  intros Hr Hi. destruct (readAt_in s t records (Z.of_nat i) c Hr) as (d & c1 & r & Hd & Hrun & Hm & Hc & Hres & Hrow & Hr1);
    [unfold cursorSize; lia|].
  exists c1. split; [done|]. split; [done|]. split; [done|]. split; [done|]. exists d.
  rewrite Nat2Z.id in Hd. split; [by rewrite Hm|]. unfold rowOf, currentRow. by rewrite Hrow, Hres.
Qed.

Lemma next_row i c :
  readable s t records c -> under i c ->
  if decide (S i < length (metadata c)) then
    exists c1, next s t records c = Ok (true, c1) /\ metadata c1 = metadata c /\ readable s t records c1 /\ under (S i) c1
  else next s t records c = Ok (false, c).
Proof.
  intros Hr (Hi & d & Hd & _). pose proof (lookup_lt_Some _ _ _ Hd) as Hlt.
  unfold next, hasNext. rewrite isEmpty_size, Hi. unfold cursorSize.
  destruct (Z.eqb_spec (Z.of_nat (length (metadata c))) 0) as [|_]; [lia|]. cbn [negb andb].
  destruct (Z.eqb_spec (Z.of_nat i) (-1)) as [|_]; [lia|].
  case_decide; destruct (Z.ltb_spec (Z.of_nat i) (Z.of_nat (length (metadata c)) - 1)); try lia; [|done].
  destruct (readAt_row (S i) c) as (c1 & Hrun & ?); [done..|].
  replace (Z.of_nat i + 1)%Z with (Z.of_nat (S i)) by lia. rewrite Hrun. by exists c1.
Qed.

Lemma rowsFor_at i c d : metadata c !! i = Some d -> forall n,
  rowsFor (take (S n) (drop i (metadata c))) = (let* x := rowOf d in let* xs := rowsFor (take n (drop (S i) (metadata c))) in Ok (x :: xs)).
Proof. intros Hd n. by rewrite (drop_S _ d) by done. Qed.

Lemma takeRows_rows fuel : forall limit i c,
  readable s t records c -> under i c -> (0 <= limit)%Z -> length (metadata c) - i < fuel ->
  takeRows s t records fuel limit c = rowsFor (take (Z.to_nat limit) (drop i (metadata c))).
Proof.
  induction fuel as [|fuel IH]; intros limit i c Hr Hu Hl Hf; [lia|]. cbn [takeRows].
  destruct (Z.ltb_spec 0 limit) as [Hpos|]; [|by replace limit with 0%Z by lia].
  pose proof (next_row i c Hr Hu) as Hn. destruct Hu as (_ & d & Hd & Hrow).
  replace (Z.to_nat limit) with (S (Z.to_nat (limit - 1))) by lia. rewrite (rowsFor_at i c d Hd), Hrow. cbn [obind].
  pose proof (lookup_lt_Some _ _ _ Hd). case_decide.
  - destruct Hn as (c1 & -> & Hm & Hr1 & Hu1). cbn [obind]. rewrite (IH _ (S i) c1), Hm; try done; rewrite ?Hm; lia.
  - rewrite Hn. cbn [obind]. rewrite drop_ge by lia. by rewrite take_nil.
Qed.

Lemma restRows_rows fuel : forall i c,
  readable s t records c -> under i c -> length (metadata c) - i < fuel ->
  restRows s t records fuel c = rowsFor (drop i (metadata c)).
Proof.
  induction fuel as [|fuel IH]; intros i c Hr Hu Hf; [lia|]. cbn [restRows].
  pose proof (next_row i c Hr Hu) as Hn. destruct Hu as (_ & d & Hd & Hrow).
  rewrite (drop_S _ d) by done. cbn [rowsFor]. rewrite Hrow. cbn [obind].
  pose proof (lookup_lt_Some _ _ _ Hd). case_decide.
  - destruct Hn as (c1 & -> & Hm & Hr1 & Hu1). cbn [obind]. rewrite (IH (S i) c1), Hm; try done; rewrite ?Hm; lia.
  - rewrite Hn. cbn [obind]. by rewrite drop_ge by lia.
Qed.

(** C32. The rows a select statement reads through a cursor, one by one and with
    its loops over the position and the limit, are those of the descriptors of
    the result between the two bounds: negative bounds count as none, a
    position behind the end gives no row, and reading terminates. *)
Theorem cursor_rows_exact ds skip limit :
  readable s t records (newCursor ds) ->
  cursorRows s t records (newCursor ds) skip limit = rowsFor (limitRows skip limit ds).
Proof.
  intros Hr. unfold cursorRows, Cursor.to, limitRows, cursorSize. cbn [metadata newCursor].
  set (k := if (skip <? 0)%Z then 0%Z else skip).
  assert (k = Z.max 0 skip) as Hk by (unfold k; destruct (Z.ltb_spec skip 0); lia). clearbody k. subst k.
  destruct (Z.leb_spec (Z.of_nat (length ds)) (Z.max 0 skip)) as [Hge|Hlt]; cbn [obind].
  { assert ((if (0 <? skip)%Z then if (skip <? Z.of_nat (length ds))%Z then drop (Z.to_nat skip) ds else [] else ds) = []) as ->.
    { destruct (Z.ltb_spec 0 skip); [destruct (Z.ltb_spec skip (Z.of_nat (length ds))); [lia|done]|].
      destruct ds; simpl in *; [done|lia]. }
    destruct (_ && _); by rewrite ?take_nil. }
  assert ((if (0 <? skip)%Z then if (skip <? Z.of_nat (length ds))%Z then drop (Z.to_nat skip) ds else [] else ds)
          = drop (Z.to_nat (Z.max 0 skip)) ds) as ->.
  { destruct (Z.ltb_spec 0 skip); [destruct (Z.ltb_spec skip (Z.of_nat (length ds))); [f_equal; lia|lia]|].
    by replace (Z.to_nat (Z.max 0 skip)) with 0 by lia. }
  set (i := Z.to_nat (Z.max 0 skip)). replace (Z.max 0 skip) with (Z.of_nat i) by lia.
  destruct (readAt_row i (newCursor ds)) as (c1 & -> & Hm & Hr1 & Hu); [done|simpl; lia|].
  cbn [ofmap obind metadata newCursor] in *.
  destruct (Z.leb_spec 0 limit) as [Hl|Hl]; cbn [andb].
  - rewrite (takeRows_rows _ limit i), Hm; try done; [|rewrite Hm; lia].
    destruct (Z.ltb_spec limit (Z.of_nat (length (drop i ds)))); [done|]. by rewrite take_ge by lia.
  - rewrite (restRows_rows _ i), Hm; try done. rewrite Hm. lia.
Qed.
End cursor.

(** ** Groups *)
Section groups.
  Context (group : string).

Definition valueOf (x : SqlResult) : list byte := sb_raw (sqlGet group x.2).

Lemma comparable_iff a b :
  comparable a b = true <-> (length (sb_raw a) = length (sb_raw b) -> sb_raw a = sb_raw b).
Proof.
  unfold comparable, sqlBytesLess. repeat case_bool_decide; simpl; intuition (try congruence); try lia.
Qed.
Lemma equivalent_iff a b :
  negb (sqlBytesLess a b) && negb (sqlBytesLess b a) = true <-> sb_raw a = sb_raw b.
Proof. unfold sqlBytesLess. repeat case_bool_decide; simpl; intuition (try congruence); try lia. Qed.

(** The values of the rows have different sizes. *)
Definition sizes_differ (rows : list SqlResult) : Prop := NoDup ((fun x => length (valueOf x)) <$> rows).

Lemma groupRows_spec rows :
  (sizes_differ rows /\ exists grouped, groupRows group rows = Ok (rows, grouped) /\ sb_raw <$> grouped = valueOf <$> rows) \/
  (~ sizes_differ rows /\ groupRows group rows = UB).
Proof.
  induction rows as [|x rows IH]; cbn [groupRows]; [left; split; [constructor|by exists []]|].
  unfold sizes_differ in *. rewrite fmap_cons, NoDup_cons.
  destruct IH as [[Hnd (grouped & -> & Hraw)]|[Hnd ->]]; cbn [obind]; [|right; by split; [intros []|]].
  assert (forall g, g ∈ grouped -> length (sb_raw g) ∈ (fun y => length (valueOf y)) <$> rows) as Hin.
  { intros g Hg. assert (sb_raw g ∈ valueOf <$> rows) as (y & -> & Hy)%list_elem_of_fmap
      by (rewrite <- Hraw; by apply list_elem_of_fmap_2). by apply (list_elem_of_fmap_2 (fun y => length (valueOf y))). }
  set (v := sqlGet group x.2). change (valueOf x) with (sb_raw v).
  destruct (forallb (comparable v) grouped) eqn:Ec; cbn [negb].
  - rewrite forallb_forall in Ec. destruct (existsb _ grouped) eqn:Ee.
    + right. split; [|done]. apply existsb_exists in Ee as (g & Hg%list_elem_of_In & Heq%equivalent_iff).
      intros [Hnot _]. apply Hnot. rewrite Heq. by apply Hin.
    + left. split; [|exists (v :: grouped); split; [done|by rewrite !fmap_cons, Hraw]]. split; [|done].
      intros (y & Hl & Hy)%list_elem_of_fmap. apply not_true_iff_false in Ee. apply Ee, existsb_exists.
      assert (valueOf y ∈ sb_raw <$> grouped) as (g & Hg & Hgin)%list_elem_of_fmap
        by (rewrite Hraw; by apply list_elem_of_fmap_2).
      exists g. split; [by apply list_elem_of_In|]. apply equivalent_iff. rewrite Hg in Hl.
      apply comparable_iff; [|done]. apply Ec. by apply list_elem_of_In.
  - right. split; [|done]. apply not_true_iff_false in Ec. rewrite forallb_forall in Ec. intros [Hnot _].
    apply Ec. intros g Hg%list_elem_of_In. apply comparable_iff. intros Hl. destruct Hnot. rewrite Hl. by apply Hin.
Qed.

(** [GROUP BY] without a property changes nothing.  With one it is defined only
    when the values of the rows have pairwise different sizes, and then it
    changes nothing either: two values of one size are in no order, and a value
    that occurs twice makes the loop use an invalid iterator. *)
Theorem group_by_exact rows :
  (group = EmptyString -> selectGroupBy rows group = Ok rows) /\
  (group <> EmptyString ->
     (sizes_differ rows -> selectGroupBy rows group = Ok rows) /\
     (~ sizes_differ rows -> selectGroupBy rows group = UB)).
Proof.
  unfold selectGroupBy. split; [intros ->; by rewrite bool_decide_eq_true_2|].
  intros Hg. rewrite bool_decide_eq_false_2 by done.
  by destruct (groupRows_spec rows) as [[Hs (grouped & -> & _)]|[Hs ->]]; split.
Qed.
End groups.

(** ** Statements *)
Section statements.
  Context {D : Type} `{!Lmdb D} (fill : byte).
  Context (regex_match : list byte -> list byte -> Outcome bool) (ptr_order : gset Loc -> list Loc) (fuel : nat).

Lemma tryCatch_throw {A} (m : Cmd D A) h s s' e :
  tryCatch m h s = (s', Throw e) -> e = STD_OUT_OF_RANGE \/ exists e1 s1, e1 <> STD_OUT_OF_RANGE /\ m s = (s1, Throw e1) /\ h e1 s1 = (s', Throw e).
Proof.
  unfold tryCatch. destruct (m s) as [s1 [a|e1|]]; [by intros [= _ ]|..|by intros [= _ ]].
  destruct (decide (e1 = STD_OUT_OF_RANGE)) as [->|Hne]; [intros [= _ <-]; by left|].
  intros H. right. exists e1, s1. split; [done|]. split; [done|]. by destruct e1.
Qed.
Lemma report_throw (m : Cmd D Reply) s s' e : reportError m s = (s', Throw e) -> e = STD_OUT_OF_RANGE.
Proof. intros [|(e1 & s1 & _ & _ & [= ])]%tryCatch_throw; done. Qed.
Lemma reportUnless_throw b e0 (alt m : Cmd D Reply) s s' e :
  (forall s1 s2 e1, b = true -> alt s1 = (s2, Throw e1) -> e1 = STD_OUT_OF_RANGE) ->
  reportUnless b e0 alt m s = (s', Throw e) -> e = STD_OUT_OF_RANGE.
Proof.
  intros Ha [|(e1 & s1 & _ & _ & H)]%tryCatch_throw; [done|].
  destruct b; [cbn [andb] in H; case_bool_decide; [by eapply Ha|done]|done].
Qed.
Lemma report_state (m : Outcome Reply) s : (reportError (asks (fun _ : Db D => m)) s).1 = s.
Proof. unfold reportError, tryCatch, asks. by destruct m as [|[]|]. Qed.

(** The statements all of whose work is done under their handler. *)
Definition guarded (st : Statement) : bool :=
  match st with
  | S_CREATE_CLASS _ _ _ => false
  | S_CREATE_PROPERTY _ _ _ check => negb check
  | _ => true
  end.
Definition reads (st : Statement) : bool := match st with S_SELECT _ | S_TRAVERSE _ => true | _ => false end.

(** An error of the library is the result of the statement that met it: a
    guarded statement throws nothing but [std::out_of_range], and [SELECT] and
    [TRAVERSE], whatever they return, leave the database as it was. *)
Theorem errors_are_results st s :
  (guarded st = true -> forall s' e, statement fill regex_match ptr_order fuel st s = (s', Throw e) -> e = STD_OUT_OF_RANGE) /\
  (reads st = true -> (statement fill regex_match ptr_order fuel st s).1 = s).
Proof.
  split.
  - intros Hg s' e. destruct st; cbn [statement]; try discriminate Hg; try apply report_throw; apply reportUnless_throw; try done.
    intros ??? ->. done.
  - destruct st; try discriminate; intros _; cbn [statement]; unfold select, traverse, reportError, tryCatch, asks;
      by match goal with |- context [obind ?m ?k] => destruct (obind m k) as [|[]|] end.
Qed.

Lemma getSchemaByName_counters (sch : Schema) (t : BaseTxn) f name :
  getSchemaByName sch (setTxnDbInfo f t) name = getSchemaByName sch t name.
Proof.
  assert (forall n c m, inheritedProperties n sch (setTxnDbInfo f t) c m = inheritedProperties n sch t c m) as Hi.
  { induction n as [|n IH]; intros c m; cbn [inheritedProperties]; [done|].
    assert (superOf sch (setTxnDbInfo f t) c = superOf sch t c) as -> by reflexivity.
    destruct (superOf sch t c) as [[l p]|]; [apply IH|done]. }
  unfold getSchemaByName.
  assert (isExistingClassByName sch (setTxnDbInfo f t) name = isExistingClassByName sch t name) as -> by reflexivity.
  destruct (isExistingClassByName sch t name) as [[l c]| |]; cbn [obind snd]; [|done|done].
  unfold transform. by rewrite Hi.
Qed.

(** A class whose name is taken: only its number is spent. *)
Lemma classCreate_duplicate (s : Db D) x name :
  isTransactionValid (db_txn s) = Ok tt -> isClassNameValid name = Ok tt ->
  (maxClassId (txnDbInfo (db_txn s)) < CLASS_ID_UPPER_LIMIT)%Z ->
  findClassByName (db_schema s) (db_txn s) name = Some x ->
  let r := (setSchema (db_schema s, setTxnDbInfo addClassId (db_txn s)) s, Throw NOGDB_CTX_DUPLICATE_CLASS) in
  classCreate name VERTEX s = r /\ classCreate name EDGE s = r.
Proof.
  intros Hv Hc Hlim Hf r.
  assert (forall type, isClassTypeValid type = Ok tt -> classCreate name type s = r) as H; [|by split; apply H].
  intros type Hty. unfold classCreate, cbind, validTransaction, check, asks. rewrite Hv, Hc, Hty.
  unfold nextClassId, nextId, cbind, asks, onInfo, onSchema.
  destruct (Z.leb_spec CLASS_ID_UPPER_LIMIT (maxClassId (txnDbInfo (db_txn s)))); [lia|].
  unfold isNotDuplicatedClass. cbn [db_schema db_txn setSchema fst snd].
  assert (findClassByName (db_schema s) (setTxnDbInfo addClassId (db_txn s)) name = Some x) as -> by exact Hf. done.
Qed.

(** [IF EXISTS] and [IF NOT EXISTS].  Dropping a class that does not exist
    changes nothing, and is an error unless the clause is there; creating a
    class that exists is an error too, or with the clause returns the class
    there is.  The number the new class would have had is spent either way. *)
Theorem if_exists_clauses s (tName tExtend : Token) name check :
  isTransactionValid (db_txn s) = Ok tt -> ofmap string_of_bytes (tokenString tName) = Ok name ->
  (findClassByName (db_schema s) (db_txn s) name = None ->
     dropClass tName check s = (s, Ok (if check : bool then NO_RESULT else R_ERROR NOGDB_CTX_NOEXST_CLASS))) /\
  (is_Some (findClassByName (db_schema s) (db_txn s) name) -> isClassNameValid name = Ok tt ->
   (maxClassId (txnDbInfo (db_txn s)) < CLASS_ID_UPPER_LIMIT)%Z -> tok_t tExtend = TK_VERTEX \/ tok_t tExtend = TK_EDGE ->
     createClass tName tExtend check s =
       (setSchema (db_schema s, setTxnDbInfo addClassId (db_txn s)) s,
        if check then ofmap R_CLASS_DESCRIPTOR (getSchemaByName (db_schema s) (db_txn s) name)
        else Ok (R_ERROR NOGDB_CTX_DUPLICATE_CLASS))).
Proof.
  intros Hv Hn.
  assert (forall s1 : Db D, ofToken tName s1 = (s1, Ok name)) as Hof.
  { intros s1. unfold ofToken, asks. by rewrite Hn. }
  split.
  - intros Hf. unfold dropClass, reportUnless, tryCatch, cbind. rewrite Hof.
    unfold classDrop, cbind, validTransaction, asks. rewrite Hv. unfold existingClass, asks, isExistingClassByName. rewrite Hf.
    by destruct check.
  - intros [x Hf] Hc Hlim Ht. unfold createClass, cbind. rewrite Hof.
    destruct (classCreate_duplicate s x name) as [Hvx He]; try done.
    unfold reportUnless, tryCatch, cbind.
    destruct Ht as [-> | ->]; rewrite ?Hvx, ?He; (destruct check; [|done]); cbn [andb]; rewrite bool_decide_eq_true_2 by done;
      unfold classSchema, asks; cbn [db_schema db_txn setSchema fst snd]; rewrite getSchemaByName_counters;
      by destruct (getSchemaByName _ _ name).
Qed.

(** ** [DELETE EDGE] *)
Definition among (edges : SqlResult -> Outcome (list Result)) (ends : list SqlResult) (rid : RecordId) : Prop :=
  exists x es, x ∈ ends /\ edges x = Ok es /\ rid ∈ (fun e : Result => rd_rid e.1) <$> es.

Lemma edgeRids_spec edges ends : forall rids0 rids : RecordDescriptorSet,
  ofold (fun rids x => let* es := edges x in Ok (rids ∪ list_to_set ((fun e : Result => rd_rid e.1) <$> es))) ends rids0 = Ok rids ->
  forall rid, rid ∈ rids <-> rid ∈ rids0 \/ among edges ends rid.
Proof.
  induction ends as [|x ends IH]; intros rids0 rids; cbn [ofold].
  { intros [= <-] rid. split; [by left|]. intros [|(x & es & []%not_elem_of_nil & _)]; done. }
  destruct (edges x) as [es| |] eqn:E; cbn [obind]; [|done|done]. intros H rid. rewrite (IH _ _ H rid), elem_of_union, elem_of_list_to_set.
  split.
  - intros [[|]|(y & es' & ? & ?)]; [by left|right; exists x, es; split; [by left|done]|].
    right. exists y, es'. split; [by right|done].
  - intros [|(y & es' & [->|]%elem_of_cons & Hy & ?)]; [by left; left| |right; by exists y, es'].
    left; right. rewrite E in Hy. by simplify_eq.
Qed.

Lemma edgesToDelete_one_end s className from to w :
  xorb (isTarget from) (isTarget to) = true ->
  forall rids, edgesToDelete regex_match ptr_order fuel s className from to w = Ok rids -> rids = ∅.
Proof.
  intros Hx rids. unfold edgesToDelete.
  destruct (isTarget from) eqn:Ef, (isTarget to) eqn:Et; try discriminate Hx; cbn [negb andb orb].
  - destruct (selectAll _ _ _ s from NO_COND); cbn [obind]; [|done..].
    destruct (edgeRids _ a) as [out| |]; cbn [obind]; [|done..].
    assert (to = NO_TARGET) as -> by (by destruct to). cbn [selectAll selectTarget obind]. rewrite orb_false_r.
    by destruct (negb (bool_decide (out = ∅))); cbn [obind edgeRids ofold]; intros [= <-].
  - assert (from = NO_TARGET) as -> by (by destruct from). cbn [selectAll selectTarget obind edgeRids ofold]. rewrite orb_true_r.
    destruct (selectAll _ _ _ s to NO_COND); cbn [obind]; [|done..].
    destruct (edgeRids _ a); cbn [obind]; [by intros [= <-]|done..].
Qed.

(** With sources and destinations [DELETE EDGE] of a class takes the edges of
    the class that leave a source and enter a destination, and no other.  With
    only one of the two, which the manual (manual_sql.adoc) allows, the code
    takes none: the statement succeeds and the database stays as it was. *)
Theorem delete_edge_targets s className from to w :
  (isTarget from = true -> isTarget to = true ->
   forall rids srcs dests, edgesToDelete regex_match ptr_order fuel s className from to w = Ok rids ->
     selectAll regex_match ptr_order fuel s from NO_COND = Ok srcs ->
     selectAll regex_match ptr_order fuel s to NO_COND = Ok dests ->
     forall rid, rid ∈ rids <->
       among (outEdgesWhere regex_match ptr_order s className w) srcs rid /\
       among (inEdgesWhere regex_match ptr_order s className w) dests rid) /\
  (xorb (isTarget from) (isTarget to) = true ->
   exists r, deleteEdge fill regex_match ptr_order fuel (T_CLASS className) from to w s = (s, r) /\
     forall ds, r = Ok (R_RECORD_DESCRIPTORS ds) -> ds = []).
Proof.
  split.
  - intros Hf Ht rids srcs dests He Hs Hd rid. unfold edgesToDelete in He. rewrite Hs, Hf, Ht in He. cbn [obind negb andb] in He.
    destruct (edgeRids (outEdgesWhere _ _ s className w) srcs) as [out| |] eqn:Eo; cbn [obind] in He; [|done..].
    pose proof (edgeRids_spec _ _ _ _ Eo rid) as Ho. rewrite orb_false_r in He.
    destruct (decide (out = ∅)) as [->|Hne].
    + rewrite bool_decide_eq_true_2 in He by done. cbn [negb obind] in He. simplify_eq. set_solver.
    + rewrite bool_decide_eq_false_2 in He by done. cbn [negb] in He. rewrite Hd in He. cbn [obind] in He.
      destruct (edgeRids (inEdgesWhere _ _ s className w) dests) as [inn| |] eqn:Ei; cbn [obind] in He; [|done..]. simplify_eq.
      pose proof (edgeRids_spec _ _ _ _ Ei rid) as Hi. rewrite elem_of_intersection, Ho, Hi.
      set_solver.
  - intros Hx. unfold deleteEdge, reportError, tryCatch, cbind, asks.
    pose proof (edgesToDelete_one_end s className from to w Hx) as H.
    destruct (edgesToDelete _ _ _ s className from to w) as [rids|e|]; [|by destruct e; eexists|by eexists].
    rewrite (H rids eq_refl). eexists. split; [reflexivity|]. by intros ds [= <-].
Qed.
End statements.
