(* ===== verification/Grammar.v ===== *)
(** * The SQL grammar

    Model of src/src/sql_parser.y: the rules of the grammar with their actions.
    The parser itself is generated from these rules by lemon++.  A nonterminal
    is given as the list of the values that a sequence of tokens derives, one
    for each derivation; an action may throw.  The precedences of the operators
    decide between derivations as lemon++ documents it: an operand of AND, OR,
    NOT or a dot that is itself an operation needs parentheses where its
    operator does not bind tighter, or is the right operand of the same
    operator. *)

From stdpp Require Import base gmap sets list strings.
From Stdlib Require Import ZArith Lia.
From S2P Require Import Prelude.
From S2P Require Import Types.
From S2P Require Import Store.
From S2P Require Import RecordModel.
From S2P Require Import Generic.
From S2P Require Import Compare.
From S2P Require Import Blob.
From S2P Require Import Converters.
From S2P Require Import SqlLexer.
From S2P Require Import Sql.
From S2P Require Import SqlContext.

(** Tokens are numbers to the parser: their place in this list. *)
Definition allTokens : list Tok :=
  [TK_SPACE; TK_ILLEGAL; TK_SIGNED; TK_UNSIGNED; TK_FLOAT; TK_STRING; TK_BLOB; TK_IDENTITY; TK_LP; TK_RP;
   TK_SEMI; TK_STAR; TK_EQ; TK_NE; TK_LT; TK_LE; TK_GT; TK_GE; TK_COMMA; TK_DOT; TK_LB; TK_RB; TK_SHARP;
   TK_COLON; TK_AT; TK_ALTER; TK_AND; TK_AS; TK_ASC; TK_BEGIN; TK_BY; TK_CASE; TK_CLASS; TK_CONTAIN;
   TK_CREATE; TK_DELETE; TK_DESC; TK_DROP; TK_EDGE; TK_END; TK_EXISTS; TK_EXTENDS; TK_FROM; TK_GROUP; TK_IF;
   TK_INDEX; TK_IS; TK_LIKE; TK_LIMIT; TK_MAXDEPTH; TK_MINDEPTH; TK_NOT; TK_NULL; TK_OR; TK_ORDER;
   TK_PROPERTY; TK_SELECT; TK_SET; TK_SKIP; TK_STRATEGY; TK_TO; TK_TRAVERSE; TK_UPDATE; TK_VERTEX; TK_WHERE;
   TK_WITH; TK_REGEX; TK_BETWEEN].
Definition tokenCode (t : Tok) : N :=
  match t with
  | TK_SPACE => 0 | TK_ILLEGAL => 1 | TK_SIGNED => 2 | TK_UNSIGNED => 3 | TK_FLOAT => 4 | TK_STRING => 5
  | TK_BLOB => 6 | TK_IDENTITY => 7 | TK_LP => 8 | TK_RP => 9 | TK_SEMI => 10 | TK_STAR => 11 | TK_EQ => 12
  | TK_NE => 13 | TK_LT => 14 | TK_LE => 15 | TK_GT => 16 | TK_GE => 17 | TK_COMMA => 18 | TK_DOT => 19
  | TK_LB => 20 | TK_RB => 21 | TK_SHARP => 22 | TK_COLON => 23 | TK_AT => 24 | TK_ALTER => 25 | TK_AND => 26
  | TK_AS => 27 | TK_ASC => 28 | TK_BEGIN => 29 | TK_BY => 30 | TK_CASE => 31 | TK_CLASS => 32
  | TK_CONTAIN => 33 | TK_CREATE => 34 | TK_DELETE => 35 | TK_DESC => 36 | TK_DROP => 37 | TK_EDGE => 38
  | TK_END => 39 | TK_EXISTS => 40 | TK_EXTENDS => 41 | TK_FROM => 42 | TK_GROUP => 43 | TK_IF => 44
  | TK_INDEX => 45 | TK_IS => 46 | TK_LIKE => 47 | TK_LIMIT => 48 | TK_MAXDEPTH => 49 | TK_MINDEPTH => 50
  | TK_NOT => 51 | TK_NULL => 52 | TK_OR => 53 | TK_ORDER => 54 | TK_PROPERTY => 55 | TK_SELECT => 56
  | TK_SET => 57 | TK_SKIP => 58 | TK_STRATEGY => 59 | TK_TO => 60 | TK_TRAVERSE => 61 | TK_UPDATE => 62
  | TK_VERTEX => 63 | TK_WHERE => 64 | TK_WITH => 65 | TK_REGEX => 66 | TK_BETWEEN => 67
  end%N.
Lemma tokenCode_list t : allTokens !! N.to_nat (tokenCode t) = Some t.
Proof. by destruct t. Qed.
Lemma tokenCode_inj t u : tokenCode t = tokenCode u -> t = u.
Proof. intros H. pose proof (tokenCode_list t) as Ht. rewrite H, tokenCode_list in Ht. by injection Ht. Qed.
#[export] Instance Tok_eq_dec : EqDecision Tok.
Proof.
  intros t u. destruct (decide (tokenCode t = tokenCode u)) as [H|H]; [left; by apply tokenCode_inj|right; congruence].
Defined.

(** ** Rules

    [rule f <*> p <+ TK_X <*! ts] is a rule with the right-hand side of the
    nonterminal [p], the token [TK_X] and a token of one of the types [ts]; its
    action is [f] of the values of [p] and of the last token.  The actions of
    the right-hand side run before it, from left to right.  [<&>] is [<*>] with
    the right side tried first, which makes a difference to the work only. *)
Abbreviation Values A := (list (Outcome A)).
Abbreviation NonTerminal A := (list Token -> Values A).

Fixpoint splits {A} (l : list A) : list (list A * list A) :=
  match l with
  | [] => [([], [])]
  | x :: l' => ([], l) :: ((fun s => (x :: s.1, s.2)) <$> splits l')
  end.
Fixpoint splitLast {A} (l : list A) : option (list A * A) :=
  match l with
  | [] => None
  | x :: l' => match splitLast l' with Some (i, y) => Some (x :: i, y) | None => Some ([], x) end
  end.

Definition rule {A} (f : A) : NonTerminal A := fun l => match l with [] => [Ok f] | _ => [] end.
Definition applied {A B} (f : Outcome (A -> B)) (a : Outcome A) : Outcome B := let* g := f in let* x := a in Ok (g x).
Definition then_ {A B} (p : NonTerminal (A -> B)) (q : NonTerminal A) : NonTerminal B :=
  fun l => splits l ≫= fun s => p s.1 ≫= fun f => q s.2 ≫= fun a => [applied f a].
Definition thenRight {A B} (p : NonTerminal (A -> B)) (q : NonTerminal A) : NonTerminal B :=
  fun l => splits l ≫= fun s => q s.2 ≫= fun a => p s.1 ≫= fun f => [applied f a].
Definition thenTok {A} (p : NonTerminal (Token -> A)) (ts : list Tok) : NonTerminal A :=
  fun l => match splitLast l with
           | Some (l', x) => if bool_decide (tok_t x ∈ ts) then (fun f => applied f (Ok x)) <$> p l' else []
           | None => []
           end.
Definition skipTok {A} (p : NonTerminal A) (t : Tok) : NonTerminal A :=
  fun l => match splitLast l with
           | Some (l', x) => if bool_decide (tok_t x = t) then p l' else []
           | None => []
           end.
Definition alt {A} (p q : NonTerminal A) : NonTerminal A := fun l => p l ++ q l.
(** An action that may throw. *)
Definition action {A} (p : NonTerminal (Outcome A)) : NonTerminal A := fun l => (fun o => let* x := o in x) <$> p l.

Declare Scope grammar_scope.
Notation "p <*> q" := (then_ p q) (at level 51, left associativity) : grammar_scope.
Notation "p <&> q" := (thenRight p q) (at level 51, left associativity) : grammar_scope.
Notation "p <*! ts" := (thenTok p ts) (at level 51, left associativity) : grammar_scope.
Notation "p <+ t" := (skipTok p t) (at level 51, left associativity) : grammar_scope.
Notation "p <|> q" := (alt p q) (at level 54, left associativity) : grammar_scope.
Open Scope grammar_scope.

(** ** Numbers in the text of a token *)
Definition signedDigits (z : list byte) : Z :=
  match z with 45%Z :: z' => (- stoul (leadingDigits z'))%Z | _ => stoul (leadingDigits z) end.
(** [std::stoi], and [std::stoull], which takes a sign and negates. *)
Definition stoi (z : list byte) : Outcome Z :=
  let v := signedDigits z in if ((- 2 ^ 31 <=? v) && (v <? 2 ^ 31))%Z then Ok v else Throw STD_OUT_OF_RANGE.
Definition stoullText (z : list byte) : Outcome Z :=
  let v := signedDigits z in if (Z.abs v <=? UINT64_MAX)%Z then Ok (u64 v) else Throw STD_OUT_OF_RANGE.

Definition toString (t : Token) : Outcome string := ofmap string_of_bytes (tokenString t).

(** [sql_parser::Condition::eq] *)
Definition sqlEq (value : list byte) (c : Condition) : Condition :=
  match value with [] => null c | _ => withValue EQUAL value c end.

(** ** Names, options and terms *)
Section grammar.
  Context (stod : list byte -> Outcome (list byte)) (unset : Token).

Definition name : list Tok := [TK_IDENTITY; TK_STRING].
Definition typename : list Tok := [TK_IDENTITY; TK_STRING].
Definition integer : list Tok := [TK_SIGNED; TK_UNSIGNED].

Definition term : NonTerminal (list byte) :=
  action (rule (fun x => let* v := tokenBytes stod x in Ok v.1) <*! [TK_NULL; TK_FLOAT; TK_STRING; TK_SIGNED; TK_UNSIGNED; TK_BLOB]).

Definition if_not_exists_opt : NonTerminal bool :=
  rule false <|> (rule true <+ TK_IF <+ TK_NOT <+ TK_EXISTS).
Definition if_exists_opt : NonTerminal bool := rule false <|> (rule true <+ TK_IF <+ TK_EXISTS).

(** [AT(X) IDENTITY(Y)]: the text from the start of the one to the end of the
    other, and what stands between them; [Y.z - X.z] is the difference of what
    is left of the statement at the two. *)
Definition span (x y : Token) : list byte :=
  take (length (tok_z x ++ tok_after x) - length (tok_after y)) (tok_z x ++ tok_after x).
Definition prop_name : NonTerminal string :=
  action (rule toString <*! name) <|>
  (rule (fun x y => string_of_bytes (span x y)) <*! [TK_AT] <*! [TK_IDENTITY]).

Fixpoint props_list (fuel : nat) (l : list Token) : Values DbRecord :=
  match fuel with
  | O => []
  | S fuel =>
      ((rule (fun a prop value => set prop value a) <*> props_list fuel <+ TK_COMMA <*> prop_name <+ TK_EQ <*> term) <|>
      (rule (fun prop value => set prop value emptyRecord) <*> prop_name <+ TK_EQ <*> term)) l
  end.
Definition props_opt (fuel : nat) : NonTerminal DbRecord :=
  rule emptyRecord <|> (rule (fun x => x) <+ TK_SET <*> props_list fuel).

Definition rid : NonTerminal RecordId :=
  action (rule (fun class_id pos_id =>
      let* c := stoi (tok_z class_id) in let* p := stoi (tok_z pos_id) in Ok (u16 c, u32 p)) <+
    TK_SHARP <*! integer <+ TK_COLON <*! integer).
Fixpoint rid_set (fuel : nat) (l : list Token) : Values RecordDescriptorSet :=
  match fuel with
  | O => []
  | S fuel =>
      ((rule (fun a x => {[x]} ∪ a) <*> rid_set fuel <+ TK_COMMA <*> rid) <|> (rule singleton <*> rid)) l
  end.

#[local] Instance Less_string : Less string := String.ltb.
Fixpoint name_set (fuel : nat) (l : list Token) : Values (list string) :=
  match fuel with
  | O => []
  | S fuel =>
      (action (rule (fun a x => let* n := toString x in Ok (insertElement id n a)) <*> name_set fuel <+ TK_COMMA <*! name) <|>
      action (rule (fun x => let* n := toString x in Ok [n]) <*! name)) l
  end.
Fixpoint term_list (fuel : nat) (l : list Token) : Values (list (list byte)) :=
  match fuel with
  | O => []
  | S fuel =>
      ((rule (fun a x => a ++ [x]) <*> term_list fuel <+ TK_COMMA <*> term) <|> (rule (fun x => [x]) <*> term)) l
  end.

(** ** Conditions *)

(** [strncasecmp(cmp.z, _, cmp.n) == 0] with the text "IN" *)
Definition isIn (t : Token) : bool :=
  bool_decide (toLower (tok_z t) = toLower (take (length (tok_z t)) (bytes_of_string "IN"))).

(** The operators that compare a property with a term: their tokens and the
    condition they make. *)
Definition comparisons : list (list Tok * (list byte -> Condition -> Condition)) :=
  [([TK_EQ], sqlEq); ([TK_NE], fun v c => negate (sqlEq v c)); ([TK_GT], withValue GREATER); ([TK_LT], withValue LESS);
   ([TK_GE], withValue GREATER_EQUAL); ([TK_LE], withValue LESS_EQUAL);
   ([TK_IS], sqlEq); ([TK_IS; TK_NOT], fun v c => negate (sqlEq v c));
   ([TK_CONTAIN; TK_CASE], withValue CONTAIN); ([TK_CONTAIN], fun v c => ignoreCase (withValue CONTAIN v c));
   ([TK_BEGIN; TK_WITH; TK_CASE], withValue BEGIN_WITH);
   ([TK_BEGIN; TK_WITH], fun v c => ignoreCase (withValue BEGIN_WITH v c));
   ([TK_END; TK_WITH; TK_CASE], withValue END_WITH); ([TK_END; TK_WITH], fun v c => ignoreCase (withValue END_WITH v c));
   ([TK_LIKE; TK_CASE], withValue LIKE); ([TK_LIKE], fun v c => ignoreCase (withValue LIKE v c));
   ([TK_REGEX; TK_CASE], withValue REGEX); ([TK_REGEX], fun v c => ignoreCase (withValue REGEX v c))].
Definition tokens (ts : list Tok) : NonTerminal unit := foldl skipTok (rule tt) ts.
Definition comparison (op : list Tok * (list byte -> Condition -> Condition)) : NonTerminal Condition :=
  rule (fun prop (_ : unit) value => op.2 value (newCondition prop)) <*> prop_name <*> tokens op.1 <*> term.

Definition between_cond : NonTerminal Condition :=
  rule (fun prop v1 v2 => between v1 v2 (true, true) (newCondition prop)) <*> prop_name <+ TK_BETWEEN <*> term <+
    TK_AND <*> term.
Definition in_cond (fuel : nat) : NonTerminal Condition :=
  action (rule (fun prop cmp values =>
      if isIn cmp then Ok (in_ values (newCondition prop)) else Throw NOGDB_SQL_SYNTAX_ERROR) <*>
    prop_name <*! [TK_IDENTITY] <+ TK_LB <*> term_list fuel <+ TK_RB).
Definition simple_cond (fuel : nat) : NonTerminal Condition :=
  foldr (fun op rest => comparison op <|> rest) (between_cond <|> in_cond fuel) comparisons.

Fixpoint cond (fuel : nat) (l : list Token) : Values Condition :=
  match fuel with
  | O => []
  | S fuel =>
      ((rule (fun x => x) <+ TK_LP <*> cond fuel <+ TK_RP) <|>
      (rule negate <+ TK_NOT <*> cond fuel) <|>
      simple_cond fuel) l
  end.

(** A composed condition with its outermost operator, if it is not in
    parentheses and no negation. *)
Abbreviation Open := (option Operator * MultiCondition)%type.
Definition closed (p : NonTerminal Open) : NonTerminal MultiCondition :=
  fun l => p l ≫= fun o => match o with
                           | Ok (None, m) => [Ok m]
                           | Ok (Some _, _) => []
                           | Throw e => [Throw e]
                           | UB => [UB]
                           end.
(** What may stand to the left, and to the right, of an operator. *)
Definition looser (opt : Operator) (top : option Operator) : bool :=
  match opt, top with AND, Some OR => true | _, _ => false end.
Definition leftOperand (opt : Operator) (p : NonTerminal Open) : NonTerminal MultiCondition :=
  fun l => p l ≫= fun o => match o with
                           | Ok (top, m) => if looser opt top then [] else [Ok m]
                           | Throw e => [Throw e]
                           | UB => [UB]
                           end.
Definition rightOperand (opt : Operator) (p : NonTerminal Open) : NonTerminal MultiCondition :=
  fun l => p l ≫= fun o => match o with
                           | Ok (top, m) => match top with
                                            | Some AND => match opt with OR => [Ok m] | AND => [] end
                                            | Some OR => []
                                            | None => [Ok m]
                                            end
                           | Throw e => [Throw e]
                           | UB => [UB]
                           end.

Definition operator (opt : Operator) : Tok := match opt with AND => TK_AND | OR => TK_OR end.
(** An operation between operands that are composed ([m]) or simple ([c]). *)
Definition operation (opt : Operator) (c : NonTerminal Condition) (m : NonTerminal Open) : NonTerminal Open :=
  (rule (fun x y => (Some opt, multiJoin x y opt)) <*> leftOperand opt m <+ operator opt <*> rightOperand opt m) <|>
  (rule (fun x y => (Some opt, multiAppend x y opt)) <*> leftOperand opt m <+ operator opt <*> c) <|>
  (rule (fun x y => (Some opt, multiOfMulti x y opt)) <*> c <+ operator opt <*> rightOperand opt m) <|>
  (rule (fun x y => (Some opt, multiOf x y opt)) <*> c <+ operator opt <*> c).
Fixpoint multi_cond (fuel : nat) (l : list Token) : Values Open :=
  match fuel with
  | O => []
  | S fuel =>
      ((rule (fun x : Open => (None, x.2)) <+ TK_LP <*> multi_cond fuel <+ TK_RP) <|>
      operation AND (cond fuel) (multi_cond fuel) <|>
      operation OR (cond fuel) (multi_cond fuel) <|>
      (rule (fun x => (None, multiNegate x)) <+ TK_NOT <*> closed (multi_cond fuel))) l
  end.

Definition where_opt (fuel : nat) : NonTerminal Where :=
  rule NO_COND <|>
  (rule (fun x : Open => W_MULTI_COND x.2) <+ TK_WHERE <*> multi_cond fuel) <|>
  (rule W_CONDITION <+ TK_WHERE <*> cond fuel).

(** ** Projections *)

(** A projection, and whether it is a method call without parentheses. *)
Abbreviation Item := (bool * Projection)%type.
Definition single (p : NonTerminal Projection) : NonTerminal Item := rule (pair false) <*> p.
Definition closedItem (p : NonTerminal Item) : NonTerminal Projection :=
  fun l => p l ≫= fun o => match o with
                           | Ok (true, _) => []
                           | Ok (false, x) => [Ok x]
                           | Throw e => [Throw e]
                           | UB => [UB]
                           end.

Definition proj_alias (item : NonTerminal Item) : NonTerminal Projection :=
  (rule snd <*> item) <|>
  action (rule (fun x y => let* n := toString y in Ok (P_ALIAS x.2 n)) <*> item <+ TK_AS <*! name).
Fixpoint projections (item : NonTerminal Item) (fuel : nat) (l : list Token) : Values (list Projection) :=
  match fuel with
  | O => []
  | S fuel =>
      (rule [] <|>
      (rule [] <+ TK_STAR) <|>
      (rule (fun a x => a ++ [x]) <*> projections item fuel <+ TK_COMMA <*> proj_alias item) <|>
      (rule (fun x => [x]) <*> proj_alias item)) l
  end.

Definition property : NonTerminal Projection :=
  action (rule (fun x => let* n := toString x in Ok (P_PROPERTY n)) <*! [TK_IDENTITY; TK_STRING]).
Definition selector : NonTerminal Z :=
  action (rule (fun index => stoullText (tok_z index)) <+ TK_LB <*! integer <+ TK_RB).

Fixpoint proj_item (fuel : nat) (l : list Token) : Values Item :=
  match fuel with
  | O => []
  | S fuel =>
      let call :=
        action (rule (fun fName args => let* n := toString fName in Ok (P_FUNCTION n args)) <*! [TK_IDENTITY] <+
          TK_LP <*> projections (proj_item fuel) fuel <+ TK_RP) in
      (single (rule snd <+ TK_LP <*> proj_item fuel <+ TK_RP) <|>
      single property <|>
      single (action (rule (fun x y => let* n := dequote (span x y) in Ok (P_PROPERTY (string_of_bytes n))) <*! [TK_AT] <*! [TK_IDENTITY])) <|>
      single call <|>
      (rule (fun x y => (true, P_METHOD x.2 y)) <*> proj_item fuel <+ TK_DOT <*> closedItem (proj_item fuel)) <|>
      single (rule P_ARRAY_SELECTOR <*> call <*> selector) <|>
      single (rule P_ARRAY_SELECTOR <*> property <*> selector) <|>
      single (rule P_CONDITION <*> call <+ TK_LB <*> cond fuel <+ TK_RB)) l
  end.

(** ** The rest of a SELECT statement *)
Definition group_by : NonTerminal string := rule EmptyString <|> (rule (fun x => x) <+ TK_GROUP <+ TK_BY <*> prop_name).
Definition sort_order : NonTerminal unit := rule tt <|> (rule tt <+ TK_ASC) <|> (rule tt <+ TK_DESC).
Definition order_by (fuel : nat) : NonTerminal unit :=
  rule tt <|> (rule (fun (_ : list string) (_ : unit) => tt) <+ TK_ORDER <+ TK_BY <*> name_set fuel <&> sort_order).
Definition count_opt (t : Tok) : NonTerminal Z :=
  rule (-1)%Z <|> action (rule (fun x => stoi (tok_z x)) <+ t <*! integer).
Definition skip : NonTerminal Z := count_opt TK_SKIP.
Definition limit : NonTerminal Z := count_opt TK_LIMIT.

Definition select_target_rids (fuel : nat) : NonTerminal RecordDescriptorSet :=
  (rule singleton <*> rid) <|> (rule (fun x => x) <+ TK_LP <*> rid_set fuel <+ TK_RP).

Definition class_filter (fuel : nat) : NonTerminal (list string) := rule [] <|> name_set fuel.
Definition depth_opt (t : Tok) (default : Z) : NonTerminal Z :=
  rule default <|> action (rule (fun x => stoll (tok_z x)) <+ t <*! integer).
Definition min_depth_opt : NonTerminal Z := depth_opt TK_MINDEPTH 0.
Definition max_depth_opt : NonTerminal Z := depth_opt TK_MAXDEPTH UINT32_MAX.
Definition strategy_opt : NonTerminal string :=
  rule "DEPTH_FIRST"%string <|> action (rule toString <+ TK_STRATEGY <*! [TK_IDENTITY]).
Definition traverse_stmt (fuel : nat) : NonTerminal TraverseArgs :=
  action (rule (fun direction filter root min_depth max_depth strategy =>
      let* d := toString direction in Ok (mkTraverseArgs d filter (rdescOf root) min_depth max_depth strategy)) <+
    TK_TRAVERSE <*! [TK_IDENTITY] <+ TK_LP <*> class_filter fuel <+ TK_RP <+ TK_FROM <*> rid <&>
    min_depth_opt <&> max_depth_opt <&> strategy_opt).

Definition class_target : NonTerminal Target := action (rule (fun x => let* n := toString x in Ok (T_CLASS n)) <*! name).
Definition select_target_of (without_class : NonTerminal Target) : NonTerminal Target := class_target <|> without_class.
Definition from_opt_of (without_class : NonTerminal Target) : NonTerminal Target :=
  rule NO_TARGET <|> (rule (fun x => x) <+ TK_FROM <*> select_target_of without_class).
Definition select_stmt_of (without_class : NonTerminal Target) (fuel : nat) : NonTerminal SelectArgs :=
  rule (fun proj from where_ group (order : unit) skip limit => mkSelectArgs proj from where_ group skip limit) <+ TK_SELECT <*>
    projections (proj_item fuel) fuel <&> from_opt_of without_class <&> where_opt fuel <&> group_by <&> order_by fuel <&>
    skip <&> limit.

Fixpoint select_target_without_class (fuel : nat) (l : list Token) : Values Target :=
  match fuel with
  | O => []
  | S fuel =>
      ((rule T_RIDS <*> select_target_rids (S fuel)) <|>
      (rule T_NESTED <+ TK_LP <*> select_stmt_of (select_target_without_class fuel) fuel <+ TK_RP) <|>
      (rule T_NESTED_TRAVERSE <+ TK_LP <*> traverse_stmt fuel <+ TK_RP)) l
  end.
Definition select_target (fuel : nat) : NonTerminal Target := select_target_of (select_target_without_class fuel).
Definition select_stmt (fuel : nat) : NonTerminal SelectArgs := select_stmt_of (select_target_without_class fuel) fuel.

(** ** Statements *)
Definition edge_opt (t : Tok) (fuel : nat) : NonTerminal Target :=
  rule NO_TARGET <|> (rule (fun x => x) <+ t <*> select_target_without_class fuel).

(** [index_type ::= .] has no action: its value is whatever the stack held. *)
Definition index_type : NonTerminal Token := rule unset <|> (rule (fun x => x) <*! [TK_IDENTITY]).

Definition create_edge_stmt (fuel : nat) : NonTerminal Statement :=
  action (rule (fun name src dest prop => let* n := toString name in Ok (S_CREATE_EDGE n src dest prop)) <+
    TK_CREATE <+ TK_EDGE <*! name <+ TK_FROM <*> select_target_without_class fuel <+
    TK_TO <*> select_target_without_class fuel <&> props_opt fuel).
Definition update_stmt (fuel : nat) : NonTerminal Statement :=
  rule S_UPDATE <+ TK_UPDATE <*> select_target fuel <&> props_opt fuel <&> where_opt fuel.
Definition delete_vertex_stmt (fuel : nat) : NonTerminal Statement :=
  rule S_DELETE_VERTEX <+ TK_DELETE <+ TK_VERTEX <*> select_target fuel <&> where_opt fuel.
Definition delete_edge_stmt (fuel : nat) : NonTerminal Statement :=
  (rule (fun rids => S_DELETE_EDGE (T_RIDS rids) NO_TARGET NO_TARGET NO_COND) <+ TK_DELETE <+ TK_EDGE <*>
    select_target_rids fuel) <|>
  action (rule (fun name from to where_ => let* n := toString name in Ok (S_DELETE_EDGE (T_CLASS n) from to where_)) <+
    TK_DELETE <+ TK_EDGE <*! name <&> edge_opt TK_FROM fuel <&> edge_opt TK_TO fuel <&> where_opt fuel).

Definition class_cmd : NonTerminal Statement :=
  (rule (fun name check type => S_CREATE_CLASS name type check) <+ TK_CREATE <+ TK_CLASS <*! name <&>
    if_not_exists_opt <+ TK_EXTENDS <*! [TK_VERTEX; TK_EDGE] <+ TK_SEMI) <|>
  (rule (fun name check extend => S_CREATE_CLASS name extend check) <+ TK_CREATE <+ TK_CLASS <*! name <&>
    if_not_exists_opt <+ TK_EXTENDS <*! name <+ TK_SEMI) <|>
  (rule S_ALTER_CLASS <+ TK_ALTER <+ TK_CLASS <*! name <*! [TK_IDENTITY] <*> term <+ TK_SEMI) <|>
  (rule S_DROP_CLASS <+ TK_DROP <+ TK_CLASS <*! name <&> if_exists_opt <+ TK_SEMI).
Definition property_cmd : NonTerminal Statement :=
  (rule (fun className propName check type => S_CREATE_PROPERTY className propName type check) <+ TK_CREATE <+
    TK_PROPERTY <*! name <+ TK_DOT <*! name <&> if_not_exists_opt <*! typename <+ TK_SEMI) <|>
  (rule S_ALTER_PROPERTY <+ TK_ALTER <+ TK_PROPERTY <*! name <+ TK_DOT <*! name <*! [TK_IDENTITY] <*>
    term <+ TK_SEMI) <|>
  (rule S_DROP_PROPERTY <+ TK_DROP <+ TK_PROPERTY <*! name <+ TK_DOT <*! name <&> if_exists_opt <+ TK_SEMI).
Definition index_cmd : NonTerminal Statement :=
  (rule S_CREATE_INDEX <+ TK_CREATE <+ TK_INDEX <*! name <+ TK_DOT <*! name <*> index_type <+ TK_SEMI) <|>
  (rule S_DROP_INDEX <+ TK_DROP <+ TK_INDEX <*! name <+ TK_DOT <*! name <+ TK_SEMI).
Definition record_cmd (fuel : nat) : NonTerminal Statement :=
  (rule S_CREATE_VERTEX <+ TK_CREATE <+ TK_VERTEX <*! name <&> props_opt fuel <+ TK_SEMI) <|>
  (create_edge_stmt fuel <+ TK_SEMI) <|>
  (rule S_SELECT <*> select_stmt fuel <+ TK_SEMI) <|>
  (update_stmt fuel <+ TK_SEMI) <|>
  (delete_vertex_stmt fuel <+ TK_SEMI) <|>
  (delete_edge_stmt fuel <+ TK_SEMI) <|>
  (rule S_TRAVERSE <*> traverse_stmt fuel <+ TK_SEMI).
Definition cmd (fuel : nat) : NonTerminal Statement := class_cmd <|> property_cmd <|> index_cmd <|> record_cmd fuel.

(** The statements of a whole input: one unit of fuel for each token and one
    more are enough. *)
Definition input : NonTerminal Statement := fun l => cmd (S (length l)) l.
End grammar.
