(* ===== verification/GrammarSpec.v ===== *)
(** * What the grammar derives

    The derivations of [Grammar] do not depend on the fuel, the conditions it
    builds are those [Compare] evaluates as boolean expressions, the commands on
    classes, properties and indexes are derived from their tokens in one way,
    and the tokens of two operators never come from a text. *)

From stdpp Require Import base gmap sets list strings.
From Stdlib Require Import ZArith Lia.
From S2P Require Import Prelude.
From S2P Require Import Types.
From S2P Require Import RecordModel.
From S2P Require Import Generic.
From S2P Require Import Compare.
From S2P Require Import SqlLexer.
From S2P Require Import SqlSpec.
From S2P Require Import Sql.
From S2P Require Import SqlContext.
From S2P Require Import Grammar.

(** ** Lists of tokens in two parts *)
Lemma elem_of_splits {A} (l : list A) s : s ∈ splits l <-> l = s.1 ++ s.2.
Proof.
  revert s. induction l as [|x l IH]; intros [s1 s2]; simpl.
  - rewrite list_elem_of_singleton. split; [by intros [= -> ->]|]. intros H. symmetry in H. by apply app_eq_nil in H as [-> ->].
  - rewrite elem_of_cons, list_elem_of_fmap. split.
    + intros [[= -> ->]|([t1 t2] & [= -> ->] & Hin)]; [done|]. apply IH in Hin. simpl in *. by rewrite Hin.
    + destruct s1 as [|y s1]; simpl; [intros <-; by left|]. intros [= -> Hl]. right. exists (s1, s2). split; [done|].
      by apply IH.
Qed.

Lemma splitLast_app {A} (l : list A) l' x : splitLast l = Some (l', x) <-> l = l' ++ [x].
Proof.
  revert l'. induction l as [|y l IH]; intros l'; simpl.
  - split; [done|]. intros H. symmetry in H. by apply app_eq_nil in H as [_ ?].
  - destruct (splitLast l) as [[i z]|] eqn:E.
    + split.
      * intros [= <- ->]. simpl. by rewrite (proj1 (IH i) eq_refl).
      * destruct l' as [|w l']; simpl; [intros [= -> ->]; done|]. intros [= -> Hl].
        apply IH in Hl. by injection Hl as -> ->.
    + split.
      * intros [= <- ->]. destruct l as [|w l]; [done|]. exfalso. revert E. clear.
        revert w. induction l as [|v l IHl]; intros w; simpl; [done|]. simpl in *. destruct (match splitLast l with Some _ => _ | None => _ end) as [[]|] eqn:E'; [done|].
        by apply (IHl v) in E'.
      * destruct l' as [|w l']; simpl; [by intros [= -> ->]|]. intros [= -> Hl]. by apply IH in Hl.
Qed.

Lemma bind_nil {A B} (l : list A) : (l ≫= fun _ => @nil B) = [].
Proof. by induction l. Qed.

(** ** Enough fuel *)

(** Two nonterminals have the same derivations from less than [k] tokens. *)
Definition closeLt {A} (k : nat) (p q : NonTerminal A) : Prop := forall l, length l < k -> p l = q l.

Lemma closeLt_refl {A} k (p : NonTerminal A) : closeLt k p p.
Proof. done. Qed.
Lemma closeLt_mono {A} j k (p q : NonTerminal A) : j <= k -> closeLt k p q -> closeLt j p q.
Proof. intros Hj H l Hl. apply H. lia. Qed.

Section close.
  Context {A B : Type}.

Lemma closeLt_alt k (p p' q q' : NonTerminal A) : closeLt k p p' -> closeLt k q q' -> closeLt k (alt p q) (alt p' q').
Proof. intros Hp Hq l Hl. unfold alt. by rewrite Hp, Hq. Qed.
Lemma closeLt_action k (p p' : NonTerminal (Outcome A)) : closeLt k p p' -> closeLt k (action p) (action p').
Proof. intros Hp l Hl. unfold action. by rewrite Hp. Qed.
Lemma closeLt_bind k (p p' : NonTerminal A) (f : Outcome A -> Values B) :
  closeLt k p p' -> closeLt k (fun l => p l ≫= f) (fun l => p' l ≫= f).
Proof. intros Hp l Hl. by rewrite Hp. Qed.

Lemma closeLt_skipTok k (p p' : NonTerminal A) t : closeLt k p p' -> closeLt (S k) (skipTok p t) (skipTok p' t).
Proof.
  intros Hp l Hl. unfold skipTok. destruct (splitLast l) as [[l' x]|] eqn:E; [|done]. apply splitLast_app in E as ->.
  rewrite length_app in Hl. simpl in Hl. by rewrite Hp by lia.
Qed.
Lemma closeLt_thenTok k (p p' : NonTerminal (Token -> A)) ts : closeLt k p p' -> closeLt (S k) (thenTok p ts) (thenTok p' ts).
Proof.
  intros Hp l Hl. unfold thenTok. destruct (splitLast l) as [[l' x]|] eqn:E; [|done]. apply splitLast_app in E as ->.
  rewrite length_app in Hl. simpl in Hl. by rewrite Hp by lia.
Qed.

Lemma closeLt_skipTok_same k (p p' : NonTerminal A) t : closeLt k p p' -> closeLt k (skipTok p t) (skipTok p' t).
Proof. intros H. apply (closeLt_mono k (S k)); [lia|]. by apply closeLt_skipTok. Qed.
Lemma closeLt_thenTok_same k (p p' : NonTerminal (Token -> A)) ts : closeLt k p p' -> closeLt k (thenTok p ts) (thenTok p' ts).
Proof. intros H. apply (closeLt_mono k (S k)); [lia|]. by apply closeLt_thenTok. Qed.

Lemma bind_ext {X Y} (l : list X) (f g : X -> list Y) : (forall x, x ∈ l -> f x = g x) -> l ≫= f = l ≫= g.
Proof.
  induction l as [|x l IH]; intros H; [done|]. rewrite !bind_cons, (H x) by by left. f_equal. apply IH. intros y Hy. apply H. by right.
Qed.

(** Both sides see at most what the whole sees; the right one less, when the
    left one never derives the empty sequence. *)
Lemma closeLt_parts k j (p p' : NonTerminal (A -> B)) (q q' : NonTerminal A) :
  closeLt k p p' -> closeLt j q q' -> (j < k -> k <= S j /\ p [] = [] /\ p' [] = []) ->
  closeLt k (then_ p q) (then_ p' q') /\ closeLt k (thenRight p q) (thenRight p' q').
Proof.
  intros Hp Hq He.
  assert (forall l s, length l < k -> s ∈ splits l -> p s.1 = p' s.1 /\ (q s.2 = q' s.2 \/ p s.1 = [] /\ p' s.1 = [])) as Hs.
  { intros l [s1 s2] Hl Hin%elem_of_splits. cbn [fst snd] in *. subst l. rewrite length_app in Hl. split; [apply Hp; lia|].
    destruct (decide (length s2 < j)); [left; by apply Hq|]. destruct He as (Hk & H1 & H2); [lia|].
    right. destruct s1; [done|]. simpl in Hl. lia. }
  split; intros l Hl; apply bind_ext; intros s Hin; destruct (Hs l s Hl Hin) as [Hp' Hq'].
  - rewrite <- Hp'. destruct Hq' as [-> |[-> _]]; done.
  - destruct Hq' as [-> |[H1 H2]].
    + apply bind_ext. intros a _. by rewrite Hp'.
    + rewrite H1, H2. clear. generalize (q s.2) (q' s.2). intros l1 l2.
      simpl. by rewrite !bind_nil.
Qed.

Lemma closeLt_then k (p p' : NonTerminal (A -> B)) (q q' : NonTerminal A) :
  closeLt k p p' -> closeLt k q q' -> closeLt k (then_ p q) (then_ p' q').
Proof. intros Hp Hq. apply (closeLt_parts k k p p' q q'); [done|done|lia]. Qed.
Lemma closeLt_thenRight k (p p' : NonTerminal (A -> B)) (q q' : NonTerminal A) :
  closeLt k p p' -> closeLt k q q' -> closeLt k (thenRight p q) (thenRight p' q').
Proof. intros Hp Hq. apply (closeLt_parts k k p p' q q'); [done|done|lia]. Qed.
Lemma closeLt_then_short k (p p' : NonTerminal (A -> B)) (q q' : NonTerminal A) :
  p [] = [] -> p' [] = [] -> closeLt (S k) p p' -> closeLt k q q' -> closeLt (S k) (then_ p q) (then_ p' q').
Proof. intros H1 H2 Hp Hq. apply (closeLt_parts (S k) k p p' q q'); [done|done|auto]. Qed.
Lemma closeLt_thenRight_short k (p p' : NonTerminal (A -> B)) (q q' : NonTerminal A) :
  p [] = [] -> p' [] = [] -> closeLt (S k) p p' -> closeLt k q q' -> closeLt (S k) (thenRight p q) (thenRight p' q').
Proof. intros H1 H2 Hp Hq. apply (closeLt_parts (S k) k p p' q q'); [done|done|auto]. Qed.
End close.

(** A rule that starts with a token derives nothing from no tokens. *)
Lemma then_nil {A B} (p : NonTerminal (A -> B)) (q : NonTerminal A) : p [] = [] -> then_ p q [] = [].
Proof. intros H. unfold then_. simpl. by rewrite H. Qed.
Lemma thenRight_nil {A B} (p : NonTerminal (A -> B)) (q : NonTerminal A) : p [] = [] -> thenRight p q [] = [].
Proof. intros H. unfold thenRight. simpl. rewrite H. simpl. by rewrite bind_nil. Qed.
Lemma action_nil {A} (p : NonTerminal (Outcome A)) : p [] = [] -> action p [] = [].
Proof. intros H. unfold action. by rewrite H. Qed.
Ltac starts_with_token :=
  lazymatch goal with
  | |- skipTok _ _ [] = [] => reflexivity
  | |- thenTok _ _ [] = [] => reflexivity
  | |- then_ _ _ [] = [] => apply then_nil; starts_with_token
  | |- thenRight _ _ [] = [] => apply thenRight_nil; starts_with_token
  | |- action _ [] = [] => apply action_nil; starts_with_token
  end.

Ltac close_rule :=
  cbv beta;
  first
    [ match goal with H : closeLt _ ?p ?q |- closeLt _ ?p ?q => eapply closeLt_mono, H; lia end
    | lazymatch goal with
      | |- closeLt _ ?p ?q => first [constr_eq p q; apply closeLt_refl | idtac]
      end;
      lazymatch goal with
      | |- closeLt _ (alt _ _) _ => apply closeLt_alt; close_rule
      | |- closeLt _ (action _) _ => apply closeLt_action; close_rule
      | |- closeLt _ (then_ _ _) _ =>
          first [apply closeLt_then_short; [starts_with_token|starts_with_token| |] | apply closeLt_then]; close_rule
      | |- closeLt _ (thenRight _ _) _ =>
          first [apply closeLt_thenRight_short; [starts_with_token|starts_with_token| |] | apply closeLt_thenRight]; close_rule
      | |- closeLt _ (skipTok _ _) _ => first [apply closeLt_skipTok | apply closeLt_skipTok_same]; close_rule
      | |- closeLt _ (thenTok _ _) _ => first [apply closeLt_thenTok | apply closeLt_thenTok_same]; close_rule
      | |- _ => idtac
      end ].

(** A recursive nonterminal: two tokens fewer need one unit of fuel fewer. *)
Lemma closeLt_fuel {A} (X : nat -> NonTerminal A) :
  (forall k n n', k <= n -> k <= n' -> closeLt k (X n) (X n') -> closeLt (S k) (X (S n)) (X (S n'))) ->
  forall k n n', k <= n -> k <= n' -> closeLt k (X n) (X n').
Proof.
  intros HX k. induction k as [|k IH]; intros n n' Hn Hn'; [intros l Hl; lia|].
  destruct n, n'; try lia. apply HX; [lia|lia|apply IH; lia].
Qed.

Section fuel.
  Context (stod : list byte -> Outcome (list byte)) (unset : Token).

Lemma props_list_fuel k n n' : k <= n -> k <= n' -> closeLt k (props_list stod n) (props_list stod n').
Proof. apply closeLt_fuel. clear. intros k n n' _ _ IH. apply closeLt_alt; close_rule. Qed.
Lemma rid_set_fuel k n n' : k <= n -> k <= n' -> closeLt k (rid_set n) (rid_set n').
Proof. apply closeLt_fuel. clear. intros k n n' _ _ IH. apply closeLt_alt; close_rule. Qed.
Lemma name_set_fuel k n n' : k <= n -> k <= n' -> closeLt k (name_set n) (name_set n').
Proof. apply closeLt_fuel. clear. intros k n n' _ _ IH. apply closeLt_alt; close_rule. Qed.
Lemma term_list_fuel k n n' : k <= n -> k <= n' -> closeLt k (term_list stod n) (term_list stod n').
Proof. apply closeLt_fuel. clear. intros k n n' _ _ IH. apply closeLt_alt; close_rule. Qed.
Lemma simple_cond_fuel k n n' : k <= n -> k <= n' -> closeLt (S k) (simple_cond stod n) (simple_cond stod n').
Proof. intros Hn Hn'. pose proof (term_list_fuel k n n' Hn Hn'). unfold simple_cond, in_cond, between_cond. simpl foldr. close_rule. Qed.
Lemma cond_fuel k n n' : k <= n -> k <= n' -> closeLt k (cond stod n) (cond stod n').
Proof.
  apply closeLt_fuel. clear. intros k n n' Hn Hn' IH. pose proof (simple_cond_fuel k n n' Hn Hn').
  apply closeLt_alt; close_rule.
Qed.
Lemma multi_cond_fuel k n n' : k <= n -> k <= n' -> closeLt k (multi_cond stod n) (multi_cond stod n').
Proof.
  apply closeLt_fuel. clear. intros k n n' Hn Hn' IH. pose proof (cond_fuel k n n' Hn Hn').
  assert (forall o, closeLt k (leftOperand o (multi_cond stod n)) (leftOperand o (multi_cond stod n'))) as Hl
    by (intros o; by apply closeLt_bind).
  assert (forall o, closeLt k (rightOperand o (multi_cond stod n)) (rightOperand o (multi_cond stod n'))) as Hr
    by (intros o; by apply closeLt_bind).
  assert (closeLt k (closed (multi_cond stod n)) (closed (multi_cond stod n'))) by by apply closeLt_bind.
  pose proof (Hl AND). pose proof (Hl OR). pose proof (Hr AND). pose proof (Hr OR).
  apply closeLt_alt; unfold operation; close_rule.
Qed.
Lemma where_opt_fuel k n n' : k <= n -> k <= n' -> closeLt (S k) (where_opt stod n) (where_opt stod n').
Proof.
  intros Hn Hn'. pose proof (multi_cond_fuel k n n' Hn Hn'). pose proof (cond_fuel k n n' Hn Hn').
  unfold where_opt. close_rule.
Qed.

(** A list of items from [k] tokens, where the items are derived alike. *)
Lemma projections_fuel K item item' k n n' : closeLt K item item' -> k <= K -> k <= n -> k <= n' ->
  closeLt k (projections item n) (projections item' n').
Proof.
  intros Hi. revert n n'. induction k as [|k IH]; intros n n' HK Hn Hn'; [intros l Hl; lia|].
  destruct n as [|n], n' as [|n']; try lia. pose proof (IH n n' ltac:(lia) ltac:(lia) ltac:(lia)) as Hp.
  assert (closeLt K (proj_alias item) (proj_alias item')) by (unfold proj_alias; close_rule).
  apply closeLt_alt; close_rule.
Qed.
Lemma proj_item_fuel k n n' : k <= n -> k <= n' -> closeLt k (proj_item stod n) (proj_item stod n').
Proof.
  apply closeLt_fuel. clear. intros k n n' Hn Hn' IH. pose proof (cond_fuel k n n' Hn Hn').
  pose proof (projections_fuel k _ _ k n n' IH ltac:(done) Hn Hn').
  assert (closeLt k (closedItem (proj_item stod n)) (closedItem (proj_item stod n'))) by by apply closeLt_bind.
  apply closeLt_alt; close_rule; unfold single; close_rule.
Qed.

Lemma class_filter_fuel k n n' : k <= n -> k <= n' -> closeLt k (class_filter n) (class_filter n').
Proof. intros Hn Hn'. pose proof (name_set_fuel k n n' Hn Hn'). unfold class_filter. close_rule. Qed.
Lemma traverse_stmt_fuel k n n' : k <= n -> k <= n' -> closeLt (S k) (traverse_stmt n) (traverse_stmt n').
Proof. intros Hn Hn'. pose proof (class_filter_fuel k n n' Hn Hn'). unfold traverse_stmt. close_rule. Qed.
Lemma select_stmt_of_fuel k t t' n n' : closeLt k t t' -> k <= n -> k <= n' ->
  closeLt (S k) (select_stmt_of stod t n) (select_stmt_of stod t' n').
Proof.
  intros Ht Hn Hn'. pose proof (proj_item_fuel k n n' Hn Hn') as Hi. pose proof (projections_fuel k _ _ k n n' Hi ltac:(done) Hn Hn').
  pose proof (where_opt_fuel k n n' Hn Hn'). pose proof (name_set_fuel k n n' Hn Hn').
  unfold select_stmt_of, from_opt_of, select_target_of, order_by. close_rule.
Qed.
Lemma select_target_rids_fuel k n n' : k <= n -> k <= n' -> closeLt (S k) (select_target_rids n) (select_target_rids n').
Proof. intros Hn Hn'. pose proof (rid_set_fuel k n n' Hn Hn'). unfold select_target_rids. close_rule. Qed.
Lemma select_target_without_class_fuel k n n' : k <= n -> k <= n' ->
  closeLt k (select_target_without_class stod n) (select_target_without_class stod n').
Proof.
  apply closeLt_fuel. clear. intros k n n' Hn Hn' IH.
  pose proof (select_target_rids_fuel k (S n) (S n') ltac:(lia) ltac:(lia)).
  pose proof (select_stmt_of_fuel k _ _ n n' IH Hn Hn'). pose proof (traverse_stmt_fuel k n n' Hn Hn').
  apply closeLt_alt; close_rule.
Qed.
Lemma record_cmd_fuel k n n' : k <= n -> k <= n' -> closeLt (S k) (record_cmd stod n) (record_cmd stod n').
Proof.
  intros Hn Hn'. pose proof (select_target_without_class_fuel k n n' Hn Hn') as Ht.
  pose proof (select_target_rids_fuel k n n' Hn Hn'). pose proof (props_list_fuel k n n' Hn Hn').
  pose proof (where_opt_fuel k n n' Hn Hn'). pose proof (traverse_stmt_fuel k n n' Hn Hn').
  pose proof (select_stmt_of_fuel k _ _ n n' Ht Hn Hn') as Hs.
  unfold record_cmd, create_edge_stmt, update_stmt, delete_vertex_stmt, delete_edge_stmt, select_stmt, select_target,
    select_target_of, edge_opt, props_opt in *.
  close_rule.
Qed.
End fuel.

(** Any fuel beyond the number of tokens derives the same statements. *)
Theorem grammar_fuel stod unset n l : length l < n -> cmd stod unset n l = input stod unset l.
Proof.
  intros Hn. unfold input, cmd. apply (closeLt_alt (S (length l))); [|apply record_cmd_fuel; lia|lia].
  apply closeLt_refl.
Qed.

(** ** The text of a token *)

(** The tokens whose text an action reads; that of the others is irrelevant, in
    particular how a keyword is written. *)
Definition textual : list Tok :=
  [TK_SIGNED; TK_UNSIGNED; TK_FLOAT; TK_STRING; TK_BLOB; TK_IDENTITY; TK_NULL; TK_AT; TK_VERTEX; TK_EDGE].
Definition mark (t : Tok) : Token := mkToken [] t [].
Definition erase (t : Token) : Token := if bool_decide (tok_t t ∈ textual) then t else mark (tok_t t).
Definition textless {A} (p : NonTerminal A) : Prop := forall l, p (map erase l) = p l.

Lemma erase_type t : tok_t (erase t) = tok_t t.
Proof. unfold erase. by case_bool_decide. Qed.
Lemma bind_map {A B C} (f : A -> B) (g : B -> list C) l : map f l ≫= g = l ≫= fun x => g (f x).
Proof. induction l as [|x l IH]; [done|]. simpl map. by rewrite !bind_cons, IH. Qed.
Lemma splits_fmap {A B} (f : A -> B) (l : list A) : splits (map f l) = map (fun s => (map f s.1, map f s.2)) (splits l).
Proof. induction l as [|x l IH]; [done|]. simpl. by rewrite IH, !map_map. Qed.
Lemma splitLast_fmap {A B} (f : A -> B) (l : list A) : splitLast (map f l) = option_map (fun s => (map f s.1, f s.2)) (splitLast l).
Proof. induction l as [|x l IH]; [done|]. simpl. rewrite IH. by destruct (splitLast l) as [[]|]. Qed.

Section textless.
  Context {A B : Type}.

Lemma textless_rule (f : A) : textless (rule f).
Proof. by intros []. Qed.
Lemma textless_alt (p q : NonTerminal A) : textless p -> textless q -> textless (p <|> q).
Proof. intros Hp Hq l. unfold alt. by rewrite Hp, Hq. Qed.
Lemma textless_action (p : NonTerminal (Outcome A)) : textless p -> textless (action p).
Proof. intros Hp l. unfold action. by rewrite Hp. Qed.
Lemma textless_then (p : NonTerminal (A -> B)) q : textless p -> textless q -> textless (p <*> q).
Proof.
  intros Hp Hq l. unfold then_. rewrite splits_fmap, bind_map. apply bind_ext. intros s _. simpl. by rewrite Hp, Hq.
Qed.
Lemma textless_thenRight (p : NonTerminal (A -> B)) q : textless p -> textless q -> textless (p <&> q).
Proof.
  intros Hp Hq l. unfold thenRight. rewrite splits_fmap, bind_map. apply bind_ext. intros s _. simpl. by rewrite Hp, Hq.
Qed.
Lemma textless_skipTok (p : NonTerminal A) t : textless p -> textless (p <+ t).
Proof. intros Hp l. unfold skipTok. rewrite splitLast_fmap. destruct (splitLast l) as [[l' x]|]; [|done]. simpl. by rewrite erase_type, Hp. Qed.
Lemma textless_thenTok (p : NonTerminal (Token -> A)) ts : forallb (fun t => bool_decide (t ∈ textual)) ts = true ->
  textless p -> textless (p <*! ts).
Proof.
  intros Hts Hp l. unfold thenTok. rewrite splitLast_fmap. destruct (splitLast l) as [[l' x]|]; [|done]. simpl.
  rewrite erase_type, Hp. case_bool_decide as Hx; [|done]. rewrite forallb_forall in Hts.
  pose proof (Hts _ (proj1 (list_elem_of_In _ _) Hx)) as H. unfold erase. by rewrite H.
Qed.
Lemma textless_bind (p : NonTerminal A) (f : Outcome A -> Values B) : textless p -> textless (fun l => p l ≫= f).
Proof. intros Hp l. by rewrite Hp. Qed.
End textless.

Ltac textless_rules :=
  cbv beta;
  first
    [ match goal with H : textless _ |- _ => exact H end
    | match goal with H : forall _, textless _ |- _ => apply H end
    | lazymatch goal with
      | |- textless (alt _ _) => apply textless_alt; textless_rules
      | |- textless (action _) => apply textless_action; textless_rules
      | |- textless (then_ _ _) => apply textless_then; textless_rules
      | |- textless (thenRight _ _) => apply textless_thenRight; textless_rules
      | |- textless (skipTok _ _) => apply textless_skipTok; textless_rules
      | |- textless (thenTok _ _) => apply textless_thenTok; [reflexivity|]; textless_rules
      | |- textless (rule _) => apply textless_rule
      | |- _ => idtac
      end ].
Create HintDb textless.
Section erased.
  Context (stod : list byte -> Outcome (list byte)) (unset : Token).

Lemma prop_name_textless : textless prop_name.
Proof. unfold prop_name. textless_rules. Qed.
Lemma term_textless : textless (term stod).
Proof. unfold term. textless_rules. Qed.
Lemma rid_textless : textless rid.
Proof. unfold rid. textless_rules. Qed.
Hint Resolve prop_name_textless term_textless rid_textless : textless.
Ltac textless_fuel n := induction n as [|n IH]; [done|apply textless_alt; textless_rules; auto with textless].

Lemma props_list_textless n : textless (props_list stod n).
Proof. textless_fuel n. Qed.
Lemma rid_set_textless n : textless (rid_set n).
Proof. textless_fuel n. Qed.
Lemma name_set_textless n : textless (name_set n).
Proof. textless_fuel n. Qed.
Lemma term_list_textless n : textless (term_list stod n).
Proof. textless_fuel n. Qed.
Lemma tokens_textless ts : textless (tokens ts).
Proof.
  induction ts as [|t ts IH] using rev_ind; [apply textless_rule|]. unfold tokens in *. rewrite foldl_snoc. by apply textless_skipTok.
Qed.
Hint Resolve props_list_textless rid_set_textless name_set_textless term_list_textless tokens_textless : textless.
Lemma simple_cond_textless n : textless (simple_cond stod n).
Proof.
  unfold simple_cond. induction comparisons as [|op ops IH]; simpl.
  - unfold between_cond, in_cond. textless_rules; auto with textless.
  - unfold comparison. textless_rules; auto with textless.
Qed.
Hint Resolve simple_cond_textless : textless.
Lemma cond_textless n : textless (cond stod n).
Proof. textless_fuel n. Qed.
Hint Resolve cond_textless : textless.
Lemma multi_cond_textless n : textless (multi_cond stod n).
Proof.
  pose proof cond_textless. induction n as [|n IH]; [done|].
  assert (forall o, textless (leftOperand o (multi_cond stod n))) by (intros o; by apply textless_bind).
  assert (forall o, textless (rightOperand o (multi_cond stod n))) by (intros o; by apply textless_bind).
  assert (textless (closed (multi_cond stod n))) by by apply textless_bind.
  apply textless_alt; unfold operation; textless_rules.
Qed.
Hint Resolve multi_cond_textless : textless.
Lemma where_opt_textless n : textless (where_opt stod n).
Proof. unfold where_opt. textless_rules; auto with textless. Qed.
Lemma projections_textless item n : textless item -> textless (projections item n).
Proof. intros Hi. assert (textless (proj_alias item)) by (unfold proj_alias; textless_rules). textless_fuel n. Qed.
Lemma proj_item_textless n : textless (proj_item stod n).
Proof.
  induction n as [|n IH]; [done|]. pose proof (projections_textless _ n IH). pose proof (cond_textless n).
  assert (textless (closedItem (proj_item stod n))) by by apply textless_bind.
  apply textless_alt; unfold single, property, selector; textless_rules.
Qed.
Hint Resolve where_opt_textless projections_textless proj_item_textless : textless.
Lemma traverse_stmt_textless n : textless (traverse_stmt n).
Proof. unfold traverse_stmt, class_filter, min_depth_opt, max_depth_opt, depth_opt, strategy_opt. textless_rules; auto with textless. Qed.
Lemma count_opt_textless t : textless (count_opt t).
Proof. unfold count_opt. textless_rules. Qed.
Lemma select_stmt_of_textless t n : textless t -> textless (select_stmt_of stod t n).
Proof.
  intros Ht. unfold select_stmt_of, from_opt_of, select_target_of, class_target, group_by, order_by, sort_order, skip, limit, count_opt.
  textless_rules; auto with textless.
Qed.
Lemma select_target_rids_textless n : textless (select_target_rids n).
Proof. unfold select_target_rids. textless_rules; auto with textless. Qed.
Hint Resolve traverse_stmt_textless select_stmt_of_textless select_target_rids_textless : textless.
Lemma select_target_without_class_textless n : textless (select_target_without_class stod n).
Proof.
  induction n as [|n IH]; [done|]. pose proof (select_target_rids_textless (S n)). pose proof (select_stmt_of_textless _ n IH).
  pose proof (traverse_stmt_textless n). apply textless_alt; textless_rules.
Qed.
Hint Resolve select_target_without_class_textless : textless.

(** How the keywords of a statement are written makes no difference. *)
Lemma cmd_textless n : textless (cmd stod unset n).
Proof.
  unfold cmd, class_cmd, property_cmd, index_cmd, record_cmd, create_edge_stmt, update_stmt, delete_vertex_stmt, delete_edge_stmt,
    select_stmt, select_target, select_target_of, class_target, edge_opt, props_opt, if_not_exists_opt, if_exists_opt, index_type.
  textless_rules; auto with textless.
Qed.
End erased.

(** ** What the values satisfy *)
Definition yields {A} (P : A -> Prop) (p : NonTerminal A) : Prop := forall l a, Ok a ∈ p l -> P a.

Section yields.
  Context {A B : Type}.

Lemma yields_rule (P : A -> Prop) f : P f -> yields P (rule f).
Proof. intros H [|] a; simpl; [|by intros ?%not_elem_of_nil]. by intros [= ->]%list_elem_of_singleton. Qed.
Lemma applied_ok (f : Outcome (A -> B)) a b : applied f a = Ok b -> exists g x, f = Ok g /\ a = Ok x /\ b = g x.
Proof. destruct f as [g| |], a as [x| |]; try done. intros [= <-]. by exists g, x. Qed.
Lemma yields_then (P : B -> Prop) (Q : A -> Prop) p q :
  yields (fun f => forall a, Q a -> P (f a)) p -> yields Q q -> yields P (then_ p q).
Proof.
  intros Hp Hq l b (s & H & _)%list_elem_of_bind. apply list_elem_of_bind in H as (f & H & Hf).
  apply list_elem_of_bind in H as (a & H & Ha). apply list_elem_of_singleton in H. symmetry in H.
  apply applied_ok in H as (g & x & -> & -> & ->). eapply Hp; [done|]. by eapply Hq.
Qed.
Lemma yields_thenTok (P : A -> Prop) (p : NonTerminal (Token -> A)) ts :
  yields (fun f => forall t, tok_t t ∈ ts -> P (f t)) p -> yields P (thenTok p ts).
Proof.
  intros Hp l a. unfold thenTok. destruct (splitLast l) as [[l' x]|]; [|by intros ?%not_elem_of_nil].
  case_bool_decide as Ht; [|by intros ?%not_elem_of_nil]. intros (f & H & Hf)%list_elem_of_fmap.
  destruct f as [g| |]; [|done|done]. injection H as ->. by eapply Hp.
Qed.
Lemma yields_skipTok (P : A -> Prop) p t : yields P p -> yields P (skipTok p t).
Proof.
  intros Hp l a. unfold skipTok. destruct (splitLast l) as [[l' x]|]; [|by intros ?%not_elem_of_nil].
  case_bool_decide; [apply Hp|by intros ?%not_elem_of_nil].
Qed.
Lemma yields_alt (P : A -> Prop) p q : yields P p -> yields P q -> yields P (alt p q).
Proof. intros Hp Hq l a [?|?]%elem_of_app; [by eapply Hp|by eapply Hq]. Qed.
Lemma yields_mono (P Q : A -> Prop) p : (forall a, Q a -> P a) -> yields Q p -> yields P p.
Proof. intros H Hp l a Ha. by eapply H, Hp. Qed.
End yields.

Lemma yields_true {A} (p : NonTerminal A) : yields (fun _ => True) p.
Proof. done. Qed.
Lemma yields_filter {A B} (P : A -> Prop) (Q : B -> Prop) (p : NonTerminal A) (f : Outcome A -> Values B) :
  (forall o b, Ok b ∈ f o -> exists a, o = Ok a /\ (P a -> Q b)) -> yields P p -> yields Q (fun l => p l ≫= f).
Proof.
  intros Hf Hp l b (o & H & Ho)%list_elem_of_bind. apply Hf in H as (a & -> & H). by eapply H, Hp.
Qed.

Ltac yield_rule :=
  cbv beta zeta;
  lazymatch goal with
  | |- yields _ (alt _ _) => apply yields_alt; yield_rule
  | |- yields _ (skipTok _ _) => apply yields_skipTok; yield_rule
  | |- yields _ (thenTok _ _) => apply yields_thenTok; yield_rule
  | |- yields _ (then_ _ _) =>
      first [match goal with H : yields _ _ |- _ => eapply yields_then; [|exact H] end
            | eapply yields_then; [|apply yields_true]]; yield_rule
  | |- yields _ (rule _) => apply yields_rule
  end.

(** A condition that the grammar composes is one that [Compare] evaluates as a
    boolean expression, whatever its operators and parentheses. *)
Theorem multi_cond_built stod fuel : yields (fun x => built x.2) (multi_cond stod fuel).
Proof.
  induction fuel as [|fuel IH]; [by intros l a ?%not_elem_of_nil|].
  assert (forall o, yields built (leftOperand o (multi_cond stod fuel))) as Hl.
  { intros opt. eapply yields_filter; [|apply IH]. intros [[top m]| |] b; simpl; [|by intros ?%list_elem_of_singleton..].
    destruct (looser opt top); [by intros ?%not_elem_of_nil|]. intros [= ->]%list_elem_of_singleton. eauto. }
  assert (forall o, yields built (rightOperand o (multi_cond stod fuel))) as Hr.
  { intros opt. eapply yields_filter; [|apply IH]. intros [[top m]| |] b; simpl; [|by intros ?%list_elem_of_singleton..].
    destruct top as [[]|], opt; try (by intros ?%not_elem_of_nil); intros [= ->]%list_elem_of_singleton; eauto. }
  assert (yields built (closed (multi_cond stod fuel))) as Hc.
  { eapply yields_filter; [|apply IH]. intros [[[opt|] m]| |] b; simpl; [by intros ?%not_elem_of_nil| |by intros ?%list_elem_of_singleton..].
    intros [= ->]%list_elem_of_singleton. eauto. }
  pose proof (Hl AND). pose proof (Hl OR). pose proof (Hr AND). pose proof (Hr OR).
  apply yields_alt; unfold operation; yield_rule; intros; simpl; first [done|by constructor].
Qed.

(** The condition of a WHERE clause, where it is a composed one. *)
Definition whereBuilt (w : Where) : Prop := match w with W_MULTI_COND m => built m | _ => True end.
Lemma where_opt_built stod fuel : yields whereBuilt (where_opt stod fuel).
Proof. pose proof (multi_cond_built stod fuel). apply yields_alt; yield_rule; done. Qed.

(** ** Deriving *)

Lemma rule_intro {A} (f : A) : Ok f ∈ rule f [].
Proof. by left. Qed.

Lemma skipTok_intro {A} (p : NonTerminal A) t l x a : Ok a ∈ p l -> tok_t x = t -> Ok a ∈ (p <+ t) (l ++ [x]).
Proof.
  intros Ha <-. unfold skipTok. rewrite (proj2 (splitLast_app _ l x) eq_refl). by rewrite bool_decide_true.
Qed.

Section derive.
  Context {A B : Type}.

Lemma then_intro (p : NonTerminal (A -> B)) (q : NonTerminal A) l1 l2 f a :
  Ok f ∈ p l1 -> Ok a ∈ q l2 -> Ok (f a) ∈ (p <*> q) (l1 ++ l2).
Proof.
  intros Hf Ha. apply list_elem_of_bind. exists (l1, l2). split; [|by apply elem_of_splits].
  apply list_elem_of_bind. exists (Ok f). split; [|done]. apply list_elem_of_bind. exists (Ok a). split; [by left|done].
Qed.
Lemma rule_then_intro (f : A -> B) (q : NonTerminal A) l a : Ok a ∈ q l -> Ok (f a) ∈ (rule f <*> q) l.
Proof. intros Ha. apply (then_intro _ _ [] l f a); [apply rule_intro|done]. Qed.
Lemma thenTok_intro (p : NonTerminal (Token -> A)) ts l x f :
  Ok f ∈ p l -> tok_t x ∈ ts -> Ok (f x) ∈ (p <*! ts) (l ++ [x]).
Proof.
  intros Hf Ht. unfold thenTok. rewrite (proj2 (splitLast_app _ l x) eq_refl), bool_decide_true by done.
  apply list_elem_of_fmap. by exists (Ok f).
Qed.
Lemma marked_intro (f : A -> B) t (q : NonTerminal A) l a : Ok a ∈ q l -> Ok (f a) ∈ (rule f <+ t <*> q) ([mark t] ++ l).
Proof. intros Ha. apply then_intro; [|done]. apply (skipTok_intro (A := A -> B) (rule f) t []); [apply rule_intro|done]. Qed.
Lemma alt_l (p q : NonTerminal A) l o : o ∈ p l -> o ∈ (p <|> q) l.
Proof. intros H. apply elem_of_app. by left. Qed.
Lemma alt_r (p q : NonTerminal A) l o : o ∈ q l -> o ∈ (p <|> q) l.
Proof. intros H. apply elem_of_app. by right. Qed.
End derive.

(** ** Conditions as expressions

    An expression over comparisonsOf, and the tokens that write it with the
    parentheses its operators need: AND binds tighter than OR, both group to
    the left, and NOT binds tightest. *)
Inductive BoolExpr :=
| Test (ts : list Token) (c : Condition)
| Not (e : BoolExpr)
| Both (opt : Operator) (a b : BoolExpr).

Definition parens (l : list Token) : list Token := [mark TK_LP] ++ l ++ [mark TK_RP].
Definition guarded (b : bool) (l : list Token) : list Token := if b then parens l else l.
Definition outermost (e : BoolExpr) : option Operator := match e with Both opt _ _ => Some opt | _ => None end.
Definition needsLeft (opt : Operator) (e : BoolExpr) : bool :=
  match outermost e, opt with Some OR, AND => true | _, _ => false end.
Definition needsRight (opt : Operator) (e : BoolExpr) : bool :=
  match outermost e with Some AND => match opt with AND => true | OR => false end | Some OR => true | None => false end.
Fixpoint written (e : BoolExpr) : list Token :=
  match e with
  | Test ts _ => ts
  | Not e => [mark TK_NOT] ++ guarded (bool_decide (outermost e <> None)) (written e)
  | Both opt a b => guarded (needsLeft opt a) (written a) ++ [mark (operator opt)] ++ guarded (needsRight opt b) (written b)
  end.

(** The condition it stands for, a simple one or a composed one. *)
Fixpoint denoted (e : BoolExpr) : Condition + MultiCondition :=
  match e with
  | Test _ c => inl c
  | Not e => match denoted e with inl c => inl (negate c) | inr m => inr (multiNegate m) end
  | Both opt a b =>
      inr match denoted a, denoted b with
          | inl c1, inl c2 => multiOf c1 c2 opt
          | inl c, inr m => multiOfMulti c m opt
          | inr m, inl c => multiAppend m c opt
          | inr m1, inr m2 => multiJoin m1 m2 opt
          end
  end.
(** Its truth value; NOT before a comparison negates the comparison. *)
Fixpoint truth (f : Condition -> bool) (e : BoolExpr) : bool :=
  match e with
  | Test _ c => f c
  | Not e => match denoted e with inl c => f (negate c) | inr _ => negb (truth f e) end
  | Both AND a b => truth f a && truth f b
  | Both OR a b => truth f a || truth f b
  end.
Fixpoint tests (e : BoolExpr) : list (list Token * Condition) :=
  match e with Test ts c => [(ts, c)] | Not e => tests e | Both _ a b => tests a ++ tests b end.

Definition derived (stod : list byte -> Outcome (list byte)) (n : nat) (e : BoolExpr) (top : option Operator) (l : list Token) : Prop :=
  match denoted e with
  | inl c => Ok c ∈ cond stod n l
  | inr m => Ok (top, m) ∈ multi_cond stod n l
  end.

Section written.
  Context (stod : list byte -> Outcome (list byte)).

Lemma cond_S n l : cond stod (S n) l =
  ((rule (fun x => x) <+ TK_LP <*> cond stod n <+ TK_RP) <|> (rule negate <+ TK_NOT <*> cond stod n) <|> simple_cond stod n) l.
Proof. done. Qed.
Lemma multi_cond_S n l : multi_cond stod (S n) l =
  ((rule (fun x : option Operator * MultiCondition => (None, x.2)) <+ TK_LP <*> multi_cond stod n <+ TK_RP) <|>
   operation AND (cond stod n) (multi_cond stod n) <|> operation OR (cond stod n) (multi_cond stod n) <|>
   (rule (fun x => (None, multiNegate x)) <+ TK_NOT <*> closed (multi_cond stod n))) l.
Proof. done. Qed.

Lemma derived_fuel n n' e top l : length l < n -> length l < n' -> derived stod n e top l -> derived stod n' e top l.
Proof.
  intros Hn Hn'. unfold derived. destruct (denoted e) as [c|m].
  - rewrite (cond_fuel stod (S (length l)) n n'); [done|lia..].
  - rewrite (multi_cond_fuel stod (S (length l)) n n'); [done|lia..].
Qed.
Lemma derived_parens n e top l : derived stod n e top l -> derived stod (S n) e None (parens l).
Proof.
  unfold derived, parens. rewrite (assoc_L app [_] l). destruct (denoted e) as [c|m]; intros H.
  - rewrite cond_S. apply alt_l, alt_l, skipTok_intro; [|done]. by apply (marked_intro (fun x => x)).
  - rewrite multi_cond_S. do 3 apply alt_l. apply skipTok_intro; [|done].
    by apply (marked_intro (fun x : option Operator * MultiCondition => (@None Operator, x.2)) _ _ _ (top, m)).
Qed.
Lemma derived_not n e l : derived stod n e None l -> derived stod (S n) (Not e) None ([mark TK_NOT] ++ l).
Proof.
  unfold derived. cbn [denoted]. destruct (denoted e) as [c|m]; intros H.
  - rewrite cond_S. apply alt_l, alt_r. by apply marked_intro.
  - rewrite multi_cond_S. apply alt_r. apply (marked_intro (fun x => (@None Operator, multiNegate x))).
    apply list_elem_of_bind. exists (Ok (None, m)). split; [by left|done].
Qed.
Lemma operation_intro {X Y Z} opt (f : X -> Y -> Z) (p : NonTerminal X) (q : NonTerminal Y) la lb a b :
  Ok a ∈ p la -> Ok b ∈ q lb ->
  Ok (f a b) ∈ (rule f <*> p <+ operator opt <*> q) ((la ++ [mark (operator opt)]) ++ lb).
Proof. intros Ha Hb. apply then_intro; [|done]. apply skipTok_intro; [|done]. by apply rule_then_intro. Qed.
Lemma derived_both n opt a b topa topb la lb :
  derived stod n a topa la -> derived stod n b topb lb -> looser opt topa = false ->
  match topb with Some AND => opt = OR | Some OR => False | None => True end ->
  derived stod (S n) (Both opt a b) (Some opt) (la ++ [mark (operator opt)] ++ lb).
Proof.
  rewrite (assoc_L app la). unfold derived. cbn [denoted]. intros Ha Hb Hla Hrb.
  assert (forall m, Ok (topa, m) ∈ multi_cond stod n la -> Ok m ∈ leftOperand opt (multi_cond stod n) la) as Hl.
  { intros m Hm. apply list_elem_of_bind. exists (Ok (topa, m)). split; [|done]. rewrite Hla. by left. }
  assert (forall m, Ok (topb, m) ∈ multi_cond stod n lb -> Ok m ∈ rightOperand opt (multi_cond stod n) lb) as Hr.
  { intros m Hm. apply list_elem_of_bind. exists (Ok (topb, m)). split; [|done].
    destruct topb as [[]|]; [subst opt; by left|done|by left]. }
  rewrite multi_cond_S. apply alt_l. apply elem_of_app. cut (Ok (Some opt, match denoted a, denoted b with
    | inl c1, inl c2 => multiOf c1 c2 opt | inl c, inr m => multiOfMulti c m opt
    | inr m, inl c => multiAppend m c opt | inr m1, inr m2 => multiJoin m1 m2 opt end)
    ∈ operation opt (cond stod n) (multi_cond stod n) ((la ++ [mark (operator opt)]) ++ lb)).
  { intros H. destruct opt; [left; by apply alt_r|by right]. }
  destruct (denoted a) as [ca|ma], (denoted b) as [cb|mb].
  - apply alt_r. by apply (operation_intro opt (fun x y => (Some opt, multiOf x y opt))).
  - apply alt_l, alt_r. apply (operation_intro opt (fun x y => (Some opt, multiOfMulti x y opt))); auto.
  - apply alt_l, alt_l, alt_r. apply (operation_intro opt (fun x y => (Some opt, multiAppend x y opt))); auto.
  - do 3 apply alt_l. apply (operation_intro opt (fun x y => (Some opt, multiJoin x y opt))); auto.
Qed.

(** The tests of an expression are comparisonsOf of the grammar. *)
Definition comparisonsOf (e : BoolExpr) : Prop :=
  forall ts c, (ts, c) ∈ tests e -> Ok c ∈ simple_cond stod (length ts) ts.
Lemma operand_derived n e b : derived stod (S (length (written e))) e (outermost e) (written e) ->
  length (guarded b (written e)) < n ->
  derived stod n e (if b then None else outermost e) (guarded b (written e)).
Proof.
  intros H Hn. destruct b; cbn [guarded] in *.
  - assert (length (parens (written e)) = S (S (length (written e)))) as Hl by (unfold parens; rewrite !length_app; simpl; lia).
    eapply (derived_fuel (S (S (S (length (written e)))))); [lia|done|]. eapply derived_parens, derived_fuel, H; lia.
  - eapply derived_fuel; [| |done]; lia.
Qed.
Lemma written_derived e : comparisonsOf e -> derived stod (S (length (written e))) e (outermost e) (written e).
Proof.
  induction e as [ts c|e IH|opt a IHa b IHb]; intros Ht.
  - unfold derived. cbn [denoted written]. rewrite cond_S. apply alt_r. apply Ht. by left.
  - specialize (IH Ht). cbn [written outermost]. pose proof (operand_derived _ _ (bool_decide (outermost e <> None)) IH (le_n _)) as H.
    cbn [length app]. replace (if bool_decide (outermost e <> None) then None else outermost e) with (@None Operator) in H.
    { eapply derived_fuel; [| |by apply derived_not]; simpl; lia. }
    case_bool_decide as Ho; [done|]. destruct (outermost e); [by destruct Ho|done].
  - assert (comparisonsOf a) as Ha by (intros ts c ?; apply Ht; simpl; rewrite elem_of_app; auto).
    assert (comparisonsOf b) as Hb by (intros ts c ?; apply Ht; simpl; rewrite elem_of_app; auto).
    cbn [written outermost]. rewrite !length_app. cbn [length Nat.add].
    pose proof (fun n Hn => operand_derived n a (needsLeft opt a) (IHa Ha) Hn) as Da.
    pose proof (fun n Hn => operand_derived n b (needsRight opt b) (IHb Hb) Hn) as Db.
    eapply derived_both; [apply Da; lia|apply Db; lia| |].
    + unfold needsLeft. by destruct (outermost a) as [[]|], opt.
    + unfold needsRight. by destruct (outermost b) as [[]|], opt.
Qed.

(** The conditions of an expression are evaluated to its truth value. *)
Lemma denoted_built e m : denoted e = inr m -> built m.
Proof.
  revert m. induction e as [ts c|e IH|opt a IHa b IHb]; intros m; simpl; [done| |].
  - destruct (denoted e); [done|]. intros [= <-]. constructor. by apply IH.
  - intros [= <-]. destruct (denoted a), (denoted b); constructor; auto.
Qed.
Definition valueOf (f : Condition -> bool) (v : Condition + MultiCondition) : bool :=
  match v with inl c => f c | inr m => evalExpr f (root m) end.
Lemma denoted_truth f e : valueOf f (denoted e) = truth f e.
Proof.
  induction e as [ts c|e IH|opt a IHa b IHb]; [done| |].
  - cbn [denoted truth]. destruct (denoted e) as [c|m]; [done|]. rewrite <- IH. simpl.
    by destruct (rootOpt m), (evalExpr f (rootLeft m)), (evalExpr f (rootRight m)), (rootNegative m).
  - cbn [denoted truth]. rewrite <- IHa, <- IHb. destruct (denoted a), (denoted b), opt; simpl; by rewrite xorb_false_r.
Qed.
End written.

Lemma tokens_written ts : Ok tt ∈ tokens ts (mark <$> ts).
Proof.
  induction ts as [|t ts IH] using rev_ind; [apply rule_intro|]. unfold tokens in *. rewrite foldl_snoc, fmap_app.
  apply skipTok_intro; [exact IH|done].
Qed.
(** A comparison is written as its property, its operator and its term. *)
Lemma comparison_written stod op n x y p v : op ∈ comparisons -> Ok p ∈ prop_name x -> Ok v ∈ term stod [y] ->
  Ok (op.2 v (newCondition p)) ∈ simple_cond stod n (x ++ (mark <$> op.1) ++ [y]).
Proof.
  intros Hop Hx Hy. unfold simple_cond. revert Hop. induction comparisons as [|op' ops IH]; [by intros ?%not_elem_of_nil|].
  intros [->|Hop]%elem_of_cons; simpl; [|apply alt_r; by apply IH]. apply alt_l.
  rewrite (assoc_L app). set (f := fun prop (_ : unit) value => op'.2 value (newCondition prop)).
  apply (then_intro (rule f <*> prop_name <*> tokens op'.1) (term stod) _ _ (f p tt) v); [|done].
  apply (then_intro (rule f <*> prop_name) (tokens op'.1) _ _ (f p) tt); [by apply rule_then_intro|].
  apply tokens_written.
Qed.

(** ** Tokens without a text *)
Definition gives {A} (P : A -> Prop) (o : Outcome A) : Prop := forall a, o = Ok a -> P a.
Lemma gives_bind {A B} (Q : A -> Prop) (P : B -> Prop) (o : Outcome A) (k : A -> Outcome B) :
  gives Q o -> (forall a, Q a -> gives P (k a)) -> gives P (obind o k).
Proof. intros Ho Hk b. destruct o as [a| |]; [|done|done]. intros H. by apply (Hk a (Ho a eq_refl)). Qed.
Lemma gives_any {A} (o : Outcome A) : gives (fun _ => True) o.
Proof. done. Qed.
Lemma gives_ok {A} (P : A -> Prop) a : P a -> gives P (Ok a).
Proof. by intros H b [= <-]. Qed.
Lemma gives_if {A} (P : A -> Prop) (b : bool) o o' : gives P o -> gives P o' -> gives P (if b then o else o').
Proof. by destruct b. Qed.

(** Neither BETWEEN nor REGEX. *)
Definition textType (t : Tok) : Prop := t <> TK_BETWEEN /\ t <> TK_REGEX.
Definition textToken (r : option (nat * Tok)) : Prop := match r with Some (_, t) => textType t | None => True end.

Lemma keyword_textType z : textType (keywordCode z).
Proof.
  unfold keywordCode. assert (Forall (fun k => textType k.2) keywords) as H by (repeat constructor; done).
  induction keywords as [|[k t] ks IH]; [done|]. cbn [lookupNoCase]. inversion H as [|? ? Ht Hk]; subst.
  destruct (equalNoCase _ _); [exact Ht|by apply IH].
Qed.

Ltac gives_step :=
  first [ apply gives_if | apply gives_ok; repeat case_match; done
        | eapply gives_bind; [apply gives_any|intros ? _] ].
Lemma numberToken_textType z : gives (fun r => textType r.2) (numberToken z).
Proof.
  unfold numberToken. eapply gives_bind; [apply gives_any|intros c0 _]. eapply gives_bind; [apply gives_any|intros hex _].
  apply gives_if; [repeat gives_step|]. do 2 gives_step.
  apply (gives_bind (fun r => textType r.2)); [repeat gives_step|intros [i t] Ht]. do 2 gives_step.
  apply (gives_bind (fun r => textType r.2)); [repeat gives_step; by apply gives_ok|intros [j u] Hu].
  gives_step. apply gives_ok. by case_bool_decide.
Qed.
Lemma blobToken_textType z : gives (fun r => textType r.2) (blobToken z).
Proof.
  unfold blobToken. do 2 gives_step. apply (gives_bind (fun r => textType r.2)); [repeat gives_step|intros [i t] Ht].
  gives_step. by apply gives_ok.
Qed.
(** No token of a text is BETWEEN or REGEX: the lexer has no such keywords. *)
Lemma getTokenID_textToken z : gives textToken (getTokenID z).
Proof.
  induction z as [|c z IH]; [done|]. cbn [getTokenID]. unfold identifier.
  repeat match goal with
  | |- gives _ (obind (getTokenID _) _) => eapply gives_bind; [exact IH|intros [[i t]|] Ht; [|done]]
  | |- gives _ (obind (numberToken _) _) => eapply gives_bind; [apply numberToken_textType|intros [i t] Ht]
  | |- gives _ (obind (blobToken _) _) => eapply gives_bind; [apply blobToken_textType|intros [i t] Ht]
  | |- gives _ (obind _ _) => eapply gives_bind; [apply gives_any|intros ? _]
  | |- gives _ (if _ then _ else _) => apply gives_if
  | |- gives _ (Ok _) => apply gives_ok
  end; try done; repeat case_match; try done; try exact (keyword_textType _); by destruct t.
Qed.
Lemma lexAll_textType fuel l : Forall (fun t => textType (tok_t t)) (lexAll fuel l).1.
Proof.
  revert l. induction fuel as [|fuel IH]; intros [|c l]; cbn [lexAll fst]; [constructor..|].
  pose proof (getTokenID_textToken (terminated (c :: l))) as H.
  destruct (getTokenID (terminated (c :: l))) as [[[n t]|]| |]; [|constructor..]. specialize (H _ eq_refl). cbn [textToken] in H.
  specialize (IH (drop n (c :: l))). destruct (lexAll fuel (drop n (c :: l))) as [toks complete]. cbn [fst] in IH.
  destruct t; cbn [fst]; by constructor.
Qed.

(** The comparison with IN looks at the length of the word: a part of it will
    do. *)
Lemma isIn_part : isIn (mkToken (bytes_of_string "I") TK_IDENTITY [0%Z]) = true /\ isIn (mkToken (bytes_of_string "in") TK_IDENTITY [0%Z]) = true /\
  isIn (mkToken (bytes_of_string "INTO") TK_IDENTITY [0%Z]) = false.
Proof. vm_compute. done. Qed.
