(* ===== verification/GrammarUnique.v ===== *)
(** * The grammar of conditions is unambiguous

    With the precedences of the operators a sequence of tokens derives at most
    one condition: the value that the parser computes is that of [Grammar],
    however it finds it.  The tokens of the operator BETWEEN, which no text
    has, are excluded: the grammar is ambiguous there. *)

From stdpp Require Import base gmap sets list strings.
From Stdlib Require Import ZArith Lia.
From S2P Require Import Prelude.
From S2P Require Import Types.
From S2P Require Import RecordModel.
From S2P Require Import Generic.
From S2P Require Import Compare.
From S2P Require Import SqlLexer.
From S2P Require Import Sql.
From S2P Require Import SqlContext.
From S2P Require Import Grammar.
From S2P Require Import GrammarSpec.

(** ** The values of a sequence, without those that throw *)
Definition oks {A} (vs : Values A) : list A := omap (fun o => match o with Ok x => Some x | _ => None end) vs.
Definition singleValued {A} (p : NonTerminal A) (l : list Token) : Prop := length (oks (p l)) <= 1.

Lemma elem_of_oks {A} (vs : Values A) x : x ∈ oks vs <-> Ok x ∈ vs.
Proof.
  unfold oks. rewrite list_elem_of_omap. split; [|intros H; by exists (Ok x)].
  intros ([y| |] & H & Ho); by simplify_eq.
Qed.
Lemma oks_nil {A} (vs : Values A) : (forall x, Ok x ∉ vs) -> oks vs = [].
Proof.
  intros H. destruct (oks vs) as [|x xs] eqn:E; [done|]. destruct (H x). apply elem_of_oks. rewrite E. by left.
Qed.
Lemma oks_app {A} (v w : Values A) : oks (v ++ w) = oks v ++ oks w.
Proof. apply omap_app. Qed.
Lemma oks_bind {A B} (l : list A) (f : A -> Values B) : oks (l ≫= f) = l ≫= (fun x => oks (f x)).
Proof. induction l as [|x l IH]; [done|]. by rewrite !bind_cons, oks_app, IH. Qed.
Lemma oks_applied {A B} (f : Outcome (A -> B)) (vs : Values A) :
  oks (vs ≫= fun a => [applied f a]) = match f with Ok g => g <$> oks vs | _ => [] end.
Proof.
  induction vs as [|o vs IH]; [by destruct f|]. rewrite bind_cons, oks_app, IH. by destruct f, o.
Qed.
Lemma oks_then {A B} (p : NonTerminal (A -> B)) (q : NonTerminal A) l :
  oks ((p <*> q) l) = splits l ≫= fun s => oks (p s.1) ≫= fun f => f <$> oks (q s.2).
Proof.
  unfold then_. rewrite oks_bind. apply bind_ext. intros [s1 s2] _. cbn [fst snd]. rewrite oks_bind.
  induction (p s1) as [|o ps IH]; [done|]. rewrite bind_cons, IH, oks_applied. by destruct o.
Qed.

(** ** What a derivation consists of *)
Lemma der_rule {A} (f g : A) l : Ok g ∈ rule f l -> l = [] /\ g = f.
Proof. destruct l; simpl; [|by intros ?%not_elem_of_nil]. by intros [= ->]%list_elem_of_singleton. Qed.
Lemma der_then {A B} (p : NonTerminal (A -> B)) (q : NonTerminal A) l b : Ok b ∈ (p <*> q) l ->
  exists l1 l2 f a, l = l1 ++ l2 /\ Ok f ∈ p l1 /\ Ok a ∈ q l2 /\ b = f a.
Proof.
  rewrite <- elem_of_oks, oks_then. intros ([l1 l2] & H & Hl)%list_elem_of_bind. apply elem_of_splits in Hl. simpl in *.
  apply list_elem_of_bind in H as (f & H & Hf). apply list_elem_of_fmap in H as (a & -> & Ha).
  apply elem_of_oks in Hf. apply elem_of_oks in Ha. by exists l1, l2, f, a.
Qed.
Lemma der_skipTok {A} (p : NonTerminal A) t l a : Ok a ∈ (p <+ t) l ->
  exists l' x, l = l' ++ [x] /\ tok_t x = t /\ Ok a ∈ p l'.
Proof.
  unfold skipTok. destruct (splitLast l) as [[l' x]|] eqn:E; [|by intros ?%not_elem_of_nil].
  apply splitLast_app in E. case_bool_decide; [|by intros ?%not_elem_of_nil]. intros H'. by exists l', x.
Qed.
Lemma der_thenTok {A} (p : NonTerminal (Token -> A)) ts l a : Ok a ∈ (p <*! ts) l ->
  exists l' x f, l = l' ++ [x] /\ tok_t x ∈ ts /\ Ok f ∈ p l' /\ a = f x.
Proof.
  unfold thenTok. destruct (splitLast l) as [[l' x]|] eqn:E; [|by intros ?%not_elem_of_nil].
  apply splitLast_app in E. case_bool_decide; [|by intros ?%not_elem_of_nil].
  intros ([f| |] & Ho & Hf)%list_elem_of_fmap; simplify_eq/=. by exists l', x, f.
Qed.
Lemma der_alt {A} (p q : NonTerminal A) l a : Ok a ∈ (p <|> q) l -> Ok a ∈ p l \/ Ok a ∈ q l.
Proof. apply elem_of_app. Qed.
Lemma der_action {A} (p : NonTerminal (Outcome A)) l a : Ok a ∈ action p l -> Ok (Ok a) ∈ p l.
Proof. intros ([[| |]| |] & Ho & Hin)%list_elem_of_fmap; simplify_eq/=. done. Qed.
Lemma der_rule_then {A B} (f : A -> B) (q : NonTerminal A) l b : Ok b ∈ (rule f <*> q) l -> exists a, Ok a ∈ q l /\ b = f a.
Proof. intros (l1 & l2 & g & a & -> & [-> ->]%der_rule & Ha & ->)%der_then. by exists a. Qed.
Lemma der_marked {A B} (f : A -> B) t (q : NonTerminal A) l b : Ok b ∈ (rule f <+ t <*> q) l ->
  exists x l' a, l = x :: l' /\ tok_t x = t /\ Ok a ∈ q l' /\ b = f a.
Proof.
  intros (l1 & l2 & g & a & -> & (l' & x & -> & Hx & [-> ->]%der_rule)%der_skipTok & Ha & ->)%der_then. by exists x, l2, a.
Qed.

(** ** Uniqueness *)
Lemma unique_bind {A B} (l : list A) (g : A -> list B) : NoDup l -> (forall x, x ∈ l -> length (g x) <= 1) ->
  (forall x y, x ∈ l -> y ∈ l -> g x <> [] -> g y <> [] -> x = y) -> length (l ≫= g) <= 1.
Proof.
  induction 1 as [|x l Hx Hl IH]; intros Hg Hu; [simpl; lia|]. rewrite bind_cons, length_app.
  destruct (decide (g x = [])) as [->|Hne].
  { simpl. apply IH; intros; [apply Hg; by right|]. apply Hu; [by right..|done|done]. }
  replace (l ≫= g) with (@nil B). { simpl. pose proof (Hg x (list_elem_of_here _ _)). lia. }
  clear IH. induction l as [|y l IHl]; [done|]. rewrite bind_cons, <- IHl.
  - destruct (g y) eqn:E; [done|]. destruct Hx. rewrite (Hu x y); [by left|by left|right; by left|done|by rewrite E].
  - intros H. apply Hx. by right.
  - by inversion Hl.
  - intros z Hz. apply Hg. rewrite !elem_of_cons in *. naive_solver.
  - intros z w Hz Hw. apply Hu; rewrite !elem_of_cons in *; naive_solver.
Qed.
Lemma NoDup_splits {A} (l : list A) : NoDup (splits l).
Proof.
  induction l as [|x l IH]; simpl; [apply NoDup_singleton|]. constructor.
  - intros (s & [=] & _)%list_elem_of_fmap.
  - apply NoDup_fmap; [|done]. by intros [] [] [= -> ->].
Qed.
Lemma unique_then {A B} (p : NonTerminal (A -> B)) (q : NonTerminal A) l :
  (forall l1 l2, l = l1 ++ l2 -> singleValued p l1 /\ singleValued q l2) ->
  (forall l1 l2 m1 m2 f a g b, l = l1 ++ l2 -> l = m1 ++ m2 -> Ok f ∈ p l1 -> Ok a ∈ q l2 -> Ok g ∈ p m1 -> Ok b ∈ q m2 ->
    l2 = m2) ->
  singleValued (p <*> q) l.
Proof.
  intros Hu Hs. unfold singleValued. rewrite oks_then. apply unique_bind; [apply NoDup_splits| |].
  - intros [l1 l2] [H1 H2]%elem_of_splits%Hu. unfold singleValued in *. simpl in *.
    destruct (oks (p l1)) as [|f [|]]; simpl in *; [lia| |lia]. rewrite app_nil_r, length_fmap. done.
  - assert (forall l1 l2, (oks (p l1) ≫= fun f => f <$> oks (q l2)) <> [] -> exists f a, Ok f ∈ p l1 /\ Ok a ∈ q l2) as Hne.
    { intros l1 l2 H. destruct (oks (p l1)) as [|f fs] eqn:Ef; [done|]. destruct (oks (q l2)) as [|a qs] eqn:Ea.
      - destruct H. clear. induction (f :: fs); [done|]. by rewrite bind_cons.
      - exists f, a. split; apply elem_of_oks; [rewrite Ef|rewrite Ea]; by left. }
    intros [l1 l2] [m1 m2] Hl%elem_of_splits Hm%elem_of_splits (f & a & Hf & Ha)%Hne (g & b & Hg & Hb)%Hne. simpl in *.
    pose proof (Hs l1 l2 m1 m2 f a g b Hl Hm Hf Ha Hg Hb) as ->. rewrite Hl in Hm. by apply app_inv_tail in Hm as ->.
Qed.
Lemma unique_skipTok {A} (p : NonTerminal A) t l : (forall l' x, l = l' ++ [x] -> singleValued p l') -> singleValued (p <+ t) l.
Proof.
  intros H. unfold singleValued, skipTok. destruct (splitLast l) as [[l' x]|] eqn:E; [|simpl; lia].
  apply splitLast_app in E. case_bool_decide; [by eapply H|simpl; lia].
Qed.
Lemma unique_thenTok {A} (p : NonTerminal (Token -> A)) ts l :
  (forall l' x, l = l' ++ [x] -> singleValued p l') -> singleValued (p <*! ts) l.
Proof.
  intros H. unfold singleValued, thenTok. destruct (splitLast l) as [[l' x]|] eqn:E; [|simpl; lia].
  apply splitLast_app in E. case_bool_decide; [|simpl; lia]. specialize (H _ _ E). unfold singleValued in H.
  replace (length (oks _)) with (length (oks (p l'))); [done|]. clear. induction (p l') as [|[| |] ps IH]; simpl; [done| |done|done].
  by f_equal.
Qed.
Lemma unique_alt {A} (p q : NonTerminal A) l : singleValued p l -> singleValued q l ->
  (forall a b, Ok a ∈ p l -> Ok b ∈ q l -> False) -> singleValued (p <|> q) l.
Proof.
  intros Hp Hq H. unfold singleValued, alt in *. rewrite oks_app, length_app.
  destruct (oks (p l)) as [|x xs] eqn:Ex; [done|]. destruct (oks (q l)) as [|y ys] eqn:Ey; [simpl in *; lia|].
  destruct (H x y); apply elem_of_oks; [rewrite Ex|rewrite Ey]; by left.
Qed.
Lemma one_value {A} (p : NonTerminal A) l a : singleValued p l -> Ok a ∈ p l -> oks (p l) = [a].
Proof.
  unfold singleValued. intros Hu Hin%elem_of_oks. destruct (oks (p l)) as [|x [|]]; [by apply not_elem_of_nil in Hin| |simpl in Hu; lia].
  by apply list_elem_of_singleton in Hin as ->.
Qed.
Lemma unique_rule {A} (f : A) l : singleValued (rule f) l.
Proof. destruct l; unfold singleValued; simpl; lia. Qed.
Lemma unique_action {A} (p : NonTerminal (Outcome A)) l : singleValued p l -> singleValued (action p) l.
Proof.
  unfold singleValued, action. intros H. assert (length (oks ((fun o => let* x := o in x) <$> p l)) <= length (oks (p l))); [|lia].
  clear. induction (p l) as [|o ps IH]; [done|]. rewrite fmap_cons. unfold oks in *.
  destruct o as [[| |]| |]; cbn; cbn in IH; lia.
Qed.
Lemma unique_rule_then {A B} (f : A -> B) (q : NonTerminal A) l : singleValued q l -> singleValued (rule f <*> q) l.
Proof.
  intros H. unfold singleValued. rewrite oks_then. destruct l as [|x l]; simpl.
  - rewrite !app_nil_r, length_fmap. exact H.
  - assert (forall ss : list (list Token * list Token),
        ((fun s => (x :: s.1, s.2)) <$> ss) ≫= (fun s => oks (rule f s.1) ≫= fun g => g <$> oks (q s.2)) = []) as H0.
    { intros ss. induction ss as [|s ss IH]; [done|]. by rewrite fmap_cons, bind_cons. }
    rewrite H0, !app_nil_r, length_fmap. exact H.
Qed.
(** The right part is determined by its length. *)
Lemma unique_then_length {A B} (p : NonTerminal (A -> B)) (q : NonTerminal A) k l :
  (forall l1 l2, l = l1 ++ l2 -> singleValued p l1 /\ singleValued q l2) -> (forall m a, Ok a ∈ q m -> length m = k) ->
  singleValued (p <*> q) l.
Proof.
  intros Hu Hk. apply unique_then; [done|]. intros l1 l2 m1 m2 f a g b -> Hm _ Ha _ Hb.
  apply Hk in Ha, Hb. eapply app_inj_2; [|exact Hm]. lia.
Qed.

(** ** Simple conditions *)
Abbreviation types l := (tok_t <$> l).
Definition propNames : list (list Tok) := [[TK_IDENTITY]; [TK_STRING]; [TK_AT; TK_IDENTITY]].
Definition terms : list Tok := [TK_NULL; TK_FLOAT; TK_STRING; TK_SIGNED; TK_UNSIGNED; TK_BLOB].

(** The name of a property is determined by what follows it. *)
Lemma propNames_prefix p p' r r' : p ∈ propNames -> p' ∈ propNames -> p ++ r = p' ++ r' -> p = p' /\ r = r'.
Proof.
  unfold propNames. rewrite !elem_of_cons. intros [->|[->|[->|?%not_elem_of_nil]]] [->|[->|[->|?%not_elem_of_nil]]];
    simpl; try done; intros H; by simplify_eq.
Qed.
Lemma prop_name_types l n : Ok n ∈ prop_name l -> types l ∈ propNames.
Proof.
  intros [(l' & x & f & -> & Hx & [-> ->]%der_rule & _)%der_action%der_thenTok|
    (l' & x & f & -> & Hx & (l2 & y & g & -> & Hy & [-> ->]%der_rule & _)%der_thenTok & _)%der_thenTok]%der_alt; simpl.
  - unfold name in Hx. rewrite !elem_of_cons in Hx. destruct Hx as [->|[->|?%not_elem_of_nil]]; [by left|by right; left|done].
  - apply list_elem_of_singleton in Hx as ->. apply list_elem_of_singleton in Hy as ->. by right; right; left.
Qed.
Lemma prop_name_unique l : singleValued prop_name l.
Proof.
  apply unique_alt; [apply unique_action, unique_thenTok; intros; apply unique_rule|
    apply unique_thenTok; intros; apply unique_thenTok; intros; apply unique_rule|].
  intros a b (l' & x & f & -> & _ & [-> _]%der_rule & _)%der_action%der_thenTok
    (l2 & y & g & Hl & _ & (l3 & z & h & -> & _ & _ & _)%der_thenTok & _)%der_thenTok.
  apply (f_equal length) in Hl. rewrite !length_app in Hl. simpl in Hl. lia.
Qed.

Section simple.
  Context (stod : list byte -> Outcome (list byte)).

Lemma term_types l v : Ok v ∈ term stod l -> exists t, types l = [t] /\ t ∈ terms.
Proof. intros (l' & x & f & -> & Hx & [-> ->]%der_rule & _)%der_action%der_thenTok. by exists (tok_t x). Qed.
Lemma term_length l v : Ok v ∈ term stod l -> length l = 1.
Proof. intros (t & Ht & _)%term_types. by rewrite <- (length_fmap tok_t l), Ht. Qed.
Lemma term_unique l : singleValued (term stod) l.
Proof. apply unique_action, unique_thenTok. intros. apply unique_rule. Qed.

Lemma tokens_types ts l u : Ok u ∈ tokens ts l -> types l = ts.
Proof.
  revert l. induction ts as [|t ts IH] using rev_ind; intros l; [by intros [-> _]%der_rule|].
  unfold tokens in *. rewrite foldl_snoc. intros (l' & x & -> & <- & Hl)%der_skipTok. by rewrite fmap_app, (IH _ Hl).
Qed.
Lemma tokens_unique ts l : singleValued (tokens ts) l.
Proof.
  revert l. induction ts as [|t ts IH] using rev_ind; intros l; [apply unique_rule|].
  unfold tokens in *. rewrite foldl_snoc. apply unique_skipTok. intros l' _ _. apply IH.
Qed.

Lemma comparison_types op l c : Ok c ∈ comparison stod op l ->
  exists p t, types l = p ++ op.1 ++ [t] /\ p ∈ propNames /\ t ∈ terms.
Proof.
  intros (l1 & l2 & f & v & -> & (l3 & l4 & g & u & -> & (n & Hn & _)%der_rule_then & Hu & _)%der_then & Hv & _)%der_then.
  apply prop_name_types in Hn. apply tokens_types in Hu. apply term_types in Hv as (t & Ht & ?).
  exists (types l3), t. by rewrite !fmap_app, Hu, Ht, <- (assoc_L app).
Qed.
Lemma comparison_unique op l : singleValued (comparison stod op) l.
Proof.
  apply (unique_then_length _ _ 1); [|apply term_length]. intros l1 l2 _. split; [|apply term_unique].
  apply (unique_then_length _ _ (length op.1)).
  - intros l3 l4 _. split; [|apply tokens_unique]. apply unique_rule_then, prop_name_unique.
  - intros m u Hu%tokens_types. by rewrite <- Hu, length_fmap.
Qed.

Lemma term_list_types n l vs : Ok vs ∈ term_list stod n l -> Forall (fun t => t ∈ TK_COMMA :: terms) (types l) /\ l <> [].
Proof.
  revert l vs. induction n as [|n IH]; intros l vs; [by intros ?%not_elem_of_nil|].
  intros [(l1 & l2 & f & v & -> & (l3 & x & -> & Hx & (a & Ha & _)%der_rule_then)%der_skipTok & (t & Ht & Hin)%term_types & _)%der_then
    |(v & (t & Ht & Hin)%term_types & _)%der_rule_then]%der_alt.
  - apply IH in Ha as [Ha _]. split; [|by destruct l3]. rewrite !fmap_app, Ht. simpl. rewrite Hx.
    repeat apply Forall_app_2; [done|..]; apply Forall_singleton; [by left|by right].
  - rewrite Ht. split; [apply Forall_singleton; by right|by intros ->].
Qed.
Lemma term_list_unique n l : singleValued (term_list stod n) l.
Proof.
  revert l. induction n as [|n IH]; intros l; [unfold singleValued; simpl; lia|]. apply unique_alt.
  - apply (unique_then_length _ _ 1); [|apply term_length]. intros l1 l2 _. split; [|apply term_unique].
    apply unique_skipTok. intros l' _ _. apply unique_rule_then, IH.
  - apply unique_rule_then, term_unique.
  - intros a b (l1 & l2 & f & v & -> & (l3 & x & -> & _ & (vs & [_ Hvs]%term_list_types & _)%der_rule_then)%der_skipTok & Hv%term_length & _)%der_then
      (v' & H%term_length & _)%der_rule_then.
    rewrite !length_app in H. simpl in H. destruct l3; [done|]. simpl in H. lia.
Qed.

(** Two parts, where the first ends with a token of the type [t] and the second
    has none. *)
Lemma last_token_split t (a b l2 m2 : list Token) x y : (a ++ [x]) ++ l2 = (b ++ [y]) ++ m2 ->
  tok_t x = t -> tok_t y = t -> t ∉ types l2 -> t ∉ types m2 -> l2 = m2.
Proof.
  intros H Hx Hy Hl Hm. apply app_eq_inv in H as [(k & H & ->)|(k & H & ->)].
  - destruct k as [|z k] using rev_ind; [done|]. rewrite (assoc_L app) in H. apply app_inj_tail in H as [_ <-].
    destruct Hm. rewrite fmap_app, fmap_app. simpl. set_solver.
  - destruct k as [|z k] using rev_ind; [done|]. rewrite (assoc_L app) in H. apply app_inj_tail in H as [_ <-].
    destruct Hl. rewrite fmap_app, fmap_app. simpl. set_solver.
Qed.

Lemma in_cond_types n l c : Ok c ∈ in_cond stod n l ->
  exists p ts, types l = p ++ [TK_IDENTITY; TK_LB] ++ ts ++ [TK_RB] /\ p ∈ propNames /\ Forall (fun t => t ∈ TK_COMMA :: terms) ts.
Proof.
  intros (l0 & x & -> & Hx & (l1 & l2 & f & vs & -> & (l3 & y & -> & Hy & (l4 & z & g & -> & Hz & (nm & Hn & _)%der_rule_then & _)%der_thenTok)%der_skipTok
    & [Hts _]%term_list_types & _)%der_then)%der_action%der_skipTok.
  exists (types l4), (types l2). apply list_elem_of_singleton in Hz.
  split_and!; [|by eapply prop_name_types|done]. rewrite !fmap_app. simpl. by rewrite Hx, Hy, Hz, <- !(assoc_L app).
Qed.
Lemma in_cond_unique n l : singleValued (in_cond stod n) l.
Proof.
  apply unique_action, unique_skipTok. intros l0 _ _. apply unique_then.
  - intros l1 l2 _. split; [|apply term_list_unique]. apply unique_skipTok. intros l3 _ _. apply unique_thenTok. intros l4 _ _.
    apply unique_rule_then, prop_name_unique.
  - assert (forall l vs, Ok vs ∈ term_list stod n l -> TK_LB ∉ types l) as Hlb.
    { intros l' vs [H _]%term_list_types Hin. rewrite Forall_forall in H. apply H in Hin. by unfold terms in Hin; set_solver. }
    intros l1 l2 m1 m2 f a g b -> Hm (l3 & x & -> & Hx & _)%der_skipTok Ha (m3 & y & -> & Hy & _)%der_skipTok Hb.
    eapply last_token_split; [exact Hm|done|done|by eapply Hlb|by eapply Hlb].
Qed.

Lemma between_cond_types l c : Ok c ∈ between_cond stod l -> TK_BETWEEN ∈ types l.
Proof.
  intros (l1 & l2 & f & v & -> & (l3 & x & -> & _ & (l4 & l5 & g & w & -> & (l6 & y & -> & Hy & _)%der_skipTok & _)%der_then)%der_skipTok & _)%der_then.
  rewrite !fmap_app. simpl. rewrite Hy. set_solver.
Qed.

(** A simple condition begins with the name of a property, and has no token of
    a composed one. *)
Definition structural : list Tok := [TK_LP; TK_RP; TK_AND; TK_OR].
Definition simpleTypes (ts : list Tok) : Prop :=
  Forall (fun t => t ∉ structural) ts /\ exists p r, ts = p ++ r /\ p ∈ propNames.

Lemma simple_cond_cases n l c : Ok c ∈ simple_cond stod n l -> TK_BETWEEN ∉ types l ->
  (exists op, op ∈ comparisons /\ Ok c ∈ comparison stod op l) \/ Ok c ∈ in_cond stod n l.
Proof.
  unfold simple_cond. induction comparisons as [|op ops IH]; simpl.
  - intros [H%between_cond_types|H]%der_alt Hb; [done|by right].
  - intros [H|H]%der_alt Hb; [left; exists op; split; [by left|done]|]. destruct (IH H Hb) as [(op' & ? & ?)|?]; [|by right].
    left. exists op'. split; [by right|done].
Qed.
Lemma propNames_simple p : p ∈ propNames -> Forall (fun t => t ∉ structural) p.
Proof. unfold propNames. rewrite !elem_of_cons. intros [->|[->|[->|?%not_elem_of_nil]]]; [..|done]; repeat constructor; compute_done. Qed.
Lemma comma_terms_simple t : t ∈ TK_COMMA :: terms -> t ∉ structural.
Proof. unfold terms. rewrite !elem_of_cons. intros H. destruct_or? H; subst; try compute_done. by apply not_elem_of_nil in H. Qed.
Lemma comparisons_simple op : op ∈ comparisons -> Forall (fun t => t ∉ structural) op.1.
Proof.
  intros H. assert (Forall (fun op => Forall (fun t => t ∉ structural) op.1) comparisons) as Hall.
  { repeat constructor; compute_done. }
  rewrite Forall_forall in Hall. by apply Hall.
Qed.
Lemma simple_cond_types n l c : Ok c ∈ simple_cond stod n l -> TK_BETWEEN ∉ types l -> simpleTypes (types l).
Proof.
  intros H Hb. destruct (simple_cond_cases _ _ _ H Hb) as [(op & Hop & (p & t & -> & Hp & Ht)%comparison_types)|
    (p & ts & -> & Hp & Hts)%in_cond_types]; (split; [|by eauto]); repeat apply Forall_app_2; try by apply propNames_simple.
  - by apply comparisons_simple.
  - apply Forall_singleton, comma_terms_simple. by right.
  - repeat constructor; compute_done.
  - eapply Forall_impl; [done|]. apply comma_terms_simple.
  - repeat constructor; compute_done.
Qed.

Lemma comparisons_NoDup : NoDup (comparisons.*1).
Proof. compute_done. Qed.
Lemma comparison_in_disjoint n op l c d : Ok c ∈ comparison stod op l -> Ok d ∈ in_cond stod n l -> False.
Proof.
  intros (p & t & Hl & _ & Ht)%comparison_types (p' & ts & Hl' & _ & _)%in_cond_types. rewrite Hl in Hl'.
  rewrite !(assoc_L app) in Hl'. apply app_inj_tail in Hl' as [_ ->]. unfold terms in Ht. set_solver.
Qed.
Lemma simple_cond_unique n l : TK_BETWEEN ∉ types l -> singleValued (simple_cond stod n) l.
Proof.
  intros Hb. unfold simple_cond. pose proof comparisons_NoDup as Hnd. induction comparisons as [|op ops IH]; simpl.
  - apply unique_alt; [|apply in_cond_unique|by intros a b ?%between_cond_types].
    unfold singleValued. rewrite oks_nil; [simpl; lia|]. by intros c ?%between_cond_types.
  - apply NoDup_cons in Hnd as [Hop Hnd]. apply unique_alt; [apply comparison_unique|by apply IH|].
    intros a b Ha H. clear IH. induction ops as [|op' ops IH]; simpl in H.
    + apply der_alt in H as [?%between_cond_types|H]; [done|]. by eapply comparison_in_disjoint.
    + apply der_alt in H as [H|H]; [|apply IH; [set_solver|by inversion Hnd|done]].
      apply comparison_types in Ha as (p & t & Hl & Hp & Ht), H as (p' & t' & Hl' & Hp' & Ht'). rewrite Hl in Hl'.
      apply propNames_prefix in Hl' as [_ Hl']; [|done|done]. apply app_inj_tail in Hl' as [Hl' _]. rewrite <- Hl' in Hop. set_solver.
Qed.
End simple.

(** ** Parentheses *)

(** The depth behind a sequence that begins at depth [d], if it stays there. *)
Fixpoint walk (d : nat) (ts : list Tok) : option nat :=
  match ts with
  | [] => Some d
  | TK_LP :: ts => walk (S d) ts
  | TK_RP :: ts => match d with O => None | S d => walk d ts end
  | _ :: ts => walk d ts
  end.
Definition balanced (ts : list Tok) : Prop := walk 0 ts = Some 0.

Lemma walk_app d a b : walk d (a ++ b) = walk d a ≫= fun d' => walk d' b.
Proof.
  revert d. induction a as [|t a IH]; intros d; [done|]. destruct t; simpl; try apply IH. destruct d; [done|apply IH].
Qed.
Lemma walk_deeper k d a d' : walk d a = Some d' -> walk (k + d) a = Some (k + d').
Proof.
  revert d. induction a as [|t a IH]; intros d; simpl; [by intros [= ->]|].
  destruct t; try apply IH.
  - intros H%IH. by rewrite Nat.add_succ_r in H.
  - destruct d; [done|]. rewrite Nat.add_succ_r. apply IH.
Qed.
Lemma walk_plain t d ts : t ∉ structural -> walk d (t :: ts) = walk d ts.
Proof. unfold structural. destruct t; simpl; try done; set_solver. Qed.
Lemma balanced_plain ts : Forall (fun t => t ∉ structural) ts -> balanced ts.
Proof. unfold balanced. induction 1; [done|]. by rewrite walk_plain. Qed.
Lemma balanced_app a b : balanced a -> balanced (a ++ b) <-> balanced b.
Proof. unfold balanced. intros H. by rewrite walk_app, H. Qed.
Lemma balanced_op opt b : balanced (operator opt :: b) <-> balanced b.
Proof. by destruct opt. Qed.
Lemma balanced_parens ts : balanced ts -> balanced (TK_LP :: ts ++ [TK_RP]).
Proof. unfold balanced. intros H%(walk_deeper 1). simpl in *. by rewrite walk_app, H. Qed.

(** No operator [opt] stands outside of parentheses. *)
Definition noTop (opt : Operator) (ts : list Tok) : Prop :=
  forall a b, ts = a ++ operator opt :: b -> ~ balanced a.
Lemma noTop_plain opt ts : Forall (fun t => t ∉ structural) ts -> noTop opt ts.
Proof.
  intros H a b -> _. apply Forall_app in H as [_ H]. inversion H as [|? ? Hx]. apply Hx. unfold structural. destruct opt; set_solver.
Qed.
Lemma noTop_parens opt ts : balanced ts -> noTop opt (TK_LP :: ts ++ [TK_RP]).
Proof.
  intros Hb a b H Ha. destruct a as [|t a]; [by destruct opt|]. injection H as <- H.
  destruct b as [|t b] using rev_ind.
  { apply app_inj_tail in H as [_ H]. by destruct opt. }
  rewrite app_comm_cons, (assoc_L app) in H. apply app_inj_tail in H as [H _]. subst ts. unfold balanced in *. simpl in Ha.
  rewrite walk_app in Hb. destruct (walk 0 a) as [d|] eqn:E; [|done]. apply (walk_deeper 1) in E. simpl in E. congruence.
Qed.
Lemma noTop_not opt ts : noTop opt ts -> noTop opt (TK_NOT :: ts).
Proof.
  intros H a b Hab Ha. destruct a as [|t a]; [by destruct opt|]. injection Hab as <- Hab. by apply (H a b).
Qed.
(** The last operator outside of parentheses splits a sequence in one way. *)
Lemma noTop_split opt a b a' b' : a ++ operator opt :: b = a' ++ operator opt :: b' -> balanced a -> balanced a' ->
  noTop opt b -> noTop opt b' -> b = b'.
Proof.
  intros H Ha Ha' Hb Hb'. apply app_eq_inv in H as [(k & -> & H)|(k & -> & H)].
  - destruct k as [|t k]; [by injection H|]. injection H as <- ->. destruct (Hb' k b); [done|].
    rewrite balanced_app in Ha by done. by apply balanced_op in Ha.
  - destruct k as [|t k]; [by injection H|]. injection H as <- ->. destruct (Hb k b'); [done|].
    rewrite balanced_app in Ha' by done. by apply balanced_op in Ha'.
Qed.

Definition hasTop (opt : Operator) (ts : list Tok) : Prop := exists a b, ts = a ++ operator opt :: b /\ balanced a.
Lemma hasTop_noTop opt ts : hasTop opt ts -> ~ noTop opt ts.
Proof. intros (a & b & -> & Ha) H. by eapply H. Qed.
Lemma noTop_operation o opt a b : balanced a -> o <> opt -> noTop o a -> noTop o b -> noTop o (a ++ operator opt :: b).
Proof.
  intros Hbal Ho Ha Hb u v H Hu. apply app_eq_inv in H as [(k & -> & H)|(k & -> & H)].
  - destruct k as [|t k]; [|].
    + simpl in H. injection H as H _. by destruct o, opt.
    + injection H as <- H. by apply (Ha u k).
  - destruct k as [|t k]; [|].
    + simpl in H. injection H as H _. by destruct o, opt.
    + injection H as <- ->. rewrite balanced_app in Hu by done. apply balanced_op in Hu. by apply (Hb k v).
Qed.

(** ** Composed conditions *)
Section composed.
  Context (stod : list byte -> Outcome (list byte)).

Abbreviation noBetween l := (TK_BETWEEN ∉ types l).
(** The tokens of a simple condition, and of a composed one with its outermost
    operator. *)
Definition plain (ts : list Tok) : Prop := balanced ts /\ forall opt, operator opt ∉ ts.
Definition topped (top : option Operator) (ts : list Tok) : Prop :=
  match top with
  | None => forall opt, noTop opt ts
  | Some AND => noTop OR ts /\ hasTop AND ts
  | Some OR => hasTop OR ts
  end.
Definition composed (top : option Operator) (ts : list Tok) : Prop :=
  balanced ts /\ (exists opt, operator opt ∈ ts) /\ topped top ts.

Lemma plain_noTop opt ts : plain ts -> noTop opt ts.
Proof. intros [_ H] a b -> _. apply (H opt). set_solver. Qed.
Lemma plain_composed top ts : plain ts -> composed top ts -> False.
Proof. intros [_ H] (_ & [opt Hopt] & _). by apply (H opt). Qed.

Lemma operator_structural opt : operator opt ∈ structural.
Proof. destruct opt; compute_done. Qed.
Lemma cond_plain n l c : Ok c ∈ cond stod n l -> noBetween l -> plain (types l).
Proof.
  revert l c. induction n as [|n IH]; intros l c; [by intros ?%not_elem_of_nil|]. rewrite cond_S.
  intros [[(l1 & x & -> & Hx & (y & l2 & d & -> & Hy & Hd & _)%der_marked)%der_skipTok|
    (y & l2 & d & -> & Hy & Hd & _)%der_marked]%der_alt|H]%der_alt Hb.
  - rewrite fmap_app in *. simpl in *. rewrite Hx, Hy in *. destruct (IH _ _ Hd) as [H1 H2]; [set_solver|].
    split; [by apply balanced_parens|]. intros opt H. apply (H2 opt). destruct opt; set_solver.
  - simpl in *. rewrite Hy in *. destruct (IH _ _ Hd) as [H1 H2]; [set_solver|].
    split; [done|]. intros opt H. apply (H2 opt). destruct opt; set_solver.
  - destruct (simple_cond_types _ _ _ _ H Hb) as [Hs _]. split; [by apply balanced_plain|]. intros opt Hin.
    rewrite Forall_forall in Hs. by apply (Hs _ Hin), operator_structural.
Qed.

Lemma der_closed (p : NonTerminal (option Operator * MultiCondition)) l m : Ok m ∈ closed p l -> Ok (None, m) ∈ p l.
Proof.
  intros ([[[o|] m']| |] & H & Hin)%list_elem_of_bind; simpl in H; try (by apply not_elem_of_nil in H);
    apply list_elem_of_singleton in H; by simplify_eq.
Qed.
Lemma der_left opt (p : NonTerminal (option Operator * MultiCondition)) l m : Ok m ∈ leftOperand opt p l ->
  exists top, Ok (top, m) ∈ p l /\ looser opt top = false.
Proof.
  intros ([[top m']| |] & H & Hin)%list_elem_of_bind; simpl in H; [|by apply list_elem_of_singleton in H..].
  destruct (looser opt top) eqn:E; [by apply not_elem_of_nil in H|]. apply list_elem_of_singleton in H. simplify_eq. by exists top.
Qed.
(** What may stand to the right of an operator, and to the left. *)
Definition rightTop (opt : Operator) (top : option Operator) : Prop :=
  match top with Some AND => opt = OR | Some OR => False | None => True end.
Lemma der_right opt (p : NonTerminal (option Operator * MultiCondition)) l m : Ok m ∈ rightOperand opt p l ->
  exists top, Ok (top, m) ∈ p l /\ rightTop opt top.
Proof.
  intros ([[top m']| |] & H & Hin)%list_elem_of_bind; simpl in H; [|by apply list_elem_of_singleton in H..].
  destruct top as [[]|], opt; try (by apply not_elem_of_nil in H); apply list_elem_of_singleton in H; simplify_eq; by eexists.
Qed.

(** The parts of an operation. *)
Definition leftPart (opt : Operator) (ts : list Tok) : Prop :=
  plain ts \/ exists top, composed top ts /\ looser opt top = false.
Definition rightPart (opt : Operator) (ts : list Tok) : Prop :=
  plain ts \/ exists top, composed top ts /\ rightTop opt top.
Lemma leftPart_balanced opt ts : leftPart opt ts -> balanced ts.
Proof. by intros [[? _]|(top & (? & _) & _)]. Qed.
Lemma rightPart_balanced opt ts : rightPart opt ts -> balanced ts.
Proof. by intros [[? _]|(top & (? & _) & _)]. Qed.
Lemma leftPart_and ts : leftPart AND ts -> noTop OR ts.
Proof. intros [H|([[]|] & (_ & _ & Ht) & H)]; [by apply plain_noTop|by destruct Ht|done|by apply (Ht OR)]. Qed.
Lemma rightPart_noTop opt ts : rightPart opt ts -> noTop opt ts /\ noTop OR ts.
Proof.
  intros [H|([[]|] & (_ & _ & Ht) & H)]; [split; by apply plain_noTop| |done|split; apply Ht].
  simpl in H. subst opt. by destruct Ht.
Qed.
Lemma operation_composed opt a b : leftPart opt a -> rightPart opt b -> composed (Some opt) (a ++ operator opt :: b).
Proof.
  intros Ha Hb. pose proof (leftPart_balanced _ _ Ha). split_and!.
  - rewrite balanced_app by done. apply balanced_op. by eapply rightPart_balanced.
  - exists opt. set_solver.
  - assert (hasTop opt (a ++ operator opt :: b)) by by exists a, b. destruct opt; [|done]. split; [|done].
    apply noTop_operation; [done|done|by apply leftPart_and|by apply (rightPart_noTop AND)].
Qed.

Lemma der_binary {X Y Z} (f : X -> Y -> Z) t (p : NonTerminal X) (q : NonTerminal Y) l z :
  Ok z ∈ (rule f <*> p <+ t <*> q) l ->
  exists a y b u v, l = a ++ y :: b /\ tok_t y = t /\ Ok u ∈ p a /\ Ok v ∈ q b /\ z = f u v.
Proof.
  intros (l1 & b & g & v & -> & (a & y & -> & Hy & (u & Hu & ->)%der_rule_then)%der_skipTok & Hv & ->)%der_then.
  exists a, y, b, u, v. by rewrite <- (assoc_L app).
Qed.

Section operation.
  Context (opt : Operator) {X Y Z : Type} (l : list Token) (Hl : noBetween l).
(** Operands of one kind each. *)
Definition lefts {X} (p : NonTerminal X) : Prop := forall a u, Ok u ∈ p a -> noBetween a -> leftPart opt (types a).
Definition rights {X} (p : NonTerminal X) : Prop := forall a u, Ok u ∈ p a -> noBetween a -> rightPart opt (types a).

Lemma same_operands a y b a' y' b' : a ++ y :: b = a' ++ y' :: b' ->
  tok_t y = operator opt -> tok_t y' = operator opt -> leftPart opt (types a) -> leftPart opt (types a') ->
  rightPart opt (types b) -> rightPart opt (types b') -> a = a' /\ y = y' /\ b = b'.
Proof.
  intros H Hy Hy' Ha Ha' Hb Hb'. pose proof (f_equal (fmap tok_t) H) as Ht. rewrite !fmap_app, !fmap_cons, Hy, Hy' in Ht.
  apply noTop_split in Ht; [|by eapply leftPart_balanced|by eapply leftPart_balanced|by eapply rightPart_noTop|by eapply rightPart_noTop].
  apply (f_equal length) in Ht. rewrite !length_fmap in Ht. apply app_inj_2 in H as [-> H]; [|simpl; lia]. by simplify_eq.
Qed.
Lemma unique_binary (f : X -> Y -> Z) (p : NonTerminal X) (q : NonTerminal Y) :
  (forall a, noBetween a -> singleValued p a) -> (forall a, noBetween a -> singleValued q a) -> lefts p -> rights q ->
  singleValued (rule f <*> p <+ operator opt <*> q) l.
Proof.
  intros Hp Hq Hlp Hrq. apply unique_then.
  - intros l1 l2 ->. rewrite fmap_app in Hl. split; [|apply Hq; set_solver]. apply unique_skipTok. intros a x ->.
    apply unique_rule_then, Hp. rewrite fmap_app in Hl. set_solver.
  - intros l1 l2 m1 m2 g v g' v' -> Hm (a & y & -> & Hy & (u & Hu & _)%der_rule_then)%der_skipTok Hv
      (a' & y' & -> & Hy' & (u' & Hu' & _)%der_rule_then)%der_skipTok Hv'.
    assert (noBetween ((a' ++ [y']) ++ m2)) as Hl' by (rewrite <- Hm; exact Hl).
    rewrite <- (assoc_L app) in Hm. symmetry in Hm. rewrite <- (assoc_L app) in Hm. symmetry in Hm. simpl in Hm.
    rewrite !fmap_app in Hl, Hl'.
    apply (same_operands a y l2 a' y' m2 Hm Hy Hy'); [eapply Hlp|eapply Hlp|eapply Hrq|eapply Hrq]; try done; set_solver.
Qed.
End operation.

(** The two kinds of operands do not overlap, so the four rules for an operator
    derive at most one value together. *)
Section operands.
  Context (opt : Operator) (c : NonTerminal Condition) (m : NonTerminal (option Operator * MultiCondition)).
  Context (Hc : forall l x, Ok x ∈ c l -> noBetween l -> plain (types l)).
  Context (Hm : forall l top x, Ok (top, x) ∈ m l -> noBetween l -> composed top (types l)).

Lemma leftComposed : lefts opt (leftOperand opt m).
Proof. intros a u (top & Hu & Ht)%der_left Hb. right. exists top. split; [by eapply Hm|done]. Qed.
Lemma rightComposed : rights opt (rightOperand opt m).
Proof. intros a u (top & Hu & Ht)%der_right Hb. right. exists top. split; [by eapply Hm|done]. Qed.
Lemma leftPlain : lefts opt c.
Proof. intros a u Hu Hb. left. by eapply Hc. Qed.
Lemma rightPlain : rights opt c.
Proof. intros a u Hu Hb. left. by eapply Hc. Qed.

Lemma disjoint_binary {X Y X' Y' Z} (f : X -> Y -> Z) (g : X' -> Y' -> Z) p q p' q' l u v :
  lefts opt p -> rights opt q -> lefts opt p' -> rights opt q' ->
  (forall a x y, noBetween a -> Ok x ∈ p a -> Ok y ∈ p' a -> False) \/
  (forall a x y, noBetween a -> Ok x ∈ q a -> Ok y ∈ q' a -> False) ->
  noBetween l -> Ok u ∈ (rule f <*> p <+ operator opt <*> q) l -> Ok v ∈ (rule g <*> p' <+ operator opt <*> q') l -> False.
Proof.
  intros Hp Hq Hp' Hq' Hd Hl (a & y & b & s & t & -> & Hy & Hs & Ht & _)%der_binary
    (a' & y' & b' & s' & t' & H & Hy' & Hs' & Ht' & _)%der_binary.
  assert (noBetween (a' ++ y' :: b')) as Hl' by (rewrite <- H; exact Hl). rewrite fmap_app, fmap_cons in Hl, Hl'.
  destruct (same_operands opt a y b a' y' b') as (<- & <- & <-); try done;
    [eapply Hp; [done|set_solver]|eapply Hp'; [done|set_solver]|eapply Hq; [done|set_solver]|eapply Hq'; [done|set_solver]|].
  destruct Hd as [Hd|Hd]; (eapply Hd; [|done|done]); set_solver.
Qed.
Lemma leftOperand_plain a x y : noBetween a -> Ok x ∈ leftOperand opt m a -> Ok y ∈ c a -> False.
Proof. intros Hb (top & Hx & _)%der_left Hy. eapply plain_composed; [by eapply Hc|by eapply Hm]. Qed.
Lemma rightOperand_plain a x y : noBetween a -> Ok x ∈ rightOperand opt m a -> Ok y ∈ c a -> False.
Proof. intros Hb (top & Hx & _)%der_right Hy. eapply plain_composed; [by eapply Hc|by eapply Hm]. Qed.

Lemma operation_unique l : noBetween l ->
  (forall a, noBetween a -> singleValued c a) -> (forall a, noBetween a -> singleValued (leftOperand opt m) a) ->
  (forall a, noBetween a -> singleValued (rightOperand opt m) a) -> singleValued (operation opt c m) l.
Proof.
  intros Hl Uc Ul Ur. pose proof leftComposed. pose proof rightComposed. pose proof leftPlain. pose proof rightPlain.
  pose proof leftOperand_plain as DL. pose proof rightOperand_plain as DR.
  assert (forall a x y, noBetween a -> Ok x ∈ c a -> Ok y ∈ leftOperand opt m a -> False) as DL' by eauto.
  assert (forall a x y, noBetween a -> Ok x ∈ c a -> Ok y ∈ rightOperand opt m a -> False) as DR' by eauto.
  repeat apply unique_alt; try by apply unique_binary.
  - intros u v Hu Hv. eapply disjoint_binary; [| | | | | |exact Hu|exact Hv]; eauto.
  - intros u v [Hu|Hu]%der_alt Hv; (eapply disjoint_binary; [| | | | | |exact Hu|exact Hv]); eauto.
  - intros u v [[Hu|Hu]%der_alt|Hu]%der_alt Hv; (eapply disjoint_binary; [| | | | | |exact Hu|exact Hv]); eauto.
Qed.
Lemma operation_types l x : noBetween l -> Ok x ∈ operation opt c m l -> x.1 = Some opt /\ composed (Some opt) (types l).
Proof.
  assert (forall {X Y} (f : X -> Y -> MultiCondition) p q, lefts opt p -> rights opt q -> noBetween l ->
    Ok x ∈ (rule (fun x y => (Some opt, f x y)) <*> p <+ operator opt <*> q) l -> x.1 = Some opt /\ composed (Some opt) (types l)) as H.
  { intros X Y f p q Hp Hq Hl (a & y & b & s & t & -> & Hy & Hs & Ht & ->)%der_binary. split; [done|].
    rewrite fmap_app, fmap_cons, Hy in *. apply operation_composed; [eapply Hp|eapply Hq]; try done; set_solver. }
  pose proof leftComposed. pose proof rightComposed. pose proof leftPlain. pose proof rightPlain.
  intros Hl [[[Hx|Hx]%der_alt|Hx]%der_alt|Hx]%der_alt; by apply H in Hx.
Qed.
End operands.

Lemma unique_filter {A B} (p : NonTerminal A) (f : Outcome A -> Values B) l :
  (forall o, length (oks (f o)) <= match o with Ok _ => 1 | _ => 0 end) -> singleValued p l -> singleValued (fun l => p l ≫= f) l.
Proof.
  intros Hf Hp. unfold singleValued in *. cut (length (oks (p l ≫= f)) <= length (oks (p l))); [lia|]. clear Hp.
  induction (p l) as [|o os IH]; [done|]. rewrite bind_cons, oks_app, length_app. specialize (Hf o).
  unfold oks in *. destruct o; cbn; lia.
Qed.
Lemma closed_unique p l : singleValued p l -> singleValued (closed p) l.
Proof. apply unique_filter. intros [[[]]| |]; simpl; lia. Qed.
Lemma leftOperand_unique opt p l : singleValued p l -> singleValued (leftOperand opt p) l.
Proof. apply unique_filter. intros [[top m]| |]; simpl; [destruct (looser opt top); simpl; lia|lia..]. Qed.
Lemma rightOperand_unique opt p l : singleValued p l -> singleValued (rightOperand opt p) l.
Proof. apply unique_filter. intros [[[[]|] m]| |]; destruct opt; simpl; lia. Qed.

Lemma multi_cond_composed n l top m : Ok (top, m) ∈ multi_cond stod n l -> noBetween l -> composed top (types l).
Proof.
  revert l top m. induction n as [|n IH]; intros l top m; [by intros ?%not_elem_of_nil|]. rewrite multi_cond_S.
  intros [[[(l1 & x & -> & Hx & (y & l2 & [t d] & -> & Hy & Hd & [= -> ->])%der_marked)%der_skipTok|H]%der_alt|H]%der_alt|
    (y & l2 & d & -> & Hy & Hd%der_closed & [= -> ->])%der_marked]%der_alt Hb.
  - rewrite fmap_app in *. simpl in *. rewrite Hx, Hy in *. destruct (IH _ _ _ Hd) as (H1 & [opt Hopt] & H2); [set_solver|].
    split_and!; [by apply balanced_parens|exists opt; set_solver|]. intros o. by apply noTop_parens.
  - by apply (operation_types AND (cond stod n) (multi_cond stod n) (cond_plain n) IH) in H as [[= ->] ?].
  - by apply (operation_types OR (cond stod n) (multi_cond stod n) (cond_plain n) IH) in H as [[= ->] ?].
  - simpl in *. rewrite Hy in *. destruct (IH _ _ _ Hd) as (H1 & [opt Hopt] & H2); [set_solver|].
    split_and!; [done|exists opt; set_solver|]. intros o. by apply noTop_not.
Qed.

Lemma first_token {A B} (f : A -> B) t (p : NonTerminal A) l a : Ok a ∈ (rule f <+ t <*> p) l -> exists r, types l = t :: r.
Proof. intros (x & l' & b & -> & <- & _)%der_marked. by eexists. Qed.
Lemma first_token_skip {A B} (f : A -> B) t u (p : NonTerminal A) l a :
  Ok a ∈ (rule f <+ t <*> p <+ u) l -> exists r, types l = t :: r.
Proof. intros (l' & x & -> & _ & [r Hr]%first_token)%der_skipTok. rewrite fmap_app, Hr. by eexists. Qed.
Lemma unique_marked {A B} (f : A -> B) t (p : NonTerminal A) l : noBetween l -> (forall l, noBetween l -> singleValued p l) ->
  singleValued (rule f <+ t <*> p) l.
Proof.
  intros Hl Hp. apply unique_then.
  - intros l1 l2 ->. rewrite fmap_app in Hl. split; [|apply Hp; set_solver]. apply unique_skipTok. intros. apply unique_rule.
  - intros l1 l2 m1 m2 g a h b -> Hm (l' & x & -> & _ & [-> _]%der_rule)%der_skipTok _ (m' & y & -> & _ & [-> _]%der_rule)%der_skipTok _.
    by injection Hm.
Qed.
Lemma unique_marked_skip {A B} (f : A -> B) t u (p : NonTerminal A) l : noBetween l -> (forall l, noBetween l -> singleValued p l) ->
  singleValued (rule f <+ t <*> p <+ u) l.
Proof. intros Hl Hp. apply unique_skipTok. intros l' x ->. rewrite fmap_app in Hl. apply unique_marked; [set_solver|done]. Qed.

(** A sequence of tokens is at most one simple condition. *)
Lemma cond_unique n l : noBetween l -> singleValued (cond stod n) l.
Proof.
  revert l. induction n as [|n IH]; intros l Hl; [unfold singleValued; simpl; lia|]. unfold singleValued. rewrite cond_S.
  apply unique_alt; [apply unique_alt| |].
  - by apply unique_marked_skip.
  - by apply unique_marked.
  - intros a b [r H]%first_token_skip [r' H']%first_token. congruence.
  - by apply simple_cond_unique.
  - intros a b Ha Hb. apply simple_cond_types in Hb as [_ (p & s & Hp & Hin)]; [|done].
    assert (exists r t, types l = t :: r /\ (t = TK_LP \/ t = TK_NOT)) as (r & t & Ht & Hor).
    { apply der_alt in Ha as [[r H]%first_token_skip|[r H]%first_token]; eauto. }
    rewrite Ht in Hp. unfold propNames in Hin. rewrite !elem_of_cons in Hin.
    destruct Hin as [->|[->|[->|?%not_elem_of_nil]]]; [..|done]; injection Hp as -> _; by destruct Hor.
Qed.
(** ... and at most one composed condition, with one outermost operator. *)
Lemma multi_cond_unique n l : noBetween l -> singleValued (multi_cond stod n) l.
Proof.
  revert l. induction n as [|n IH]; intros l Hl; [unfold singleValued; simpl; lia|]. unfold singleValued. rewrite multi_cond_S.
  pose proof (cond_plain n) as Hc. pose proof (multi_cond_composed n) as Hm.
  assert (forall opt, singleValued (operation opt (cond stod n) (multi_cond stod n)) l) as Hop.
  { intros opt. apply operation_unique; try done; intros; [by apply cond_unique|apply leftOperand_unique|apply rightOperand_unique]; by apply IH. }
  assert (forall opt x, Ok x ∈ operation opt (cond stod n) (multi_cond stod n) l -> topped (Some opt) (types l)) as Ht.
  { intros opt x H. by apply (operation_types opt _ _ Hc Hm) in H as [_ (_ & _ & ?)]. }
  assert (forall x opt, Ok x ∈ (rule (fun x : option Operator * MultiCondition => (@None Operator, x.2)) <+ TK_LP <*> multi_cond stod n <+ TK_RP) l ->
    noTop opt (types l)) as Hp.
  { intros [t m] opt H. pose proof H as (l1 & x & _ & _ & (y & l2 & d & _ & _ & _ & [= -> _])%der_marked)%der_skipTok.
    eapply (multi_cond_composed (S n) l None m); [|done]. rewrite multi_cond_S. by do 3 apply alt_l. }
  assert (forall x opt, Ok x ∈ (rule (fun x => (@None Operator, multiNegate x)) <+ TK_NOT <*> closed (multi_cond stod n)) l ->
    noTop opt (types l)) as Hn.
  { intros [t m] opt H. pose proof H as (y & l2 & d & _ & _ & _ & [= -> _])%der_marked.
    eapply (multi_cond_composed (S n) l None m); [|done]. rewrite multi_cond_S. by apply alt_r. }
  pose proof (fun opt => hasTop_noTop opt (types l)) as Hno.
  apply unique_alt; [apply unique_alt; [apply unique_alt|..]|..]; try apply Hop.
  - by apply unique_marked_skip.
  - intros a b Ha [_ Hb]%Ht. apply (Hno AND); eauto.
  - intros a b [Ha|Ha]%der_alt Hb%Ht; apply (Hno OR); eauto. by apply Ht in Ha as [? _].
  - apply unique_marked; [done|]. intros l' Hl'. by apply closed_unique, IH.
  - intros a b [[[r Hr]%first_token_skip|[_ Ha]%Ht]%der_alt|Ha%Ht]%der_alt Hb.
    + apply first_token in Hb as [r' Hr']. congruence.
    + apply (Hno AND); eauto.
    + apply (Hno OR); eauto.
Qed.

(** A WHERE clause has at most one value. *)
Lemma where_opt_unique n l : noBetween l -> singleValued (where_opt stod n) l.
Proof.
  intros Hl. apply unique_alt; [apply unique_alt|..].
  - apply unique_rule.
  - apply unique_marked; [done|]. apply multi_cond_unique.
  - intros a b [-> _]%der_rule [r Hr]%first_token. done.
  - apply unique_marked; [done|]. apply cond_unique.
  - intros a b [[-> _]%der_rule|(x & l' & [top m] & -> & _ & Ha & _)%der_marked]%der_alt (y & l2 & c & Hl2 & _ & Hb & _)%der_marked; [done|].
    injection Hl2 as <- <-. simpl in Hl. eapply plain_composed; [eapply cond_plain; [exact Hb|set_solver]|].
    eapply multi_cond_composed; [exact Ha|set_solver].
Qed.
End composed.

(** C36. The WHERE clause of an expression, written with the parentheses its operators
    need and its keywords in any letters, has one value, the condition of the
    expression; evaluating that on a record gives the truth value of the
    expression, whenever its comparisons can be decided there. *)
Theorem where_clause_means stod regex e f r ts n l :
  map erase l = [mark TK_WHERE] ++ written e -> comparisonsOf stod e -> TK_BETWEEN ∉ tok_t <$> written e ->
  length l <= n ->
  oks (where_opt stod n l) = [match denoted e with inl c => W_CONDITION c | inr m => W_MULTI_COND m end] /\
  (forall m, denoted e = inr m -> (forall c, c ∈ conditions m -> checkNode regex ts c r = Ok (f c)) ->
     Compare.execute regex m r ts = Ok (truth f e)).
Proof.
  intros Hl Ht Hb Hn. split.
  - rewrite <- (where_opt_textless stod n l), Hl. rewrite <- (length_map erase), Hl in Hn. apply one_value.
    + apply where_opt_unique. simpl. set_solver.
    + pose proof (derived_fuel stod _ n _ _ _ (le_n _) Hn (written_derived stod e Ht)) as H. unfold derived in H.
      destruct (denoted e) as [c|m]; [apply alt_r; by apply marked_intro|apply alt_l, alt_r].
      by apply (marked_intro (fun x : option Operator * MultiCondition => W_MULTI_COND x.2) _ _ _ (outermost e, m)).
  - intros m Hm Hf. rewrite <- denoted_truth, Hm. apply check_eval. rewrite <- (built_conditions m); [done|].
    by apply (denoted_built e).
Qed.
