(* ===== verification/GrammarCommands.v ===== *)
(** * The commands of the grammar

    The commands on classes, properties and indexes and the creation of a
    vertex, written as tokens: each derives its statement and no other. *)

From stdpp Require Import base gmap sets list strings.
From Stdlib Require Import ZArith Lia.
From S2P Require Import Prelude.
From S2P Require Import Types.
From S2P Require Import RecordModel.
From S2P Require Import Generic.
From S2P Require Import Compare.
From S2P Require Import SqlLexer.
From S2P Require Import Sql.
From S2P Require Import SqlContext.
From S2P Require Import Grammar.
From S2P Require Import GrammarSpec.
From S2P Require Import GrammarUnique.

(** ** Parts of a known beginning or length *)
Definition starts {A} (ts : list Tok) (p : NonTerminal A) : Prop := forall l a, Ok a ∈ p l -> exists r, types l = ts ++ r.
Definition hasLength {A} (k : nat) (p : NonTerminal A) : Prop := forall l a, Ok a ∈ p l -> length l = k.

Lemma oks_thenRight {A B} (p : NonTerminal (A -> B)) (q : NonTerminal A) l :
  oks ((p <&> q) l) = splits l ≫= fun s => oks (q s.2) ≫= fun a => (fun f => f a) <$> oks (p s.1).
Proof.
  unfold thenRight. rewrite oks_bind. apply bind_ext. intros [s1 s2] _. cbn [fst snd]. rewrite oks_bind.
  induction (q s2) as [|o qs IH]; [done|]. rewrite bind_cons, IH. clear IH.
  replace (oks (p s1 ≫= fun f => [applied f o])) with (match o with Ok a => (fun f => f a) <$> oks (p s1) | _ => [] end).
  - by destruct o.
  - induction (p s1) as [|[f| |] ps IH]; [by destruct o|..]; rewrite bind_cons, oks_app, <- IH; by destruct o.
Qed.
Lemma oks_thenRight_perm {A B} (p : NonTerminal (A -> B)) (q : NonTerminal A) l :
  Permutation (oks ((p <&> q) l)) (oks ((p <*> q) l)).
Proof.
  rewrite oks_thenRight, oks_then. induction (splits l) as [|s ss IH]; [done|]. rewrite !bind_cons. apply Permutation_app; [|done].
  generalize (oks (p s.1)) (oks (q s.2)). clear. intros fs qs. induction fs as [|f fs IH].
  - induction qs as [|a qs IH]; [done|]. by rewrite bind_cons.
  - rewrite bind_cons, <- IH. clear IH. induction qs as [|a qs IH]; [done|].
    rewrite !bind_cons, fmap_cons, fmap_cons. simpl. rewrite IH. simpl. apply Permutation_skip.
    rewrite !(assoc_L app). by rewrite (Permutation_app_comm (_ <$> fs)).
Qed.
Lemma unique_thenRight {A B} (p : NonTerminal (A -> B)) (q : NonTerminal A) l : singleValued (p <*> q) l -> singleValued (p <&> q) l.
Proof. unfold singleValued. by rewrite (oks_thenRight_perm p q l). Qed.
Lemma der_thenRight {A B} (p : NonTerminal (A -> B)) (q : NonTerminal A) l b : Ok b ∈ (p <&> q) l <-> Ok b ∈ (p <*> q) l.
Proof. rewrite <- !elem_of_oks. by rewrite (oks_thenRight_perm p q l). Qed.

Section parts.
  Context {A B : Type}.

Lemma starts_then ts (p : NonTerminal (A -> B)) q : starts ts p -> starts ts (p <*> q).
Proof. intros H l a (l1 & l2 & f & b & -> & [r Hr]%H & _)%der_then. rewrite fmap_app, Hr, <- (assoc_L app). by eexists. Qed.
Lemma starts_thenRight ts (p : NonTerminal (A -> B)) q : starts ts p -> starts ts (p <&> q).
Proof. intros H l a Ha%der_thenRight. by eapply starts_then. Qed.
Lemma starts_thenTok ts (p : NonTerminal (Token -> A)) us : starts ts p -> starts ts (p <*! us).
Proof. intros H l a (l1 & x & f & -> & _ & [r Hr]%H & _)%der_thenTok. rewrite fmap_app, Hr, <- (assoc_L app). by eexists. Qed.
Lemma starts_skipTok ts (p : NonTerminal A) t : starts ts p -> starts ts (p <+ t).
Proof. intros H l a (l1 & x & -> & _ & [r Hr]%H)%der_skipTok. rewrite fmap_app, Hr, <- (assoc_L app). by eexists. Qed.
Lemma starts_one (f : A) t : starts [t] (rule f <+ t).
Proof. intros l a (l1 & x & -> & <- & [-> _]%der_rule)%der_skipTok. by eexists. Qed.
Lemma starts_two (f : A) t u : starts [t; u] (rule f <+ t <+ u).
Proof. intros l a (l1 & x & -> & <- & (l2 & y & -> & <- & [-> _]%der_rule)%der_skipTok)%der_skipTok. by eexists. Qed.
Lemma starts_action ts (p : NonTerminal (Outcome A)) : starts ts p -> starts ts (action p).
Proof. intros H l a Ha%der_action. by eapply H. Qed.
Lemma starts_rule_then ts (f : A -> B) q : starts ts q -> starts ts (rule f <*> q).
Proof. intros H l a (b & Hb & _)%der_rule_then. by eapply H. Qed.

Lemma hasLength_rule (f : A) : hasLength 0 (rule f).
Proof. by intros l a [-> _]%der_rule. Qed.
Lemma hasLength_skipTok k (p : NonTerminal A) t : hasLength k p -> hasLength (S k) (p <+ t).
Proof. intros H l a (l1 & x & -> & _ & Ha%H)%der_skipTok. rewrite length_app. simpl. lia. Qed.
Lemma hasLength_thenTok k (p : NonTerminal (Token -> A)) ts : hasLength k p -> hasLength (S k) (p <*! ts).
Proof. intros H l a (l1 & x & f & -> & _ & Ha%H & _)%der_thenTok. rewrite length_app. simpl. lia. Qed.

(** The left part is determined by its length. *)
Lemma unique_then_left k (p : NonTerminal (A -> B)) q l : hasLength k p -> (forall l, singleValued p l) -> (forall l, singleValued q l) ->
  singleValued (p <*> q) l.
Proof.
  intros Hk Hp Hq. apply unique_then; [done|]. intros l1 l2 m1 m2 f a g b -> Hm Hf _ Hg _. apply Hk in Hf, Hg.
  apply app_inj_1 in Hm as [_ Hm]; [done|lia].
Qed.
End parts.

Lemma starts_disjoint {A B} ts us (p : NonTerminal A) (q : NonTerminal B) l a b : starts ts p -> starts us q ->
  length ts = length us -> ts <> us -> Ok a ∈ p l -> Ok b ∈ q l -> False.
Proof.
  intros Hp Hq Hlen Hne [r Hr]%Hp [r' Hr']%Hq. rewrite Hr in Hr'. by apply app_inj_1 in Hr' as [? _].
Qed.
Ltac fixed_length := repeat first [apply hasLength_skipTok | apply hasLength_thenTok | apply hasLength_rule].
Lemma if_not_exists_unique l : singleValued if_not_exists_opt l.
Proof.
  apply unique_alt; [apply unique_rule|repeat (apply unique_skipTok; intros); apply unique_rule|].
  assert (hasLength 3 (rule true <+ TK_IF <+ TK_NOT <+ TK_EXISTS)) as H3 by fixed_length. by intros a b [-> _]%der_rule ?%H3.
Qed.
Lemma if_exists_unique l : singleValued if_exists_opt l.
Proof.
  apply unique_alt; [apply unique_rule|repeat (apply unique_skipTok; intros); apply unique_rule|].
  assert (hasLength 2 (rule true <+ TK_IF <+ TK_EXISTS)) as H2 by fixed_length. by intros a b [-> _]%der_rule ?%H2.
Qed.
Lemma index_type_unique unset l : singleValued (index_type unset) l.
Proof.
  apply unique_alt; [apply unique_rule|apply unique_thenTok; intros; apply unique_rule|].
  assert (hasLength 1 (rule (fun x : Token => x) <*! [TK_IDENTITY])) as H1 by fixed_length. by intros a b [-> _]%der_rule ?%H1.
Qed.

(** A rule whose parts have one value each, where the left of two has a known
    length. *)
Ltac unique_rules :=
  lazymatch goal with
  | |- singleValued (rule _) _ => apply unique_rule
  | |- singleValued (_ <+ _) _ => apply unique_skipTok; intros; unique_rules
  | |- singleValued (_ <*! _) _ => apply unique_thenTok; intros; unique_rules
  | |- singleValued (_ <&> _) _ => apply unique_thenRight; unique_rules
  | |- singleValued (_ <*> _) _ => eapply unique_then_left; [fixed_length|intros; unique_rules|intros; unique_rules]
  | |- singleValued if_not_exists_opt _ => apply if_not_exists_unique
  | |- singleValued if_exists_opt _ => apply if_exists_unique
  | |- singleValued (term _) _ => apply term_unique
  | |- singleValued (index_type _) _ => apply index_type_unique
  | |- _ => idtac
  end.
Ltac starts_rules :=
  repeat first [ apply starts_two | apply starts_thenTok | apply starts_skipTok | apply starts_thenRight | apply starts_then
               | apply starts_action ].

Lemma kinds_not_names t : t ∈ [TK_VERTEX; TK_EDGE] -> t ∈ name -> False.
Proof. unfold name. rewrite !elem_of_cons. intros [->|[->|[]%not_elem_of_nil]] [|[|[]%not_elem_of_nil]]; done. Qed.
Section commands.
  Context (stod : list byte -> Outcome (list byte)) (unset : Token).

Lemma class_cmd_unique l : singleValued (class_cmd stod) l.
Proof.
  unfold class_cmd. apply unique_alt; [apply unique_alt; [apply unique_alt|..]|..]; unique_rules.
  - intros a b (l1 & x & -> & _ & (l2 & y & f & -> & Hy & _)%der_thenTok)%der_skipTok
      (m1 & z & Hl & _ & (m2 & w & g & -> & Hw & _)%der_thenTok)%der_skipTok.
    apply app_inj_tail in Hl as [[_ ->]%app_inj_tail _]. by apply (kinds_not_names (tok_t w)).
  - intros a b [H|H]%der_alt Hb; (eapply starts_disjoint; [| | | |exact H|exact Hb]; [starts_rules|starts_rules|done|done]).
  - intros a b [[H|H]%der_alt|H]%der_alt Hb; (eapply starts_disjoint; [| | | |exact H|exact Hb]; [starts_rules|starts_rules|done|done]).
Qed.
Lemma property_cmd_unique l : singleValued (property_cmd stod) l.
Proof.
  unfold property_cmd. apply unique_alt; [apply unique_alt|..]; unique_rules.
  - intros a b H Hb; (eapply starts_disjoint; [| | | |exact H|exact Hb]; [starts_rules|starts_rules|done|done]).
  - intros a b [H|H]%der_alt Hb; (eapply starts_disjoint; [| | | |exact H|exact Hb]; [starts_rules|starts_rules|done|done]).
Qed.
Lemma index_cmd_unique l : singleValued (index_cmd unset) l.
Proof.
  unfold index_cmd. apply unique_alt; unique_rules.
  intros a b H Hb; (eapply starts_disjoint; [| | | |exact H|exact Hb]; [starts_rules|starts_rules|done|done]).
Qed.
End commands.

(** ** Beginnings of commands *)
Fixpoint clash (ts us : list Tok) : bool :=
  match ts, us with t :: ts, u :: us => bool_decide (t <> u) || clash ts us | _, _ => false end.
Definition heads {A} (hs : list (list Tok)) (p : NonTerminal A) : Prop :=
  forall l a, Ok a ∈ p l -> exists h r, h ∈ hs /\ types l = h ++ r.

Lemma clash_app ts us r r' : clash ts us = true -> ts ++ r = us ++ r' -> False.
Proof.
  revert us. induction ts as [|t ts IH]; intros [|u us]; simpl; try done. intros [H|H]%orb_true_iff [= Ht Hr].
  - by apply bool_decide_eq_true in H.
  - by eapply IH.
Qed.
Lemma heads_starts {A} ts (p : NonTerminal A) : starts ts p -> heads [ts] p.
Proof. intros H l a [r Hr]%H. exists ts, r. split; [by left|done]. Qed.
Lemma heads_alt {A} hs ks (p q : NonTerminal A) : heads hs p -> heads ks q -> heads (hs ++ ks) (p <|> q).
Proof.
  intros Hp Hq l a [(h & r & Hin & ?)%Hp|(h & r & Hin & ?)%Hq]%der_alt; exists h, r; (split; [apply elem_of_app; auto|done]).
Qed.
Lemma heads_disjoint {A B} hs ks (p : NonTerminal A) (q : NonTerminal B) l a b : heads hs p -> heads ks q ->
  forallb (fun h => forallb (clash h) ks) hs = true -> Ok a ∈ p l -> Ok b ∈ q l -> False.
Proof.
  intros Hp Hq Hc (h & r & Hh & Hr)%Hp (k & r' & Hk & Hr')%Hq. rewrite forallb_forall in Hc.
  apply list_elem_of_In, Hc in Hh. rewrite forallb_forall in Hh. apply list_elem_of_In, Hh in Hk.
  eapply clash_app; [exact Hk|]. by rewrite <- Hr.
Qed.
Lemma heads_none {A} hs (p : NonTerminal A) ts r l a : heads hs p -> types l = ts ++ r -> forallb (clash ts) hs = true ->
  Ok a ∈ p l -> False.
Proof.
  intros Hp Hl Hc (h & r' & Hh & Hr)%Hp. rewrite forallb_forall in Hc. apply list_elem_of_In, Hc in Hh.
  eapply clash_app; [exact Hh|]. by rewrite <- Hl.
Qed.

(** ** Properties of a record *)
Section props.
  Context (stod : list byte -> Outcome (list byte)).

Lemma props_list_ends n l r : Ok r ∈ props_list stod n l -> l <> [].
Proof.
  destruct n as [|n]; [by intros ?%not_elem_of_nil|].
  intros [(l1 & l2 & f & v & -> & _ & H%term_length & _)%der_then|(l1 & l2 & f & v & -> & _ & H%term_length & _)%der_then]%der_alt;
    by destruct l1, l2.
Qed.
Lemma props_list_unique n l : singleValued (props_list stod n) l.
Proof.
  revert l. induction n as [|n IH]; intros l; [unfold singleValued; simpl; lia|].
  assert (forall l nm, Ok nm ∈ prop_name l -> TK_COMMA ∉ types l) as Hname.
  { intros l' nm H%prop_name_types. unfold propNames in H. rewrite !elem_of_cons in H.
    destruct H as [->|[->|[->|?%not_elem_of_nil]]]; [compute_done..|done]. }
  apply unique_alt.
  - apply (unique_then_length _ _ 1); [|apply term_length]. intros l1 l2 _. split; [|apply term_unique].
    apply unique_skipTok. intros l3 _ _. apply unique_then.
    + intros l4 l5 _. split; [|apply prop_name_unique]. apply unique_skipTok. intros l6 _ _. apply unique_rule_then, IH.
    + intros k1 k2 m1 m2 f a g b -> Hm (k3 & x & -> & Hx & _)%der_skipTok Ha (m3 & y & -> & Hy & _)%der_skipTok Hb.
      eapply last_token_split; [exact Hm|done|done|by eapply Hname|by eapply Hname].
  - apply (unique_then_length _ _ 1); [|apply term_length]. intros l1 l2 _. split; [|apply term_unique].
    apply unique_skipTok. intros l3 _ _. apply unique_rule_then, prop_name_unique.
  - intros a b (l1 & l2 & f & v & -> & (l3 & x & -> & _ & (l4 & l5 & g & nm & -> & (l6 & y & -> & Hy & _)%der_skipTok & _)%der_then)%der_skipTok & Hv%term_length & _)%der_then
      (m1 & m2 & h & w & Hm & (m3 & z & -> & Hz & (nm' & Hn%Hname & _)%der_rule_then)%der_skipTok & Hw%term_length & _)%der_then.
    apply app_inj_2 in Hm as [Hm _]; [|lia]. apply app_inj_tail in Hm as [<- _]. apply Hn. rewrite !fmap_app. simpl. rewrite Hy.
    set_solver.
Qed.
Lemma props_opt_unique n l : singleValued (props_opt stod n) l.
Proof.
  apply unique_alt; [apply unique_rule| |].
  - apply (unique_then_left 1); [fixed_length|intros; apply unique_skipTok; intros; apply unique_rule|apply props_list_unique].
  - by intros a b [-> _]%der_rule [r Hr]%first_token.
Qed.

(** The assignments of a SET clause, and the record they make. *)
Record Assignment := mkAssignment { asg_name : list Token; asg_term : Token; asg_prop : string; asg_value : list byte }.
Definition assigns (a : Assignment) : Prop :=
  Ok (asg_prop a) ∈ prop_name (asg_name a) /\ Ok (asg_value a) ∈ term stod [asg_term a].
Definition assignment (a : Assignment) : list Token := asg_name a ++ [mark TK_EQ; asg_term a].
Definition assigned (r : DbRecord) (a : Assignment) : DbRecord := set (asg_prop a) (asg_value a) r.
Definition assignments (a : Assignment) (rest : list Assignment) : list Token :=
  foldl (fun l a => l ++ [mark TK_COMMA] ++ assignment a) (assignment a) rest.
End props.

Lemma assignment_intro {A} stod (p : NonTerminal (string -> list byte -> A)) l f a : assigns stod a -> Ok f ∈ p l ->
  Ok (f (asg_prop a) (asg_value a)) ∈ (p <*> prop_name <+ TK_EQ <*> term stod) (l ++ assignment a).
Proof.
  intros [Hn Ht] Hf. unfold assignment. change [mark TK_EQ; asg_term a] with ([mark TK_EQ] ++ [asg_term a]).
  rewrite !(assoc_L app). apply then_intro; [|done]. apply skipTok_intro; [|done]. by apply then_intro.
Qed.
Lemma assignments_written stod a rest n : assigns stod a -> Forall (assigns stod) rest -> length rest < n ->
  Ok (foldl assigned emptyRecord (a :: rest)) ∈ props_list stod n (assignments a rest).
Proof.
  intros Ha. revert n. induction rest as [|b rest IH] using rev_ind; intros n Hr Hn; (destruct n as [|n]; [lia|]).
  - apply alt_r. apply (assignment_intro stod (rule (fun prop value => set prop value emptyRecord)) []
      (fun prop value => set prop value emptyRecord) a); [done|apply rule_intro].
  - apply Forall_app in Hr as [Hr Hb]. rewrite Forall_singleton in Hb. unfold assignments in *.
    rewrite app_comm_cons, !foldl_snoc. apply alt_l. rewrite (assoc_L app).
    apply (assignment_intro stod (rule (fun r prop value => set prop value r) <*> props_list stod n <+ TK_COMMA) _
      (fun prop value => set prop value (foldl assigned emptyRecord (a :: rest))) b); [done|].
    apply skipTok_intro; [|done]. apply (rule_then_intro (fun r prop value => set prop value r)).
    apply IH; [done|]. rewrite length_app in Hn. simpl in Hn. lia.
Qed.

Lemma length_assignments a rest : length rest <= length (assignments a rest).
Proof.
  induction rest as [|b rest IH] using rev_ind; [apply Nat.le_0_l|]. unfold assignments in *.
  rewrite foldl_snoc, !length_app. cbn [length]. lia.
Qed.

(** ** The text of a command *)
Definition isName (t : Token) : Prop := tok_t t ∈ name.
Definition optional (b : bool) (ts : list Tok) : list Token := if b then mark <$> ts else [].
Definition unlessExists (b : bool) : list Token := optional b [TK_IF; TK_NOT; TK_EXISTS].
Definition whenExists (b : bool) : list Token := optional b [TK_IF; TK_EXISTS].

Section text.
  Context (stod : list byte -> Outcome (list byte)) (unset : Token).

Inductive commandText : list Token -> Statement -> Prop :=
| text_create_class n kind check : isName n -> tok_t kind ∈ [TK_VERTEX; TK_EDGE] ->
    commandText ((mark <$> [TK_CREATE; TK_CLASS]) ++ [n] ++ unlessExists check ++ [mark TK_EXTENDS; kind; mark TK_SEMI])
      (S_CREATE_CLASS n kind check)
| text_extend_class n super check : isName n -> isName super ->
    commandText ((mark <$> [TK_CREATE; TK_CLASS]) ++ [n] ++ unlessExists check ++ [mark TK_EXTENDS; super; mark TK_SEMI])
      (S_CREATE_CLASS n super check)
| text_alter_class n attr value v : isName n -> tok_t attr = TK_IDENTITY -> Ok v ∈ term stod [value] ->
    commandText ((mark <$> [TK_ALTER; TK_CLASS]) ++ [n; attr; value; mark TK_SEMI]) (S_ALTER_CLASS n attr v)
| text_drop_class n check : isName n ->
    commandText ((mark <$> [TK_DROP; TK_CLASS]) ++ [n] ++ whenExists check ++ [mark TK_SEMI]) (S_DROP_CLASS n check)
| text_create_property n p type check : isName n -> isName p -> isName type ->
    commandText ((mark <$> [TK_CREATE; TK_PROPERTY]) ++ [n; mark TK_DOT; p] ++ unlessExists check ++ [type; mark TK_SEMI])
      (S_CREATE_PROPERTY n p type check)
| text_alter_property n p attr value v : isName n -> isName p -> tok_t attr = TK_IDENTITY -> Ok v ∈ term stod [value] ->
    commandText ((mark <$> [TK_ALTER; TK_PROPERTY]) ++ [n; mark TK_DOT; p; attr; value; mark TK_SEMI])
      (S_ALTER_PROPERTY n p attr v)
| text_drop_property n p check : isName n -> isName p ->
    commandText ((mark <$> [TK_DROP; TK_PROPERTY]) ++ [n; mark TK_DOT; p] ++ whenExists check ++ [mark TK_SEMI])
      (S_DROP_PROPERTY n p check)
| text_create_index n p type : isName n -> isName p -> tok_t type = TK_IDENTITY ->
    commandText ((mark <$> [TK_CREATE; TK_INDEX]) ++ [n; mark TK_DOT; p; type; mark TK_SEMI]) (S_CREATE_INDEX n p type)
| text_create_index_untyped n p : isName n -> isName p ->
    commandText ((mark <$> [TK_CREATE; TK_INDEX]) ++ [n; mark TK_DOT; p; mark TK_SEMI]) (S_CREATE_INDEX n p unset)
| text_drop_index n p : isName n -> isName p ->
    commandText ((mark <$> [TK_DROP; TK_INDEX]) ++ [n; mark TK_DOT; p; mark TK_SEMI]) (S_DROP_INDEX n p)
| text_create_vertex v n : tok_t v = TK_VERTEX -> isName n ->
    commandText ([mark TK_CREATE; v] ++ [n; mark TK_SEMI]) (S_CREATE_VERTEX n emptyRecord)
| text_set_vertex v n a rest : tok_t v = TK_VERTEX -> isName n -> Forall (assigns stod) (a :: rest) ->
    commandText ([mark TK_CREATE; v] ++ [n; mark TK_SET] ++ assignments a rest ++ [mark TK_SEMI])
      (S_CREATE_VERTEX n (foldl assigned emptyRecord (a :: rest))).

(** Reading the tokens from the last to the first. *)
Lemma skipTok_last {A} (p : NonTerminal A) t l l' x a : splitLast l = Some (l', x) -> tok_t x = t -> Ok a ∈ p l' ->
  Ok a ∈ (p <+ t) l.
Proof. intros ->%splitLast_app ? ?. by apply skipTok_intro. Qed.
Lemma thenTok_last {A} (p : NonTerminal (Token -> A)) ts l l' x f : splitLast l = Some (l', x) -> tok_t x ∈ ts -> Ok f ∈ p l' ->
  Ok (f x) ∈ (p <*! ts) l.
Proof. intros ->%splitLast_app ? ?. by apply thenTok_intro. Qed.
Lemma then_at {A B} k (p : NonTerminal (A -> B)) (q : NonTerminal A) l f a : Ok f ∈ p (take k l) -> Ok a ∈ q (drop k l) ->
  Ok (f a) ∈ (p <*> q) l.
Proof. intros Hf Ha. rewrite <- (take_drop k l). by apply then_intro. Qed.
Lemma thenRight_at {A B} k (p : NonTerminal (A -> B)) (q : NonTerminal A) l f a : Ok f ∈ p (take k l) -> Ok a ∈ q (drop k l) ->
  Ok (f a) ∈ (p <&> q) l.
Proof. intros Hf Ha. apply der_thenRight. by apply (then_at k). Qed.
Lemma if_not_exists_written b : Ok b ∈ if_not_exists_opt (unlessExists b).
Proof. destruct b; vm_compute; left. Qed.
Lemma if_exists_written b : Ok b ∈ if_exists_opt (whenExists b).
Proof. destruct b; vm_compute; left. Qed.

(** The command of a text is derived, by the rules of its group. *)
Definition ddl : NonTerminal Statement := class_cmd stod <|> property_cmd stod <|> index_cmd unset.
Definition vertexRule (n : nat) : NonTerminal Statement :=
  rule S_CREATE_VERTEX <+ TK_CREATE <+ TK_VERTEX <*! name <&> props_opt stod n <+ TK_SEMI.

(** Every type a token may have here. *)
Ltac token_types :=
  unfold isName, name in *;
  repeat match goal with
  | H : tok_t ?t ∈ _ |- _ => destruct t as [? []]; cbn in H;
      try (exfalso; rewrite ?elem_of_cons in H; destruct_or? H; [..|by apply not_elem_of_nil in H]; discriminate H); clear H
  | H : tok_t ?t = _ |- _ => destruct t as [? ?]; cbn in H; subst
  end.
Lemma commandText_derived l st n : commandText l st -> length l < n -> Ok st ∈ (ddl <|> vertexRule n) l.
Proof.
  intros H Hn. destruct H as [m kind check Hm Hk|m super check Hm Hs|m attr v w Hm Ha Hv|m check Hm|m p type check Hm Hp Ht|
    m p attr v w Hm Hp Ha Hv|m p check Hm Hp|m p type Hm Hp Ht|m p Hm Hp|m p Hm Hp|vt m Hvt Hm|vt m a rest Hvt Hm Hr];
    [apply alt_l; try match goal with b : bool |- _ => destruct b end..| |].
  all: lazymatch goal with H : _ ∈ term _ _ |- _ => idtac | H : length _ < _ |- _ ∈ ddl _ => token_types; by vm_compute; left | _ => idtac end.
  - unfold ddl, class_cmd. apply alt_l, alt_l, alt_l, alt_r. eapply skipTok_last; [reflexivity|done|].
    apply (then_at 4 _ _ _ (S_ALTER_CLASS m attr)); [|exact Hv]. token_types; by vm_compute; left.
  - unfold ddl, property_cmd. apply alt_l, alt_r, alt_l, alt_r. eapply skipTok_last; [reflexivity|done|].
    apply (then_at 6 _ _ _ (S_ALTER_PROPERTY m p attr)); [|exact Hv]. token_types; by vm_compute; left.
  - apply alt_r. eapply skipTok_last; [reflexivity|done|]. apply (thenRight_at 3 _ _ _ (S_CREATE_VERTEX m)); [|by left].
    token_types; by vm_compute; left.
  - apply alt_r. apply (skipTok_last _ _ _ ([mark TK_CREATE; vt] ++ [m; mark TK_SET] ++ assignments a rest) (mark TK_SEMI));
      [apply splitLast_app; by rewrite <- !(assoc_L app)|done|].
    apply (thenRight_at 3 _ _ _ (S_CREATE_VERTEX m)); [token_types; by vm_compute; left|]. apply alt_r.
    apply (marked_intro (fun x => x)). inversion Hr; subst. apply assignments_written; [done|done|].
    rewrite !length_app in Hn. simpl in Hn. pose proof (length_assignments a rest). lia.
Qed.

(** A text of these commands has no other value. *)
Definition ddlHeads : list (list Tok) :=
  [[TK_CREATE; TK_CLASS]; [TK_CREATE; TK_CLASS]; [TK_ALTER; TK_CLASS]; [TK_DROP; TK_CLASS]; [TK_CREATE; TK_PROPERTY];
   [TK_ALTER; TK_PROPERTY]; [TK_DROP; TK_PROPERTY]; [TK_CREATE; TK_INDEX]; [TK_DROP; TK_INDEX]].
Lemma ddl_heads : heads ddlHeads ddl.
Proof.
  apply (heads_alt [_; _; _; _; _; _; _] [_; _]); [apply (heads_alt [_; _; _; _] [_; _; _])|].
  - apply (heads_alt [_; _; _] [_]); [apply (heads_alt [_; _] [_]); [apply (heads_alt [_] [_])|]|]; apply heads_starts; starts_rules.
  - apply (heads_alt [_; _] [_]); [apply (heads_alt [_] [_])|]; apply heads_starts; starts_rules.
  - apply (heads_alt [_] [_]); apply heads_starts; starts_rules.
Qed.
Lemma ddl_unique l : singleValued ddl l.
Proof.
  assert (heads [[TK_CREATE; TK_CLASS]; [TK_CREATE; TK_CLASS]; [TK_ALTER; TK_CLASS]; [TK_DROP; TK_CLASS]] (class_cmd stod)) as Hc.
  { apply (heads_alt [_; _; _] [_]); [apply (heads_alt [_; _] [_]); [apply (heads_alt [_] [_])|]|]; apply heads_starts; starts_rules. }
  assert (heads [[TK_CREATE; TK_PROPERTY]; [TK_ALTER; TK_PROPERTY]; [TK_DROP; TK_PROPERTY]] (property_cmd stod)) as Hp.
  { apply (heads_alt [_; _] [_]); [apply (heads_alt [_] [_])|]; apply heads_starts; starts_rules. }
  assert (heads [[TK_CREATE; TK_INDEX]; [TK_DROP; TK_INDEX]] (index_cmd unset)) as Hi.
  { apply (heads_alt [_] [_]); apply heads_starts; starts_rules. }
  apply unique_alt; [apply unique_alt|..]; try apply class_cmd_unique; try apply property_cmd_unique; try apply index_cmd_unique.
  - intros a b Ha Hb. by eapply (heads_disjoint _ _ _ _ l a b Hc Hp).
  - intros a b [Ha|Ha]%der_alt Hb; [by eapply (heads_disjoint _ _ _ _ l a b Hc Hi)|by eapply (heads_disjoint _ _ _ _ l a b Hp Hi)].
Qed.

Lemma vertexRule_unique n l : singleValued (vertexRule n) l.
Proof.
  apply unique_skipTok. intros l' _ _. apply unique_thenRight, (unique_then_left 3); [fixed_length|intros; unique_rules|].
  apply props_opt_unique.
Qed.
(** The other commands on records. *)
Definition otherHeads : list (list Tok) :=
  [[TK_CREATE; TK_EDGE]; [TK_SELECT]; [TK_UPDATE]; [TK_DELETE; TK_VERTEX]; [TK_DELETE; TK_EDGE]; [TK_DELETE; TK_EDGE]; [TK_TRAVERSE]].
Lemma oks_alt_none {A} (p q : NonTerminal A) l : (forall a, Ok a ∉ q l) -> oks ((p <|> q) l) = oks (p l).
Proof. intros H. unfold alt. by rewrite oks_app, (oks_nil (q l)), app_nil_r. Qed.
Ltac starts_word := repeat first [apply starts_one|apply starts_thenRight|apply starts_then|apply starts_skipTok|apply starts_thenTok].
Lemma record_cmd_vertex n l : (forall h r, h ∈ otherHeads -> types l <> h ++ r) ->
  oks (record_cmd stod n l) = oks (vertexRule n l).
Proof.
  intros Hl. assert (forall h {A} (p : NonTerminal A) a, h ∈ otherHeads -> starts h p -> Ok a ∉ p l) as H.
  { intros h A p a Hin Hp [r Hr]%Hp. by eapply Hl. }
  unfold record_cmd. rewrite !oks_alt_none; [done|intros a..].
  - apply (H [TK_CREATE; TK_EDGE]); [compute_done|unfold create_edge_stmt; starts_rules].
  - apply (H [TK_SELECT]); [compute_done|apply starts_skipTok, starts_rule_then; unfold select_stmt, select_stmt_of; starts_word].
  - apply (H [TK_UPDATE]); [compute_done|unfold update_stmt; starts_word].
  - apply (H [TK_DELETE; TK_VERTEX]); [compute_done|unfold delete_vertex_stmt; starts_rules].
  - apply (H [TK_DELETE; TK_EDGE]); [compute_done|]. apply starts_skipTok. intros l' b [Hb|Hb]%der_alt.
    + revert Hb. apply (starts_then [TK_DELETE; TK_EDGE]). apply starts_two.
    + revert Hb. apply starts_action. starts_rules.
  - apply (H [TK_TRAVERSE]); [compute_done|apply starts_skipTok, starts_rule_then, starts_action; starts_word].
Qed.
Lemma commandText_heads l st : commandText l st -> exists h r, h ∈ ddlHeads ++ [[TK_CREATE; TK_VERTEX]] /\ types l = h ++ r.
Proof.
  intros H. assert (exists h r, types l = h ++ r /\ bool_decide (h ∈ ddlHeads ++ [[TK_CREATE; TK_VERTEX]]) = true) as (h & r & Hl & Hh).
  { destruct H as [| | | | | | | | | |v n Hv|v n a rest Hv]; rewrite fmap_app; (eexists _, _; split; [reflexivity|]);
      simpl; rewrite ?Hv; done. }
  exists h, r. by apply bool_decide_eq_true in Hh.
Qed.

Lemma commandText_unique n l st : commandText l st ->
  oks (cmd stod unset n l) = oks ((ddl <|> vertexRule n) l) /\ singleValued (ddl <|> vertexRule n) l.
Proof.
  intros (h & r & Hh & Hr)%commandText_heads. split.
  - unfold cmd. change (class_cmd stod <|> property_cmd stod <|> index_cmd unset) with ddl. unfold alt.
    rewrite !oks_app, record_cmd_vertex; [done|]. intros h' r' Hh' Hr'. rewrite Hr in Hr'.
    assert (forallb (fun h => forallb (clash h) otherHeads) (ddlHeads ++ [[TK_CREATE; TK_VERTEX]]) = true) as H by done.
    rewrite forallb_forall in H. apply list_elem_of_In, H in Hh. rewrite forallb_forall in Hh.
    eapply clash_app; [|exact Hr']. by apply Hh, list_elem_of_In.
  - apply unique_alt; [apply ddl_unique|apply vertexRule_unique|]. intros a b. eapply heads_disjoint; [apply ddl_heads|
      apply (heads_starts [TK_CREATE; TK_VERTEX]); unfold vertexRule; starts_rules|done].
Qed.

(** C35. The text of a command on classes, properties or indexes, or of the creation
    of a vertex with any list of assignments, is read back as that command and
    as no other, however its keywords are written. *)
Theorem commands_parsed l st : commandText (map erase l) st -> oks (input stod unset l) = [st].
Proof.
  intros Hl. unfold input. rewrite <- (cmd_textless stod unset _ l).
  destruct (commandText_unique (S (length l)) _ _ Hl) as [-> Hu]. apply one_value; [done|].
  apply commandText_derived; [done|]. rewrite length_map. lia.
Qed.
End text.
