(* ===== verification/Samples.v ===== *)
(** * Sample states

    Small concrete states, reached by running the operations of the model:
    a relation graph with three edges, a schema with one subclass, a record
    and its class.  The last section runs searches with a path filter on the
    sample graph and shows what the code returns there. *)

From stdpp Require Import base gmap sets list strings sorting.
From Stdlib Require Import ZArith Lia.
From S2P Require Import Prelude Types VersionControl TxnObject TxnData RecordModel.
From S2P Require Import Parser Graph GraphSpec GraphSearch Schema Validate.
From S2P Require Import Generic Algorithm.

(** ** A graph *)
Definition sampleWriter : BaseTxn :=
  mkBaseTxn READ_WRITE 0 1 (mkDBInfo 0 0 0 0 0 0) ∅ ∅ ∅ false false false.
Definition sampleReader : BaseTxn :=
  mkBaseTxn READ_ONLY 1 1 (mkDBInfo 0 0 0 0 0 0) ∅ ∅ ∅ false false false.
Definition emptyGraph : Graph := mkGraph ∅ ∅ ∅ ∅ [] [] ∅ ∅.

Lemma repr_empty t : txnType t = READ_WRITE -> ucVertices t = ∅ -> ucEdges t = ∅ -> repr emptyGraph t ∅.
Proof.
  destruct t. cbn. intros -> -> ->. split.
  - split; try done; intros *; unfold allV, allE; simpl; rewrite ?lookup_union, ?lookup_empty; done.
  - intros k le [Hk _]. unfold allE in Hk. simpl in Hk. by rewrite lookup_union, !lookup_empty in Hk.
  - split; [intros k sd HE; by rewrite lookup_empty in HE|].
    intros r l k [Hr _]. unfold allV in Hr. simpl in Hr. by rewrite lookup_union, !lookup_empty in Hr.
  - split; [intros k sd HE; by rewrite lookup_empty in HE|].
    intros r l k [Hr _]. unfold allV in Hr. simpl in Hr. by rewrite lookup_union, !lookup_empty in Hr.
Qed.

Definition addEdge (p : Graph * BaseTxn) (k s d : RecordId) : Graph * BaseTxn :=
  match createEdge p.1 p.2 k s d with Ok q => q | _ => p end.

Definition usableb (g : Graph) (t : BaseTxn) (r : RecordId) : bool :=
  match allV g t !! r with
  | None => true
  | Some l => match vheap g !! l with Some v => negb (checkReadWrite (v_state v)) | None => false end
  end.

Lemma usableb_usable g t r : usableb g t r = true -> usable g t r.
Proof.
  unfold usableb, usable. destruct (allV g t !! r) as [l|] eqn:E; [|by right].
  destruct (vheap g !! l) as [v|] eqn:Ev; [|done]. intros H%negb_true_iff. left. exists l. split; [done|by exists v].
Qed.

Lemma addEdge_repr p E k s d :
  repr p.1 p.2 E -> allE p.1 p.2 !! k = None -> usableb p.1 p.2 s = true -> usableb p.1 p.2 d = true -> s <> d ->
  repr (addEdge p k s d).1 (addEdge p k s d).2 (<[k := (s, d)]> E).
Proof.
  intros Hr Hk Hs Hd Hne. unfold addEdge.
  destruct (createEdge_repr _ _ _ k s d Hr Hk) as (g' & t' & -> & H); [by apply usableb_usable..|by left|done].
Qed.

(** Vertices 1:1 to 1:4 and edges 1:1 to 1:2, 1:1 to 1:3, 1:2 to 1:4. *)
Definition vA : RecordId := (1, 1)%Z.
Definition vB : RecordId := (1, 2)%Z.
Definition vC : RecordId := (1, 3)%Z.
Definition vD : RecordId := (1, 4)%Z.
Definition sample1 : Graph * BaseTxn := addEdge (emptyGraph, sampleWriter) (10, 1)%Z vA vB.
Definition sample2 : Graph * BaseTxn := addEdge sample1 (10, 2)%Z vA vC.
Definition sample : Graph * BaseTxn := addEdge sample2 (10, 3)%Z vB vD.
Definition sampleG : Graph := sample.1.
Definition sampleT : BaseTxn := sample.2.
Definition sampleE : gmap RecordId (RecordId * RecordId) :=
  <[(10, 3)%Z := (vB, vD)]> (<[(10, 2)%Z := (vA, vC)]> (<[(10, 1)%Z := (vA, vB)]> ∅)).

Lemma repr_sample : repr sampleG sampleT sampleE.
Proof.
  unfold sampleG, sampleT, sampleE, sample, sample2, sample1.
  repeat (apply addEdge_repr; [|vm_compute; reflexivity..|done]). by apply repr_empty.
Qed.

Lemma vvis_sample r l :
  allV sampleG sampleT !! r = Some l ->
  match vheap sampleG !! l with Some v => checkReadWrite (v_state v) | None => true end = false -> vvis sampleG sampleT r l.
Proof.
  intros Hr Hv. split; [done|]. destruct (vheap sampleG !! l) as [v|]; [by exists v|done].
Qed.

(** ** A schema: vertex class 1 with the subclass 2, edge class 10 *)
Definition vcOf {T} `{Default T} (x : T) : VersionControl T := addLatestVersion x emptyVersionControl.
Definition nameProperty : SPropertyDescriptor := mkSPropertyDescriptor 5 TEXT [].
Definition ageProperty : SPropertyDescriptor := mkSPropertyDescriptor 6 INTEGER [].
Definition classPerson : ClassDescriptor :=
  mkClassDescriptor 1 VERTEX initState (vcOf "person") (vcOf ({["name" := nameProperty]} : SClassProperty))
    emptyVersionControl (vcOf [Some 1 : WeakPtr]).
Definition classStudent : ClassDescriptor :=
  mkClassDescriptor 2 VERTEX initState (vcOf "student") (vcOf ({["age" := ageProperty]} : SClassProperty))
    (vcOf (Some 0 : WeakPtr)) emptyVersionControl.
Definition classKnows : ClassDescriptor :=
  mkClassDescriptor 10 EDGE initState (vcOf "knows") emptyVersionControl emptyVersionControl emptyVersionControl.
Definition sampleSchema : Schema := mkSchema {[0 := classPerson; 1 := classStudent; 2 := classKnows]} ∅ [] ∅.
Definition schemaWriter : BaseTxn :=
  mkBaseTxn READ_WRITE 0 1 (mkDBInfo 0 0 0 0 0 0) {[1%Z := 0; 2%Z := 1; 10%Z := 2]} ∅ ∅ false false false.
Definition noRecords : ClassId -> list (PositionId * list byte) := fun _ => [].

Lemma chain_student : chain sampleSchema schemaWriter classStudent [(0, classPerson)].
Proof. eapply (chain_up _ _ _ 0 classPerson); [by vm_compute|]. apply chain_top. by vm_compute. Qed.

(** ** Searches with a path filter *)

(** A transaction that owns the sample graph and the sample schema. *)
Definition searchT : BaseTxn :=
  mkBaseTxn READ_WRITE 0 1 (mkDBInfo 0 0 0 0 0 0) (ucSchema schemaWriter) (ucVertices sampleT) (ucEdges sampleT)
    false false false.
Definition rejectC : PathFilter :=
  mkPathFilter (Some (fun r => match get RECORD_ID_PROPERTY r with
                           | Ok b => negb (bool_decide (b = rid2str vC))
                           | _ => true
                           end)) None.

Definition outSearch (minDepth maxDepth : Z) (p : PathFilter) : Outcome (list RecordDescriptor) :=
  breadthFirstSearchRdesc sampleSchema sampleG searchT noRecords 10 (rdescOf vA) minDepth maxDepth []
    (getEdgeOut sampleG searchT) (Some (getVertexDst sampleG searchT)) p.

(** The level marker of the breadth-first search is the first vertex
    discovered on a level.  When the filter rejects that vertex it is never
    queued, and the next level is not counted: the search returns vertex 1:4
    at depth one, which is two edges away; without the filter it has depth
    two. *)
Theorem filtered_level_is_lost :
  outSearch 0 2 rejectC = Ok [rdescOf vA; mkRecordDescriptor vB 1; mkRecordDescriptor vD 1] /\
  (vD ∉ outNeighbours sampleG searchT vA) /\
  outSearch 0 2 noPathFilter =
    Ok [rdescOf vA; mkRecordDescriptor vC 1; mkRecordDescriptor vB 1; mkRecordDescriptor vD 2].
Proof.
  split_and!; [by vm_compute| |by vm_compute].
  apply (bool_decide_eq_true_1 _). by vm_compute.
Qed.

(** The shortest path to a vertex that the filter rejects is not reported as
    missing: the target is recognised before it is filtered, and the lookup of
    its parent throws [std::out_of_range]. *)
Theorem filtered_target_throws :
  bfsShortestPathRdesc sampleSchema sampleG searchT noRecords 10 (rdescOf vA) (rdescOf vC) [] rejectC =
    Throw STD_OUT_OF_RANGE.
Proof. by vm_compute. Qed.

(** Depth-first search passes through the vertices the filter rejects, and
    only leaves them out of the result; breadth-first search stops at them. *)
Theorem filters_differ_between_searches :
  let rejectB := mkPathFilter (Some (fun r => match get RECORD_ID_PROPERTY r with
                                              | Ok b => negb (bool_decide (b = rid2str vB))
                                              | _ => true
                                              end)) None in
  depthFirstSearchRdesc sampleSchema sampleG searchT noRecords 10 (rdescOf vA) 0 3 []
    (getEdgeOut sampleG searchT) (Some (getVertexDst sampleG searchT)) rejectB =
    Ok [rdescOf vA; mkRecordDescriptor vC 1; mkRecordDescriptor vD 2] /\
  outSearch 0 3 rejectB = Ok [rdescOf vA; mkRecordDescriptor vC 1].
Proof. split; by vm_compute. Qed.

(** ** The depth bound of the depth-first search *)

(** With one more edge, 1:3 to 1:2, the search meets vertex 1:2 first at depth
    two, marks it visited and does not expand it at the bound; when it meets
    it again at depth one it skips it.  Vertex 1:4, two edges away from the
    source, is missing from the result of a search bounded by two; the
    breadth-first search with the same bound finds it. *)
Definition diamond : Graph * BaseTxn := addEdge (sampleG, searchT) (10, 4)%Z vC vB.

Theorem bounded_dfs_misses :
  depthFirstSearchRdesc sampleSchema diamond.1 diamond.2 noRecords 20 (rdescOf vA) 0 2 []
    (getEdgeOut diamond.1 diamond.2) (Some (getVertexDst diamond.1 diamond.2)) noPathFilter =
    Ok [rdescOf vA; mkRecordDescriptor vC 1; mkRecordDescriptor vB 2] /\
  breadthFirstSearchRdesc sampleSchema diamond.1 diamond.2 noRecords 20 (rdescOf vA) 0 2 []
    (getEdgeOut diamond.1 diamond.2) (Some (getVertexDst diamond.1 diamond.2)) noPathFilter =
    Ok [rdescOf vA; mkRecordDescriptor vC 1; mkRecordDescriptor vB 1; mkRecordDescriptor vD 2].
Proof. split; by vm_compute. Qed.
