(* ===== verification/CommandSamples.v ===== *)
(** * The record commands on a small database

    A database with the classes of [Samples], empty tables and no edges, and
    what the commands do there, by evaluation. *)

From stdpp Require Import base gmap sets list strings sorting.
From Stdlib Require Import ZArith Lia.
From S2P Require Import Prelude Types Store Blob VersionControl TxnData RecordModel Parser Graph GraphSpec.
From S2P Require Import Schema Validate Generic Compare Index Commands CommandSpec Samples.

Definition counter (m : Z) : list Entry := [(KNum EM_MAXRECNUM, le_bytes 4 m)].
Definition store0 : MapStore :=
  {[to_string 1 := counter 1; to_string 2 := counter 1; to_string 10 := counter 1;
    TB_RELATIONS := [(KStr STRING_EM_INIT, [49%Z])]]}.
Definition db0 : Db MapStore := mkDb sampleSchema emptyGraph schemaWriter store0.

Definition named (n : string) : DbRecord := set "name" (bytes_of_string n) emptyRecord.

(** The result of a command, and the state after it. *)
Definition run {A} (m : Cmd MapStore A) (s : Db MapStore) : Db MapStore * Outcome A := m s.

Definition ann : RecordDescriptor := rdescOf (1, 1)%Z.
Definition bob : RecordDescriptor := rdescOf (1, 2)%Z.
Definition knows1 : RecordDescriptor := rdescOf (10, 1)%Z.

(** Two persons, and an edge between them. *)
Definition twoPersons : Db MapStore :=
  (run (let? _ := vertexCreate 0 "person" (named "ann") in vertexCreate 0 "person" (named "bob")) db0).1.
Definition acquainted : Db MapStore := (run (edgeCreate 0 "knows" ann bob emptyRecord) twoPersons).1.

Definition nameOf (d : RecordDescriptor) (s : Db MapStore) : Outcome (list byte) :=
  match getRecord d s with (_, Ok r) => getText "name" r | (_, Throw e) => Throw e | (_, UB) => UB end.
Definition versionOf (d : RecordDescriptor) (s : Db MapStore) : Outcome Z :=
  match getRecord d s with (_, Ok r) => getVersion r | (_, Throw e) => Throw e | (_, UB) => UB end.


(** ** What the commands do there *)

(** Every command of this file returns. *)
Lemma created : (run (vertexCreate 0 "person" (named "ann")) db0).2 =
  Ok (ann, stampNew 1 (named "ann")).
Proof. vm_compute. reflexivity. Qed.

Lemma connected : (run (edgeCreate 0 "knows" ann bob emptyRecord) twoPersons).2 =
  Ok (knows1, stampNew 1 emptyRecord).
Proof. vm_compute. reflexivity. Qed.

Lemma names_before : (nameOf ann acquainted, nameOf bob acquainted) =
  (Ok (bytes_of_string "ann"), Ok (bytes_of_string "bob")).
Proof. vm_compute. reflexivity. Qed.

(** [Edge::destroy] of a class writes the record of the source vertex under
    the position of the destination: after it "bob" is called "ann". *)
Lemma destroyClass_overwrites_destination :
  let s := (run (edgeDestroyClass 0 "knows") acquainted).1 in
  (nameOf ann s, nameOf bob s) = (Ok (bytes_of_string "ann"), Ok (bytes_of_string "ann")).
Proof. vm_compute. reflexivity. Qed.

(** Destroying the records of a class also removes the entry that counts
    them: the next [Vertex::create] reads an integer from an empty value. *)
Lemma destroyClass_drops_counter :
  (run (let? _ := vertexDestroyClass "person" in vertexCreate 0 "person" (named "cat")) acquainted).2 = UB.
Proof. vm_compute. reflexivity. Qed.

(** [Edge::create] lays the record out before it stamps it: the stored bytes
    have neither of the two version properties. *)
Lemma edge_stored_unstamped :
  dataEmpty (getData (db_store acquainted) (10, 1)%Z) = false /\
  match getRecord knows1 acquainted with
  | (_, Ok r) => basicProperties r !! TXN_VERSION = None
  | _ => False
  end.
Proof. vm_compute. split; reflexivity. Qed.
