(* ===== verification/RecoverySamples.v ===== *)
(** * A stored database

    Catalog tables with two vertex classes, one of them a subclass, and an
    edge class, a property with an index, and a relation table with one edge;
    a context between transactions; and small graph transactions on it. *)

From stdpp Require Import base gmap sets list strings sorting.
From Stdlib Require Import ZArith Lia.
From S2P Require Import Prelude Types Store Blob VersionControl TxnObject TxnData Graph GraphSpec.
From S2P Require Import GraphSteps Schema Validate BaseTxn Lifecycle Cycle Commands CommandSpec.
From S2P Require Import ClassCommands Recovery SchemaRecovery ClassSpec.

(** ** Tables given by lists *)
Definition rowsOf {A} (f : A -> list byte) (l : list (Z * A)) : list Entry := (fun p => (KNum p.1, f p.2)) <$> l.

Lemma rowsOf_stored {A} (f : A -> list byte) (time : list byte) (l : list (Z * A)) x :
  NoDup l.*1 -> x.1 <> KNum UINT16_EM_INIT ->
  x ∈ (KNum UINT16_EM_INIT, time) :: rowsOf f l <->
  exists id c, (list_to_map l : gmap Z A) !! id = Some c /\ x = (KNum id, f c).
Proof.
  intros Hnd Hx. unfold rowsOf. rewrite elem_of_cons, list_elem_of_fmap. split.
  - intros [->|([id c] & -> & Hin)]; [done|]. exists id, c. split; [|done]. by apply elem_of_list_to_map.
  - intros (id & c & Hc & ->). right. exists (id, c). split; [done|]. by apply elem_of_list_to_map.
Qed.

Lemma relations_stored (time : list byte) (l : list (RecordId * (RecordId * RecordId))) x :
  NoDup l.*1 -> x.1 <> KStr STRING_EM_INIT ->
  x ∈ (KStr STRING_EM_INIT, time) :: ((fun p => (KStr (rid2str p.1), relationBytes p.2)) <$> l) <->
  exists k sd, (list_to_map l : gmap RecordId (RecordId * RecordId)) !! k = Some sd /\ x = (KStr (rid2str k), relationBytes sd).
Proof.
  intros Hnd Hx. rewrite elem_of_cons, list_elem_of_fmap. split.
  - intros [->|([k sd] & -> & Hin)]; [done|]. exists k, sd. split; [|done]. by apply elem_of_list_to_map.
  - intros (k & sd & Hk & ->). right. exists (k, sd). split; [done|]. by apply elem_of_list_to_map.
Qed.

(** ** The sample *)
Definition now : list byte := [49%Z].
Definition catalogClasses : list (ClassId * CatalogClass) :=
  [(5%Z, mkCatalogClass VERTEX 0 "person"); (6%Z, mkCatalogClass VERTEX 5 "student");
   (10%Z, mkCatalogClass EDGE 0 "knows")].
Definition catalogProperties : list (PropertyId * CatalogProperty) :=
  [(6%Z, mkCatalogProperty TEXT 5 "name"); (7%Z, mkCatalogProperty INTEGER 6 "grade")].
Definition indexEntry : Entry := (KNum 6, [0%Z; 1%Z] ++ le_bytes 4 3 ++ le_bytes 2 5).
Definition storedEdges : list (RecordId * (RecordId * RecordId)) := [((10, 1)%Z, ((5, 1)%Z, (6, 1)%Z))].

Definition sampleC : gmap ClassId CatalogClass := list_to_map catalogClasses.
Definition sampleP : gmap PropertyId CatalogProperty := list_to_map catalogProperties.
Definition sampleRelations : gmap RecordId (RecordId * RecordId) := list_to_map storedEdges.

Definition storedSample : MapStore :=
  {[TB_CLASSES := (KNum UINT16_EM_INIT, now) :: rowsOf classBytes catalogClasses;
    TB_PROPERTIES := (KNum UINT16_EM_INIT, now) :: rowsOf propertyBytes catalogProperties;
    TB_INDEXES := [indexEntry];
    TB_RELATIONS := (KStr STRING_EM_INIT, now) ::
      ((fun p => (KStr (rid2str p.1), relationBytes p.2)) <$> storedEdges)]}.

Lemma NoDup_decide {A} `{EqDecision A} (l : list A) : bool_decide (NoDup l) = true -> NoDup l.
Proof. apply bool_decide_eq_true_1. Qed.

Lemma storedSample_catalog : stored_catalog sampleC sampleP storedSample.
Proof.
  assert (entries storedSample TB_CLASSES = (KNum UINT16_EM_INIT, now) :: rowsOf classBytes catalogClasses) as Hc
    by (vm_compute; reflexivity).
  assert (entries storedSample TB_PROPERTIES = (KNum UINT16_EM_INIT, now) :: rowsOf propertyBytes catalogProperties) as Hp
    by (vm_compute; reflexivity).
  assert (entries storedSample TB_INDEXES = [indexEntry]) as Hi by (vm_compute; reflexivity).
  split; unfold table; rewrite ?Hc, ?Hp, ?Hi.
  - repeat constructor.
  - intros x. apply rowsOf_stored, NoDup_decide. by vm_compute.
  - repeat constructor.
  - intros x. apply rowsOf_stored, NoDup_decide. by vm_compute.
  - repeat constructor.
  - intros k v [= -> ->]%list_elem_of_singleton. eexists. vm_compute. reflexivity.
Qed.

Lemma storedSample_edges : stored_edges storedSample sampleRelations.
Proof.
  assert (entries storedSample TB_RELATIONS = (KStr STRING_EM_INIT, now) ::
    ((fun p => (KStr (rid2str p.1), relationBytes p.2)) <$> storedEdges)) as Hr by (vm_compute; reflexivity).
  split; unfold table; rewrite Hr; [repeat constructor|]. intros x. apply relations_stored, NoDup_decide. by vm_compute.
Qed.

(** Properties of all entries of a finite map, by evaluation. *)
Lemma map_all `{Countable K} {A} (m : gmap K A) (Q : K -> A -> Prop) `{forall k x, Decision (Q k x)} :
  bool_decide (map_Forall Q m) = true -> forall k x, m !! k = Some x -> Q k x.
Proof. intros Hm k x Hk. apply bool_decide_eq_true_1 in Hm. by apply Hm. Qed.

Lemma sample_catalog_ok : catalog_ok sampleC sampleP.
Proof.
  split.
  - apply (map_all sampleC (fun id c => (0 < id <= UINT16_MAX)%Z /\ cc_name c <> EmptyString /\
      (cc_super c = 0%Z \/ is_Some (sampleC !! cc_super c)))). by vm_compute.
  - apply (map_all sampleP (fun id p => (0 < id <= UINT16_MAX)%Z /\ cp_name p <> EmptyString /\
      is_Some (sampleC !! cp_class p))). by vm_compute.
  - intros id id' p p' Hp Hp' Hc Hn.
    pose proof (map_all sampleP (fun id p => map_Forall (fun id' p' => cp_class p <> cp_class p' \/
      cp_name p <> cp_name p' \/ id = id') sampleP) ltac:(by vm_compute) id p Hp id' p' Hp') as Hall.
    simpl in Hall. naive_solver.
Qed.

#[export] Instance rid_ok_dec r : Decision (rid_ok r).
Proof. unfold rid_ok. apply _. Defined.

Lemma sample_edges_ok : edges_ok sampleRelations.
Proof.
  intros k sd. apply (map_all sampleRelations (fun k sd => rid_ok k /\ rid_ok sd.1 /\ rid_ok sd.2)). by vm_compute.
Qed.

Lemma sample_no_loops k sd : sampleRelations !! k = Some sd -> sd.1 <> sd.2.
Proof. apply (map_all sampleRelations (fun _ sd => sd.1 <> sd.2)). by vm_compute. Qed.

(** ** Tables with a loop

    The same tables with other edges; the ends of the edge [k] that a reader
    finds when the database is opened. *)
Definition withEdges (l : list (RecordId * (RecordId * RecordId))) : MapStore :=
  <[TB_RELATIONS := (KStr STRING_EM_INIT, now) :: ((fun p => (KStr (rid2str p.1), relationBytes p.2)) <$> l)]> storedSample.
Definition endsRead (l : list (RecordId * (RecordId * RecordId))) (k : RecordId) : Outcome RecordId * Outcome RecordId :=
  match initDatabase now (Ok tt) (withEdges l) newContext with
  | Ok (c, _) =>
      match beginTxn c false false with
      | Ok (r, c') => (getVertexSrc (dbRelation c') r k, getVertexDst (dbRelation c') r k)
      | _ => (UB, UB)
      end
  | _ => (UB, UB)
  end.

(** A loop that no earlier row prepares has no target when the database is
    opened again; after an edge of the same vertex it has. *)
Theorem reopened_loop_dangles :
  endsRead [((10, 1), ((5, 1), (5, 1)))]%Z (10, 1)%Z = (Ok (5, 1)%Z, Throw NOGDB_GRAPH_UNKNOWN_ERR) /\
  endsRead [((10, 1), ((5, 1), (6, 1))); ((10, 2), ((5, 1), (5, 1)))]%Z (10, 2)%Z = (Ok (5, 1)%Z, Ok (5, 1)%Z).
Proof. by vm_compute. Qed.

(** ** The sample database, opened *)
Definition opened : Context * MapStore :=
  match initDatabase now (Ok tt) storedSample newContext with Ok p => p | _ => (newContext, storedSample) end.
Definition openedTxn : BaseTxn * Context :=
  match beginTxn opened.1 true false with Ok p => p | _ => (mkBaseTxn READ_WRITE 0 0 newDbInfo ∅ ∅ ∅ true false false, opened.1) end.
Definition openedDb : Db MapStore :=
  mkDb (dbSchema openedTxn.2) (dbRelation openedTxn.2) openedTxn.1 opened.2.

Definition openedNames : list (option string) :=
  (fun id => match findClass (db_schema openedDb) (db_txn openedDb) id with
             | Some (_, c) => Some (getLatestVersion (cd_name c)).1
             | None => None
             end) <$> [5; 6; 7; 10]%Z.

Lemma opened_evaluates :
  openedNames = [Some "person"; Some "student"; None; Some "knows"] /\
  getVertexSrcDst (db_relation openedDb) (db_txn openedDb) (10, 1)%Z = Ok ((5, 1)%Z, (6, 1)%Z) /\
  maxClassId (txnDbInfo (db_txn openedDb)) = 10%Z /\ maxPropertyId (txnDbInfo (db_txn openedDb)) = 7%Z /\
  maxIndexId (txnDbInfo (db_txn openedDb)) = 3%Z.
Proof. by vm_compute. Qed.

Lemma opened_keys :
  map_Forall (fun i _ => (i <= 10)%Z) (schemaInfo (db_schema openedDb)) /\
  map_Forall (fun n _ => take 1 n = [46%Z]) opened.2 /\
  maxClassId (txnDbInfo (db_txn openedDb)) = 10%Z /\ ucSchema (db_txn openedDb) = ∅ /\ opened.2 = storedSample /\
  txnDbInfo (db_txn openedDb) = mkDBInfo 7 2 10 3 3 1.
Proof. split_and!; [apply (bool_decide_eq_true_1 _)|apply (bool_decide_eq_true_1 _)|..]; vm_compute; reflexivity. Qed.

Lemma opened_unused : unused_ids openedDb.
Proof.
  destruct opened_keys as (Hids & Hnames & Hmax & Huc & _).
  split; rewrite Hmax.
  - unfold CLASS_ID_UPPER_LIMIT, UINT16_MAX. lia.
  - intros id Hid. split; [|by rewrite Huc, lookup_empty].
    destruct (schemaInfo (db_schema openedDb) !! id) as [l|] eqn:E; [|done]. specialize (Hids _ _ E). simpl in Hids. lia.
  - intros id Hid. change (default [] (opened.2 !! to_string id) = []).
    destruct (opened.2 !! to_string id) as [l|] eqn:E; [|done]. exfalso. specialize (Hnames _ _ E).
    destruct (to_string_head id) as (b & r & Hb & Hr); [lia|]. rewrite Hb in Hnames. simpl in Hnames. injection Hnames as ->. lia.
Qed.

Lemma sample_counters : counters_past sampleC sampleP storedSample (mkDBInfo 7 2 10 3 3 1).
Proof.
  split_and!.
  - assert (map_Forall (fun i _ => (i <= 10)%Z) sampleC) as H by (apply (bool_decide_eq_true_1 _); by vm_compute).
    intros id [c Hc]. exact (H id c Hc).
  - assert (map_Forall (fun i _ => (i <= 7)%Z) sampleP) as H by (apply (bool_decide_eq_true_1 _); by vm_compute).
    intros id [p Hp]. exact (H id p Hp).
  - intros id v u x c _ Hv. assert (v = indexEntry.2) as ->.
    { unfold indexRows in Hv. apply list_elem_of_fmap in Hv as (e & -> & [_ He]%list_elem_of_filter).
      assert (entries storedSample TB_INDEXES = [indexEntry]) as Hi by (vm_compute; reflexivity).
      rewrite Hi in He. by apply list_elem_of_singleton in He as ->. }
    vm_compute. by intros [= <- <- <-].
Qed.

Lemma opened_stored :
  stored_catalog sampleC sampleP (db_store openedDb) /\ stored_edges (db_store openedDb) sampleRelations /\
  counters_past sampleC sampleP (db_store openedDb) (txnDbInfo (db_txn openedDb)).
Proof.
  destruct opened_keys as (_ & _ & _ & _ & Hs & ->). change (db_store openedDb) with opened.2. rewrite Hs.
  split; [apply storedSample_catalog|]. split; [apply storedSample_edges|apply sample_counters].
Qed.
