(* ===== verification/Witnesses.v ===== *)
(** * The theorems at concrete inputs

    Each lemma applies one theorem of the library at a concrete state where
    its hypotheses hold. *)

From stdpp Require Import base gmap sets list strings sorting relations.
From Stdlib Require Import ZArith Lia.
From S2P Require Import Prelude VersionControl MultiVersionMap TxnObject SpinLock Types.
From S2P Require Import Store Blob Converters RecordModel Parser TxnData Graph GraphSpec.
From S2P Require Import GraphQuery GraphSteps GraphSnapshot Schema Validate BaseTxn CommitSpec.
From S2P Require Import TxnSpec Generic Compare Algorithm AlgorithmSpec GraphSearch.
From S2P Require Import Cursor OutEdges DfsSpec Dijkstra DijkstraSpec Samples.

(** ** Versions *)
Definition twoVersions : VersionControl Z :=
  upgradeStableVersion 4 (addLatestVersion 20%Z (upgradeStableVersion 2 (addLatestVersion 10%Z emptyVersionControl))).

Lemma snapshot_read_correct_witness :
  (exists c, reads_at (stableVersions_ twoVersions) 3 c /\ getStableVersionAt 3 twoVersions = value_of c) \/
  (Forall (fun c => (3 < versionId c)%Z) (stableVersions_ twoVersions) /\
   getStableVersionAt 3 twoVersions = (dflt, false)).
Proof. apply (snapshot_read_correct 3 twoVersions). repeat constructor. Defined.

Lemma upgrade_snapshots_witness :
  getStableVersionAt 6 (upgradeStableVersion 6 (addLatestVersion 30%Z twoVersions)) = (30%Z, true).
Proof.
  rewrite (upgrade_snapshots 6 6 (addLatestVersion 30%Z twoVersions)); [by vm_compute|].
  repeat constructor.
Defined.

Lemma clear_preserves_snapshot_witness :
  getStableVersionAt 3 (clearStableVersion 2 twoVersions).1 = (10%Z, true).
Proof.
  rewrite (clear_preserves_snapshot 2 3 twoVersions); [by vm_compute|repeat constructor|].
  left. apply Exists_exists. exists (mkControlObject 2 ACTIVE 10%Z). split; [vm_compute; set_solver|simpl; lia].
Defined.

Lemma clear_loses_snapshot_witness :
  getStableVersionAt 3 twoVersions = (10%Z, true) /\
  getStableVersionAt 3 (clearStableVersion 3 twoVersions).1 = (dflt, false).
Proof. apply (clear_loses_snapshot 3 3 10%Z 20%Z ACTIVE (unstableVersion_ twoVersions) 2 4); lia. Defined.

(** ** Transactions *)
Definition twoReaders : RaceState := mkRaceState (mkTxnStat 3 0 [(1, 0); (2, 0)]%Z) [RActive 1 0; RActive 2 0].
Lemma two_readers_calm : rtc calm_step (initRace 2) twoReaders.
Proof.
  eapply rtc_l; [split; [by apply (race_take_id _ _ 0 1)|by left]|].
  eapply rtc_l; [split; [by apply (race_read_version _ _ 0 1)|by left]|].
  eapply rtc_l; [split; [by apply (race_take_id _ _ 1 2)|by left]|].
  eapply rtc_l; [split; [by apply (race_read_version _ _ 1 2)|by left]|].
  eapply rtc_l; [split; [by apply (race_register _ _ 1 2 0)|by left]|].
  eapply rtc_l; [split; [by apply (race_register _ _ 0 1 0)|by left]|]. apply rtc_refl.
Qed.

Lemma oldest_reader_correct_witness :
  minActiveTxnId (rs_stat twoReaders) = (1, 0)%Z /\
  forall i p t v, rs_readers twoReaders !! i = Some p -> pcSnapshot p = Some (t, v) -> (0 <= v)%Z.
Proof.
  split; [done|].
  destruct (oldest_reader_correct 2 twoReaders (calm_race _ _ two_readers_calm)) as (_ & _ & H & _).
  destruct (H ltac:(done)) as (_ & _ & H'). exact (H' two_readers_calm).
Defined.

Lemma last_min_version_correct_witness :
  exists b, isLastMinVersionId 1 (mkTxnStat 3 0 [(1, 0); (2, 0)]%Z) = Ok b /\
    (b = true <-> Forall (fun p => (0 < p.2)%Z) (smap_erase 1 [(1, 0); (2, 0)]%Z)).
Proof. apply (last_min_version_correct 2 twoReaders 1 0 two_readers_calm). left. Defined.

Definition sampleContext (stat : TxnStat) : Context :=
  mkContext (mkSchema ∅ ∅ [] ∅) emptyGraph stat (mkDBInfo 0 0 0 0 0 0) [].

Lemma reader_end_gc_safe_witness :
  let c := sampleContext (mkTxnStat 3 0 [(1, 0); (2, 0)]%Z) in
  let reader i := mkBaseTxn READ_ONLY i 0 (mkDBInfo 0 0 0 0 0 0) ∅ ∅ ∅ false false false in
  exists c1 t1 c2 t2, commit (Ok tt) c (reader 1%Z) = Ok (true, c1, t1) /\
    rollback c (reader 1%Z) = Ok (true, c2, t2) /\
    activeTxnIds (dbTxnStat c1) = smap_erase 1 (activeTxnIds (dbTxnStat c)) /\
    (forall rid, lookupVertex (dbRelation c1) (reader 2%Z) rid = lookupVertex (dbRelation c) (reader 2%Z) rid /\
                 lookupVertex (dbRelation c2) (reader 2%Z) rid = lookupVertex (dbRelation c) (reader 2%Z) rid) /\
    (forall rid, lookupEdge (dbRelation c1) (reader 2%Z) rid = lookupEdge (dbRelation c) (reader 2%Z) rid /\
                 lookupEdge (dbRelation c2) (reader 2%Z) rid = lookupEdge (dbRelation c) (reader 2%Z) rid) /\
    (forall id, findClass (dbSchema c1) (reader 2%Z) id = findClass (dbSchema c) (reader 2%Z) id /\
                findClass (dbSchema c2) (reader 2%Z) id = findClass (dbSchema c) (reader 2%Z) id).
Proof.
  intros c reader. apply (reader_end_gc_safe 2 twoReaders (Ok tt) c (reader 1%Z) (reader 2%Z)).
  - exact two_readers_calm.
  - done.
  - split; intros * H; by apply elem_of_nil in H.
  - done.
  - done.
  - left.
  - done.
  - right. left.
  - done.
Defined.

(** ** The lock *)
Lemma writer_in : rtc lock_step (initLock 2) (mkRWSpinLock 0 true [WCrit; Idle]).
Proof.
  eapply rtc_l; [apply (step_lock _ 0); reflexivity|].
  eapply rtc_l; [apply (step_tryLock_ok _ 0); reflexivity|].
  eapply rtc_l; [apply (step_no_readers _ 0); [reflexivity|simpl; lia]|]. apply rtc_refl.
Qed.

Lemma rwlock_mutual_exclusion_witness :
  [WCrit; Idle] !! 0 = Some WCrit /\ ~ ([WCrit; Idle] !! 1 = Some RCrit).
Proof.
  split; [done|]. intros Hj.
  by pose proof (rwlock_mutual_exclusion 2 (mkRWSpinLock 0 true [WCrit; Idle]) 0 1 RCrit
    ltac:(done) writer_in eq_refl Hj (or_intror eq_refl)).
Defined.

(** A reader has counted itself while a writer waits. *)
Definition contended : RWSpinLock := mkRWSpinLock 1 true [RCheck; WWait].
Lemma contended_reachable : rtc lock_step (initLock 2) contended.
Proof.
  eapply rtc_l; [by apply (step_lockShared (initLock 2) 0)|]. eapply rtc_l; [by apply (step_no_writer _ 0)|].
  eapply rtc_l; [by apply (step_lock _ 1)|]. eapply rtc_l; [by apply (step_tryLock_ok _ 1)|].
  apply rtc_once. by apply (step_fetch_add (mkRWSpinLock 0 true [RInc; WWait]) 0).
Qed.

Lemma rwlock_drains_witness :
  exists s', rtc lock_step contended s' /\ isWriting s' = false /\ numOfReaders s' = 0%Z /\
    forall i p, threads s' !! i = Some p -> p = Idle.
Proof. apply (rwlock_drains 2 contended); [done|exact contended_reachable]. Defined.

Lemma rwlock_progress_witness :
  isWriting (initLock 2) = false /\
  exists s', rtc lock_step (initLock 2) s' /\ threads s' !! 1 = Some WCrit.
Proof. split; [reflexivity|]. by apply (rwlock_progress (initLock 2) 1). Defined.

(** ** The relation graph *)
Definition edgeAB : RecordId := (10, 1)%Z.
Definition edgeBD : RecordId := (10, 3)%Z.

Lemma visible_A : exists l, vvis sampleG sampleT vA l.
Proof. eexists. apply vvis_sample; [vm_compute; reflexivity|]. by vm_compute. Qed.
Lemma visible_D : exists l, vvis sampleG sampleT vD l.
Proof. eexists. apply vvis_sample; [vm_compute; reflexivity|]. by vm_compute. Qed.

Lemma createEdge_refines_witness :
  createEdge sampleG sampleT edgeAB vC vD = Throw NOGDB_GRAPH_DUP_EDGE /\
  exists g' t', createEdge sampleG sampleT (10, 4)%Z vC vD = Ok (g', t') /\
    repr g' t' (<[(10, 4)%Z := (vC, vD)]> sampleE).
Proof.
  split.
  - apply (createEdge_refines sampleG sampleT sampleE edgeAB vC vD repr_sample). vm_compute. by eexists.
  - apply (createEdge_refines sampleG sampleT sampleE (10, 4)%Z vC vD repr_sample);
      [by vm_compute|by apply usableb_usable; vm_compute..|by left].
Defined.

Lemma deleteEdge_refines_witness :
  let st := deleteEdge sampleG sampleT edgeAB in
  repr st.1 st.2 (delete edgeAB sampleE) /\ deleteEdge sampleG sampleT (10, 9)%Z = (sampleG, sampleT).
Proof.
  split; [apply (deleteEdge_refines sampleG sampleT sampleE edgeAB repr_sample)|].
  apply (deleteEdge_refines sampleG sampleT sampleE (10, 9)%Z repr_sample). by vm_compute.
Defined.

Lemma deleteVertex_refines_witness :
  let st := deleteVertex sampleG sampleT vB in
  repr st.1 st.2 (filter (fun p => p.2.1 <> vB /\ p.2.2 <> vB) sampleE) /\ (forall l, ~ vvis st.1 st.2 vB l).
Proof. apply (deleteVertex_refines sampleG sampleT sampleE vB repr_sample). Defined.

Lemma alterVertex_refines_witness :
  exists g' t', alterVertexSrc sampleG sampleT edgeBD vC = Ok (g', t') /\
    repr g' t' (<[edgeBD := (vC, vD)]> sampleE).
Proof.
  assert (usable sampleG sampleT vC) as Hu by (apply usableb_usable; by vm_compute).
  destruct (alterVertex_refines sampleG sampleT sampleE edgeBD vC repr_sample Hu) as [_ H].
  apply (H vB vD). by vm_compute.
Defined.

Lemma endpoints_refine_witness :
  getVertexSrcDst sampleG sampleT edgeAB = Ok (vA, vB) /\ getVertexSrc sampleG sampleT edgeAB = Ok vA /\
  getVertexDst sampleG sampleT edgeAB = Ok vB.
Proof. apply (endpoints_refine sampleG sampleT sampleE edgeAB repr_sample). Defined.

Lemma adjacency_refines_witness :
  exists ins outs, getEdgeIn sampleG sampleT vA 10%Z = Ok ins /\ getEdgeOut sampleG sampleT vA 10%Z = Ok outs /\
    NoDup ins /\ NoDup outs /\ (forall k, k ∈ ins <-> incident_in DST sampleE vA 10 k) /\
    (forall k, k ∈ outs <-> incident_in SRC sampleE vA 10 k).
Proof.
  destruct visible_A as [l Hl]. apply (adjacency_refines sampleG sampleT sampleE vA 10 repr_sample) with (l := l).
  exact Hl.
Defined.

Lemma getEdgeInOut_refines_witness :
  exists res, getEdgeInOut sampleG sampleT vD 0%Z = Ok res /\ StronglySorted rid_lt res /\
    forall k, k ∈ res <-> incident_in SRC sampleE vD 0 k \/ incident_in DST sampleE vD 0 k.
Proof. destruct visible_D as [l Hl]. apply (getEdgeInOut_refines sampleG sampleT sampleE vD 0 l repr_sample Hl). Defined.

Lemma reader_isolation_witness :
  let r := mkBaseTxn READ_ONLY 1 0 (mkDBInfo 0 0 0 0 0 0) ∅ ∅ ∅ false false false in
  same_answers sampleG (deleteEdge sampleG sampleT edgeAB).1 r /\
  same_answers sampleG (createVertex sampleG sampleT (10, 7)%Z).1.2 r.
Proof.
  intros r.
  assert (forall l, ownedV sampleG r l = true -> is_Some (vheap sampleG !! l)) as HV.
  { intros l Hl. apply orb_true_iff in Hl as [[Hl|Hl]%orb_true_iff|Hl].
    - apply owns_spec in Hl as [k Hk]. by vm_compute in Hk.
    - apply owns_spec in Hl as [k Hk]. by vm_compute in Hk.
    - apply bool_decide_eq_true in Hl. by vm_compute in Hl. }
  assert (forall l, ownedE sampleG r l = true -> is_Some (eheap sampleG !! l)) as HE.
  { intros l Hl. apply orb_true_iff in Hl as [[Hl|Hl]%orb_true_iff|Hl].
    - apply owns_spec in Hl as [k Hk]. by vm_compute in Hk.
    - apply owns_spec in Hl as [k Hk]. by vm_compute in Hk.
    - apply bool_decide_eq_true in Hl. by vm_compute in Hl. }
  split.
  - destruct (reader_isolation sampleG sampleT sampleE (deleteEdge sampleG sampleT edgeAB).1
      (deleteEdge sampleG sampleT edgeAB).2 r repr_sample eq_refl HV HE) as (_ & H & _).
    apply H; [apply (wo_deleteEdge _ _ edgeAB); by destruct (deleteEdge sampleG sampleT edgeAB)|].
    split; apply (bool_decide_eq_true_1 _); by vm_compute.
  - destruct (reader_isolation sampleG sampleT sampleE (createVertex sampleG sampleT (10, 7)%Z).1.2
      (createVertex sampleG sampleT (10, 7)%Z).2 r repr_sample eq_refl HV HE) as (H & _ & _).
    apply H. apply (wo_createVertex _ _ (10, 7)%Z (createVertex sampleG sampleT (10, 7)%Z).1.1).
    by destruct (createVertex sampleG sampleT (10, 7)%Z) as [[? ?] ?].
Defined.

Lemma publishable_sample : publishable sampleG sampleT.
Proof.
  assert (map_Forall (fun _ e => st_status (e_state e) = UNCOMMITTED_CREATE /\ (st_versionId (e_state e) <= 1)%Z /\
    older_than 1 (e_source e) /\ older_than 1 (e_target e)) (eheap sampleG)) as He.
  { unfold older_than. apply (bool_decide_eq_true_1 _). by vm_compute. }
  assert (map_Forall (fun _ v => st_status (v_state v) = UNCOMMITTED_CREATE) (vheap sampleG)) as Hv.
  { apply (bool_decide_eq_true_1 _). by vm_compute. }
  split.
  - intros k le e Hk. by vm_compute in Hk.
  - intros k le e _ Hle. destruct (He le e Hle) as (_ & ? & ? & ?). split; [done|]. by intros [].
  - intros k le e _ _ Hle. apply (He le e Hle).
  - intros r l v _ _ Hl. apply (Hv l v Hl).
Qed.

Lemma commit_publishes_witness :
  getVertexSrcDst (commitRelation 0 sampleT sampleG) sampleReader edgeBD = Ok (vB, vD).
Proof. apply (commit_publishes sampleG sampleT sampleE 0 sampleReader edgeBD repr_sample publishable_sample); done. Defined.

Lemma sampleE_ids : ids_ok sampleE.
Proof. split; [by vm_compute|]. apply (bool_decide_eq_true_1 _). by vm_compute. Qed.

Lemma bfs_on_graph_witness :
  exists res,
    breadthFirstSearchRdesc sampleSchema sampleG sampleT noRecords 10 (rdescOf vA) 0 2 [] (getEdgeOut sampleG sampleT)
      (Some (getVertexDst sampleG sampleT)) noPathFilter = Ok res /\
    NoDup (rd_rid <$> res) /\
    forall x, x ∈ res <-> (x = rdescOf vA /\ 0%Z = 0%Z) \/
      exists k, 0 < k /\ (0 <= Z.of_nat k <= 2)%Z /\ rd_depth x = Z.of_nat k /\ graph_dist sampleE vA (rd_rid x) k.
Proof.
  destruct visible_A as [l Hl].
  apply (bfs_on_graph sampleSchema sampleG sampleT noRecords sampleE (rdescOf vA) l 0 2 10 repr_sample sampleE_ids);
    [done|exact Hl|vm_compute; lia].
Defined.

Lemma shortest_path_on_graph_witness :
  exists res, bfsShortestPathRdesc sampleSchema sampleG sampleT noRecords 10 (rdescOf vA) (rdescOf vD) [] noPathFilter = Ok res /\
    ((exists k, graph_dist sampleE vA vD k /\ length res = S k /\
        rd_rid <$> head res = Some vA /\ rd_rid <$> last res = Some vD /\
        (forall i a b, res !! i = Some a -> res !! S i = Some b -> edge_rel sampleE (rd_rid a) (rd_rid b)) /\
        rd_depth <$> res = Z.of_nat <$> seq 0 (S k)) \/
     (res = [] /\ forall k, ~ graph_dist sampleE vA vD k)).
Proof.
  destruct visible_A as [l Hl]. destruct visible_D as [l' Hl'].
  apply (shortest_path_on_graph sampleSchema sampleG sampleT noRecords sampleE (rdescOf vA) (rdescOf vD) l l' 10
    repr_sample sampleE_ids); [done|exact Hl|exact Hl'|done|vm_compute; lia].
Defined.

Lemma no_classes_ok : classes_ok [].
Proof. split; [constructor|]. by intros ?%elem_of_nil. Qed.

Definition unitCost (e : RecordDescriptor) : Z := 1.

Lemma dijkstra_on_graph_witness :
  (exists k res,
     dijkstraShortestPathRdesc sampleSchema sampleG sampleT noRecords firstMin unitCost 10 (rdescOf vA) (rdescOf vD) []
       noPathFilter = Ok (k, res) /\
     route (restrict [] sampleE) unitCost vA (rd_rid <$> res) vD k /\
     (forall p k', route (restrict [] sampleE) unitCost vA p vD k' -> (k <= k')%Z) /\
     rd_depth <$> res = Z.of_nat <$> seq 0 (length res)) \/
  (dijkstraShortestPathRdesc sampleSchema sampleG sampleT noRecords firstMin unitCost 10 (rdescOf vA) (rdescOf vD) []
     noPathFilter = Ok (0%Z, []) /\
   forall p k, ~ route (restrict [] sampleE) unitCost vA p vD k).
Proof.
  destruct visible_A as [l Hl]. destruct visible_D as [l' Hl'].
  apply (dijkstra_on_graph sampleSchema sampleG sampleT noRecords sampleE firstMin unitCost (rdescOf vA) (rdescOf vD)
    [] l l' 10 repr_sample sampleE_ids no_classes_ok); [done|exact Hl|exact Hl'|done|vm_compute; lia].
Defined.

Lemma dfs_on_graph_witness :
  exists res,
    depthFirstSearchRdesc sampleSchema sampleG sampleT noRecords 10 (rdescOf vA) 0 7 [] (getEdgeOut sampleG sampleT)
      (Some (getVertexDst sampleG sampleT)) noPathFilter = Ok res /\
    NoDup (rd_rid <$> res) /\
    (forall x, x ∈ res -> exists k, rd_depth x = Z.of_nat k /\ (0 <= Z.of_nat k <= 7)%Z /\
       nsteps (edge_rel (restrict [] sampleE)) k vA (rd_rid x)) /\
    (0%Z = 0%Z -> (1 + 2 * Z.of_nat (size sampleE) <= 7)%Z ->
       forall v, rtc (edge_rel (restrict [] sampleE)) vA v -> v ∈ rd_rid <$> res).
Proof.
  destruct visible_A as [l Hl].
  apply (dfs_on_graph sampleSchema sampleG sampleT noRecords sampleE (rdescOf vA) [] l 0 7 10
    repr_sample sampleE_ids no_classes_ok); [done|exact Hl|done|vm_compute; lia].
Defined.


(** ** Records *)
Definition sampleInfo : ClassPropertyInfo := cpi_insert "name" (mkPropertyDescriptor 5 TEXT ∅) basicPropertyInfo.
Definition sampleRecord : DbRecord :=
  mkDbRecord {["name" := [98; 111; 98]%Z]} {[VERSION_PROPERTY := le_bytes 8 1]}.

Lemma record_roundtrip_witness :
  exists b idx, parseRecord 0 1 sampleInfo sampleRecord = Ok (b, idx) /\
    length (value_ b) = sizesOf (storedItems sampleRecord) /\
    parseRawData (Some (value_ b)) sampleInfo = Ok (mkDbRecord (properties sampleRecord) (storedBasics sampleRecord)).
Proof.
  apply (record_roundtrip 0 1 sampleInfo sampleRecord).
  - split; apply (bool_decide_eq_true_1 _); by vm_compute.
  - apply map_Forall_singleton.
    exists (mkPropertyDescriptor 5 TEXT ∅). split_and!; try by vm_compute.
  - apply map_Forall_singleton.
    exists (mkPropertyDescriptor VERSION_PROPERTY_ID UNSIGNED_BIGINT ∅). split_and!; by vm_compute.
  - apply Nat.leb_le. by vm_compute.
Defined.

Lemma parseRawData_safe_witness :
  parseRawData (Some [5; 0; 255; 1; 2]%Z) sampleInfo = Throw NOGDB_CTX_INTERNAL_ERR /\
  (parseRawDataOn (fun n => n <=? 8)%nat (Some [5; 0; 10; 1; 2]%Z) sampleInfo =
     parseRawData (Some [5; 0; 10; 1; 2]%Z) sampleInfo \/
   exists bytes n, Some [5; 0; 10; 1; 2]%Z = Some bytes /\ declares (blobOf bytes) n /\ (n <=? 8)%nat = false).
Proof.
  assert (forall id, idToName sampleInfo !! id <> Some EmptyString) as Hnames.
  { intros id Hid.
    assert (map_Forall (fun _ name => name <> EmptyString) (idToName sampleInfo)) as H
      by (apply (bool_decide_eq_true_1 _); by vm_compute).
    by apply (H id _ Hid). }
  split; [by vm_compute|].
  destruct (parseRawData_safe (fun n => n <=? 8)%nat (Some [5; 0; 10; 1; 2]%Z) sampleInfo Hnames) as [_ [H|[_ H]]];
    [by left|by right].
Defined.

Lemma updateVersion_once_witness :
  exists r', updateVersion 7 sampleRecord = Ok r' /\ getVersion r' = Ok (1 + 1)%Z /\
    properties r' = properties sampleRecord /\ updateVersion 7 r' = Ok r'.
Proof. apply (updateVersion_once 7 sampleRecord 1); [done|by left; vm_compute|by vm_compute|done]. Defined.

Lemma vector_roundtrip_witness :
  exists b, toBytes (mkVec [mkUInt (n := 4) 7; mkUInt (n := 4) 9]) false = Some b /\
    convertAll (T := Vec (UInt 4)) b = Ok (mkVec [mkUInt 7; mkUInt 9]).
Proof.
  apply (vector_roundtrip (mkVec [mkUInt (n := 4) 7; mkUInt (n := 4) 9])).
  - repeat (constructor; [by vm_compute|]). constructor.
  - by vm_compute.
  - by vm_compute.
Defined.

(** ** The schema *)
Lemma property_search_witness :
  isExistingPropertyExtend sampleSchema schemaWriter classStudent "name" = Ok (1%Z, nameProperty) /\
  isNotDuplicatedProperty sampleSchema schemaWriter classStudent "name" = Throw NOGDB_CTX_DUPLICATE_PROPERTY.
Proof.
  destruct (property_search sampleSchema schemaWriter classStudent [(0, classPerson)] "name" chain_student) as (H1 & H2 & _).
  split; [rewrite H1|rewrite H2]; by vm_compute.
Defined.

Lemma depth_person : depth_le sampleSchema schemaWriter 1 classPerson.
Proof.
  assert (subsOf sampleSchema schemaWriter classPerson = [classStudent]) as Hs by (by vm_compute).
  cbn [depth_le]. rewrite Hs. by repeat constructor.
Qed.

Lemma override_check_witness :
  (isNotOverridenProperty sampleSchema schemaWriter classPerson "age" = Ok tt /\
     clean sampleSchema schemaWriter "age" classPerson) \/
  (isNotOverridenProperty sampleSchema schemaWriter classPerson "age" = Throw NOGDB_CTX_OVERRIDE_PROPERTY /\
     dirty sampleSchema schemaWriter "age" classPerson).
Proof.
  apply (override_check sampleSchema schemaWriter classPerson "age" 1 depth_person).
  apply Nat.leb_le. by vm_compute.
Defined.

Lemma property_changes_witness :
  exists s' t' c', renameProperty sampleSchema schemaWriter 1 "name" "title" = Ok (s', t') /\
    findClass s' t' 1 = Some (0, c') /\
    propertiesOf schemaWriter c' = <["title" := nameProperty]> (delete "name" (propertiesOf schemaWriter classPerson)) /\
    forall v, getStableVersionAt v (cd_properties c') = getStableVersionAt v (cd_properties classPerson).
Proof.
  apply (property_changes sampleSchema schemaWriter 1 0 classPerson "name" "title" nameProperty)
    with (d' := nameProperty); by vm_compute.
Defined.

Lemma sample_ids_unique : ids_unique schemaWriter [classStudent; classPerson].
Proof.
  assert (forall name id, defined schemaWriter [classStudent; classPerson] name id ->
    (name, id) ∈ [(CLASS_NAME_PROPERTY, 0); (RECORD_ID_PROPERTY, 1); (DEPTH_PROPERTY, 2); (VERSION_PROPERTY, 3);
                  (TXN_VERSION, 4); ("name", 5); ("age", 6)]%Z) as Hall.
  { intros name id [(d & Hd & <-)|(c & d & Hc & Hd & <-)].
    - assert (map_Forall (fun n d => (n, pd_id d) ∈ [(CLASS_NAME_PROPERTY, 0); (RECORD_ID_PROPERTY, 1);
        (DEPTH_PROPERTY, 2); (VERSION_PROPERTY, 3); (TXN_VERSION, 4); ("name", 5); ("age", 6)]%Z)
        (nameToDesc basicPropertyInfo)) as H by (apply (bool_decide_eq_true_1 _); by vm_compute).
      by apply H.
    - set_unfold in Hc. destruct Hc as [->| [->|[]]].
      + apply (lookup_singleton_Some (M := gmap string) "age" name ageProperty d) in Hd as [<- <-]. set_solver.
      + apply (lookup_singleton_Some (M := gmap string) "name" name nameProperty d) in Hd as [<- <-]. set_solver. }
  intros id n1 n2 H1%Hall H2%Hall. clear Hall. set_unfold in H1. set_unfold in H2.
  repeat destruct H1 as [H1|H1]; simplify_eq; repeat destruct H2 as [H2|H2]; by simplify_eq.
Qed.

Lemma class_property_table_witness :
  exists info, getClassMapProperty sampleSchema schemaWriter classStudent = Ok info /\
    (forall name, nameToDesc info !! name =
       match nameToDesc basicPropertyInfo !! name with
       | Some d => Some d
       | None => (fun x => transformProperty x.2) <$> nearest schemaWriter [classStudent; classPerson] name
       end) /\
    (forall name d, nameToDesc info !! name = Some d -> idToName info !! pd_id d = Some name).
Proof. apply (class_property_table sampleSchema schemaWriter classStudent [(0, classPerson)] chain_student sample_ids_unique). Defined.

Lemma class_extend_witness :
  (exists res, getClassExtend sampleSchema schemaWriter elements {[0]} = Ok res /\
     forall l, l ∈ res <-> exists l0, l0 ∈ ({[0]} : gset Loc) /\ rtc (subLoc sampleSchema schemaWriter) l0 l) \/
  (getClassExtend sampleSchema schemaWriter elements {[0]} = Throw NOGDB_CTX_INTERNAL_ERR /\
     exists l0, l0 ∈ ({[0]} : gset Loc) /\ deadBelow sampleSchema schemaWriter l0).
Proof.
  apply (class_extend sampleSchema schemaWriter elements {[0]} 1).
  - done.
  - intros l ->%elem_of_singleton_1. exists classPerson. split; [by vm_compute|apply depth_person].
  - apply Nat.leb_le. by vm_compute.
Defined.

(** ** Conditions *)
Definition noRegex : list byte -> list byte -> Outcome bool := fun _ _ => Ok false.
Definition nameIs (v : list byte) : Condition := withValue EQUAL v (newCondition "name").

Lemma integer_compare_witness :
  exists b, genericCompareFunc noRegex (le_bytes 4 (-3)) INTEGER (le_bytes 4 (-5)) (le_bytes 4 2) BETWEEN false = Ok b /\
    (b = true <-> (-5 <= -3 <= 2)%Z).
Proof.
  apply (integer_compare noRegex INTEGER (4, true) (-3) (-5) 2 BETWEEN false); [done|unfold inRange; simpl; lia..].
Defined.

Lemma text_compare_witness :
  exists b, genericCompareFunc noRegex (bytes_of_string "Robert") TEXT (bytes_of_string "ROB") [] BEGIN_WITH true = Ok b /\
    (b = true <-> bytes_of_string "rob" `prefix_of` bytes_of_string "robert").
Proof.
  apply (text_compare noRegex (bytes_of_string "Robert") (bytes_of_string "ROB") [] BEGIN_WITH true).
  apply (bool_decide_eq_true_1 _). by vm_compute.
Defined.

Lemma in_membership_witness :
  exists b, compareBytesValue noRegex (le_bytes 2 7) SMALLINT (in_ (le_bytes 2 <$> [7; 9]%Z) (negate (nameIs []))) = Ok b /\
    (b = true <-> exists y, y ∈ [7; 9]%Z /\ 7%Z <> y).
Proof.
  apply (in_membership noRegex SMALLINT (2, true) 7 [7; 9]%Z (negate (nameIs []))); [done|unfold inRange; simpl; lia|].
  repeat (constructor; [unfold inRange; simpl; lia|]). constructor.
Defined.

Lemma negate_complements_witness :
  checkCondition noRegex (negate (nameIs [98; 111; 98]%Z)) TEXT sampleRecord = Ok false.
Proof.
  destruct (negate_complements noRegex (nameIs [98; 111; 98]%Z) TEXT sampleRecord true) as [(v & Hv & ->) _];
    [done|by vm_compute|]. cbn [comp nameIs withValue]. by case_bool_decide.
Defined.

Definition checked (c : Condition) : bool :=
  match checkNode noRegex {["name" := TEXT]} c sampleRecord with Ok b => b | _ => false end.

Lemma execute_boolean_witness :
  let m := multiOf (nameIs [98; 111; 98]%Z) (nameIs [97]%Z) AND in
  execute noRegex m sampleRecord {["name" := TEXT]} = Ok (evalExpr checked (root m)) /\
  execute noRegex (multiNegate m) sampleRecord {["name" := TEXT]} = Ok (negb (evalExpr checked (root m))).
Proof.
  set (m := multiOf (nameIs [98; 111; 98]%Z) (nameIs [97]%Z) AND).
  destruct (execute_boolean noRegex m sampleRecord {["name" := TEXT]} checked) as (H1 & H2 & _); [constructor| |done].
  intros c Hc. cbn [conditions m multiOf] in Hc. set_unfold in Hc.
  destruct Hc as [->| [->|[]]]; by vm_compute.
Defined.

Definition samplePersons : ClassInfo := mkClassInfo 1 "person" sampleInfo.
Definition storedPersons (id : ClassId) : list (PositionId * list byte) :=
  [(EM_MAXRECNUM, le_bytes 4 2); (1, [5; 0; 6; 98; 111; 98]); (2, [5; 0; 2; 97])]%Z.

Lemma compareCondition_exact_witness :
  exists res, compareCondition noRegex storedPersons [samplePersons] (nameIs [97]%Z) = Ok res /\
    (forall x, x ∈ res <-> accepted storedPersons [samplePersons] (checkCondition noRegex (nameIs [97]%Z) TEXT) x) /\
    length res = 1.
Proof.
  destruct (compareCondition_exact noRegex storedPersons [samplePersons] (nameIs [97]%Z)) as (_ & _ & H).
  { apply Forall_singleton. intros d Hd. by vm_compute in Hd; simplify_eq. }
  destruct (H TEXT samplePersons) as (res & Hres & Hx).
  - by left.
  - reflexivity.
  - done.
  - intros info Hi. apply list_elem_of_singleton in Hi as ->. by right.
  - intros info kv Hi. apply list_elem_of_singleton in Hi as ->. intros Hkv Hne.
    unfold storedPersons in Hkv. rewrite !elem_of_cons, elem_of_nil in Hkv.
    destruct Hkv as [->|[->|[->|[]]]]; [done|eexists _, _; split; vm_compute; reflexivity..].
  - exists res. split_and!; [done|done|]. vm_compute in Hres. by injection Hres as <-.
Defined.

(** ** Cursors *)
Definition twoResults : Cursor := newCursor [rdescOf (1, 1)%Z; rdescOf (2, 1)%Z].

Lemma twoResults_readable : readable sampleSchema schemaWriter noRecords twoResults.
Proof.
  apply readable_new. intros d Hd. set_unfold in Hd. destruct Hd as [->| [->|[]]]; eexists; by vm_compute.
Qed.

Lemma cursor_moves_witness :
  exists c1 d r, next sampleSchema schemaWriter noRecords twoResults = Ok (true, c1) /\ currentIndex c1 = 0%Z /\
    result c1 = Some (d, r).
Proof.
  destruct (cursor_moves sampleSchema schemaWriter noRecords twoResults 1) as (H & _);
    [by vm_compute|exact twoResults_readable|done|].
  change (hasNext twoResults) with true in H. cbn iota in H.
  destruct H as (c1 & Hn & d & c2 & r & _ & [= <-] & _ & Hi & Hr & _). by exists c1, d, r.
Defined.

Lemma cursor_visits_all_witness :
  visitAll sampleSchema schemaWriter noRecords 3 twoResults = Ok [rdescOf (1, 1)%Z; rdescOf (2, 1)%Z].
Proof.
  apply (cursor_visits_all sampleSchema schemaWriter noRecords [rdescOf (1, 1)%Z; rdescOf (2, 1)%Z] 3);
    [exact twoResults_readable|simpl; lia].
Defined.

(** ** Collections *)
Definition twoTexts : list Text := [mkText [97; 98]%Z; mkText [98]%Z].
Definition textTable : list (Text * Raw) := [(mkText [97]%Z, mkRaw [0; 1]%Z); (mkText [97; 98]%Z, mkRaw [])].

Lemma set_map_roundtrip_witness :
  (exists b, toBytes (mkSetOf (mkVec twoTexts)) false = Some b /\ convertAll b = Ok (mkSetOf (mkVec twoTexts))) /\
  (exists b, toBytes (mkMapOf (mkVec textTable)) false = Some b /\ convertAll b = Ok (mkMapOf (mkVec textTable))).
Proof.
  destruct (set_map_roundtrip (okK := text_ok) (okV := raw_ok) twoTexts textTable) as (H1 & H2 & _).
  - repeat constructor; done.
  - repeat constructor.
  - by vm_compute.
  - by vm_compute.
  - repeat constructor; done.
  - repeat constructor.
  - by vm_compute.
  - by vm_compute.
  - exact (conj H1 H2).
Defined.

Definition numbers : list (Pod (UInt 1) (UInt 4)) := [mkPod (mkUInt 1) (mkUInt 70000); mkPod (mkUInt 2) (mkUInt 3)].
#[local] Instance Less_byte : Less (UInt 1) := fun a b => (uint_val a <? uint_val b)%Z.
#[local] Instance zeroPadding : Padding := 0%Z.
#[local] Instance StrictTotal_byte : StrictTotal (less (K := UInt 1)).
Proof.
  unfold less, Less_byte. split; [intros [a]; simpl; lia|intros [a] [b] [c]; simpl; lia|].
  intros [a] [b]; simpl. intros. f_equal. lia.
Qed.

Lemma plain_set_map_roundtrip_witness :
  length (bytesOf (mkMapOf numbers) false) = 16 /\
  convertAll (bytesOf (mkMapOf numbers) false) = Ok (mkMapOf numbers).
Proof.
  split; [reflexivity|].
  apply (plain_set_map_roundtrip (okK := uint_ok) (okV := uint_ok) ([mkUInt 1; mkUInt 2] : list (UInt 1)) numbers);
    [unfold alignof, Aligned_uint; lia..|by repeat constructor|repeat constructor|by vm_compute
    |by repeat constructor|repeat constructor|by vm_compute].
Defined.

Lemma plain_array_misread_witness :
  pointerPlain_convert (T := UInt 4) (mkReader (arrayPlain_toBytes false [mkUInt (n := 4) 7] true ++ [1; 2; 3]%Z) 9) true =
    Ok ([0; 0; 1; 2; 3]%Z, mkReader [3%Z] 5).
Proof.
  rewrite (plain_array_misread (ok := uint_ok) ([mkUInt 7] : list (UInt 4)) [1; 2; 3]%Z 9); [reflexivity|by repeat constructor|done|done].
Defined.
