(* ===== verification/CommandWitnesses.v ===== *)
(** * The theorems on commands and on opening, at concrete inputs

    Each lemma whose name ends in [_witness] applies one theorem of the
    library at a state of [CommandSamples] or [RecoverySamples] where its
    hypotheses hold. *)

From stdpp Require Import base gmap sets list strings sorting.
From Stdlib Require Import ZArith Lia.
From S2P Require Import Prelude Types Store Blob VersionControl TxnObject TxnData RecordModel Parser Graph GraphSpec.
From S2P Require Import GraphQuery GraphSteps Schema Validate BaseTxn Lifecycle Cycle Generic Commands CommandSpec.
From S2P Require Import EdgeSpec RecordSpec ClassCommands Recovery SchemaRecovery ClassSpec RecoverySpec.
From S2P Require Import Samples CommandSamples RecoverySamples.

(** The sample states are large; they are evaluated by [vm_compute] only. *)
#[local] Opaque opened openedTxn openedDb storedSample twoPersons acquainted.

(** ** Opening *)
Lemma edge_classes_sample : edge_classes sampleC sampleRelations.
Proof.
  intros k sd Hk. apply (map_all sampleRelations (fun k sd => is_Some (sampleC !! k.1) /\ is_Some (sampleC !! sd.1.1) /\
    is_Some (sampleC !! sd.2.1))); [by vm_compute|done].
Qed.

Lemma opened_is : initDatabase now (Ok tt) storedSample newContext = Ok opened.
Proof. vm_compute. reflexivity. Qed.

Lemma Ok_same {A} (a b : A) : Ok a = Ok b -> a = b.
Proof. by intros [= ->]. Qed.

Lemma opened_quiescent : quiescent opened.1 sampleRelations.
Proof.
  destruct (opening_spec now storedSample sampleC sampleP sampleRelations storedSample_catalog sample_catalog_ok
    storedSample_edges sample_edges_ok edge_classes_sample (loopless_reopenable _ sample_no_loops)) as (c & d' & Hi & Hq & _).
  rewrite opened_is in Hi. apply Ok_same in Hi. by rewrite Hi.
Qed.

Lemma initDatabase_recovers_witness :
  exists c d', initDatabase now (Ok tt) storedSample newContext = Ok (c, d') /\ quiescent c sampleRelations /\
    (forall t, fresh_writer t -> ucSchema t = ∅ ->
       finds_catalog sampleC sampleP (entries storedSample TB_INDEXES) (dbSchema c) t) /\
    counters_past sampleC sampleP storedSample (dbInfo c) /\ stored_catalog sampleC sampleP d' /\
    stored_edges d' sampleRelations.
Proof.
  apply (initDatabase_recovers now storedSample sampleC sampleP sampleRelations storedSample_catalog sample_catalog_ok
    storedSample_edges sample_edges_ok edge_classes_sample (loopless_reopenable _ sample_no_loops)).
Defined.

(** ** A transaction on the opened database: one more edge, the other way *)
Definition cycleBegin : BaseTxn * Context :=
  match beginTxn opened.1 true true with
  | Ok p => p
  | _ => (mkBaseTxn READ_WRITE 0 0 newDbInfo ∅ ∅ ∅ false false false, opened.1)
  end.
Definition cycleEnd : Graph * BaseTxn := addEdge (dbRelation cycleBegin.2, cycleBegin.1) (10, 2)%Z (6, 1)%Z (5, 1)%Z.
Definition cycleRelations : gmap RecordId (RecordId * RecordId) := <[(10, 2)%Z := ((6, 1)%Z, (5, 1)%Z)]> sampleRelations.

Lemma cycle_begins : beginTxn opened.1 true true = Ok (cycleBegin.1, cycleBegin.2) /\
  maxVersionId (dbTxnStat opened.1) = 1%Z /\ dbRelation cycleBegin.2 = dbRelation opened.1.
Proof. vm_compute. done. Qed.

Lemma transaction_cycle_witness :
  exists c' t', commit (Ok tt) (setRelation (fun _ => cycleEnd.1) cycleBegin.2) cycleEnd.2 = Ok (true, c', t') /\
    maxVersionId (dbTxnStat c') = (maxVersionId (dbTxnStat opened.1) + 1)%Z /\ quiescent c' cycleRelations /\
    forall inMem r c'' k, beginTxn c' false inMem = Ok (r, c'') ->
      getVertexSrcDst (dbRelation c'') r k =
        match cycleRelations !! k with Some sd => Ok sd | None => Throw NOGDB_GRAPH_NOEXST_EDGE end.
Proof.
  destruct cycle_begins as (Hb & Hv & Hg).
  destruct (transaction_cycle opened.1 sampleRelations true cycleBegin.1 cycleBegin.2 cycleEnd.1 cycleEnd.2
    cycleRelations (Ok tt) opened_quiescent) as [Hr Hc]; [by rewrite Hv|exact Hb|].
  apply Hc; [| |done].
  - assert (createEdge (dbRelation cycleBegin.2) cycleBegin.1 (10, 2)%Z (6, 1)%Z (5, 1)%Z = Ok cycleEnd) as He
      by (vm_compute; reflexivity).
    apply createEdge_steps in He. destruct cycleEnd. exact He.
  - unfold cycleRelations, cycleEnd. apply addEdge_repr; [exact Hr|by vm_compute..|done].
Defined.

(** ** Creating a class in the opened database *)
Lemma may_create_city : may_create "city" VERTEX openedDb.
Proof. split_and!; vm_compute; reflexivity. Qed.

Lemma city_is_new : isNotDuplicatedClass (db_schema openedDb) (db_txn openedDb) "city" = Ok tt.
Proof. vm_compute. reflexivity. Qed.

Lemma classCreate_outcomes_witness :
  exists s', classCreate "city" VERTEX openedDb = (s', Ok (mkPClassDescriptor 11 "city" VERTEX ∅ EmptyString [])) /\
    stored_catalog (<[11%Z := mkCatalogClass VERTEX 0 "city"]> sampleC) sampleP (db_store s') /\
    class_table (db_store s') 11 1.
Proof.
  destruct opened_stored as (H1 & _ & H2). destruct opened_keys as (_ & _ & Hmax & _).
  pose proof (classCreate_outcomes openedDb sampleC sampleP "city" VERTEX may_create_city opened_unused H1
    sample_catalog_ok H2) as [_ Hc].
  rewrite city_is_new, Hmax in Hc. destruct Hc as (s' & l & Hs & H3 & _ & _ & _ & H4 & _); [done|].
  unfold nextClass in *. rewrite Hmax in *. exists s'. exact (conj Hs (conj H3 H4)).
Defined.

Lemma created_class_reopens_witness :
  exists s' pc c d', classCreate "city" VERTEX openedDb = (s', Ok pc) /\
    initDatabase now (Ok tt) (db_store s') newContext = Ok (c, d') /\ quiescent c sampleRelations /\
    (pcd_id pc <= maxClassId (dbInfo c))%Z /\
    forall t, fresh_writer t -> ucSchema t = ∅ ->
      exists l dsc, findClass (dbSchema c) t (pcd_id pc) = Some (l, dsc) /\ cd_type dsc = VERTEX /\
        getLatestVersion (cd_name dsc) = ("city", true).
Proof.
  destruct opened_stored as (H1 & H2 & H3). destruct opened_keys as (_ & _ & Hmax & _).
  apply (created_class_reopens now openedDb sampleC sampleP sampleRelations "city" VERTEX may_create_city opened_unused);
    [unfold nextClass; by rewrite Hmax|exact city_is_new|exact H1|exact sample_catalog_ok|exact H3|exact H2
    |exact sample_edges_ok|exact edge_classes_sample|exact (loopless_reopenable _ sample_no_loops)].
Defined.

(** ** Commands on records and edges *)
Lemma quiescent_new : quiescent newContext ∅.
Proof. by apply quiescent_empty. Qed.

Lemma sample_schema_ids : schema_ids sampleSchema.
Proof.
  intros l c. apply (map_all (sheap sampleSchema) (fun _ c => (0 <= cd_id c <= UINT16_MAX)%Z)). by vm_compute.
Qed.

Definition friends : gmap RecordId (RecordId * RecordId) := <[(10, 1)%Z := ((1, 1)%Z, (1, 2)%Z)]> ∅.
Definition threePersons : Db MapStore := (run (vertexCreate 0 "person" (named "cat")) acquainted).1.

#[local] Opaque threePersons.

Lemma repr_start : repr emptyGraph schemaWriter ∅.
Proof. apply (qs_writer _ _ quiescent_new schemaWriter); [by split|simpl; lia]. Qed.

Lemma friends_repr :
  repr (addEdge (emptyGraph, schemaWriter) (10, 1)%Z (1, 1)%Z (1, 2)%Z).1
    (addEdge (emptyGraph, schemaWriter) (10, 1)%Z (1, 1)%Z (1, 2)%Z).2 friends.
Proof. apply addEdge_repr; [apply repr_start|by vm_compute..|done]. Qed.

Lemma stored_none (d : MapStore) :
  entries d TB_RELATIONS = [(KStr STRING_EM_INIT, [49%Z])] -> stored_edges d ∅.
Proof.
  intros He. split; unfold table; rewrite He; [repeat constructor|].
  intros x. apply (relations_stored [49%Z] []), NoDup_nil_2.
Qed.
Lemma stored_friends (d : MapStore) :
  entries d TB_RELATIONS = [(KStr STRING_EM_INIT, [49%Z]); (KStr (rid2str (10, 1)%Z), relationBytes ((1, 1)%Z, (1, 2)%Z))] ->
  stored_edges d friends.
Proof.
  intros He. split; unfold table; rewrite He; [repeat constructor|].
  intros x. apply (relations_stored [49%Z] [((10, 1)%Z, ((1, 1)%Z, (1, 2)%Z))]), NoDup_singleton.
Qed.

Lemma twoPersons_synced : synced twoPersons ∅.
Proof.
  split; [|done|apply stored_none; by vm_compute].
  assert (db_relation twoPersons = emptyGraph) as -> by (vm_compute; reflexivity).
  assert (db_txn twoPersons = schemaWriter) as -> by (vm_compute; reflexivity).
  apply repr_start.
Qed.

Lemma friends_ok : edges_ok friends.
Proof. intros k sd. apply (map_all friends (fun k sd => rid_ok k /\ rid_ok sd.1 /\ rid_ok sd.2)). by vm_compute. Qed.

Lemma friends_synced s :
  (db_relation s, db_txn s) = addEdge (emptyGraph, schemaWriter) (10, 1)%Z (1, 1)%Z (1, 2)%Z ->
  entries (db_store s) TB_RELATIONS = entries (db_store acquainted) TB_RELATIONS -> synced s friends.
Proof.
  intros Hs He. split; [|apply friends_ok|apply stored_friends; rewrite He; by vm_compute].
  pose proof friends_repr as H. by rewrite <- Hs in H.
Qed.

(** The number of the next record of a class of the samples. *)
Fixpoint sortedKeys (l : list Entry) : bool :=
  match l with
  | [] => true
  | x :: l' => forallb (fun y : Entry => key_ltb x.1 y.1) l' && sortedKeys l'
  end.
Lemma sortedKeys_ordered l : sortedKeys l = true -> ordered key_ltb fst l.
Proof.
  induction l as [|x l IH]; [constructor|]. simpl. intros [H1 H2]%andb_true_iff. constructor; [by apply IH|].
  apply Forall_forall. intros y Hy. rewrite forallb_forall in H1. by apply H1, list_elem_of_In.
Qed.

Definition class_tableb (d : MapStore) (c : ClassId) (m : Z) : bool :=
  sortedKeys (entries d (to_string c)) && bool_decide (dbGet d (to_string c) (KNum EM_MAXRECNUM) = Some (le_bytes 4 m)) &&
  forallb (fun x : Entry => match x.1 with KNum p => (0 <=? p)%Z && (p <? m)%Z | KStr _ => false end) (entries d (to_string c)) &&
  (1 <=? m)%Z && (m <=? UINT32_MAX)%Z.
Lemma class_tableb_table d c m : class_tableb d c m = true -> class_table d c m.
Proof.
  unfold class_tableb. rewrite !andb_true_iff, bool_decide_eq_true. intros ((((Ht & Hn) & Hk) & H1) & H2).
  split; [by apply sortedKeys_ordered|done| |lia].
  intros x Hx. rewrite forallb_forall in Hk. apply list_elem_of_In, Hk in Hx. destruct x as [[p|k] v]; [|done].
  exists p. simpl in *. split; [done|]. lia.
Qed.

Lemma ann_bob_ok : rid_ok (rd_rid ann) /\ rid_ok (rd_rid bob) /\ rd_rid ann <> rd_rid bob.
Proof. done. Qed.

Lemma edgeCreate_synced_witness :
  (edgeCreate 0 "knows" ann bob emptyRecord twoPersons).2 = Ok (knows1, stampNew 1 emptyRecord) /\
  synced acquainted friends.
Proof.
  split; [exact connected|].
  assert (db_schema twoPersons = sampleSchema) as Hs by (vm_compute; reflexivity).
  assert (schema_ids (db_schema twoPersons)) as Hids by (rewrite Hs; exact sample_schema_ids).
  assert (getClassDescriptorByName (db_schema twoPersons) (db_txn twoPersons) "knows" EDGE = Ok (2, classKnows)) as H1
    by (vm_compute; reflexivity).
  assert (sheap (db_schema twoPersons) !! 2 = Some classKnows) as H2 by (rewrite Hs; reflexivity).
  assert (class_table (db_store twoPersons) 10 1) as H3 by (apply class_tableb_table; vm_compute; reflexivity).
  assert (allE (db_relation twoPersons) (db_txn twoPersons) !! (10, 1)%Z = None) as H4 by (vm_compute; reflexivity).
  assert (allV (db_relation twoPersons) (db_txn twoPersons) !! (1, 1)%Z = None) as H5 by (vm_compute; reflexivity).
  assert (allV (db_relation twoPersons) (db_txn twoPersons) !! (1, 2)%Z = None) as H6 by (vm_compute; reflexivity).
  destruct ann_bob_ok as (H7 & H8 & H9).
  pose proof (edgeCreate_synced 0 twoPersons ∅ twoPersons_synced Hids "knows" ann bob emptyRecord 2 classKnows 1
    H1 H2 H3 H7 H8 H4 (or_intror H5) (or_intror H6)) as H.
  pose proof connected as Hc. unfold run in Hc.
  assert ((edgeCreate 0 "knows" ann bob emptyRecord twoPersons).1 = acquainted) as Ha by (vm_compute; reflexivity).
  destruct (edgeCreate 0 "knows" ann bob emptyRecord twoPersons) as [s' [[d r]|e|]]; [|discriminate Hc..].
  cbn [fst snd] in *. subst s'. destruct H as (_ & _ & (_ & H & _) & _). exact (H (or_introl H9)).
Defined.

Lemma acquainted_synced : synced acquainted friends.
Proof. apply friends_synced; vm_compute; reflexivity. Qed.
Lemma acquainted_ids : schema_ids (db_schema acquainted).
Proof. assert (db_schema acquainted = sampleSchema) as -> by (vm_compute; reflexivity). apply sample_schema_ids. Qed.

Lemma knows1_ok : rid_ok (rd_rid knows1).
Proof. done. Qed.

Lemma edgeDestroy_synced_witness :
  (edgeDestroy 0 knows1 acquainted).2 = Ok tt /\ synced (edgeDestroy 0 knows1 acquainted).1 (delete (10, 1)%Z friends).
Proof.
  pose proof (edgeDestroy_synced 0 acquainted friends knows1 acquainted_synced acquainted_ids knows1_ok) as H.
  assert ((edgeDestroy 0 knows1 acquainted).2 = Ok tt) as Hd by (vm_compute; reflexivity). split; [exact Hd|].
  destruct (edgeDestroy 0 knows1 acquainted) as [s' [u|e|]]; [exact H|discriminate Hd..].
Defined.

Lemma three_synced : synced threePersons friends.
Proof. apply friends_synced; vm_compute; reflexivity. Qed.
Lemma three_ids : schema_ids (db_schema threePersons).
Proof. assert (db_schema threePersons = sampleSchema) as -> by (vm_compute; reflexivity). apply sample_schema_ids. Qed.
Definition cat : RecordDescriptor := rdescOf (1, 3)%Z.
Lemma cat_ok : rid_ok (rd_rid cat).
Proof. done. Qed.


Lemma vertexDestroy_synced_witness :
  (vertexDestroy 0 ann acquainted).2 = Ok tt /\
  synced (vertexDestroy 0 ann acquainted).1 (without (1, 1)%Z friends) /\
  forall l, ~ vvis (db_relation (vertexDestroy 0 ann acquainted).1) (db_txn (vertexDestroy 0 ann acquainted).1) (1, 1)%Z l.
Proof.
  pose proof (vertexDestroy_synced 0 acquainted friends ann acquainted_synced acquainted_ids) as H.
  assert ((vertexDestroy 0 ann acquainted).2 = Ok tt) as Hd by (vm_compute; reflexivity). split; [exact Hd|].
  destruct (vertexDestroy 0 ann acquainted) as [s' [u|e|]]; [exact H|discriminate Hd..].
Defined.

(** ** Records *)
Definition personInfo : ClassPropertyInfo :=
  match getClassMapProperty sampleSchema schemaWriter classPerson with Ok i => i | _ => basicPropertyInfo end.

Definition describesb (info : ClassPropertyInfo) (m : PropertyToBytesMap) : bool :=
  forallb (fun p : string * list byte =>
    match nameToDesc info !! p.1 with
    | Some d => (0 <=? pd_id d)%Z && (pd_id d <? 2 ^ 16)%Z && bool_decide (idToName info !! pd_id d = Some p.1) &&
        (Z.of_nat (length p.2) <? 2 ^ 31)%Z
    | None => false
    end) (map_to_list m).
Lemma describesb_describes info m : describesb info m = true -> describes info m.
Proof.
  unfold describesb. rewrite forallb_forall. intros Hall k v Hk%elem_of_map_to_list%list_elem_of_In.
  specialize (Hall (k, v) Hk). cbn [fst snd] in Hall. destruct (nameToDesc info !! k) as [d|]; [|done].
  rewrite !andb_true_iff, bool_decide_eq_true in Hall. destruct Hall as [[[H1 H2] H3] H4].
  exists d. unfold desc_ok, value_ok. split_and!; [done|lia|lia|done|lia].
Qed.

Definition wf_recordb (r : DbRecord) : bool :=
  bool_decide (map_Forall (fun k _ => k <> EmptyString /\ isBasicName k = false) (properties r)) &&
  bool_decide (map_Forall (fun k _ => isBasicName k = true) (basicProperties r)).
Lemma wf_recordb_wf r : wf_recordb r = true -> wf_record r.
Proof. unfold wf_recordb. rewrite andb_true_iff, !bool_decide_eq_true. done. Qed.

Lemma person_no_index : no_index 1 personInfo.
Proof.
  assert (bool_decide (map_Forall (fun _ d => findIndex 1 d = None) (nameToDesc personInfo)) = true) as H
    by (vm_compute; reflexivity).
  rewrite bool_decide_eq_true in H. exact H.
Qed.

Lemma vertexCreate_get_witness :
  exists d rec, vertexCreate 0 "person" (named "ann") db0 = (setStore d db0, Ok (ann, stampNew 1 (named "ann"))) /\
    getRecord ann (setStore d db0) = (setStore d db0, Ok rec) /\ properties rec = properties (named "ann") /\
    basicProperties rec !! VERSION_PROPERTY = Some (le_bytes 8 1) /\ class_table d 1 2.
Proof.
  destruct (vertexCreate_get 0 db0 0 classPerson personInfo) with (className := "person") (record := named "ann") (m := 1%Z)
    as (d & rec & H1 & H2 & H3 & H4 & _ & _ & _ & H8).
  - vm_compute. reflexivity.
  - vm_compute. reflexivity.
  - vm_compute. reflexivity.
  - exact person_no_index.
  - done.
  - vm_compute. reflexivity.
  - apply wf_recordb_wf. vm_compute. reflexivity.
  - apply describesb_describes. vm_compute. reflexivity.
  - apply describesb_describes. vm_compute. reflexivity.
  - apply class_tableb_table. vm_compute. reflexivity.
  - done.
  - exists d, rec. exact (conj H1 (conj H2 (conj H3 (conj H4 (H8 ltac:(done)))))).
Defined.

(** The record of "ann" again, with another name and the next version. *)
Definition renamed : DbRecord := stampNew 1 (named "eve").

Lemma person_id : (0 <= cd_id classPerson)%Z.
Proof. done. Qed.

Lemma updateRecord_get_witness :
  exists d' rec, updateRecord 0 VERTEX NOGDB_GRAPH_NOEXST_VERTEX ann renamed twoPersons = (setStore d' twoPersons, Ok tt) /\
    getRecord ann (setStore d' twoPersons) = (setStore d' twoPersons, Ok rec) /\ properties rec = properties renamed.
Proof.
  assert (isTransactionValid (db_txn twoPersons) = Ok tt) as A1 by (vm_compute; reflexivity).
  assert (getClassDescriptor (db_schema twoPersons) (db_txn twoPersons) 1 CT_UNDEFINED = Ok (0, classPerson)) as A2
    by (vm_compute; reflexivity).
  assert (getClassMapProperty (db_schema twoPersons) (db_txn twoPersons) classPerson = Ok personInfo) as A3
    by (vm_compute; reflexivity).
  assert (getClassDescriptor (db_schema twoPersons) (db_txn twoPersons) 1 VERTEX = Ok (0, classPerson)) as A4
    by (vm_compute; reflexivity).
  assert (class_table (db_store twoPersons) 1 3) as A5 by (apply class_tableb_table; vm_compute; reflexivity).
  assert (updateVersion (txnVersionId (db_txn twoPersons)) renamed = Ok renamed) as A6 by (vm_compute; reflexivity).
  assert (wf_record renamed) as A7 by (apply wf_recordb_wf; vm_compute; reflexivity).
  assert (describes personInfo (properties renamed)) as A8 by (apply describesb_describes; vm_compute; reflexivity).
  assert (describes personInfo (basicProperties renamed)) as A9 by (apply describesb_describes; vm_compute; reflexivity).
  assert (basicProperties renamed !! VERSION_PROPERTY = Some (le_bytes 8 1)) as A10 by (vm_compute; reflexivity).
  destruct (updateRecord_get 0 twoPersons 0 classPerson personInfo A1 A2 A3 person_no_index person_id VERTEX
    NOGDB_GRAPH_NOEXST_VERTEX ann renamed renamed (le_bytes 8 1) A4 eq_refl (proj1 ann_bob_ok) (ct_table _ _ _ A5)
    A6 A7 A8 A9 A10 eq_refl) as [_ H].
  assert (dataEmpty (getData (db_store twoPersons) (rd_rid ann)) = false) as A11 by (vm_compute; reflexivity).
  assert (exists old, parseRawData (getData (db_store twoPersons) (rd_rid ann)) personInfo = Ok old) as [old A12]
    by (eexists; vm_compute; reflexivity).
  destruct (H old A11 A12) as (d' & rec & H1 & H2 & H3 & _). exists d', rec. exact (conj H1 (conj H2 H3)).
Defined.
