(* ===== verification/IndexWitnesses.v ===== *)
(** * The theorems on indexes, at concrete inputs

    An index with three entries, built by [addIndex], and the theorems of
    [IndexSpec] applied to it. *)

From stdpp Require Import base gmap sets list strings sorting.
From Stdlib Require Import ZArith Lia.
From S2P Require Import Prelude.
From S2P Require Import Types.
From S2P Require Import Store.
From S2P Require Import Blob.
From S2P Require Import Parser.
From S2P Require Import TxnData.
From S2P Require Import Schema.
From S2P Require Import Generic.
From S2P Require Import Compare.
From S2P Require Import Index.
From S2P Require Import IndexSpec.
(** An index on a property of type INTEGER with three values, two of them
    equal. *)
Definition sampleIndexed (unique : bool) : Outcome MapStore :=
  ofold (fun d (x : PositionId * Z) => addIndex 3%Z x.1 (le_bytes 4 x.2) INTEGER unique d)
    [(1, -5); (2, 7); (3, if unique then 9 else 7)]%Z (∅ : MapStore).
Definition sampleValues (unique : bool) : gmap PositionId Z :=
  <[3%Z := if unique then 9%Z else 7%Z]> (<[2%Z := 7%Z]> (<[1%Z := (-5)%Z]> ∅)).

Lemma sampleIndexed_ok unique : exists d, sampleIndexed unique = Ok d /\ indexed d 3%Z (4, true) unique (sampleValues unique).
Proof.
  assert (forall d I p z l d', indexed d 3%Z (4, true) unique I -> I !! p = None -> (0 <= p <= UINT32_MAX)%Z ->
    inRange (4, true) z -> (unique = true -> forall q, I !! q <> Some z) ->
    (forall d1, indexed d1 3%Z (4, true) unique (<[p := z]> I) ->
       exists d2, ofold (fun d (x : PositionId * Z) => addIndex 3%Z x.1 (le_bytes 4 x.2) INTEGER unique d) l d1 = Ok d2 /\ d' d2) ->
    exists d2 : MapStore, ofold (fun d (x : PositionId * Z) => addIndex 3%Z x.1 (le_bytes 4 x.2) INTEGER unique d) ((p, z) :: l) d = Ok d2 /\ d' d2) as Hstep.
  { intros d I p z l d' Hix Hp Hpr Hz Hu Hnext. cbn [ofold fst snd].
    pose proof (addIndex_outcomes d 3%Z INTEGER (4, true) unique I p z eq_refl Hix Hp Hpr Hz) as H. cbn [fst] in H.
    destruct (addIndex 3%Z p (le_bytes 4 z) INTEGER unique d) as [d1|e|]; [|..|done].
    - destruct H as [H _]. cbn [obind]. by apply Hnext.
    - destruct H as (_ & Hu' & q & Hq). by destruct (Hu Hu' q). }
  unfold sampleIndexed, sampleValues.
  eapply (Hstep _ ∅); [by apply indexed_empty|done|done|by cbn|by intros|intros d1 H1].
  eapply (Hstep _ _); [exact H1|done|done|by cbn| |intros d2 H2].
  { intros _ q [[_ ?]|[_ ?]]%lookup_insert_Some; [lia|done]. }
  eapply (Hstep _ _); [exact H2|done|done|by destruct unique| |intros d3 H3].
  { intros -> q [[_ ?]|[_ [[_ ?]|[_ ?]]%lookup_insert_Some]]%lookup_insert_Some; [lia|lia|done]. }
  by exists d3.
Qed.

(** [age <= 7], answered from the index. *)
Definition atMost7 : Condition := mkCondition "age" (le_bytes 4 7) [] LESS_EQUAL false false.

Lemma index_equals_scan_witness :
  exists d, sampleIndexed false = Ok d /\
  exists l, getIndexRecord d 1%Z (3%Z, false, INTEGER) atMost7 false = Ok l /\ StronglySorted Index.rid_le l /\
    (forall r, r ∈ l <-> exists p z b, sampleValues false !! p = Some z /\ r = rdescOf (1%Z, p) /\
        compareBytesValue (fun _ _ => Ok false) (le_bytes 4 z) INTEGER atMost7 = Ok b /\ xorb b false = true) /\
    ((isBetween LESS_EQUAL = true -> (7 < 7)%Z) -> NoDup l).
Proof.
  destruct (sampleIndexed_ok false) as (d & Hd & Hix). exists d. split; [exact Hd|].
  apply (index_equals_scan (fun _ _ => Ok false) d 1%Z 3%Z false INTEGER (4, true) (sampleValues false) atMost7 false 7 7 eq_refl Hix).
  - unfold validComparators. cbn. set_solver.
  - split; [split; [vm_compute; discriminate|vm_compute; reflexivity]|].
    split; [split; [vm_compute; discriminate|vm_compute; reflexivity]|reflexivity].
Defined.

Lemma addIndex_maintains_witness :
  exists d, sampleIndexed true = Ok d /\
  match addIndex 3%Z 4%Z (le_bytes 4 9) INTEGER true d with
  | Ok d' => indexed d' 3%Z (4, true) true (<[4%Z := 9%Z]> (sampleValues true)) /\
      (true = true -> forall q, sampleValues true !! q <> Some 9%Z) /\
      (forall n, n <> indexDb 3%Z true 9 -> entries d' n = entries d n)
  | Throw e => e = NOGDB_CTX_UNIQUE_CONSTRAINT /\ true = true /\ exists q, sampleValues true !! q = Some 9%Z
  | UB => False
  end.
Proof.
  destruct (sampleIndexed_ok true) as (d & Hd & Hix). exists d. split; [exact Hd|].
  apply (addIndex_maintains d 3%Z INTEGER (4, true) true (sampleValues true) 4%Z 9%Z eq_refl Hix).
  - reflexivity.
  - split; vm_compute; discriminate.
  - split; [vm_compute; discriminate|vm_compute; reflexivity].
Defined.

Lemma deleteIndex_maintains_witness :
  exists d, sampleIndexed false = Ok d /\
  exists d', deleteIndex 3%Z 3%Z (le_bytes 4 7) INTEGER d = Ok d' /\
    indexed d' 3%Z (4, true) false (if decide (sampleValues false !! 3%Z = Some 7%Z) then delete 3%Z (sampleValues false) else sampleValues false) /\
    (forall n, n <> indexDb 3%Z true 7 -> entries d' n = entries d n).
Proof.
  destruct (sampleIndexed_ok false) as (d & Hd & Hix). exists d. split; [exact Hd|].
  apply (deleteIndex_maintains d 3%Z INTEGER (4, true) false (sampleValues false) 3%Z 7%Z eq_refl Hix).
  split; [vm_compute; discriminate|vm_compute; reflexivity].
Defined.
