(* ===== verification/QueryWitnesses.v ===== *)
(** * The theorem on conditional edge queries, at a concrete input

    The sample graph, with a class of edges that has one property of type
    INTEGER and a record for each edge. *)

From stdpp Require Import base gmap sets list strings sorting.
From Stdlib Require Import ZArith Lia.
From S2P Require Import Prelude.
From S2P Require Import Types.
From S2P Require Import VersionControl.
From S2P Require Import TxnObject.
From S2P Require Import TxnData.
From S2P Require Import RecordModel.
From S2P Require Import Parser.
From S2P Require Import Graph.
From S2P Require Import GraphSpec.
From S2P Require Import Schema.
From S2P Require Import Validate.
From S2P Require Import Generic.
From S2P Require Import Compare.
From S2P Require Import Algorithm.
From S2P Require Import GraphSearch.
From S2P Require Import Query.
From S2P Require Import QuerySpec.
From S2P Require Import Samples.

Definition sinceProperty : SPropertyDescriptor := mkSPropertyDescriptor 7 INTEGER [].
Definition classKnowsSince : ClassDescriptor :=
  mkClassDescriptor 10 EDGE initState (vcOf "knows") (vcOf ({["since" := sinceProperty]} : SClassProperty))
    emptyVersionControl emptyVersionControl.
Definition sinceSchema : Schema := mkSchema {[0 := classPerson; 1 := classStudent; 2 := classKnowsSince]} ∅ [] ∅.

(** A record of an edge: the header of the property, and its value. *)
Definition sinceRow (v : Z) : list byte := [7; 0; 8]%Z ++ le_bytes 4 v.
Definition sinceRecords : ClassId -> list (PositionId * list byte) := fun c =>
  if (c =? 10)%Z then [(1, sinceRow 1990); (2, sinceRow 2001); (3, sinceRow 1990)]%Z else [].
Definition since (v : Z) : Condition := withValue EQUAL (le_bytes 4 v) (newCondition "since").
Definition noRegexp : list byte -> list byte -> Outcome bool := fun _ _ => Ok false.

(** The sample graph, in the hands of a writer that also owns the classes. *)
Definition built : Graph * BaseTxn :=
  addEdge (addEdge (addEdge (emptyGraph, schemaWriter) (10, 1)%Z vA vB) (10, 2)%Z vA vC) (10, 3)%Z vB vD.
Definition builtG : Graph := built.1.
Definition builtT : BaseTxn := built.2.

Lemma repr_built : repr builtG builtT sampleE.
Proof.
  unfold builtG, builtT, sampleE, built.
  repeat (apply addEdge_repr; [|vm_compute; reflexivity..|done]). by apply repr_empty.
Qed.

Lemma built_visible_A : exists l, vvis builtG builtT vA l.
Proof.
  eexists. split; [vm_compute; reflexivity|]. eexists. split; vm_compute; reflexivity.
Qed.

Definition sinceInfos : Outcome (list ClassInfo) :=
  edgeClassInfos sinceSchema builtT elements (edgeClassFuncOf builtG builtT (Some SRC)) vA (newClassFilter []).
Definition sinceQuery (v : Z) : Outcome (list Result) :=
  compareEdgeCondition noRegexp sinceSchema builtG builtT sinceRecords elements (rdescOf vA)
    (edgeFuncOf builtG builtT (Some SRC)) (edgeClassFuncOf builtG builtT (Some SRC)) (since v) (newClassFilter []).

Lemma sinceQuery_runs : ofmap (fun res => res.*1) (sinceQuery 2001) = Ok [rdescOf (10, 2)%Z].
Proof. vm_compute. reflexivity. Qed.

Lemma built_touches k : touches (Some SRC) sampleE vA k -> k = (10, 1)%Z \/ k = (10, 2)%Z.
Proof.
  intros (sd & Hk & Hs). unfold sampleE in Hk.
  repeat (apply lookup_insert_Some in Hk as [[<- <-]|[_ Hk]]; [by auto|]); done.
Qed.

Definition readableb (k : RecordId) : bool :=
  match retrieveRecord sinceSchema builtT sinceRecords k with
  | Ok r => match checkCondition noRegexp (since 2001) INTEGER r with Ok _ => true | _ => false end
  | _ => false
  end.
Lemma readableb_readable k :
  readableb k = true -> readable sinceSchema builtT sinceRecords (checkCondition noRegexp (since 2001) INTEGER) k.
Proof.
  unfold readableb, readable. destruct (retrieveRecord _ _ _ k) as [r|e|]; [|done|done].
  destruct (checkCondition _ _ _ r) as [b|e|] eqn:E; [|done|done]. intros _. by exists r, b.
Qed.

Lemma edge_condition_exact_witness :
  exists infos, sinceInfos = Ok infos /\
  exists res, sinceQuery 2001 = Ok res /\ NoDup (res.*1) /\
    forall y r, (y, r) ∈ res <-> exists k, y = rdescOf k /\ touches (Some SRC) sampleE vA k /\ k.1 ∈ (ci_id <$> infos) /\
      retrieveRecord sinceSchema builtT sinceRecords k = Ok r /\ checkCondition noRegexp (since 2001) INTEGER r = Ok true.
Proof.
  destruct built_visible_A as [l Hl].
  destruct sinceInfos as [infos|e|] eqn:Ei; [|by vm_compute in Ei..]. exists infos. split; [done|].
  destruct (edge_condition_exact noRegexp sinceSchema builtG builtT sinceRecords elements sampleE (Some SRC) (rdescOf vA) l
    (since 2001) (newClassFilter []) (0, classPerson) infos repr_built Hl) as (_ & _ & H).
  - by vm_compute.
  - exact Ei.
  - vm_compute in Ei. injection Ei as <-. split; [repeat constructor; set_solver|set_solver].
  - vm_compute in Ei. injection Ei as <-. apply Forall_singleton. intros d Hd. by vm_compute in Hd; simplify_eq.
  - vm_compute in Ei. injection Ei as <-. match goal with |- context [ci_id <$> [?i]] => set (info := i) in * end.
    destruct (H INTEGER info) as (res & Hres & Hn & Hx).
    + by left.
    + by vm_compute.
    + done.
    + intros i ->%list_elem_of_singleton. by right.
    + intros k Hk _. destruct (built_touches k Hk) as [-> | ->]; apply readableb_readable; by vm_compute.
    + exists res. split; [exact Hres|]. split; [exact Hn|exact Hx].
Defined.

(** ** The class name of a record of a subclass

    A student, read by [Vertex::get] of the class "person" and by its id. *)
Definition studentRecords : ClassId -> list (PositionId * list byte) := fun c =>
  if (c =? 2)%Z then [(1%Z, [6; 0; 8]%Z ++ le_bytes 4 20)] else [].
Definition classNameOf (r : DbRecord) : Outcome (list byte) := get CLASS_NAME_PROPERTY r.

Lemma subclass_records_renamed :
  ofmap (fun res => (fun p => classNameOf p.2) <$> res) (vertexGet sampleSchema schemaWriter studentRecords elements "person") =
    Ok [Ok (bytes_of_string "person")] /\
  (let* r := retrieveRecord sampleSchema schemaWriter studentRecords (2, 1)%Z in classNameOf r) =
    Ok (bytes_of_string "student").
Proof. vm_compute. split; reflexivity. Qed.
