(* ===== verification/HandleWitnesses.v ===== *)
(** * The theorems on transaction handles, at a concrete input

    A new context with a writer, a second handle, and a reader. *)

From stdpp Require Import base gmap sets list strings sorting.
From Stdlib Require Import ZArith Lia.
From S2P Require Import Prelude.
From S2P Require Import Types.
From S2P Require Import TxnObject.
From S2P Require Import TxnData.
From S2P Require Import Graph.
From S2P Require Import Schema.
From S2P Require Import BaseTxn.
From S2P Require Import Handle.
From S2P Require Import Samples.

Definition context0 : Context := mkContext sampleSchema emptyGraph initTxnStat emptyDbInfo [].
Definition program0 : Program := mkProgram context0 ∅ ∅ ∅.
Definition writer : Var := inl "writer".
Definition copied : Var := inl "copied".
Definition program1 : Program := (newTxn writer READ_WRITE program0).1.
Definition base1 : BaseTxn := mkBaseTxn READ_WRITE 0 1 emptyDbInfo ∅ ∅ ∅ true false false.
Definition loc1 : Loc := fresh (dom (∅ : gmap Loc BaseTxn)).

Lemma program0_ok : handles_ok program0.
Proof. split; intros l; [done|]. split; [by intros [t Ht]|intros H; by apply Nat.lt_irrefl in H]. Qed.

Lemma program1_ok : handles_ok program1.
Proof. apply (run_isStmt (SNew writer READ_WRITE) program0 program0_ok). Qed.

(** A copy of the handle of the writer is destroyed: one use is left, of a
    transaction that is completed. *)
Definition program2 : Program := (copyTxn copied writer program1).1.
Lemma handles_own_bases_witness :
  countOf loc1 program1 = 1 /\ countOf loc1 program2 = 2 /\
  exists p' t', destroyTxn copied program2 = (p', Ok tt) /\ handles_ok p' /\
    p_bases p' !! loc1 = Some t' /\ isCompleted t' = true.
Proof.
  split; [by vm_compute|]. split; [by vm_compute|].
  assert (handles_ok program2) as H2 by apply (run_isStmt (SCopy copied writer) program1 program1_ok).
  destruct (handles_own_bases program2 H2) as (Hrun & _ & _ & _ & Hd).
  destruct (destroyTxn copied program2) as [p' r] eqn:E.
  assert (r = Ok tt) as -> by (vm_compute in E; by injection E).
  destruct (Hd copied p' (mkHandle READ_WRITE (Some loc1)) loc1 E ltac:(by vm_compute) eq_refl) as [_ Hb].
  exists p'. destruct (p_bases p' !! loc1) as [t'|]; [|by vm_compute in Hb]. exists t'.
  split; [done|]. split; [|split; [done|by destruct Hb]].
  specialize (Hrun (SDestroy copied)). cbn [run] in Hrun. by rewrite E in Hrun.
Defined.

Lemma handle_scope_witness :
  exists p1 p2, txnCommit (Throw NOGDB_TXN_VERSION_MAXREACH) writer program1 = (p1, Throw NOGDB_TXN_VERSION_MAXREACH) /\
    destroyTxn writer p1 = (p2, Ok tt) /\ p_ctx p2 = p_ctx p1.
Proof.
  destruct (handle_scope program1 writer (mkHandle READ_WRITE (Some loc1)) loc1 base1) as (_ & H & _);
    [reflexivity..|].
  destruct (H NOGDB_TXN_VERSION_MAXREACH eq_refl) as (c' & t' & p1 & p2 & _ & Hc & Hc1 & Hd & Hc2).
  exists p1, p2. split; [exact Hc|]. split; [exact Hd|]. by rewrite Hc1, Hc2.
Defined.

Lemma copy_ends_transaction_witness :
  exists c' t' p1 p2, rollback (p_ctx program1) base1 = Ok (true, c', t') /\
    sthen (copyTxn copied writer) (destroyTxn copied) program1 = (p1, Ok tt) /\ p_ctx p1 = c' /\
    txnCommit (Ok tt) writer p1 = (p2, Ok tt) /\ p_ctx p2 = c'.
Proof.
  apply (copy_ends_transaction program1 writer copied (mkHandle READ_WRITE (Some loc1)) loc1 base1 (Ok tt)); [exact program1_ok|reflexivity..].
Defined.
