(* ===== verification/SqlWitnesses.v ===== *)
(** * SQL on a small database

    Statements on the database of [CommandSamples], by evaluation, and the
    theorems on SQL at concrete inputs. *)

From stdpp Require Import base gmap sets list strings sorting.
From Stdlib Require Import ZArith Lia.
From S2P Require Import Prelude.
From S2P Require Import Types.
From S2P Require Import Store.
From S2P Require Import TxnData.
From S2P Require Import RecordModel.
From S2P Require Import Parser.
From S2P Require Import Graph.
From S2P Require Import Schema.
From S2P Require Import Validate.
From S2P Require Import Generic.
From S2P Require Import Compare.
From S2P Require Import Commands.
From S2P Require Import ClassCommands.
From S2P Require Import Cursor.
From S2P Require Import SqlLexer.
From S2P Require Import SqlSpec.
From S2P Require Import Sql.
From S2P Require Import SqlContext.
From S2P Require Import SqlContextSpec.
From S2P Require Import Samples.
From S2P Require Import CommandSamples.

Definition noRegex : list byte -> list byte -> Outcome bool := fun _ _ => Ok false.
Definition exec (st : Statement) (s : Db MapStore) : Db MapStore * Outcome Reply :=
  statement 0 noRegex elements 50 st s.
Definition word (n : string) : Token := mkToken (bytes_of_string n) TK_IDENTITY [0%Z].
Definition rids (l : list RecordId) : Target := T_RIDS (list_to_set l).
Definition selectFrom (projs : list Projection) (from : Target) (w : Where) (group : string) : Statement :=
  S_SELECT (mkSelectArgs projs from w group (-1) (-1)).
Definition column (n : string) (r : Outcome Reply) : Outcome (list (Outcome (list byte))) :=
  match r with Ok (R_RESULT_SET rows) => Ok ((fun x => get n x.2) <$> rows) | Ok (R_ERROR e) => Throw e | _ => UB end.
Definition isAnn : Where := W_CONDITION (withValue EQUAL (bytes_of_string "ann") (newCondition "name")).

(** ** What the statements do there *)

Lemma selects_names :
  column "name" (exec (selectFrom [P_PROPERTY "name"] (T_CLASS "person") NO_COND "") acquainted).2 =
    Ok [Ok (bytes_of_string "ann"); Ok (bytes_of_string "bob")] /\
  column "name" (exec (selectFrom [P_PROPERTY "name"] (T_CLASS "person") isAnn "") acquainted).2 =
    Ok [Ok (bytes_of_string "ann")] /\
  column "name" (exec (selectFrom [P_FUNCTION "expand" [P_FUNCTION "out" []]] (T_CLASS "person") NO_COND "") acquainted).2 =
    Ok [Ok (bytes_of_string "bob")] /\
  column "COUNT" (exec (selectFrom [P_FUNCTION "COUNT" []] (T_CLASS "person") NO_COND "") acquainted).2 =
    Ok [Ok (le_bytes 8 2)].
Proof. vm_compute. repeat split; reflexivity. Qed.

Lemma updates_and_deletes :
  column "name" (exec (selectFrom [P_PROPERTY "name"] (T_CLASS "person") NO_COND "")
                   (exec (S_UPDATE (T_CLASS "person") (named "eve") isAnn) acquainted).1).2 =
    Ok [Ok (bytes_of_string "eve"); Ok (bytes_of_string "bob")] /\
  (exec (selectFrom [] (T_CLASS "knows") NO_COND "")
     (exec (S_DELETE_VERTEX (T_CLASS "person") isAnn) acquainted).1).2 = Ok (R_RESULT_SET []).
Proof. vm_compute. split; reflexivity. Qed.

(** An edge is deleted when both its ends are named, and not when one is. *)
Lemma deletes_between_ends :
  (exec (S_DELETE_EDGE (T_CLASS "knows") (rids [(1, 1)%Z]) (rids [(1, 2)%Z]) NO_COND) acquainted).2 =
    Ok (R_RECORD_DESCRIPTORS [knows1]) /\
  exec (S_DELETE_EDGE (T_CLASS "knows") (rids [(1, 1)%Z]) NO_TARGET NO_COND) acquainted =
    (acquainted, Ok (R_RECORD_DESCRIPTORS [])).
Proof. vm_compute. split; reflexivity. Qed.

(** Rows with different names of one length cannot be grouped. *)
Lemma group_by_names_undefined :
  (exec (selectFrom [P_PROPERTY "name"] (T_CLASS "person") NO_COND "name") acquainted).2 = UB.
Proof. vm_compute. reflexivity. Qed.

(** All the edges of one statement are made from one record: the first is
    stored without the version properties, and the next ones with them. *)
Lemma create_edge_shares_record :
  let s := (exec (S_CREATE_EDGE "knows" (rids [(1, 1)%Z]) (rids [(1, 1)%Z; (1, 2)%Z]) emptyRecord) twoPersons).1 in
  getData (db_store s) (10, 1)%Z = Some [0%Z] /\
  ofmap length (match getData (db_store s) (10, 2)%Z with Some l => Ok l | None => UB end) = Ok 22.
Proof. vm_compute. split; reflexivity. Qed.

(** A depth is a property of the rows of a traversal that has no type: the
    exception of [std::map::at] leaves the statement. *)
Lemma depth_is_not_projected :
  (exec (selectFrom [P_PROPERTY "@depth"]
           (T_NESTED_TRAVERSE (mkTraverseArgs "out" [] ann 0 5 "DEPTH_FIRST")) NO_COND "") acquainted).2 =
    Throw STD_OUT_OF_RANGE.
Proof. vm_compute. reflexivity. Qed.

(** Skipping more rows of a traversal than there are. *)
Lemma traversal_skip_overruns :
  (exec (S_SELECT (mkSelectArgs [] (T_NESTED_TRAVERSE (mkTraverseArgs "out" [] ann 0 5 "DEPTH_FIRST")) NO_COND "" 3 (-1)))
     acquainted).2 = UB.
Proof. vm_compute. reflexivity. Qed.

(** The direction and the strategy are looked up as one word. *)
Lemma split_words_traverse :
  column "name" (exec (S_TRAVERSE (mkTraverseArgs "outD" [] ann 0 5 "EPTH_FIRST")) acquainted).2 =
    Ok [Ok (bytes_of_string "ann"); Ok (bytes_of_string "bob")].
Proof. vm_compute. reflexivity. Qed.

(** Any word from "UNIQUE" on makes the index a unique one. *)
Lemma later_words_are_unique :
  (stringcasecmp (bytes_of_string "VALUE") (bytes_of_string "UNIQUE"),
   stringcasecmp (bytes_of_string "NOTUNIQUE") (bytes_of_string "UNIQUE")) = (false, true).
Proof. reflexivity. Qed.

(** ** The theorems *)
Definition persons : list RecordDescriptor := [ann; bob].
Lemma persons_readable :
  readable (db_schema twoPersons) (db_txn twoPersons) (rowsOf twoPersons) (newCursor persons).
Proof.
  apply readable_new. intros d Hd. unfold persons in Hd. rewrite !elem_of_cons, elem_of_nil in Hd.
  destruct Hd as [->|[->|[]]]; eexists; by vm_compute.
Qed.

Lemma cursor_rows_exact_witness :
  cursorRows (db_schema twoPersons) (db_txn twoPersons) (rowsOf twoPersons) (newCursor persons) 1 5 =
  rowsFor (db_schema twoPersons) (db_txn twoPersons) (rowsOf twoPersons) [bob].
Proof.
  exact (cursor_rows_exact (db_schema twoPersons) (db_txn twoPersons) (rowsOf twoPersons) persons 1 5 persons_readable).
Defined.

Lemma if_exists_clauses_witness :
  dropClass (word "animal") true twoPersons = (twoPersons, Ok NO_RESULT) /\
  createClass (word "person") (mkToken [] TK_VERTEX [0%Z]) false twoPersons =
    (setSchema (db_schema twoPersons, setTxnDbInfo addClassId (db_txn twoPersons)) twoPersons,
     Ok (R_ERROR NOGDB_CTX_DUPLICATE_CLASS)).
Proof.
  split.
  - destruct (if_exists_clauses twoPersons (word "animal") (mkToken [] TK_VERTEX [0%Z]) "animal" true) as [H _];
      [by vm_compute..|]. apply H. by vm_compute.
  - destruct (if_exists_clauses twoPersons (word "person") (mkToken [] TK_VERTEX [0%Z]) "person" false) as [_ H];
      [by vm_compute..|]. apply H; [by vm_compute; eexists|by vm_compute|by vm_compute|by left].
Defined.

(** A parser that keeps the types of the tokens it is given. *)
Definition keepTypes (p : list (option Tok)) (t : option Tok) (_ _ : list byte) : list (option Tok) := p ++ [t].
Lemma execute_reads_witness :
  exists toks complete, lexAll 24 (bytes_of_string "SELECT name FROM person ") = (toks, complete) /\
    concat (tok_z <$> toks) `prefix_of` bytes_of_string "SELECT name FROM person " /\
    execute keepTypes (fun _ => None) (fun p => p) [] (bytes_of_string "SELECT name FROM person ") =
      Ok [Some TK_SELECT; Some TK_IDENTITY; Some TK_FROM; Some TK_IDENTITY; Some TK_SEMI; None].
Proof.
  destruct (execute_reads keepTypes (fun _ => None) (fun p => p) [] (bytes_of_string "SELECT name FROM person "))
    as (toks & complete & Hlex & Hpre & _ & ->); [by vm_compute|].
  exists toks, complete. split; [exact Hlex|]. split; [exact Hpre|].
  vm_compute in Hlex. injection Hlex as <- <-. by vm_compute.
Defined.

Lemma literals_roundtrip_witness :
  getTokenID (terminated (quoted 39%Z (bytes_of_string "it's") ++ [32%Z])) = Ok (Some (7, TK_STRING)) /\
  tokenBytes (fun _ => Ok []) (mkToken (quoted 39%Z (bytes_of_string "it's")) TK_STRING [0%Z]) = Ok (bytes_of_string "it's", TEXT) /\
  tokenBytes (fun _ => Ok []) (mkToken (45%Z :: to_string 9223372036854775808) TK_SIGNED [0%Z]) =
    Ok (le_bytes 8 (- 9223372036854775808), BIGINT) /\
  tokenBytes (fun _ => Ok []) (mkToken (blobLiteral [0; 255]%Z) TK_BLOB [0%Z]) = Ok ([0; 255]%Z, BLOB).
Proof.
  destruct literals_roundtrip as (Hs & _ & Hn & Hb).
  destruct (Hs 39%Z (bytes_of_string "it's") [32%Z]) as [H1 H2]; [by right|by repeat constructor|].
  destruct (Hn 9223372036854775808%Z [32%Z]) as [_ H3]; [done|done|].
  destruct (Hb [0; 255]%Z [32%Z]) as [_ H4]; [by repeat constructor|].
  split_and!; [exact H1|apply H2|apply H3|apply H4].
Defined.

(** A row with a name. *)
Definition grade (n : string) : SqlResult := (ann, [("name", mkSqlBytes (bytes_of_string n) TEXT None)]).
Lemma group_by_exact_witness :
  selectGroupBy [grade "ann"; grade "bobby"] "name" = Ok [grade "ann"; grade "bobby"] /\
  selectGroupBy [grade "ann"; grade "ann"] "name" = UB.
Proof.
  split.
  - destruct (group_by_exact "name" [grade "ann"; grade "bobby"]) as [_ H]. apply H; [done|].
    apply (bool_decide_eq_true_1 _). by vm_compute.
  - destruct (group_by_exact "name" [grade "ann"; grade "ann"]) as [_ H]. apply H; [done|].
    intros Hn. apply (bool_decide_eq_true_2 _) in Hn. by vm_compute in Hn.
Defined.

Lemma delete_edge_targets_witness :
  (exists r, edgesToDelete noRegex elements 50 acquainted "knows" (rids [(1, 1)%Z]) (rids [(1, 2)%Z]) NO_COND = Ok r /\
     exists srcs, selectAll noRegex elements 50 acquainted (rids [(1, 1)%Z]) NO_COND = Ok srcs /\
       among (outEdgesWhere noRegex elements acquainted "knows" NO_COND) srcs (10, 1)%Z) /\
  exists r, deleteEdge 0 noRegex elements 50 (T_CLASS "knows") (rids [(1, 1)%Z]) NO_TARGET NO_COND acquainted = (acquainted, r).
Proof.
  destruct (delete_edge_targets 0 noRegex elements 50 acquainted "knows" (rids [(1, 1)%Z]) (rids [(1, 2)%Z]) NO_COND) as [H _].
  destruct (delete_edge_targets 0 noRegex elements 50 acquainted "knows" (rids [(1, 1)%Z]) NO_TARGET NO_COND) as [_ H'].
  split; [|destruct (H' eq_refl) as (r & Hr & _); by exists r].
  destruct (edgesToDelete noRegex elements 50 acquainted "knows" (rids [(1, 1)%Z]) (rids [(1, 2)%Z]) NO_COND)
    as [x|e|] eqn:Ex; [|exfalso; revert Ex; by vm_compute..].
  destruct (selectAll noRegex elements 50 acquainted (rids [(1, 1)%Z]) NO_COND) as [srcs|e|] eqn:Es;
    [|exfalso; revert Es; by vm_compute..].
  destruct (selectAll noRegex elements 50 acquainted (rids [(1, 2)%Z]) NO_COND) as [dests|e|] eqn:Ed;
    [|exfalso; revert Ed; by vm_compute..].
  exists x. split; [done|]. exists srcs. split; [done|].
  assert (bool_decide ((10, 1)%Z ∈ match edgesToDelete noRegex elements 50 acquainted "knows" (rids [(1, 1)%Z]) (rids [(1, 2)%Z]) NO_COND
    with Ok r => r | _ => ∅ end) = true) as Hin by (vm_compute; reflexivity).
  rewrite Ex in Hin. apply bool_decide_eq_true_1 in Hin.
  destruct (proj1 (H eq_refl eq_refl x srcs dests eq_refl eq_refl eq_refl (10, 1)%Z) Hin) as [Ha _]. exact Ha.
Defined.
