(* ===== verification/GrammarWitnesses.v ===== *)
(** * Texts for the theorems of the grammar

    A command and a WHERE clause, from their text. *)

From stdpp Require Import base gmap sets list strings.
From Stdlib Require Import ZArith Lia.
From S2P Require Import Prelude.
From S2P Require Import Types.
From S2P Require Import RecordModel.
From S2P Require Import Generic.
From S2P Require Import Compare.
From S2P Require Import SqlLexer.
From S2P Require Import SqlSpec.
From S2P Require Import Sql.
From S2P Require Import SqlContext.
From S2P Require Import Grammar.
From S2P Require Import GrammarSpec.
From S2P Require Import GrammarUnique.
From S2P Require Import GrammarCommands.

Definition noFractions (z : list byte) : Outcome (list byte) := Throw STD_OUT_OF_RANGE.
Definition lexText (text : string) : list Token :=
  filter (fun t => tok_t t <> TK_SPACE) (lexAll (length (bytes_of_string text)) (bytes_of_string text)).1.
(** A token and the text behind it, to the terminator. *)
Definition word (t : Tok) (text behind : string) : Token :=
  mkToken (bytes_of_string text) t (terminated (bytes_of_string behind)).

Definition sampleCommand : list Token :=
  lexText "create vertex Person SET name = 'Ann', @ age = 7" ++ [mark TK_SEMI].
(** The second assignment is to the property ["@ age"]: the blank is kept. *)
Definition firstAssignment : Assignment :=
  mkAssignment [word TK_IDENTITY "name" " = 'Ann', @ age = 7"] (word TK_STRING "'Ann'" ", @ age = 7") "name" (bytes_of_string "Ann").
Definition secondAssignment : Assignment :=
  mkAssignment [word TK_AT "@" " age = 7"; word TK_IDENTITY "age" " = 7"] (word TK_UNSIGNED "7" "") "@ age" (le_bytes 8 7).
Definition samplePerson : Token := word TK_IDENTITY "Person" " SET name = 'Ann', @ age = 7".
Definition sampleStatement : Statement :=
  S_CREATE_VERTEX samplePerson (foldl assigned emptyRecord [firstAssignment; secondAssignment]).

Lemma commands_parsed_witness :
  commandText noFractions (mark TK_SPACE) (map erase sampleCommand) sampleStatement /\
  oks (input noFractions (mark TK_SPACE) sampleCommand) = [sampleStatement].
Proof.
  assert (commandText noFractions (mark TK_SPACE) (map erase sampleCommand) sampleStatement) as H.
  { replace (map erase sampleCommand) with
      ([mark TK_CREATE; word TK_VERTEX "vertex" " Person SET name = 'Ann', @ age = 7"] ++ [samplePerson; mark TK_SET] ++
      assignments firstAssignment [secondAssignment] ++ [mark TK_SEMI])
      by (vm_compute; reflexivity).
    apply text_set_vertex; [done|vm_compute; left|]. repeat constructor; vm_compute; left. }
  split; [exact H|]. exact (commands_parsed noFractions (mark TK_SPACE) sampleCommand sampleStatement H).
Defined.

(** ** A WHERE clause *)
Definition sampleClause : list Token := lexText "where a = 1 or b > 2 and not (c is NULL or a = 1)".
Definition one (name value : string) : BoolExpr :=
  Test [word TK_IDENTITY "a" name; mark TK_EQ; word TK_UNSIGNED "1" value] (sqlEq (le_bytes 8 1) (newCondition "a")).
Definition firstTest : BoolExpr :=
  one " = 1 or b > 2 and not (c is NULL or a = 1)" " or b > 2 and not (c is NULL or a = 1)".
Definition lastTest : BoolExpr := one " = 1)" ")".
Definition many : BoolExpr :=
  Test [word TK_IDENTITY "b" " > 2 and not (c is NULL or a = 1)"; mark TK_GT;
        word TK_UNSIGNED "2" " and not (c is NULL or a = 1)"] (withValue GREATER (le_bytes 8 2) (newCondition "b")).
Definition missing : BoolExpr :=
  Test [word TK_IDENTITY "c" " is NULL or a = 1)"; mark TK_IS; word TK_NULL "NULL" " or a = 1)"]
    (sqlEq [] (newCondition "c")).
Definition sampleExpr : BoolExpr := Both OR firstTest (Both AND many (Not (Both OR missing lastTest))).
Definition sampleTypes : gmap string PropertyType :=
  {["a"%string := UNSIGNED_BIGINT; "b"%string := UNSIGNED_BIGINT; "c"%string := TEXT]}.
(** The record a = 4, b = 3, c = "x". *)
Definition sampleRow : DbRecord :=
  set "a" (le_bytes 8 4) (set "b" (le_bytes 8 3) (set "c" (bytes_of_string "x") emptyRecord)).
Definition noPattern (a b : list byte) : Outcome bool := Ok false.
Definition sampleDecision (c : Condition) : bool :=
  match checkNode noPattern sampleTypes c sampleRow with Ok b => b | _ => false end.

Lemma where_clause_means_witness :
  exists m, denoted sampleExpr = inr m /\
    oks (where_opt noFractions 20 sampleClause) = [W_MULTI_COND m] /\
    Compare.execute noPattern m sampleRow sampleTypes = Ok (truth sampleDecision sampleExpr) /\
    truth sampleDecision sampleExpr = true.
Proof.
  destruct (denoted sampleExpr) as [c|m] eqn:E; [discriminate E|]. exists m.
  destruct (where_clause_means noFractions noPattern sampleExpr sampleDecision sampleRow sampleTypes 20 sampleClause) as [H1 H2].
  - vm_compute. reflexivity.
  - intros ts c Hin. unfold sampleExpr in Hin. cbn [tests firstTest lastTest one many missing app] in Hin. rewrite !elem_of_cons in Hin.
    destruct Hin as [[= -> ->]|[[= -> ->]|[[= -> ->]|[[= -> ->]|Hin%not_elem_of_nil]]]]; [vm_compute; left..|destruct Hin].
  - compute_done.
  - vm_compute. lia.
  - rewrite E in H1. split; [reflexivity|]. split; [exact H1|]. split; [|vm_compute; reflexivity].
    apply H2; [exact E|]. vm_compute in E. injection E as <-. intros c Hc. cbn [conditions] in Hc. rewrite !elem_of_cons in Hc.
    destruct Hc as [->|[->|[->|[->|Hc%not_elem_of_nil]]]]; [vm_compute; reflexivity..|destruct Hc].
Defined.
