(* ===== verification/SessionWitnesses.v ===== *)
(** * A session on the opened database

    A transaction on the database of [RecoverySamples], with records in the
    tables of its classes: a vertex and an edge are created, an end of the
    stored edge is moved, and a vertex with its edges is destroyed.  The
    theorem on sessions is applied to it. *)

From stdpp Require Import base gmap sets list strings sorting.
From Stdlib Require Import ZArith Lia.
From S2P Require Import Prelude.
From S2P Require Import Types.
From S2P Require Import Store.
From S2P Require Import VersionControl.
From S2P Require Import TxnObject.
From S2P Require Import TxnData.
From S2P Require Import RecordModel.
From S2P Require Import Graph.
From S2P Require Import GraphSpec.
From S2P Require Import GraphSteps.
From S2P Require Import Schema.
From S2P Require Import BaseTxn.
From S2P Require Import Lifecycle.
From S2P Require Import Cycle.
From S2P Require Import Generic.
From S2P Require Import Commands.
From S2P Require Import CommandSpec.
From S2P Require Import EdgeSpec.
From S2P Require Import Recovery.
From S2P Require Import SchemaRecovery.
From S2P Require Import RecoverySpec.
From S2P Require Import Session.
From S2P Require Import Samples.
From S2P Require Import CommandSamples.
From S2P Require Import RecoverySamples.
From S2P Require Import CommandWitnesses.

(** ** The database with records *)
Definition counted : MapStore :=
  <[to_string 5 := counter 1]> (<[to_string 6 := counter 1]> (
    <[to_string 10 := entries (db_store acquainted) (to_string 10)]> opened.2)).
Definition recorded : MapStore :=
  db_store (run (let? _ := vertexCreate 0 "person" (named "ann") in vertexCreate 0 "student" (named "sue"))
    (setStore counted openedDb)).1.

Definition step0 : Db MapStore := mkDb (dbSchema openedTxn.2) (dbRelation openedTxn.2) openedTxn.1 recorded.
Definition step1 : Db MapStore := (run (vertexCreate 0 "person" (named "bob")) step0).1.
Definition step2 : Db MapStore := (run (edgeCreate 0 "knows" (rdescOf (6, 1)%Z) (rdescOf (5, 2)%Z) emptyRecord) step1).1.
Definition step3 : Db MapStore := (run (updateDst (rdescOf (10, 1)%Z) (rdescOf (5, 2)%Z)) step2).1.
Definition step4 : Db MapStore := (run (vertexDestroy 0 (rdescOf (6, 1)%Z)) step3).1.

Definition edges2 : gmap RecordId (RecordId * RecordId) := <[(10, 2)%Z := ((6, 1)%Z, (5, 2)%Z)]> sampleRelations.
Definition edges3 : gmap RecordId (RecordId * RecordId) := <[(10, 1)%Z := ((5, 1)%Z, (5, 2)%Z)]> edges2.
Definition edges4 : gmap RecordId (RecordId * RecordId) := without (6, 1)%Z edges3.

Lemma session_evaluates :
  (run (vertexCreate 0 "person" (named "bob")) step0).2 = Ok (rdescOf (5, 2)%Z, stampNew 2 (named "bob")) /\
  (run (edgeCreate 0 "knows" (rdescOf (6, 1)%Z) (rdescOf (5, 2)%Z) emptyRecord) step1).2 =
    Ok (rdescOf (10, 2)%Z, stampNew 2 emptyRecord) /\
  (run (updateDst (rdescOf (10, 1)%Z) (rdescOf (5, 2)%Z)) step2).2 = Ok tt /\
  (run (vertexDestroy 0 (rdescOf (6, 1)%Z)) step3).2 = Ok tt /\
  map_to_list edges4 = [((10, 1)%Z, ((5, 1)%Z, (5, 2)%Z))].
Proof. vm_compute. done. Qed.

(** ** It is a session *)
(** The commands of the session, whose outcomes [session_evaluates] computed. *)
Lemma run_pair {A} (m : Cmd MapStore A) s o : (run m s).2 = o -> m s = ((run m s).1, o).
Proof. unfold run. intros <-. by destruct (m s). Qed.

Lemma first_command : vertexCreate 0 "person" (named "bob") step0 = (step1, Ok (rdescOf (5, 2)%Z, stampNew 2 (named "bob"))).
Proof. exact (run_pair _ _ _ (proj1 session_evaluates)). Qed.
Lemma second_command : edgeCreate 0 "knows" (rdescOf (6, 1)%Z) (rdescOf (5, 2)%Z) emptyRecord step1 =
  (step2, Ok (rdescOf (10, 2)%Z, stampNew 2 emptyRecord)).
Proof. exact (run_pair _ _ _ (proj1 (proj2 session_evaluates))). Qed.
Lemma third_command : updateDst (rdescOf (10, 1)%Z) (rdescOf (5, 2)%Z) step2 = (step3, Ok tt).
Proof. exact (run_pair _ _ _ (proj1 (proj2 (proj2 session_evaluates)))). Qed.
Lemma last_command : vertexDestroy 0 (rdescOf (6, 1)%Z) step3 = (step4, Ok tt).
Proof. exact (run_pair _ _ _ (proj1 (proj2 (proj2 (proj2 session_evaluates))))). Qed.

#[local] Opaque opened openedTxn openedDb storedSample acquainted recorded step0 step1 step2 step3 step4.

Lemma open_end_by (C : gmap ClassId CatalogClass) (s : Db MapStore) r :
  rid_ok r -> usableb (db_relation s) (db_txn s) r = true -> is_Some (C !! r.1) -> open_end C s r.
Proof. intros ? ?%usableb_usable ?. done. Qed.

Lemma step1_edge_id : edge_id sampleC step1 "knows" (10, 2)%Z.
Proof.
  split.
  - destruct (getClassDescriptorByName (db_schema step1) (db_txn step1) "knows" EDGE) as [[l c]|e|] eqn:E;
      [|exfalso; revert E; by vm_compute..].
    exists l, c. split; [done|]. split; [by eapply namedClass_heap|]. simpl.
    assert ((fun o => match o with Ok p => cd_id p.2 | _ => 0%Z end)
      (getClassDescriptorByName (db_schema step1) (db_txn step1) "knows" EDGE) = 10%Z) as H by (vm_compute; reflexivity).
    by rewrite E in H.
  - apply class_tableb_table. vm_compute. reflexivity.
  - vm_compute. reflexivity.
  - by eexists.
Qed.

Lemma sample_session : session 0 sampleC step0 sampleRelations step4 edges4.
Proof.
  apply (session_step _ _ _ _ step3 edges3); [apply (session_step _ _ _ _ step2 edges2);
    [apply (session_step _ _ _ _ step1 sampleRelations);
      [apply (session_step _ _ _ _ step0 sampleRelations); [exact (session_start _ _ _ _)|]|]|]|].
  - exact (rs_vertexCreate _ _ _ _ _ _ _ _ first_command ltac:(done)).
  - apply (rs_edgeCreate _ _ _ _ _ "knows" (rdescOf (6, 1)%Z) (rdescOf (5, 2)%Z) emptyRecord (10, 2)%Z
      (rdescOf (10, 2)%Z, stampNew 2 emptyRecord)); [exact step1_edge_id| | |by left|exact second_command];
      (apply open_end_by; [done|vm_compute; reflexivity|by eexists]).
  - apply (rs_updateDst _ _ _ _ _ (rdescOf (10, 1)%Z) (rdescOf (5, 2)%Z) (5, 1)%Z (6, 1)%Z);
      [done| |vm_compute; reflexivity|exact third_command].
    apply open_end_by; [done|vm_compute; reflexivity|by eexists].
  - exact (rs_vertexDestroy _ _ _ _ _ (rdescOf (6, 1)%Z) last_command).
Qed.

(** ** Its start *)
Lemma recorded_system n : catalog_table n \/ n = TB_RELATIONS -> entries recorded n = entries storedSample n.
Proof. intros [[->|[->| ->]]| ->]; vm_compute; reflexivity. Qed.

Lemma recorded_catalog : stored_catalog sampleC sampleP recorded.
Proof. apply (stored_catalog_ext storedSample), storedSample_catalog. intros n Hn. apply recorded_system. by left. Qed.
Lemma recorded_edges : stored_edges recorded sampleRelations.
Proof. apply (stored_edges_ext storedSample), storedSample_edges. apply recorded_system. by right. Qed.

Lemma opened_begins : beginTxn opened.1 true false = Ok (openedTxn.1, openedTxn.2) /\
  maxVersionId (dbTxnStat opened.1) = 1%Z /\ deletedClassId (dbSchema opened.1) = [].
Proof. vm_compute. done. Qed.

Lemma opened_ids : schema_ids (dbSchema opened.1).
Proof.
  intros l c. apply (map_all (sheap (dbSchema opened.1)) (fun _ c => (0 <= cd_id c <= UINT16_MAX)%Z)). by vm_compute.
Qed.

Lemma session_durable_witness :
  session 0 sampleC step0 sampleRelations step4 edges4 /\
  (exists c' t', commit (Ok tt) (setRelation (fun _ => db_relation step4) openedTxn.2) (db_txn step4) = Ok (true, c', t') /\
     maxVersionId (dbTxnStat c') = (maxVersionId (dbTxnStat opened.1) + 1)%Z /\ quiescent c' edges4 /\
     dbSchema c' = dbSchema opened.1) /\
  (exists c2 d2, initDatabase now (Ok tt) (db_store step4) newContext = Ok (c2, d2) /\ quiescent c2 edges4 /\
     (forall t, fresh_writer t -> ucSchema t = ∅ ->
        finds_catalog sampleC sampleP (entries recorded TB_INDEXES) (dbSchema c2) t) /\
     stored_catalog sampleC sampleP d2 /\ stored_edges d2 edges4).
Proof.
  destruct opened_begins as (Hb & Hv & Hdel). split; [exact sample_session|].
  destruct (session_durable 0 now opened.1 sampleRelations sampleC sampleP openedTxn.1 openedTxn.2 recorded step4 edges4
    opened_quiescent) as [H1 H2]; [by rewrite Hv|exact opened_ids|exact Hdel|exact recorded_catalog|exact sample_catalog_ok
    |exact recorded_edges|exact sample_edges_ok|exact edge_classes_sample|exact Hb
    |exact sample_session|split].
  - exact H1.
  - apply H2, loopless_reopenable. apply (map_all edges4 (fun _ sd => sd.1 <> sd.2)). by vm_compute.
Defined.
